(** * RFP management backend: inbound-email pipeline, fallback parser,
      proposal scoring and proposal deletion.

    The development embeds the TypeScript sources
      - [src/controllers/inboundEmailController.ts]
      - [src/utils/fallbackParser.ts]
      - [src/services/aiService.ts] (both revisions)
      - the [deleteProposal] controller
      - the [InboundEmail] migration
    as Rocq functions and proves the properties of the specification. *)

From Stdlib Require Import String Ascii.
From Stdlib Require Import List NArith ZArith QArith Bool Lia Arith Lqa.
Import ListNotations.
Open Scope nat_scope.

Set Implicit Arguments.
Set Warnings "-register-all".

(* ================================================================== *)
(** * JavaScript strings *)
(* ================================================================== *)

(** A JavaScript string is a sequence of UTF-16 code units. *)
Definition char := N.
Definition jsstring := list char.

(** ASCII literal of the source text. *)
Definition lit (s : string) : jsstring :=
  map N_of_ascii (list_ascii_of_string s).

Definition str_eqb (a b : jsstring) : bool :=
  if list_eq_dec N.eq_dec a b then true else false.

(** [s.substring(0, n)] *)
Definition substring0 (n : nat) (s : jsstring) : jsstring := firstn n s.

(** [s.includes(c)] for a one-character needle. *)
Definition includes_char (c : char) (s : jsstring) : bool :=
  existsb (N.eqb c) s.

(** JavaScript truthiness of a string: the empty string is falsy. *)
Definition nonempty (s : jsstring) : bool :=
  match s with [] => false | _ => true end.

(** White space and line terminators: the class [\s] and what [trim] strips. *)
Definition isSpace (c : char) : bool :=
  ((9 <=? c) && (c <=? 13) || (c =? 32) || (c =? 160) || (c =? 5760)
   || (8192 <=? c) && (c <=? 8202) || (c =? 8232) || (c =? 8233)
   || (c =? 8239) || (c =? 8287) || (c =? 12288) || (c =? 65279))%N.

Fixpoint trimStart (s : jsstring) : jsstring :=
  match s with
  | c :: s' => if isSpace c then trimStart s' else s
  | [] => []
  end.

Definition trimEnd (s : jsstring) : jsstring := rev (trimStart (rev s)).

(** [s.trim()] *)
Definition trim (s : jsstring) : jsstring := trimEnd (trimStart s).

(* ================================================================== *)
(** * Regular expressions

    A backtracking matcher with the priorities of the ECMAScript
    semantics: alternatives left to right, greedy quantifiers try one more
    iteration first, lazy ones try to stop first, and an iteration that
    consumes nothing is rejected.  Every expression of the program has at
    most one capture group, never under a quantifier. *)
(* ================================================================== *)

Inductive regex : Type :=
| Eps
| Chr (p : char -> bool)
| Seq (r1 r2 : regex)
| Alt (r1 r2 : regex)
| Star (greedy : bool) (r : regex)
| Cap (r : regex).

Definition Plus (r : regex) : regex := Seq r (Star true r).
Definition PlusLazy (r : regex) : regex := Seq r (Star false r).
Definition Opt (r : regex) : regex := Alt r Eps.

Fixpoint Rep (n : nat) (r : regex) : regex :=
  match n with
  | O => Eps
  | S n' => Seq r (Rep n' r)
  end.

Definition seqs (l : list regex) : regex := fold_right Seq Eps l.

Section Matcher.
Variable A : Type.

Definition Cont : Type := jsstring -> option jsstring -> option A.

(** The iterations of a quantified expression, [step] matching one more
    iteration; [fuel] bounds their number by the length of the input, as
    each one has to consume a character. *)
Fixpoint starLoop (g : bool) (step : jsstring -> option jsstring -> Cont -> option A)
         (k : Cont) (fuel : nat) (s : jsstring) (c : option jsstring)
  : option A :=
  let more (_ : unit) :=
    match fuel with
    | O => None
    | S fuel' =>
        step s c
          (fun s1 c1 =>
             if List.length s1 <? List.length s
             then starLoop g step k fuel' s1 c1
             else None)
    end in
  if g then
    match more tt with
    | Some a => Some a
    | None => k s c
    end
  else
    match k s c with
    | Some a => Some a
    | None => more tt
    end.

(** [mtch r s c k]: match [r] at the front of [s] with the capture [c] so
    far, then continue with [k] on what is left; [None] is failure and
    makes the caller backtrack. *)
Fixpoint mtch (r : regex) (s : jsstring) (c : option jsstring) (k : Cont)
  : option A :=
  match r with
  | Eps => k s c
  | Chr p =>
      match s with
      | x :: s' => if p x then k s' c else None
      | [] => None
      end
  | Seq r1 r2 => mtch r1 s c (fun s1 c1 => mtch r2 s1 c1 k)
  | Alt r1 r2 =>
      match mtch r1 s c k with
      | Some a => Some a
      | None => mtch r2 s c k
      end
  | Star g r1 => starLoop g (mtch r1) k (List.length s) s c
  | Cap r1 =>
      mtch r1 s c
        (fun s1 _ =>
           k s1 (Some (firstn (List.length s - List.length s1) s)))
  end.
End Matcher.

(** The result of [String.prototype.match] without the [g] flag. *)
Record MatchResult : Type := mkMatch {
  m_index : nat;
  m_whole : jsstring;              (* match[0] *)
  m_group1 : option jsstring       (* match[1] *)
}.

(** A match that starts exactly at the front of [s]. *)
Definition matchHere (r : regex) (s : jsstring)
  : option (jsstring * option jsstring) :=
  mtch r s None (fun rest c => Some (firstn (length s - length rest) s, c)).

(** Leftmost match, as [RegExp.prototype.exec] scans the start index. *)
Fixpoint execFrom (r : regex) (i : nat) (s : jsstring) : option MatchResult :=
  match matchHere r s with
  | Some (w, c) => Some (mkMatch i w c)
  | None =>
      match s with
      | [] => None
      | _ :: s' => execFrom r (S i) s'
      end
  end.

(** [s.match(r)] *)
Definition exec (r : regex) (s : jsstring) : option MatchResult :=
  execFrom r 0 s.

(** [match[1]], the empty string standing for a group that did not take
    part (see [exec_group1_defined]: it always does in this program). *)
Definition group1 (m : MatchResult) : jsstring :=
  match m_group1 m with Some g => g | None => [] end.

(** [s.replace(r, rep)] with the [g] flag: [skip] counts the characters of
    the current match still to drop. *)
Fixpoint replaceGo (r : regex) (rep : jsstring) (skip : nat) (s : jsstring)
  : jsstring :=
  match s with
  | [] =>
      match skip with
      | S _ => []
      | O => match matchHere r [] with Some _ => rep | None => [] end
      end
  | x :: s' =>
      match skip with
      | S k => replaceGo r rep k s'
      | O =>
          match matchHere r s with
          | Some (w, _) =>
              match length w with
              | O => rep ++ x :: replaceGo r rep 0 s'
              | S n => rep ++ replaceGo r rep n s'
              end
          | None => x :: replaceGo r rep 0 s'
          end
      end
  end.

Definition replaceAll (r : regex) (rep : jsstring) (s : jsstring) : jsstring :=
  replaceGo r rep 0 s.

(** ** Character classes *)

Definition isDigit (c : char) : bool := ((48 <=? c) && (c <=? 57))%N.
Definition isLowerAscii (c : char) : bool := ((97 <=? c) && (c <=? 122))%N.
Definition isUpperAscii (c : char) : bool := ((65 <=? c) && (c <=? 90))%N.

(** One character of a pattern under the [i] flag: an ASCII letter matches
    its two cases, any other character only itself. *)
Definition chrCI (c : char) : char -> bool :=
  fun x =>
    (x =? c)%N
    || (isLowerAscii c && (x =? c - 32)%N)
    || (isUpperAscii c && (x =? c + 32)%N).

Definition chrIs (c : char) : char -> bool := fun x => (x =? c)%N.

Definition wordCI (w : string) : regex :=
  seqs (map (fun c => Chr (chrCI c)) (lit w)).

Definition word (w : string) : regex :=
  seqs (map (fun c => Chr (chrIs c)) (lit w)).

(** [[a-f0-9]] under the [i] flag *)
Definition isHexCI (c : char) : bool :=
  (isDigit c || (97 <=? c) && (c <=? 102) || (65 <=? c) && (c <=? 70))%N.

(** [[:\s-]] *)
Definition isColonSpaceDash (c : char) : bool :=
  ((c =? 58) || isSpace c || (c =? 45))%N.

(** [[\d,]] *)
Definition isDigitOrComma (c : char) : bool := (isDigit c || (c =? 44))%N.

(** [[^\n.]] *)
Definition notNewlineNorDot (c : char) : bool :=
  negb ((c =? 10) || (c =? 46))%N.

(** [.] without the [s] flag: anything but a line terminator *)
Definition isDot (c : char) : bool :=
  negb ((c =? 10) || (c =? 13) || (c =? 8232) || (c =? 8233))%N.

(** [[^>]] *)
Definition notGt (c : char) : bool := negb (c =? 62)%N.

Definition anyChar (c : char) : bool := true.

Definition ws : regex := Chr isSpace.
Definition digit : regex := Chr isDigit.


(* ================================================================== *)
(** * JavaScript numbers and parsed JSON *)
(* ================================================================== *)

(** A number is [NaN], an infinity or a finite value.  Comparison, [min]
    and [max] of doubles are exact, so the finite values are read in [Q]. *)
Inductive JSNumber : Type :=
| NaN
| NegInf
| Fin (q : Q)
| PosInf.

Definition num_leb (a b : JSNumber) : bool :=
  match a, b with
  | NaN, _ | _, NaN => false
  | NegInf, _ => true
  | _, PosInf => true
  | Fin x, Fin y => Qle_bool x y
  | _, _ => false
  end.

(** [a < b]; false as soon as one side is [NaN]. *)
Definition num_ltb (a b : JSNumber) : bool :=
  match a, b with
  | NaN, _ | _, NaN => false
  | _, _ => negb (num_leb b a)
  end.

(** [Math.max(a, b)] and [Math.min(a, b)]: [NaN] as soon as one is. *)
Definition Math_max (a b : JSNumber) : JSNumber :=
  match a, b with
  | NaN, _ | _, NaN => NaN
  | _, _ => if num_leb a b then b else a
  end.

Definition Math_min (a b : JSNumber) : JSNumber :=
  match a, b with
  | NaN, _ | _, NaN => NaN
  | _, _ => if num_leb a b then a else b
  end.

Definition num (z : Z) : JSNumber := Fin (inject_Z z).

(** The values [JSON.parse] builds; [JUndefined] is what reading an absent
    property gives. *)
Inductive json : Type :=
| JUndefined
| JNull
| JBool (b : bool)
| JNum (n : JSNumber)
| JStr (s : jsstring)
| JArr (l : list json)
| JObj (fields : list (jsstring * json)).

(** What a call gives: a value, or a thrown error with its [message]. *)
Definition Error := jsstring.

Inductive Result (A : Type) : Type :=
| Ok (a : A)
| Throw (e : Error).
Arguments Ok {A} a.
Arguments Throw {A} e.

(** The builtins of the JavaScript runtime that the program calls and whose
    tables (Unicode case mapping, decimal to double conversion, the JSON
    grammar) are not part of it. *)
Class Runtime : Type := {
  parseFloat : jsstring -> JSNumber;
  parseInt : jsstring -> JSNumber;
  toLowerCase : jsstring -> jsstring;
  (** [JSON.parse], which throws a [SyntaxError] on malformed text *)
  JSON_parse : jsstring -> Result json;
  (** [Number(s)] for a string *)
  StringToNumber : jsstring -> JSNumber;
  (** [String(v)], as a template literal and [ToPrimitive] compute it *)
  ToString : json -> jsstring;
  (** the IEEE operations [a / b] and [a - b] *)
  num_div : JSNumber -> JSNumber -> JSNumber;
  num_sub : JSNumber -> JSNumber -> JSNumber
}.

(** The conversion of a value to a primitive, as a template literal, an
    arithmetic operator or a comparison does it, can throw: for an object
    it calls [toString] and [valueOf]; a value of [JSON.parse] under the key
    [toString] is not a function, and [valueOf] is then not one either or
    gives the object back, so that a [TypeError] is thrown.  An array is
    converted by [join], element by element. *)
Fixpoint convertible (v : json) : bool :=
  match v with
  | JObj fields =>
      negb (existsb (fun kv => str_eqb (fst kv) (lit "toString")) fields)
  | JArr l => forallb convertible l
  | _ => true
  end.

Definition notConvertible : Error :=
  lit "Cannot convert object to primitive value".

Section JSValues.
Context {RT : Runtime}.

(** Truthiness, as [||], [!] and [if] test it. *)
Definition truthy (v : json) : bool :=
  match v with
  | JUndefined | JNull => false
  | JBool b => b
  | JNum NaN => false
  | JNum (Fin q) => negb (Qeq_bool q 0)
  | JNum _ => true
  | JStr s => nonempty s
  | JArr _ | JObj _ => true
  end.

(** [ToNumber] *)
Definition ToNumber (v : json) : JSNumber :=
  match v with
  | JUndefined => NaN
  | JNull => num 0
  | JBool true => num 1
  | JBool false => num 0
  | JNum n => n
  | JStr s => StringToNumber s
  | JArr l => StringToNumber (ToString v)
  | JObj _ => NaN
  end.

(** [`${v}`] *)
Definition templateR (v : json) : Result jsstring :=
  if convertible v then Ok (ToString v) else Throw notConvertible.

(** [ToNumber], with the [TypeError] of the conversion. *)
Definition ToNumberR (v : json) : Result JSNumber :=
  if convertible v then Ok (ToNumber v) else Throw notConvertible.

(** [a || b] *)
Definition js_or (a b : json) : json := if truthy a then a else b.

Fixpoint assoc (key : jsstring) (l : list (jsstring * json)) : option json :=
  match l with
  | [] => None
  | (k, v) :: l' =>
      match assoc key l' with
      | Some v' => Some v'           (* a later duplicate key wins *)
      | None => if str_eqb k key then Some v else None
      end
  end.

(** [v.key] for a data property: [None] is the [TypeError] of reading a
    property of [null] or [undefined]. *)
Definition getProp (v : json) (key : jsstring) : option json :=
  match v with
  | JUndefined | JNull => None
  | JObj fs => Some (match assoc key fs with Some x => x | None => JUndefined end)
  | _ => Some JUndefined
  end.

(** [v.key], throwing the [TypeError] of a [null] or [undefined] base. *)
Definition getPropR (v : json) (key : string) : Result json :=
  match getProp v (lit key) with
  | Some x => Ok x
  | None =>
      Throw (lit "Cannot read properties of "
             ++ match v with JNull => lit "null" | _ => lit "undefined" end
             ++ lit " (reading '" ++ lit key ++ lit "')")
  end.

(** [v.key] on a base that is an object, and [v?.key]. *)
Definition prop (v : json) (key : string) : json :=
  match getProp v (lit key) with
  | Some x => x
  | None => JUndefined
  end.

End JSValues.

(* ================================================================== *)
(** * [extractRFPId] (inboundEmailController.ts) *)
(* ================================================================== *)

(** [[a-f0-9]{8}-[a-f0-9]{4}-[a-f0-9]{4}-[a-f0-9]{4}-[a-f0-9]{12}] *)
Definition hex : regex := Chr isHexCI.
Definition dash : regex := Chr (chrIs 45%N).

Definition uuidRe : regex :=
  seqs [Rep 8 hex; dash; Rep 4 hex; dash; Rep 4 hex; dash; Rep 4 hex; dash;
        Rep 12 hex].

(** [/RFP\s*ID\s*[:\s-]+(uuid)/i] *)
Definition pattern1 : regex :=
  seqs [wordCI "RFP"; Star true ws; wordCI "ID"; Star true ws;
        Plus (Chr isColonSpaceDash); Cap uuidRe].

(** [/RFP[:\s-]+(uuid)/i] *)
Definition pattern2 : regex :=
  seqs [wordCI "RFP"; Plus (Chr isColonSpaceDash); Cap uuidRe].

(** [/(uuid)/i] *)
Definition pattern3 : regex := Cap uuidRe.

(** The template literal [`${subject} ${body}`]. *)
Definition rfpText (subject body : jsstring) : jsstring :=
  subject ++ lit " " ++ body.

Definition extractRFPId (subject body : jsstring) : option jsstring :=
  let text := rfpText subject body in
  match exec pattern1 text with
  | Some match1 => m_group1 match1
  | None =>
      match exec pattern2 text with
      | Some match2 => m_group1 match2
      | None =>
          match exec pattern3 text with
          | Some match3 => m_group1 match3
          | None => None
          end
      end
  end.

(** [extractEmailAddress]: the address between angle brackets, else the
    whole field; lower-cased and trimmed. *)
Definition angleRe : regex :=
  seqs [word "<"; Cap (PlusLazy (Chr isDot)); word ">"].

Definition extractEmailAddress {RT : Runtime} (fromField : jsstring) : jsstring :=
  match exec angleRe fromField with
  | Some m => trim (toLowerCase (group1 m))
  | None => trim (toLowerCase fromField)
  end.


(* ================================================================== *)
(** * [fallbackParseProposal] (utils/fallbackParser.ts) *)
(* ================================================================== *)

Record ExtractedData : Type := mkExtracted {
  items : list json;
  totalPrice : option JSNumber;
  deliveryDays : option JSNumber;
  paymentTerms : option jsstring;
  warrantyYears : option JSNumber;
  notes : jsstring
}.

Definition set_totalPrice (v : JSNumber) (d : ExtractedData) : ExtractedData :=
  mkExtracted (items d) (Some v) (deliveryDays d) (paymentTerms d)
              (warrantyYears d) (notes d).
Definition set_deliveryDays (v : JSNumber) (d : ExtractedData) : ExtractedData :=
  mkExtracted (items d) (totalPrice d) (Some v) (paymentTerms d)
              (warrantyYears d) (notes d).
Definition set_paymentTerms (v : jsstring) (d : ExtractedData) : ExtractedData :=
  mkExtracted (items d) (totalPrice d) (deliveryDays d) (Some v)
              (warrantyYears d) (notes d).
Definition set_warrantyYears (v : JSNumber) (d : ExtractedData) : ExtractedData :=
  mkExtracted (items d) (totalPrice d) (deliveryDays d) (paymentTerms d)
              (Some v) (notes d).

(** [for (const x of xs) { ... break; }] over a mutable state. *)
Inductive LoopCtl (S : Type) : Type :=
| Continue (s : S)
| Break (s : S).
Arguments Continue {S} s.
Arguments Break {S} s.

Fixpoint forOf {X S : Type} (xs : list X) (body : X -> S -> LoopCtl S) (st : S)
  : S :=
  match xs with
  | [] => st
  | x :: xs' =>
      match body x st with
      | Break st' => st'
      | Continue st' => forOf xs' body st'
      end
  end.

(** [[:\s]] *)
Definition isColonSpace (c : char) : bool := ((c =? 58)%N || isSpace c).

(** [(?:rs\.?|inr|₹)]; the rupee sign is the code unit U+20B9. *)
Definition currencyRe : regex :=
  Alt (Seq (wordCI "rs") (Opt (Chr (chrIs 46%N))))
      (Alt (wordCI "inr") (Chr (chrCI 8377%N))).

(** [([\d,]+(?:\.\d{2})?)] *)
Definition amountRe : regex :=
  Cap (Seq (Plus (Chr isDigitOrComma))
           (Opt (Seq (Chr (chrIs 46%N)) (Rep 2 digit)))).

(** [days?] and [years?] *)
Definition daysRe : regex := Seq (wordCI "day") (Opt (Chr (chrCI 115%N))).
Definition yearsRe : regex := Seq (wordCI "year") (Opt (Chr (chrCI 115%N))).

Definition prefixedAmount (w : string) : regex :=
  seqs [wordCI w; Plus (Chr isColonSpace); Opt currencyRe; Star true ws;
        amountRe].

Definition pricePatterns : list regex :=
  [ prefixedAmount "total";
    seqs [currencyRe; Star true ws; amountRe; Star true ws; wordCI "total"];
    prefixedAmount "price";
    prefixedAmount "cost" ].

Definition deliveryPatterns : list regex :=
  [ seqs [wordCI "delivery"; Plus (Chr isColonSpace); Cap (Plus digit);
          Star true ws; daysRe];
    seqs [Cap (Plus digit); Star true ws; daysRe; Plus ws; wordCI "delivery"];
    seqs [wordCI "timeline"; Plus (Chr isColonSpace); Cap (Plus digit);
          Star true ws; daysRe] ].

Definition warrantyPatterns : list regex :=
  [ seqs [wordCI "warranty"; Plus (Chr isColonSpace); Cap (Plus digit);
          Star true ws; yearsRe];
    seqs [Cap (Plus digit); Star true ws; yearsRe; Plus ws; wordCI "warranty"] ].

Definition paymentPatterns : list regex :=
  [ seqs [wordCI "payment"; Plus (Chr isColonSpace);
          Cap (Plus (Chr notNewlineNorDot))];
    seqs [wordCI "terms"; Plus (Chr isColonSpace);
          Cap (Plus (Chr notNewlineNorDot))] ].

(** [.replace(/,/g, '')] *)
Definition stripCommas (s : jsstring) : jsstring :=
  replaceAll (Chr (chrIs 44%N)) [] s.

Section FallbackParser.
Context {RT : Runtime}.

Definition fallbackParseProposal (emailBody : jsstring) : ExtractedData :=
  let extractedData :=
    {| items := [];
       totalPrice := None;
       deliveryDays := None;
       paymentTerms := None;
       warrantyYears := None;
       notes := substring0 500 emailBody |} in
  let extractedData :=
    forOf pricePatterns
      (fun pattern d =>
         match exec pattern emailBody with
         | Some m =>
             Break (set_totalPrice (parseFloat (stripCommas (group1 m))) d)
         | None => Continue d
         end) extractedData in
  let extractedData :=
    forOf deliveryPatterns
      (fun pattern d =>
         match exec pattern emailBody with
         | Some m => Break (set_deliveryDays (parseInt (group1 m)) d)
         | None => Continue d
         end) extractedData in
  let extractedData :=
    forOf warrantyPatterns
      (fun pattern d =>
         match exec pattern emailBody with
         | Some m => Break (set_warrantyYears (parseInt (group1 m)) d)
         | None => Continue d
         end) extractedData in
  let extractedData :=
    forOf paymentPatterns
      (fun pattern d =>
         match exec pattern emailBody with
         | Some m =>
             Break (set_paymentTerms (substring0 100 (trim (group1 m))) d)
         | None => Continue d
         end) extractedData in
  extractedData.
End FallbackParser.

(** A reference runtime for running the definitions on examples: decimal
    digits are read exactly, letters are lower-cased in ASCII. *)
Module RefRuntime.
Fixpoint digitsValue (acc : Z) (s : jsstring) : Z * jsstring :=
  match s with
  | c :: s' =>
      if isDigit c then digitsValue (10 * acc + Z.of_N (c - 48)) s'
      else (acc, s)
  | [] => (acc, [])
  end.

Fixpoint digitsCount (s : jsstring) : nat :=
  match s with
  | c :: s' => if isDigit c then S (digitsCount s') else 0
  | [] => 0
  end.

Definition refParseInt (s : jsstring) : JSNumber :=
  let s := trimStart s in
  match digitsCount s with
  | O => NaN
  | _ => num (fst (digitsValue 0 s))
  end.

Definition refParseFloat (s : jsstring) : JSNumber :=
  let s := trimStart s in
  let (ip, rest) := digitsValue 0 s in
  let nint := digitsCount s in
  match rest with
  | 46%N :: frac =>
      let nfrac := digitsCount frac in
      match nint + nfrac with
      | O => NaN
      | _ =>
          Fin (inject_Z ip
               + inject_Z (fst (digitsValue 0 frac))
                 / inject_Z (10 ^ Z.of_nat nfrac))%Q
      end
  | _ => match nint with O => NaN | _ => num ip end
  end.

Definition refLower (s : jsstring) : jsstring :=
  map (fun c => if isUpperAscii c then (c + 32)%N else c) s.

Definition runtime : Runtime :=
  {| parseFloat := refParseFloat;
     parseInt := refParseInt;
     toLowerCase := refLower;
     JSON_parse := fun _ => Throw (lit "Unexpected token");
     StringToNumber := refParseFloat;
     ToString := fun _ => [];
     num_div := fun _ _ => NaN;
     num_sub := fun _ _ => NaN |}.
End RefRuntime.


(* ================================================================== *)
(** * The relational store *)
(* ================================================================== *)

Definition Time := N.

(** Table [InboundEmail] of the migration. *)
Record InboundEmail : Type := mkInboundEmail {
  ie_id : N;
  ie_emailId : jsstring;
  ie_from : jsstring;
  ie_subject : jsstring;
  ie_rawBody : jsstring;
  ie_rfpId : option jsstring;
  ie_vendorId : option jsstring;
  ie_processed : bool;
  ie_processingError : option jsstring;
  ie_proposalId : option N;
  ie_createdAt : Time;
  ie_processedAt : option Time
}.

(** The JSON column [extractedData] of a proposal. *)
Inductive ExtractedPayload : Type :=
| FromFallback (d : ExtractedData)
| FromAI (j : json).

Record Proposal : Type := mkProposal {
  p_id : N;
  p_rfpId : jsstring;
  p_vendorId : jsstring;
  p_rawEmailBody : jsstring;
  p_extractedData : ExtractedPayload;
  p_aiScore : option JSNumber;
  p_aiEvaluation : option jsstring;
  p_usedFallbackParsing : bool
}.

Record RFPVendor : Type := mkRFPVendor {
  rv_rfpId : jsstring;
  rv_vendorId : jsstring;
  rv_status : jsstring
}.

Record RFP : Type := mkRFP { rfp_id : jsstring; rfp_title : jsstring }.
Record Vendor : Type := mkVendor {
  v_id : jsstring; v_name : jsstring; v_email : jsstring
}.

Definition RESPONDED : jsstring := lit "RESPONDED".
Definition SENT : jsstring := lit "SENT".

Record DB : Type := mkDB {
  inboundEmails : list InboundEmail;
  proposals : list Proposal;
  rfpVendors : list RFPVendor;
  nextId : N                         (* the next generated primary key *)
}.

(** ** Prisma operations *)

(** [prismaClient.inboundEmail.create]: the primary key and the unique
    index [InboundEmail_emailId_key] reject a duplicate.  The tables of the
    RFPs and of the vendors, which the foreign keys of [rfpId] and
    [vendorId] refer to, are behind the services and not part of the
    store: a create that they reject is a failure of the environment
    ([dbFault]). *)
Record EmailCreateData : Type := mkEmailCreate {
  cd_emailId : option jsstring;
  cd_from : jsstring;
  cd_subject : jsstring;
  cd_rawBody : jsstring;
  cd_rfpId : jsstring;
  cd_vendorId : jsstring
}.

Definition hasEmailId (e : jsstring) (l : list InboundEmail) : bool :=
  existsb (fun r => str_eqb (ie_emailId r) e) l.

Definition hasEmailPk (i : N) (l : list InboundEmail) : bool :=
  existsb (fun r => (ie_id r =? i)%N) l.

Definition inboundEmail_create (now : Time) (d : EmailCreateData) (db : DB)
  : Result InboundEmail * DB :=
  match cd_emailId d with
  | None => (Throw (lit "Argument emailId is missing."), db)
  | Some e =>
      if hasEmailId e (inboundEmails db) then
        (Throw (lit "Unique constraint failed on the fields: (emailId)"), db)
      else if hasEmailPk (nextId db) (inboundEmails db) then
        (Throw (lit "Unique constraint failed on the fields: (id)"), db)
      else
        let row :=
          {| ie_id := nextId db;
             ie_emailId := e;
             ie_from := cd_from d;
             ie_subject := cd_subject d;
             ie_rawBody := cd_rawBody d;
             ie_rfpId := Some (cd_rfpId d);
             ie_vendorId := Some (cd_vendorId d);
             ie_processed := false;
             ie_processingError := None;
             ie_proposalId := None;
             ie_createdAt := now;
             ie_processedAt := None |} in
        (Ok row,
         mkDB (inboundEmails db ++ [row]) (proposals db) (rfpVendors db)
              (nextId db + 1)%N)
  end.

(** The [data] of [prismaClient.inboundEmail.update]: the fields it sets. *)
Record EmailPatch : Type := mkPatch {
  set_processed : option bool;
  set_processedAt : option Time;
  set_proposalId : option N;
  set_processingError : option jsstring
}.

Definition orKeep {A : Type} (new : option A) (old : A) : A :=
  match new with Some x => x | None => old end.

Definition orKeepOpt {A : Type} (new : option A) (old : option A) : option A :=
  match new with Some x => Some x | None => old end.

Definition applyPatch (p : EmailPatch) (r : InboundEmail) : InboundEmail :=
  {| ie_id := ie_id r;
     ie_emailId := ie_emailId r;
     ie_from := ie_from r;
     ie_subject := ie_subject r;
     ie_rawBody := ie_rawBody r;
     ie_rfpId := ie_rfpId r;
     ie_vendorId := ie_vendorId r;
     ie_processed := orKeep (set_processed p) (ie_processed r);
     ie_processingError :=
       orKeepOpt (set_processingError p) (ie_processingError r);
     ie_proposalId := orKeepOpt (set_proposalId p) (ie_proposalId r);
     ie_createdAt := ie_createdAt r;
     ie_processedAt := orKeepOpt (set_processedAt p) (ie_processedAt r) |}.

Definition optN_eqb (a b : option N) : bool :=
  match a, b with
  | Some x, Some y => (x =? y)%N
  | None, None => true
  | _, _ => false
  end.

(** Another row already holds the proposal: the unique index
    [InboundEmail_proposalId_key]. *)
Definition proposalTaken (i : N) (pid : N) (l : list InboundEmail) : bool :=
  existsb (fun r => negb (ie_id r =? i)%N
                    && optN_eqb (ie_proposalId r) (Some pid)) l.

(** The proposal an email is made to point to is not stored: the foreign
    key [InboundEmail_proposalId_fkey]. *)
Definition proposalMissing (p : EmailPatch) (l : list Proposal) : bool :=
  match set_proposalId p with
  | Some pid => negb (existsb (fun r => (p_id r =? pid)%N) l)
  | None => false
  end.

(** [prismaClient.inboundEmail.update({ where: { id }, data })] *)
Definition inboundEmail_update (i : N) (p : EmailPatch) (db : DB)
  : Result InboundEmail * DB :=
  match find (fun r => (ie_id r =? i)%N) (inboundEmails db) with
  | None => (Throw (lit "Record to update not found."), db)
  | Some r =>
      if match set_proposalId p with
         | Some pid => proposalTaken i pid (inboundEmails db)
         | None => false
         end
      then
        (Throw (lit "Unique constraint failed on the fields: (proposalId)"), db)
      else if proposalMissing p (proposals db) then
        (Throw (lit "Foreign key constraint failed on the field: InboundEmail_proposalId_fkey (index)"),
         db)
      else
        (Ok (applyPatch p r),
         mkDB (map (fun x => if (ie_id x =? i)%N then applyPatch p x else x)
                   (inboundEmails db))
              (proposals db) (rfpVendors db) (nextId db))
  end.

Record ProposalCreateData : Type := mkProposalCreate {
  pc_rfpId : jsstring;
  pc_vendorId : jsstring;
  pc_rawEmailBody : jsstring;
  pc_extractedData : ExtractedPayload;
  pc_aiScore : option JSNumber;
  pc_aiEvaluation : option jsstring;
  pc_usedFallbackParsing : bool
}.

Definition hasProposal (i : N) (l : list Proposal) : bool :=
  existsb (fun r => (p_id r =? i)%N) l.

(** [prismaClient.proposal.create] *)
Definition proposal_create (d : ProposalCreateData) (db : DB)
  : Result Proposal * DB :=
  if hasProposal (nextId db) (proposals db) then
    (Throw (lit "Unique constraint failed on the fields: (id)"), db)
  else
    let row :=
      {| p_id := nextId db;
         p_rfpId := pc_rfpId d;
         p_vendorId := pc_vendorId d;
         p_rawEmailBody := pc_rawEmailBody d;
         p_extractedData := pc_extractedData d;
         p_aiScore := pc_aiScore d;
         p_aiEvaluation := pc_aiEvaluation d;
         p_usedFallbackParsing := pc_usedFallbackParsing d |} in
    (Ok row,
     mkDB (inboundEmails db) (proposals db ++ [row]) (rfpVendors db)
          (nextId db + 1)%N).

(** [prismaClient.proposal.findUnique({ where: { id } })] *)
Definition proposal_findUnique (i : N) (db : DB) : Result (option Proposal) * DB :=
  (Ok (find (fun r => (p_id r =? i)%N) (proposals db)), db).

(** [ON DELETE SET NULL] of [InboundEmail_proposalId_fkey]. *)
Definition unlinkProposal (i : N) (r : InboundEmail) : InboundEmail :=
  if optN_eqb (ie_proposalId r) (Some i) then
    {| ie_id := ie_id r;
       ie_emailId := ie_emailId r;
       ie_from := ie_from r;
       ie_subject := ie_subject r;
       ie_rawBody := ie_rawBody r;
       ie_rfpId := ie_rfpId r;
       ie_vendorId := ie_vendorId r;
       ie_processed := ie_processed r;
       ie_processingError := ie_processingError r;
       ie_proposalId := None;
       ie_createdAt := ie_createdAt r;
       ie_processedAt := ie_processedAt r |}
  else r.

(** [prismaClient.proposal.delete({ where: { id } })] *)
Definition proposal_delete (i : N) (db : DB) : Result unit * DB :=
  if hasProposal i (proposals db) then
    (Ok tt,
     mkDB (map (unlinkProposal i) (inboundEmails db))
          (filter (fun r => negb (p_id r =? i)%N) (proposals db))
          (rfpVendors db) (nextId db))
  else (Throw (lit "Record to delete does not exist."), db).

Definition joins (rfpId vendorId : jsstring) (r : RFPVendor) : bool :=
  str_eqb (rv_rfpId r) rfpId && str_eqb (rv_vendorId r) vendorId.

(** [prismaClient.rFPVendor.updateMany({ where: { rfpId, vendorId },
    data: { status } })] *)
Definition rFPVendor_updateMany (rfpId vendorId status : jsstring) (db : DB)
  : Result unit * DB :=
  (Ok tt,
   mkDB (inboundEmails db) (proposals db)
        (map (fun r => if joins rfpId vendorId r
                       then mkRFPVendor (rv_rfpId r) (rv_vendorId r) status
                       else r) (rfpVendors db))
        (nextId db)).

(* ================================================================== *)
(** * Effects: state, exceptions and the order of the calls *)
(* ================================================================== *)

(** The places where the controllers call the store or a service. *)
Inductive Site : Type :=
| ResendGet               (* resend.emails.receiving.get *)
| GetRFPById              (* rfpService.getRFPById *)
| GetVendorByEmail        (* vendorService.getVendorByEmail *)
| EmailCreate             (* inboundEmail.create, step 10 *)
| ProcessVendorProposal   (* rfpService.processVendorProposal, step 11 *)
| EmailMarkProcessed      (* inboundEmail.update after the AI succeeded *)
| ProposalCreate          (* proposal.create with the fallback data *)
| VendorMarkResponded     (* rFPVendor.updateMany, RESPONDED *)
| EmailMarkFallback       (* inboundEmail.update after the fallback *)
| EmailRecordError        (* inboundEmail.update after both failed *)
| ProposalFind            (* proposal.findUnique in deleteProposal *)
| ProposalDelete          (* proposal.delete *)
| VendorMarkSent.         (* rFPVendor.updateMany, SENT *)

Definition site_eqb (a b : Site) : bool :=
  match a, b with
  | ResendGet, ResendGet | GetRFPById, GetRFPById
  | GetVendorByEmail, GetVendorByEmail | EmailCreate, EmailCreate
  | ProcessVendorProposal, ProcessVendorProposal
  | EmailMarkProcessed, EmailMarkProcessed | ProposalCreate, ProposalCreate
  | VendorMarkResponded, VendorMarkResponded
  | EmailMarkFallback, EmailMarkFallback | EmailRecordError, EmailRecordError
  | ProposalFind, ProposalFind | ProposalDelete, ProposalDelete
  | VendorMarkSent, VendorMarkSent => true
  | _, _ => false
  end.

(** One call, as the trace keeps it: the place, the store it was made on,
    and the error it threw, if any. *)
Record Call : Type := mkCall {
  site : Site;
  before : DB;
  threw : option Error
}.

Record World : Type := mkWorld {
  db : DB;
  log : list Call            (* the calls made so far, oldest first *)
}.

Definition M (A : Type) : Type := World -> Result A * World.

Definition ret {A : Type} (a : A) : M A := fun w => (Ok a, w).

Definition throw {A : Type} (e : Error) : M A := fun w => (Throw e, w).

Definition bind {A B : Type} (m : M A) (k : A -> M B) : M B :=
  fun w =>
    match m w with
    | (Ok a, w') => k a w'
    | (Throw e, w') => (Throw e, w')
    end.

(** [try { m } catch (e) { h e }] *)
Definition tryCatch {A : Type} (m : M A) (h : Error -> M A) : M A :=
  fun w =>
    match m w with
    | (Ok a, w') => (Ok a, w')
    | (Throw e, w') => h e w'
    end.

Declare Scope m_scope.
Delimit Scope m_scope with M.
Notation "x <- m ;; k" := (bind m (fun x => k))
  (at level 61, m at next level, right associativity) : m_scope.
Notation "m ;;; k" := (bind m (fun _ => k))
  (at level 61, right associativity) : m_scope.

(** A computation that touches neither the store nor the trace. *)
Definition liftR {A : Type} (r : Result A) : M A := fun w => (r, w).

(** Reading a property of [undefined] throws a [TypeError]. *)
Definition getOrThrow {A : Type} (o : option A) (msg : string) : M A :=
  match o with
  | Some a => ret a
  | None => throw (lit msg)
  end.

(** An HTTP response: [res.status(n).json(body)]. *)
Record Response (B : Type) : Type := mkResponse {
  status : N;
  body : B
}.
Arguments mkResponse {B} status body.

Definition respond {B : Type} (n : N) (b : B) : M (Response B) :=
  ret (mkResponse n b).

(* ================================================================== *)
(** * The collaborators outside the controller *)
(* ================================================================== *)

Record FullEmail : Type := mkFullEmail {
  fe_text : option jsstring;
  fe_html : option jsstring;
  fe_subject : option jsstring
}.

(** What [rfpService.processVendorProposal] resolves to. *)
Record ProposalResult : Type := mkProposalResult {
  pr_proposalId : N;
  pr_aiScore : json;
  pr_extractedData : json
}.

(** The services and the failures of the environment.  [rfpService],
    [vendorService] and the Resend client are given by what a call returns
    or throws; [dbFault] makes a Prisma call at a place fail (connection
    lost, timeout). *)
Record Env : Type := mkEnv {
  now : Time;
  dbFault : Site -> option Error;
  resend_get : option jsstring -> Result (option FullEmail);
  getRFPById : jsstring -> Result (option RFP);
  getVendorByEmail : jsstring -> Result (option Vendor);
  processVendorProposal :
    jsstring -> jsstring -> jsstring -> DB -> Result ProposalResult * DB
}.

Definition errorOf {A : Type} (r : Result A) : option Error :=
  match r with
  | Ok _ => None
  | Throw e => Some e
  end.

Section Calls.
Variable env : Env.

(** A Prisma call: failed by the environment or run on the store, and
    written to the trace. *)
Definition prisma {A : Type} (s : Site) (op : DB -> Result A * DB) : M A :=
  fun w =>
    match dbFault env s with
    | Some e => (Throw e, mkWorld (db w) (log w ++ [mkCall s (db w) (Some e)]))
    | None =>
        let (r, db') := op (db w) in
        (r, mkWorld db' (log w ++ [mkCall s (db w) (errorOf r)]))
    end.

(** A call of a service that answers without touching the store. *)
Definition service {A : Type} (s : Site) (r : Result A) : M A :=
  fun w => (r, mkWorld (db w) (log w ++ [mkCall s (db w) (errorOf r)])).

(** A call of a service that works on the store. *)
Definition serviceDb {A : Type} (s : Site) (op : DB -> Result A * DB) : M A :=
  fun w =>
    let (r, db') := op (db w) in
    (r, mkWorld db' (log w ++ [mkCall s (db w) (errorOf r)])).
End Calls.

(* ================================================================== *)
(** * [handleInboundEmail] (inboundEmailController.ts) *)
(* ================================================================== *)

(** [req.body.data] of an event of Resend: the fields the handler reads are
    texts, or absent. *)
Record EmailData : Type := mkEmailData {
  ed_email_id : option jsstring;
  ed_from : option jsstring;
  ed_subject : option jsstring;
  ed_text : option jsstring;
  ed_html : option jsstring
}.

(** [req.body]: [type] is whatever JSON the request holds under that key,
    [undefined] when it holds nothing. *)
Record WebhookPayload : Type := mkPayload {
  wp_type : json;
  wp_data : option EmailData
}.

Inductive InboundBody : Type :=
| Ignored                  (* success: true, 'Ignored non-received event' *)
| BodyNotAvailable (from subject email_id : option jsstring)
                   (hasText hasHtml : bool)          (* success: false *)
| MissingFields            (* success: false *)
| NoRfpId                  (* success: true, 'no RFP ID found' *)
| RfpNotFound              (* success: true *)
| VendorNotFound           (* success: true *)
| ProposalProcessed (proposalId : N) (vendorName rfpTitle : jsstring)
                    (aiScore extractedData : json)   (* success: true *)
| FallbackCreated (proposalId : N) (vendorName rfpTitle : jsstring)
                  (extractedData : ExtractedData)    (* success: true *)
| BothFailed (error : jsstring) (storedEmailId : N) (* success: false *)
| Failed (error : jsstring).                         (* success: false *)

Definition success (b : InboundBody) : bool :=
  match b with
  | Ignored | NoRfpId | RfpNotFound | VendorNotFound
  | ProposalProcessed _ _ _ _ _ | FallbackCreated _ _ _ _ => true
  | BodyNotAvailable _ _ _ _ _ | MissingFields | BothFailed _ _ | Failed _ =>
      false
  end.

(** [a || b] where [a] may be absent or empty. *)
Definition strOr (a : option jsstring) (b : jsstring) : jsstring :=
  match a with
  | Some (x :: s) => x :: s
  | _ => b
  end.

Definition truthyStr (a : option jsstring) : bool :=
  match a with
  | Some s => nonempty s
  | None => false
  end.

(** [t === w], for a text [w] *)
Definition typeIs (t : json) (w : string) : bool :=
  match t with
  | JStr s => str_eqb s (lit w)
  | _ => false
  end.

Definition fullOfData (d : EmailData) : FullEmail :=
  mkFullEmail (ed_text d) (ed_html d) (ed_subject d).

(** The chain of [replace] calls of step 4. *)
Definition styleRe : regex :=
  seqs [wordCI "<style"; Star true (Chr notGt); word ">";
        Star false (Chr isDot); wordCI "</style>"].
Definition scriptRe : regex :=
  seqs [wordCI "<script"; Star true (Chr notGt); word ">";
        Star false (Chr isDot); wordCI "</script>"].
Definition tagRe : regex := seqs [word "<"; Plus (Chr notGt); word ">"].

Definition htmlToText (s : jsstring) : jsstring :=
  let s := replaceAll styleRe [] s in
  let s := replaceAll scriptRe [] s in
  let s := replaceAll tagRe (lit " ") s in
  let s := replaceAll (word "&nbsp;") (lit " ") s in
  let s := replaceAll (word "&quot;") [34%N] s in
  let s := replaceAll (word "&amp;") (lit "&") s in
  let s := replaceAll (word "&lt;") (lit "<") s in
  let s := replaceAll (word "&gt;") (lit ">") s in
  let s := replaceAll (Plus ws) (lit " ") s in
  trim s.

(** The bodies [deleteProposal] answers with. *)
Inductive DeleteBody : Type :=
| ProposalNotFound            (* 404, success: false, 'Proposal not found' *)
| ProposalDeleted             (* 200, success: true *)
| DeleteFailed (error : jsstring).   (* 500, success: false *)

Section Controllers.
Context {RT : Runtime}.
Variable env : Env.

Local Open Scope m_scope.

(** Steps 1 and 2: the content of the webhook, else the one fetched from
    Resend; a failed fetch leaves the body empty. *)
Definition resolveContent (emailData : EmailData) : M (jsstring * FullEmail) :=
  if truthyStr (ed_text emailData) || truthyStr (ed_html emailData) then
    ret (strOr (ed_text emailData) (strOr (ed_html emailData) []),
         fullOfData emailData)
  else
    tryCatch
      (receivedEmail <- service ResendGet
                          (resend_get env (ed_email_id emailData)) ;;
       match receivedEmail with
       | Some fullEmail =>
           ret (strOr (fe_text fullEmail) (strOr (fe_html fullEmail) []),
                fullEmail)
       | None => ret ([], fullOfData emailData)
       end)
      (fun fetchError => ret ([], fullOfData emailData)).

(** Step 11, the [catch (aiError)] block: the fallback parser, and the
    error record when the fallback fails too. *)
Definition fallbackTier (rfpId : jsstring) (vendor : Vendor) (rfp : RFP)
           (emailBody : jsstring) (storedEmail : InboundEmail)
           (aiError : Error) : M (Response InboundBody) :=
  tryCatch
    (let fallbackData := fallbackParseProposal emailBody in
     fallbackProposal <-
       prisma env ProposalCreate
         (proposal_create
            {| pc_rfpId := rfpId;
               pc_vendorId := v_id vendor;
               pc_rawEmailBody := emailBody;
               pc_extractedData := FromFallback fallbackData;
               pc_aiScore := None;
               pc_aiEvaluation := None;
               pc_usedFallbackParsing := true |}) ;;
     prisma env VendorMarkResponded
       (rFPVendor_updateMany rfpId (v_id vendor) RESPONDED) ;;;
     prisma env EmailMarkFallback
       (inboundEmail_update (ie_id storedEmail)
          {| set_processed := Some true;
             set_processedAt := Some (now env);
             set_proposalId := Some (p_id fallbackProposal);
             set_processingError :=
               Some (lit "AI quota exceeded. Used fallback parsing. Original error: "
                     ++ aiError) |}) ;;;
     respond 200
       (FallbackCreated (p_id fallbackProposal) (v_name vendor)
                        (rfp_title rfp) fallbackData))
    (fun fallbackError =>
       prisma env EmailRecordError
         (inboundEmail_update (ie_id storedEmail)
            {| set_processed := None;
               set_processedAt := None;
               set_proposalId := None;
               set_processingError :=
                 Some (lit "Both AI and fallback parsing failed. AI: "
                       ++ aiError ++ lit ", Fallback: " ++ fallbackError) |}) ;;;
       respond 200
         (BothFailed (lit "Failed to process vendor proposal: " ++ aiError)
                     (ie_id storedEmail))).

(** Step 11: the AI tier, then the fallback tier. *)
Definition extractionStage (rfpId : jsstring) (vendor : Vendor) (rfp : RFP)
           (vendorEmail emailBody : jsstring) (storedEmail : InboundEmail)
  : M (Response InboundBody) :=
  tryCatch
    (result <- serviceDb ProcessVendorProposal
                 (processVendorProposal env rfpId vendorEmail emailBody) ;;
     prisma env EmailMarkProcessed
       (inboundEmail_update (ie_id storedEmail)
          {| set_processed := Some true;
             set_processedAt := Some (now env);
             set_proposalId := Some (pr_proposalId result);
             set_processingError := None |}) ;;;
     (* the log lines inside the [try]: [result.proposalId], the key just
        written, prints as it is;
        console.log(`   AI Score: ${result.aiScore || 'N/A'}`) and
        console.log(`   Total Price: ${result.extractedData?.totalPrice
        || 'N/A'}`) convert what the service returned *)
     liftR (templateR (js_or (pr_aiScore result) (JStr (lit "N/A")))) ;;;
     liftR (templateR (js_or (prop (pr_extractedData result) "totalPrice")
                             (JStr (lit "N/A")))) ;;;
     respond 200
       (ProposalProcessed (pr_proposalId result) (v_name vendor)
                          (rfp_title rfp) (pr_aiScore result)
                          (pr_extractedData result)))
    (fallbackTier rfpId vendor rfp emailBody storedEmail).

(** Steps 6 to 11, from the sender, the subject and the body. *)
Definition processEmail (emailId : option jsstring)
           (from subject emailBody : jsstring) : M (Response InboundBody) :=
  match extractRFPId subject emailBody with
  | None => respond 200 NoRfpId
  | Some rfpId =>
      rfp <- service GetRFPById (getRFPById env rfpId) ;;
      match rfp with
      | None => respond 200 RfpNotFound
      | Some rfp =>
          let vendorEmail := extractEmailAddress from in
          vendor <- service GetVendorByEmail
                      (getVendorByEmail env vendorEmail) ;;
          match vendor with
          | None => respond 200 VendorNotFound
          | Some vendor =>
              storedEmail <-
                prisma env EmailCreate
                  (inboundEmail_create (now env)
                     {| cd_emailId := emailId;
                        cd_from := from;
                        cd_subject := subject;
                        cd_rawBody := emailBody;
                        cd_rfpId := rfpId;
                        cd_vendorId := v_id vendor |}) ;;
              extractionStage rfpId vendor rfp vendorEmail emailBody
                              storedEmail
          end
      end
  end.

(** Steps 3 to 5: what the handler takes as sender, subject and body, or
    the response that ends the request early. *)
Definition intake (emailData : EmailData) (emailBody : jsstring)
           (fullEmail : FullEmail)
  : InboundBody + (jsstring * jsstring * jsstring) :=
  if negb (nonempty emailBody) || (List.length (trim emailBody) =? 0) then
    inl (BodyNotAvailable (ed_from emailData) (ed_subject emailData)
                          (ed_email_id emailData)
                          (truthyStr (ed_text emailData))
                          (truthyStr (ed_html emailData)))
  else
    let from := ed_from emailData in
    let subject :=
      strOr (ed_subject emailData) (strOr (fe_subject fullEmail) []) in
    let emailBody :=
      if negb (includes_char 60%N emailBody) && truthyStr (fe_html fullEmail)
      then htmlToText emailBody
      else emailBody in
    if negb (truthyStr from) || negb (nonempty emailBody) then
      inl MissingFields
    else inr (strOr from [], subject, emailBody).

Definition handleInboundEmail (req_body : option WebhookPayload)
  : M (Response InboundBody) :=
  tryCatch
    (webhookPayload <-
       getOrThrow req_body
         "Cannot read properties of undefined (reading 'type')" ;;
     if negb (typeIs (wp_type webhookPayload) "email.received") then
       (* console.log(`Ignoring webhook type: ${webhookPayload.type}`) *)
       liftR (templateR (wp_type webhookPayload)) ;;;
       respond 200 Ignored
     else
       emailData <-
         getOrThrow (wp_data webhookPayload)
           "Cannot read properties of undefined (reading 'email_id')" ;;
       content <- resolveContent emailData ;;
       match intake emailData (fst content) (snd content) with
       | inl early => respond 200 early
       | inr (from, subject, emailBody) =>
           processEmail (ed_email_id emailData) from subject emailBody
       end)
    (fun error => respond 200 (Failed error)).

(* ---------------------------------------------------------------- *)
(** * [deleteProposal] *)
(* ---------------------------------------------------------------- *)

(** The log line before the answer reads [proposal.vendor.name]; the
    relation is required, so it does not throw. *)
Definition deleteProposal (id : N) : M (Response DeleteBody) :=
  tryCatch
    (proposal <- prisma env ProposalFind (proposal_findUnique id) ;;
     match proposal with
     | None => respond 404 ProposalNotFound
     | Some proposal =>
         prisma env ProposalDelete (proposal_delete id) ;;;
         prisma env VendorMarkSent
           (rFPVendor_updateMany (p_rfpId proposal) (p_vendorId proposal)
                                 SENT) ;;;
         respond 200 ProposalDeleted
     end)
    (fun error =>
       respond 500 (DeleteFailed (strOr (Some error)
                                        (lit "Failed to delete proposal")))).
End Controllers.

(* ================================================================== *)
(** * [AIService.scoreProposal] (services/aiService.ts, two revisions) *)
(* ================================================================== *)

Definition bindR {A B : Type} (r : Result A) (k : A -> Result B) : Result B :=
  match r with
  | Ok a => k a
  | Throw e => Throw e
  end.

Declare Scope r_scope.
Delimit Scope r_scope with R.
Notation "x <-- m ;; k" := (bindR m (fun x => k))
  (at level 61, m at next level, right associativity) : r_scope.

Record StructuredRFP : Type := mkStructuredRFP {
  budget : json;
  rfp_deliveryDays : json
}.

Record ScoreResult : Type := mkScore {
  score : JSNumber;
  evaluation : json
}.

(** [/```json\n?/g], [/```\n?/g], [/```/g] and [/\{[\s\S]*\}/] *)
Definition fenceJsonRe : regex :=
  Seq (word "```json") (Opt (Chr (chrIs 10%N))).
Definition fenceNlRe : regex := Seq (word "```") (Opt (Chr (chrIs 10%N))).
Definition fenceRe : regex := word "```".
Definition jsonObjectRe : regex :=
  seqs [word "{"; Star true (Chr anyChar); word "}"].

(** [response.text().trim()] followed by the clean-up of the code fences. *)
Definition cleanReply (text : jsstring) : jsstring :=
  let text := trim text in
  trim (replaceAll fenceRe []
          (replaceAll fenceNlRe [] (replaceAll fenceJsonRe [] text))).

(** [const jsonMatch = text.match(/\{[\s\S]*\}/); if (jsonMatch) text =
    jsonMatch[0]] *)
Definition jsonText (text : jsstring) : jsstring :=
  match exec jsonObjectRe text with
  | Some jsonMatch => m_whole jsonMatch
  | None => text
  end.

(** The doubles written [1.1] and [1.2]. *)
Definition double_1_1 : Q := 2476979795053773 # 2251799813685248.
Definition double_1_2 : Q := 5404319552844595 # 4503599627370496.

Section Scoring.
Context {RT : Runtime}.
Local Open Scope r_scope.

(** [v.length] *)
Definition lengthOf (v : json) : json :=
  match v with
  | JArr l => JNum (num (Z.of_nat (List.length l)))
  | JStr s => JNum (num (Z.of_nat (List.length s)))
  | _ => prop v "length"
  end.

(** [a > 0] *)
Definition positive (v : json) : bool := num_ltb (num 0) (ToNumber v).

(** [throw new Error(`Failed to score proposal: ${error.message}`)] *)
Definition rethrowScore {A : Type} (r : Result A) : Result A :=
  match r with
  | Ok a => Ok a
  | Throw e => Throw (lit "Failed to score proposal: " ++ e)
  end.

Definition clampScore (v : JSNumber) : JSNumber :=
  Math_min (num 100) (Math_max (num 0) v).

(** [calculateFallbackScore] *)
Definition calculateFallbackScore (rfpData : StructuredRFP)
           (proposalData : json) : Z :=
  let score := 0%Z in
  let score :=
    if truthy (budget rfpData) && truthy (prop proposalData "totalPrice") then
      let priceRatio :=
        num_div (ToNumber (prop proposalData "totalPrice"))
                (ToNumber (budget rfpData)) in
      if num_leb priceRatio (Fin 1) then (score + 30)%Z
      else if num_leb priceRatio (Fin double_1_1) then (score + 20)%Z
      else if num_leb priceRatio (Fin double_1_2) then (score + 10)%Z
      else (score + 5)%Z
    else (score + 15)%Z in
  let score :=
    if truthy (rfp_deliveryDays rfpData)
       && truthy (prop proposalData "deliveryDays") then
      let deliveryDiff :=
        num_sub (ToNumber (prop proposalData "deliveryDays"))
                (ToNumber (rfp_deliveryDays rfpData)) in
      if num_leb deliveryDiff (num 0) then (score + 20)%Z
      else if num_leb deliveryDiff (num 5) then (score + 15)%Z
      else if num_leb deliveryDiff (num 10) then (score + 10)%Z
      else (score + 5)%Z
    else (score + 10)%Z in
  let score :=
    if truthy (prop proposalData "items")
       && positive (lengthOf (prop proposalData "items"))
    then (score + 20)%Z else (score + 10)%Z in
  let score :=
    if truthy (prop proposalData "paymentTerms") then (score + 8)%Z
    else score in
  let score :=
    if truthy (prop proposalData "warranty") then (score + 7)%Z else score in
  let score :=
    if truthy (prop proposalData "additionalServices")
       && positive (lengthOf (prop proposalData "additionalServices"))
    then (score + 10)%Z else (score + 5)%Z in
  score.
End Scoring.

(** services/aiService.ts *)
Module AIService.
Section Service.
Context {RT : Runtime}.
Local Open Scope r_scope.

(** [v ? `...${v}...` : other] *)
Definition whenTruthy (v : json) : Result unit :=
  if truthy v then (_ <-- templateR v ;; Ok tt) else Ok tt.

(** [`${v || "N/A"}`] *)
Definition orNA (v : json) : Result unit :=
  _ <-- templateR (js_or v (JStr (lit "N/A"))) ;; Ok tt.

(** [limit ? (v <= limit ? ... : ...) : "N/A"]: the comparison converts
    both sides, the left one first. *)
Definition whenLimit (limit v : json) : Result unit :=
  if truthy limit then (_ <-- ToNumberR v ;; _ <-- ToNumberR limit ;; Ok tt)
  else Ok tt.

(** What is evaluated before the model is called: [budgetInfo] and
    [deliveryInfo], the substitutions of the prompt after the two
    [JSON.stringify], and the log lines. *)
Definition beforeTheCall (rfpData : StructuredRFP) (proposalData : json)
  : Result unit :=
  _ <-- whenTruthy (budget rfpData) ;;
  _ <-- whenTruthy (rfp_deliveryDays rfpData) ;;
  totalPrice <-- getPropR proposalData "totalPrice" ;;
  _ <-- orNA totalPrice ;;
  deliveryDays <-- getPropR proposalData "deliveryDays" ;;
  _ <-- orNA deliveryDays ;;
  _ <-- whenLimit (budget rfpData) totalPrice ;;
  _ <-- whenLimit (rfp_deliveryDays rfpData) deliveryDays ;;
  _ <-- orNA totalPrice ;;
  _ <-- orNA (budget rfpData) ;;
  _ <-- orNA deliveryDays ;;
  orNA (rfp_deliveryDays rfpData).

(** [reply] is what [generateContent] and [response.text()] give. *)
Definition scoreProposal (rfpData : StructuredRFP) (proposalData : json)
           (vendorName : jsstring) (reply : Result jsstring)
  : Result ScoreResult :=
  rethrowScore
    (_ <-- beforeTheCall rfpData proposalData ;;
     text <-- reply ;;
     let text := jsonText (cleanReply text) in
     match JSON_parse text with
     | Throw parseError =>
         let score := calculateFallbackScore rfpData proposalData in
         Ok {| score := num score;
               evaluation :=
                 JStr (lit "Automated scoring: " ++ ToString (JNum (num score))
                       ++ lit "/100. Price: $"
                       ++ ToString (js_or (prop proposalData "totalPrice")
                                          (JStr (lit "N/A")))
                       ++ lit ", Delivery: "
                       ++ ToString (js_or (prop proposalData "deliveryDays")
                                          (JStr (lit "N/A")))
                       ++ lit " days. Manual review recommended.") |}
     | Ok scoringData =>
         s <-- getPropR scoringData "score" ;;
         n <-- ToNumberR (js_or s (JNum (num 0))) ;;
         let finalScore := clampScore n in
         Ok {| score := finalScore;
               evaluation :=
                 js_or (prop scoringData "evaluation")
                       (JStr (lit "No evaluation provided")) |}
     end).
End Service.
End AIService.

(** The other revision of the service. *)
Module AIServiceRev.
Section Service.
Context {RT : Runtime}.
Local Open Scope r_scope.

Definition scoreProposal (rfpData : StructuredRFP) (proposalData : json)
           (vendorName : jsstring) (reply : Result jsstring)
  : Result ScoreResult :=
  rethrowScore
    (text <-- reply ;;
     let text := cleanReply text in
     scoringData <-- JSON_parse text ;;
     s <-- getPropR scoringData "score" ;;
     n <-- ToNumberR s ;;
     Ok {| score := clampScore n;
           evaluation := prop scoringData "evaluation" |}).
End Service.
End AIServiceRev.

(** A request runs on the store with an empty trace. *)
Definition run {A : Type} (m : M A) (d : DB) : Result A * World :=
  m (mkWorld d []).

(** The places called, in order. *)
Definition sites (w : World) : list Site := map site (log w).

(* ================================================================== *)
(** * Specification-side definitions *)
(* ================================================================== *)

(** The group always takes part in a match of [r]: every way through [r]
    crosses a capture. *)
Fixpoint captures (r : regex) : bool :=
  match r with
  | Cap _ => true
  | Seq r1 r2 => captures r1 || captures r2
  | Alt r1 r2 => captures r1 && captures r2
  | _ => false
  end.

(** [s1] is what is left of [s] after some prefix. *)
Definition suffixOf (s1 s : jsstring) : Prop := exists p, s = p ++ s1.

(** [u] occurs in [s]. *)
Definition occursIn (u s : jsstring) : Prop :=
  exists p q, s = p ++ u ++ q.

(** A string that starts with characters of the given classes, in order. *)
Fixpoint prefixFits (shape : list (char -> bool)) (s : jsstring) : bool :=
  match shape, s with
  | [], _ => true
  | p :: shape', x :: s' => p x && prefixFits shape' s'
  | _ :: _, [] => false
  end.

(** 8-4-4-4-12 hexadecimal digits of either case, with dashes. *)
Definition uuidShape : list (char -> bool) :=
  repeat isHexCI 8 ++ [chrIs 45%N] ++ repeat isHexCI 4 ++ [chrIs 45%N]
  ++ repeat isHexCI 4 ++ [chrIs 45%N] ++ repeat isHexCI 4 ++ [chrIs 45%N]
  ++ repeat isHexCI 12.

Definition isUUID (u : jsstring) : Prop :=
  List.length u = 36 /\ prefixFits uuidShape u = true.

(** The leftmost UUID of a text, found by sliding a window of 36
    characters. *)
Fixpoint firstUUID (s : jsstring) : option jsstring :=
  if prefixFits uuidShape s then Some (firstn 36 s)
  else match s with
       | [] => None
       | _ :: s' => firstUUID s'
       end.

(** ** [extractRFPId] in the words of the specification

    The three forms are read off the text without a regular expression:
    the label, the separators and the 36 characters are looked for where
    they have to stand. *)

(** What is left after the characters of a class at the front. *)
Fixpoint dropWhile (p : char -> bool) (s : jsstring) : jsstring :=
  match s with
  | x :: s' => if p x then dropWhile p s' else s
  | [] => []
  end.

(** What follows the letters of [w] at the front of [s], in either case. *)
Fixpoint afterWordCI (w s : jsstring) : option jsstring :=
  match w with
  | [] => Some s
  | c :: w' =>
      match s with
      | x :: s' => if chrCI c x then afterWordCI w' s' else None
      | [] => None
      end
  end.

(** The 36 characters at the front, when they have the shape of a UUID. *)
Definition uuidHere (s : jsstring) : option jsstring :=
  if prefixFits uuidShape s then Some (firstn 36 s) else None.

(** One or more colons, white spaces or dashes, then a UUID. *)
Definition separatedUUID (s : jsstring) : option jsstring :=
  match s with
  | x :: s' =>
      if isColonSpaceDash x then uuidHere (dropWhile isColonSpaceDash s')
      else None
  | [] => None
  end.

(** ['RFP ID: <uuid>'] at the front: the letters RFP, white space if any,
    the letters ID, the separators and the UUID. *)
Definition labelledId (s : jsstring) : option jsstring :=
  match afterWordCI (lit "RFP") s with
  | Some s1 =>
      match afterWordCI (lit "ID") (dropWhile isSpace s1) with
      | Some s2 => separatedUUID s2
      | None => None
      end
  | None => None
  end.

(** ['RFP-<uuid>'] or ['RFP <uuid>'] at the front. *)
Definition labelledRfp (s : jsstring) : option jsstring :=
  match afterWordCI (lit "RFP") s with
  | Some s1 => separatedUUID s1
  | None => None
  end.

(** What [f] reads at the leftmost place of [s] where it reads
    something. *)
Fixpoint leftmost (f : jsstring -> option jsstring) (s : jsstring)
  : option jsstring :=
  match f s with
  | Some u => Some u
  | None =>
      match s with
      | [] => None
      | _ :: s' => leftmost f s'
      end
  end.

(** The id of an email: in the subject, a space and the body put end to
    end, the UUID of the leftmost ['RFP ID: <uuid>'], else that of the
    leftmost ['RFP-<uuid>'], else the leftmost UUID, else nothing. *)
Definition rfpIdSpec (subject body : jsstring) : option jsstring :=
  let text := subject ++ 32%N :: body in
  match leftmost labelledId text with
  | Some u => Some u
  | None =>
      match leftmost labelledRfp text with
      | Some u => Some u
      | None => firstUUID text
      end
  end.

(** The capture of the first pattern of the list, in order, that matches. *)
Definition matches (body : jsstring) (p : regex) : bool :=
  match exec p body with Some _ => true | None => false end.

Definition firstMatchingCapture (patterns : list regex) (body : jsstring)
  : option jsstring :=
  match find (matches body) patterns with
  | Some p => option_map group1 (exec p body)
  | None => None
  end.

(** The record the specification describes for an email body. *)
Definition fallbackSpec {RT : Runtime} (body : jsstring) : ExtractedData :=
  {| items := [];
     totalPrice :=
       option_map (fun c => parseFloat (stripCommas c))
                  (firstMatchingCapture pricePatterns body);
     deliveryDays :=
       option_map parseInt (firstMatchingCapture deliveryPatterns body);
     paymentTerms :=
       option_map (fun c => substring0 100 (trim c))
                  (firstMatchingCapture paymentPatterns body);
     warrantyYears :=
       option_map parseInt (firstMatchingCapture warrantyPatterns body);
     notes := firstn 500 body |}.


(* ================================================================== *)
(** * More of the string and regular-expression runtime *)
(* ================================================================== *)

(** [s.startsWith(p)], [s.includes(p)] and [s.endsWith(p)] *)
Fixpoint startsWith (p s : jsstring) : bool :=
  match p, s with
  | [], _ => true
  | x :: p', y :: s' => (x =? y)%N && startsWith p' s'
  | _ :: _, [] => false
  end.

Fixpoint includes (p s : jsstring) : bool :=
  startsWith p s
  || match s with
     | [] => false
     | _ :: s' => includes p s'
     end.

Definition endsWith (p s : jsstring) : bool := startsWith (rev p) (rev s).

(** [parts.join(sep)] *)
Fixpoint join (sep : jsstring) (parts : list jsstring) : jsstring :=
  match parts with
  | [] => []
  | [p] => p
  | p :: rest => p ++ sep ++ join sep rest
  end.

(** [s.match(r)] for an expression that starts with [^]: without the [m]
    flag the only place where it can match is the start of the text. *)
Definition execAnchored (r : regex) (s : jsstring) : option MatchResult :=
  match matchHere r s with
  | Some (w, c) => Some (mkMatch 0 w c)
  | None => None
  end.

(** The first of several alternatives that matches. *)
Fixpoint alts (r : regex) (l : list regex) : regex :=
  match l with
  | [] => r
  | r' :: l' => Alt r (alts r' l')
  end.

(** ** Expressions with several groups

    The same matcher, keeping every capture: the groups are listed in the
    order in which they close, which is their number when no group stands
    inside another one or under a quantifier. *)
Section MatcherG.
Variable A : Type.

Definition ContG : Type := jsstring -> list jsstring -> option A.

Fixpoint starLoopG (g : bool)
         (step : jsstring -> list jsstring -> ContG -> option A)
         (k : ContG) (fuel : nat) (s : jsstring) (cs : list jsstring)
  : option A :=
  let more (_ : unit) :=
    match fuel with
    | O => None
    | S fuel' =>
        step s cs
          (fun s1 cs1 =>
             if List.length s1 <? List.length s
             then starLoopG g step k fuel' s1 cs1
             else None)
    end in
  if g then
    match more tt with
    | Some a => Some a
    | None => k s cs
    end
  else
    match k s cs with
    | Some a => Some a
    | None => more tt
    end.

Fixpoint mtchG (r : regex) (s : jsstring) (cs : list jsstring) (k : ContG)
  : option A :=
  match r with
  | Eps => k s cs
  | Chr p =>
      match s with
      | x :: s' => if p x then k s' cs else None
      | [] => None
      end
  | Seq r1 r2 => mtchG r1 s cs (fun s1 cs1 => mtchG r2 s1 cs1 k)
  | Alt r1 r2 =>
      match mtchG r1 s cs k with
      | Some a => Some a
      | None => mtchG r2 s cs k
      end
  | Star g r1 => starLoopG g (mtchG r1) k (List.length s) s cs
  | Cap r1 =>
      mtchG r1 s cs
        (fun s1 cs1 =>
           k s1 (cs1 ++ [firstn (List.length s - List.length s1) s]))
  end.
End MatcherG.

(** A match with its groups: [m.index], [m[0]] and [m[1]], [m[2]], ... *)
Record MatchG : Type := mkMatchG {
  g_index : nat;
  g_whole : jsstring;
  g_groups : list jsstring
}.

(** [m[n]], for [n] from 1 *)
Definition groupN (n : nat) (m : MatchG) : jsstring :=
  nth (n - 1) (g_groups m) [].

Definition matchHereG (r : regex) (s : jsstring)
  : option (jsstring * list jsstring) :=
  mtchG r s [] (fun rest cs => Some (firstn (length s - length rest) s, cs)).

Fixpoint execFromG (r : regex) (i : nat) (s : jsstring) : option MatchG :=
  match matchHereG r s with
  | Some (w, cs) => Some (mkMatchG i w cs)
  | None =>
      match s with
      | [] => None
      | _ :: s' => execFromG r (S i) s'
      end
  end.

(** The matches that [r.exec(s)] returns, call after call, for an
    expression with the [g] flag, until it returns [null]; [i] is
    [lastIndex] and [s] the text from there.  These are also the matches of
    [s.matchAll(r)].  The expressions of the program match at least one
    character, so that every call moves [lastIndex] forward and the number
    of calls is bounded by the length of the text. *)
Fixpoint execAllFrom (r : regex) (fuel : nat) (i : nat) (s : jsstring)
  : list MatchG :=
  match fuel with
  | O => []
  | S fuel' =>
      match execFromG r i s with
      | None => []
      | Some m =>
          let n := (g_index m - i) + List.length (g_whole m) in
          m :: execAllFrom r fuel' (i + n) (skipn n s)
      end
  end.

Definition execAll (r : regex) (s : jsstring) : list MatchG :=
  execAllFrom r (S (List.length s)) 0 s.

(** [[a-z]] under the [i] flag *)
Definition isLetterCI (c : char) : bool := isLowerAscii c || isUpperAscii c.
Definition letter : regex := Chr isLetterCI.

(** [[^.!?\n]] *)
Definition notSentenceEnd (c : char) : bool :=
  negb ((c =? 46) || (c =? 33) || (c =? 63) || (c =? 10))%N.

(** The builtins whose tables are not part of the program, besides those
    of [Runtime]. *)
Class Locale : Type := {
  toUpperCase : jsstring -> jsstring;
  (** [Number.prototype.toLocaleString] *)
  toLocaleString : JSNumber -> jsstring;
  (** the IEEE operation [a * b] *)
  num_mul : JSNumber -> JSNumber -> JSNumber
}.

(** [throw new Error(`${prefix}${error.message}`)] in a [catch] block *)
Definition rethrow {A : Type} (prefix : string) (r : Result A) : Result A :=
  match r with
  | Ok a => Ok a
  | Throw e => Throw (lit prefix ++ e)
  end.

(** [response.text().trim()] and the two replacements of the code fences
    that follow it everywhere but in [scoreProposal]. *)
Definition stripFences (text : jsstring) : jsstring :=
  let text := trim text in
  trim (replaceAll fenceNlRe [] (replaceAll fenceJsonRe [] text)).

(** [v?.length] *)
Definition optLength {RT : Runtime} (v : json) : json :=
  match v with
  | JUndefined | JNull => JUndefined
  | _ => lengthOf v
  end.

(* ================================================================== *)
(** * [AIService.parseVendorProposal] (services/aiService.ts)

    The same in both revisions. *)
(* ================================================================== *)

Module VendorProposal.
(** The object [parseVendorProposal] resolves to. *)
Record Parsed : Type := mkParsed {
  extractedData : json;
  totalPrice : json;
  deliveryDays : json;
  paymentTerms : json;
  warranty : json
}.

Section Service.
Context {RT : Runtime}.
Local Open Scope r_scope.

(** [reply] is what [generateContent] and [response.text()] give.  The
    three log lines after [JSON.parse] read [parsedData.confidence], which
    throws on [null], and write [parsedData.confidence || "N/A"],
    [parsedData.items?.length || 0] and [parsedData.totalPrice || "N/A"] in
    template literals. *)
Definition parseVendorProposal (emailBody : jsstring) (rfpData : json)
           (reply : Result jsstring) : Result Parsed :=
  rethrow "Failed to parse vendor proposal: "
    (text <-- reply ;;
     let text := stripFences text in
     parsedData <-- JSON_parse text ;;
     confidence <-- getPropR parsedData "confidence" ;;
     _ <-- templateR (js_or confidence (JStr (lit "N/A"))) ;;
     _ <-- templateR (js_or (optLength (prop parsedData "items"))
                            (JNum (num 0))) ;;
     _ <-- templateR (js_or (prop parsedData "totalPrice")
                            (JStr (lit "N/A"))) ;;
     Ok {| extractedData := parsedData;
           totalPrice := prop parsedData "totalPrice";
           deliveryDays := prop parsedData "deliveryDays";
           paymentTerms := prop parsedData "paymentTerms";
           warranty := prop parsedData "warranty" |}).
End Service.
End VendorProposal.

(* ================================================================== *)
(** * [AIService.compareProposalsAndRecommend] (services/aiService.ts) *)
(* ================================================================== *)

Module Comparison.
(** An element of [proposals]; only [vendorId] is read. *)
Record Candidate : Type := mkCandidate {
  vendorName : jsstring;
  vendorId : jsstring;
  candidateData : json
}.

(** The object [compareProposalsAndRecommend] resolves to. *)
Record Recommendation : Type := mkRecommendation {
  recommendedVendorId : json;
  reasoning : json;
  comparisonSummary : json
}.

(** [/```json\n([\s\S]*?)\n```/] and [/```\n([\s\S]*?)\n```/] *)
Definition jsonBlockRe : regex :=
  seqs [word "```json"; Chr (chrIs 10%N); Cap (Star false (Chr anyChar));
        Chr (chrIs 10%N); word "```"].
Definition blockRe : regex :=
  seqs [word "```"; Chr (chrIs 10%N); Cap (Star false (Chr anyChar));
        Chr (chrIs 10%N); word "```"].

(** [const jsonMatch = text.match(..) || text.match(..);
     const jsonText = jsonMatch ? jsonMatch[1] : text] *)
Definition blockText (text : jsstring) : jsstring :=
  match exec jsonBlockRe text with
  | Some jsonMatch => group1 jsonMatch
  | None =>
      match exec blockRe text with
      | Some jsonMatch => group1 jsonMatch
      | None => text
      end
  end.

Section Service.
Context {RT : Runtime}.
Local Open Scope r_scope.

(** [proposals[0]?.vendorId || ""] *)
Definition firstVendorId (proposals : list Candidate) : jsstring :=
  match proposals with
  | p :: _ => vendorId p
  | [] => []
  end.

Definition compareProposalsAndRecommend (rfpData : json)
           (proposals : list Candidate) (reply : Result jsstring)
  : Result Recommendation :=
  rethrow "Failed to compare proposals: "
    (text <-- reply ;;
     match (recommendation <-- JSON_parse (blockText text) ;;
            r <-- getPropR recommendation "recommendedVendorId" ;;
            Ok {| recommendedVendorId := r;
                  reasoning := prop recommendation "reasoning";
                  comparisonSummary := prop recommendation "comparisonSummary" |})
     with
     | Ok result => Ok result
     | Throw parseError =>
         Ok {| recommendedVendorId := JStr (firstVendorId proposals);
               reasoning :=
                 JStr (lit "Unable to parse AI recommendation. Please review proposals manually.");
               comparisonSummary := JStr text |}
     end).
End Service.
End Comparison.

(* ================================================================== *)
(** * Structuring a request (services/aiService.ts, two revisions) *)
(* ================================================================== *)

Module Structuring.
(** An element of [items]. *)
Record Item : Type := mkItem {
  name : jsstring;
  quantity : JSNumber;
  specifications : option (list (jsstring * jsstring))
}.

(** The fields of [StructuredRFP] that the service writes and reads; an
    absent field is [undefined]. *)
Record StructuredRFP : Type := mkStructuredRFP {
  id : option jsstring;
  title : jsstring;
  description : jsstring;
  items : list Item;
  budget : option JSNumber;
  deliveryDays : option JSNumber;
  paymentTerms : option jsstring;
  warrantyYears : option JSNumber;
  additionalRequirements : option (list jsstring)
}.

(** What [structuredRFPFromNaturalLanguage] resolves to: the value of
    [JSON.parse], or the object of the fallback. *)
Inductive Structured : Type :=
| FromModel (j : json)
| FromRules (rfp : StructuredRFP).

Definition dollar : regex := Chr (chrIs 36%N).
Definition amount : regex := Cap (Plus (Chr isDigitOrComma)).
Definition number : regex := Cap (Plus digit).

(** [/^([^.!?\n]+)/] *)
Definition titleRe : regex := Cap (Plus (Chr notSentenceEnd)).

Definition budgetPatterns : list regex :=
  [ seqs [wordCI "budget"; Plus ws; wordCI "is"; Plus ws; Opt dollar; amount];
    seqs [wordCI "budget"; Plus (Chr isColonSpace); Opt dollar; amount];
    seqs [dollar; Star true ws; amount; Plus ws; wordCI "total"];
    seqs [dollar; Star true ws; amount; Star true ws; wordCI "budget"];
    seqs [wordCI "up"; Plus ws; wordCI "to"; Plus ws; Opt dollar; amount];
    seqs [wordCI "maximum"; Plus ws; Opt dollar; amount] ].

(** An expression with its [source]. *)
Record Pattern : Type := mkPattern {
  re : regex;
  source : jsstring
}.

Definition optS : regex := Opt (Chr (chrCI 115%N)).

(** [/(\d+)\s*days?/i], [/(\d+)\s*weeks?/i], [/(\d+)\s*months?/i] *)
Definition deliveryPatterns : list Pattern :=
  [ mkPattern (seqs [number; Star true ws; wordCI "day"; optS])
              (lit "(\d+)\s*days?");
    mkPattern (seqs [number; Star true ws; wordCI "week"; optS])
              (lit "(\d+)\s*weeks?");
    mkPattern (seqs [number; Star true ws; wordCI "month"; optS])
              (lit "(\d+)\s*months?") ].

Definition warrantyPatterns : list regex :=
  [ seqs [Opt (seqs [wordCI "at"; Plus ws; wordCI "least"; Plus ws]);
          number; Star true ws; wordCI "year"; optS; Star true ws;
          wordCI "warranty"];
    seqs [wordCI "warranty"; Plus (Chr isColonSpace); number; Star true ws;
          wordCI "year"; optS];
    seqs [number; Star true ws; wordCI "year"; Star true ws;
          wordCI "warranty"] ].

(** [laptops?] and the like *)
Definition plural (w : string) : regex := Seq (wordCI w) optS.

(** [/(\d+)\s+(laptops?|monitors?|...|projectors?)/gi] *)
Definition itemPattern1 : regex :=
  seqs [number; Plus ws;
        Cap (alts (plural "laptop")
                  [plural "monitor"; plural "desktop"; plural "computer";
                   plural "tablet"; plural "phone"; plural "keyboard";
                   wordCI "mice"; plural "printer"; plural "scanner";
                   plural "router"; plural "switche"; plural "server";
                   plural "chair"; plural "desk"; plural "projector"])].

(** [/(\d+)\s+([a-z]{3,}(?:\s+[a-z]+)?)/gi] *)
Definition genericPattern : regex :=
  seqs [number; Plus ws;
        Cap (seqs [Rep 3 letter; Star true letter;
                   Opt (Seq (Plus ws) (Plus letter))])].

(** The expressions for the specifications of an item. *)
Definition ramRe : regex :=
  seqs [number; Star true ws; wordCI "GB"; Star true ws; wordCI "RAM"].
Definition storageRe : regex :=
  seqs [number; Star true ws; wordCI "GB"; Star true ws; wordCI "SSD"].
Definition processorRe : regex :=
  Cap (alts (seqs [wordCI "Intel"; Plus ws; Chr (chrCI 105%N); Plus digit])
            [seqs [wordCI "AMD"; Plus ws; wordCI "Ryzen"; Plus ws; Plus digit];
             seqs [wordCI "M"; Plus digit; Plus ws;
                   Opt (Alt (wordCI "Pro") (wordCI "Max"))]]).
Definition screenRe : regex := seqs [number; wordCI "-inch"].
Definition resolutionRe : regex :=
  Cap (alts (wordCI "4K")
            [wordCI "1080p"; wordCI "1440p"; wordCI "2K";
             seqs [wordCI "Full"; Star true ws; wordCI "HD"]]).

Definition skipWords : list jsstring :=
  [lit "days"; lit "day"; lit "years"; lit "year"; lit "total"; lit "least";
   lit "inch"].

(** [set.has(x)] and [array.includes(x)] for strings *)
Definition has (x : jsstring) (l : list jsstring) : bool :=
  existsb (str_eqb x) l.

Section Service.
Context {RT : Runtime} {LC : Locale}.
Local Open Scope r_scope.

(** [name.charAt(0).toUpperCase() + name.slice(1)] *)
Definition capitalize (name : jsstring) : jsstring :=
  toUpperCase (firstn 1 name) ++ skipn 1 name.

(** The normal form of the name of an item of [itemPattern1]. *)
Definition itemName (matched : jsstring) : jsstring :=
  let name := toLowerCase matched in
  let name :=
    if endsWith (lit "s") name && negb (str_eqb name (lit "mice"))
    then removelast name else name in
  let name := if str_eqb name (lit "mice") then lit "mouse" else name in
  capitalize name.

(** [if (m) specs.key = value] *)
Definition addSpec (key : string) (m : option MatchResult)
           (value : jsstring -> jsstring)
           (specs : list (jsstring * jsstring)) : list (jsstring * jsstring) :=
  match m with
  | Some m => specs ++ [(lit key, value (group1 m))]
  | None => specs
  end.

(** The specifications read in the 200 characters from the match on. *)
Definition itemSpecs (prompt : jsstring) (index : nat)
  : list (jsstring * jsstring) :=
  let specs := [] in
  let itemContext := firstn 200 (skipn index prompt) in
  let specs := addSpec "ram" (exec ramRe itemContext)
                       (fun g => g ++ lit "GB") specs in
  let specs := addSpec "storage" (exec storageRe itemContext)
                       (fun g => g ++ lit "GB SSD") specs in
  let specs := addSpec "processor" (exec processorRe itemContext)
                       (fun g => g) specs in
  let specs := addSpec "screenSize" (exec screenRe itemContext)
                       (fun g => g ++ lit "-inch") specs in
  let specs := addSpec "resolution" (exec resolutionRe itemContext)
                       (fun g => g) specs in
  specs.

(** One turn of the [while] loop over the matches of [itemPattern1]; the
    state is [foundItems] and [items]. *)
Definition itemStep (prompt : jsstring) (m : MatchG)
           (st : list jsstring * list Item) : list jsstring * list Item :=
  let (foundItems, items) := st in
  let quantity := parseInt (groupN 1 m) in
  let name := itemName (groupN 2 m) in
  if negb (has (toLowerCase name) foundItems) then
    let foundItems := foundItems ++ [toLowerCase name] in
    let specs := itemSpecs prompt (g_index m) in
    (foundItems,
     items ++ [ {| name := name;
                   quantity := quantity;
                   specifications :=
                     if 0 <? List.length specs then Some specs else None |} ])
  else (foundItems, items).

(** One turn of the loop over the first three matches of
    [genericPattern]. *)
Definition genericStep (m : MatchG) (items : list Item) : list Item :=
  let quantity := parseInt (groupN 1 m) in
  let name := trim (groupN 2 m) in
  if negb (has (toLowerCase name) skipWords)
     && num_ltb (num 0) quantity && num_ltb quantity (num 10000)
  then items ++ [ {| name := capitalize name;
                     quantity := quantity;
                     specifications := None |} ]
  else items.

Definition orIfEmpty {X : Type} (l : list X) (other : list X -> list X)
  : list X :=
  match l with
  | [] => other l
  | _ => l
  end.

(** [generateFallbackStructuredRFP] *)
Definition generateFallbackStructuredRFP (prompt : jsstring) : StructuredRFP :=
  let lowerPrompt := toLowerCase prompt in
  let title :=
    match execAnchored titleRe prompt with
    | Some titleMatch => substring0 100 (trim (group1 titleMatch))
    | None => trim (substring0 50 prompt) ++ lit "..."
    end in
  let budget : option JSNumber :=
    forOf budgetPatterns
      (fun pattern budget =>
         match exec pattern prompt with
         | Some m => Break (Some (parseInt (stripCommas (group1 m))))
         | None => Continue budget
         end) None in
  let deliveryDays : option JSNumber :=
    forOf deliveryPatterns
      (fun pattern deliveryDays =>
         match exec (re pattern) prompt with
         | Some m =>
             let value := parseInt (group1 m) in
             Break (Some (if includes (lit "week") (source pattern)
                          then num_mul value (num 7)
                          else if includes (lit "month") (source pattern)
                               then num_mul value (num 30)
                               else value))
         | None => Continue deliveryDays
         end) None in
  let paymentTerms : option jsstring :=
    if includes (lit "net 30") lowerPrompt then Some (lit "Net 30")
    else if includes (lit "net 60") lowerPrompt then Some (lit "Net 60")
    else if includes (lit "upfront") lowerPrompt
            || includes (lit "advance") lowerPrompt
         then Some (lit "Payment in advance")
    else if includes (lit "cod") lowerPrompt
            || includes (lit "cash on delivery") lowerPrompt
         then Some (lit "Cash on Delivery")
    else None in
  let warrantyYears : option JSNumber :=
    forOf warrantyPatterns
      (fun pattern warrantyYears =>
         match exec pattern prompt with
         | Some m => Break (Some (parseInt (group1 m)))
         | None => Continue warrantyYears
         end) None in
  let items : list Item :=
    snd (fold_left (fun st m => itemStep prompt m st)
                   (execAll itemPattern1 prompt) ([], [])) in
  let items :=
    orIfEmpty items
      (fun items =>
         fold_left (fun items m => genericStep m items)
                   (firstn 3 (execAll genericPattern prompt)) items) in
  let items :=
    orIfEmpty items
      (fun items =>
         items ++ [ {| name := lit "Procurement Item";
                       quantity := num 1;
                       specifications :=
                         Some [(lit "description", substring0 200 prompt)] |} ]) in
  let additionalRequirements : list jsstring := [] in
  let additionalRequirements :=
    if includes (lit "warranty") lowerPrompt
    then additionalRequirements ++ [lit "Warranty coverage required"]
    else additionalRequirements in
  let additionalRequirements :=
    if includes (lit "support") lowerPrompt
       || includes (lit "maintenance") lowerPrompt
    then additionalRequirements ++ [lit "Technical support and maintenance"]
    else additionalRequirements in
  let additionalRequirements :=
    if includes (lit "training") lowerPrompt
    then additionalRequirements ++ [lit "Training and documentation"]
    else additionalRequirements in
  let additionalRequirements :=
    if includes (lit "installation") lowerPrompt
       || includes (lit "setup") lowerPrompt
    then additionalRequirements ++ [lit "Installation and setup services"]
    else additionalRequirements in
  {| id := None;
     title := title;
     description := prompt;
     items := items;
     budget := budget;
     deliveryDays := deliveryDays;
     paymentTerms := paymentTerms;
     warrantyYears := warrantyYears;
     additionalRequirements :=
       if 0 <? List.length additionalRequirements
       then Some additionalRequirements else None |}.

(** services/aiService.ts: the rules take over when the model or
    [JSON.parse] fails. *)
Definition structuredRFPFromNaturalLanguage (prompt : jsstring)
           (reply : Result jsstring) : Result Structured :=
  match (text <-- reply ;; JSON_parse (stripFences text)) with
  | Ok structuredData => Ok (FromModel structuredData)
  | Throw error => Ok (FromRules (generateFallbackStructuredRFP prompt))
  end.

(** [structureRFPOnly] *)
Definition structureRFPOnly (prompt : jsstring) (reply : Result jsstring)
  : Result Structured :=
  structuredRFPFromNaturalLanguage prompt reply.

(** The other revision: the error is thrown again. *)
Definition structuredRFPFromNaturalLanguageRev (prompt : jsstring)
           (reply : Result jsstring) : Result Structured :=
  rethrow "Failed to structure RFP from natural language: "
    (text <-- reply ;;
     structuredData <-- JSON_parse (stripFences text) ;;
     Ok (FromModel structuredData)).
End Service.
End Structuring.

(* ================================================================== *)
(** * The RFP email (services/aiService.ts) *)
(* ================================================================== *)

Module Emailing.
Import Structuring.

Definition nl : jsstring := [10%N].

Section Service.
Context {RT : Runtime} {LC : Locale}.
Local Open Scope r_scope.

(** [`${n}`] for a number *)
Definition show (n : JSNumber) : jsstring := ToString (JNum n).

(** [n ? text : ""] for an optional number: [undefined], [0] and [NaN] are
    falsy. *)
Definition whenNumber (n : option JSNumber) (text : JSNumber -> jsstring)
  : jsstring :=
  match n with
  | Some v => if truthy (JNum v) then text v else []
  | None => []
  end.

(** [rfpData.id || "TBD"] *)
Definition idOrTBD (rfpData : StructuredRFP) : jsstring :=
  strOr (id rfpData) (lit "TBD").

(** A line of [REQUIREMENTS]. *)
Definition itemLine (item : Item) : jsstring :=
  lit "- " ++ name item ++ lit ": " ++ show (quantity item) ++ lit " units"
  ++ match specifications item with
     | Some entries =>
         lit " ("
         ++ join (lit ", ")
                 (map (fun kv => fst kv ++ lit ": " ++ snd kv) entries)
         ++ lit ")"
     | None => []
     end.

(** [generateFallbackEmailBody] *)
Definition generateFallbackEmailBody (rfpData : StructuredRFP)
           (vendorName : jsstring) : jsstring :=
  let items := join nl (map itemLine (items rfpData)) in
  lit "Dear " ++ vendorName ++ lit "," ++ nl
  ++ lit "  " ++ nl
  ++ lit "  We are pleased to invite you to submit a proposal for the following procurement:" ++ nl
  ++ lit "  " ++ nl
  ++ lit "  " ++ description rfpData ++ nl
  ++ lit "  " ++ nl
  ++ lit "  RFP ID: " ++ idOrTBD rfpData ++ nl
  ++ lit "  (Please include this ID in your response subject line)" ++ nl
  ++ lit "  " ++ nl
  ++ lit "  REQUIREMENTS:" ++ nl
  ++ lit "  " ++ items ++ nl
  ++ lit "  " ++ nl
  ++ lit "  "
  ++ whenNumber (budget rfpData)
       (fun b => lit "Budget: $" ++ toLocaleString b) ++ nl
  ++ lit "  "
  ++ whenNumber (deliveryDays rfpData)
       (fun n => lit "Delivery Timeline: " ++ show n ++ lit " days") ++ nl
  ++ lit "  "
  ++ (if truthyStr (paymentTerms rfpData)
      then lit "Payment Terms: " ++ strOr (paymentTerms rfpData) []
      else []) ++ nl
  ++ lit "  "
  ++ whenNumber (warrantyYears rfpData)
       (fun n => lit "Warranty Required: " ++ show n ++ lit " year(s)") ++ nl
  ++ lit "  " ++ nl
  ++ lit "  "
  ++ match additionalRequirements rfpData with
     | Some (req :: reqs) =>
         lit "ADDITIONAL REQUIREMENTS:" ++ nl
         ++ join nl (map (fun r => lit "- " ++ r) (req :: reqs)) ++ nl
     | _ => []
     end ++ nl
  ++ lit "  " ++ nl
  ++ lit "  Please provide a detailed quotation including:" ++ nl
  ++ lit "  1. Item-by-item pricing" ++ nl
  ++ lit "  2. Total cost" ++ nl
  ++ lit "  3. Delivery timeline" ++ nl
  ++ lit "  4. Payment terms" ++ nl
  ++ lit "  5. Warranty information" ++ nl
  ++ lit "  6. Any additional services or benefits" ++ nl
  ++ lit "  " ++ nl
  ++ lit "  IMPORTANT SUBMISSION INSTRUCTIONS:" ++ nl
  ++ lit "  - Include RFP ID (" ++ idOrTBD rfpData
  ++ lit ") in your email subject line" ++ nl
  ++ lit "  - Send your proposal response to: rfp-responses@ulkeazilea.resend.app" ++ nl
  ++ lit "  " ++ nl
  ++ lit "  We look forward to receiving your proposal." ++ nl
  ++ lit "  " ++ nl
  ++ lit "  Best regards," ++ nl
  ++ lit "  Procurement Team".

(** The object literal [{ subject, body }]. *)
Definition emailObject (subject body : jsstring) : json :=
  JObj [(lit "subject", JStr subject); (lit "body", JStr body)].

(** [`RFP: ${rfpData.title} (ID: ${rfpData.id || "TBD"})`] *)
Definition fallbackSubject (rfpData : StructuredRFP) : jsstring :=
  lit "RFP: " ++ title rfpData ++ lit " (ID: " ++ idOrTBD rfpData ++ lit ")".

(** [generateRFPEmailContent]: what [JSON.parse] gives, whatever it is,
    else an email made from the RFP; without the id in the subject when
    the model itself failed. *)
Definition generateRFPEmailContent (rfpData : StructuredRFP)
           (vendorName : jsstring) (reply : Result jsstring) : json :=
  match reply with
  | Ok text =>
      let text := stripFences text in
      match JSON_parse text with
      | Ok emailContent => emailContent
      | Throw parseError =>
          emailObject (fallbackSubject rfpData)
                      (generateFallbackEmailBody rfpData vendorName)
      end
  | Throw error =>
      emailObject (lit "RFP: " ++ title rfpData)
                  (generateFallbackEmailBody rfpData vendorName)
  end.
End Service.
End Emailing.

(* ================================================================== *)
(** * Predicates of the statements *)
(* ================================================================== *)


Definition KeepsCapture {A : Type}
  (step : jsstring -> option jsstring -> Cont A -> option A) : Prop :=
  forall s c k a,
    step s c k = Some a ->
    exists s1 c1, k s1 c1 = Some a /\ suffixOf s1 s /\ (c <> None -> c1 <> None).

Definition isShape (r : regex) (sh : list (char -> bool)) : Prop :=
  forall (A : Type) s c (k : Cont A),
    mtch r s c k = if prefixFits sh s then k (skipn (List.length sh) s) c else None.


(** What is read after the label: the continuation of the group. *)
Definition uuidThen (A : Type) (k : Cont A) (s : jsstring) : option A :=
  if prefixFits uuidShape s then k (skipn 36 s) (Some (firstn 36 s)) else None.

Definition Always200 {B : Type} (m : M (Response B)) : Prop :=
  forall w r w', m w = (Ok r, w') -> status r = 200%N.

(** Two rows may stand in the table together: the primary key
    [InboundEmail_pkey] and the unique indexes [InboundEmail_emailId_key]
    and [InboundEmail_proposalId_key]. *)
Definition distinctRows (r1 r2 : InboundEmail) : Prop :=
  ie_id r1 <> ie_id r2
  /\ ie_emailId r1 <> ie_emailId r2
  /\ forall p, ie_proposalId r1 = Some p -> ie_proposalId r2 <> Some p.

Definition uniqueEmails (l : list InboundEmail) : Prop :=
  ForallOrdPairs distinctRows l.

Definition emailsUnique (d : DB) : Prop := uniqueEmails (inboundEmails d).

(** [processVendorProposal] leaves the [InboundEmail] table as it is. *)
Definition keepsEmails (env : Env) : Prop :=
  forall rfpId vendorEmail body d,
    inboundEmails (snd (processVendorProposal env rfpId vendorEmail body d))
    = inboundEmails d.

Definition Preserves (I : DB -> Prop) {A : Type} (m : M A) : Prop :=
  forall w r w', m w = (r, w') -> I (db w) -> I (db w').

(** The update of the row that was stored last. *)
Definition updateStored (l : list InboundEmail) (row : InboundEmail)
           (p : EmailPatch) (d : DB) : Result InboundEmail * DB :=
  if match set_proposalId p with
     | Some pid => proposalTaken (ie_id row) pid l
     | None => false
     end
  then (Throw (lit "Unique constraint failed on the fields: (proposalId)"), d)
  else if proposalMissing p (proposals d)
  then (Throw (lit "Foreign key constraint failed on the field: InboundEmail_proposalId_fkey (index)"),
        d)
  else (Ok (applyPatch p row),
        mkDB (l ++ [applyPatch p row]) (proposals d) (rfpVendors d) (nextId d)).

(** The fields of a row that no update of the handler touches. *)
Definition sameMessage (a b : InboundEmail) : Prop :=
  ie_id a = ie_id b /\ ie_emailId a = ie_emailId b /\ ie_from a = ie_from b
  /\ ie_subject a = ie_subject b /\ ie_rawBody a = ie_rawBody b
  /\ ie_rfpId a = ie_rfpId b /\ ie_vendorId a = ie_vendorId b.

Definition afterExtraction (s : Site) : bool :=
  match s with
  | EmailMarkProcessed | ProposalCreate | VendorMarkResponded
  | EmailMarkFallback | EmailRecordError => true
  | _ => false
  end.

Definition fallbackSite (s : Site) : bool :=
  match s with
  | ProposalCreate | VendorMarkResponded | EmailMarkFallback => true
  | _ => false
  end.

Definition markedResponded (rfpId vendorId : jsstring) (d : DB) : Prop :=
  forall rv, In rv (rfpVendors d) ->
             joins rfpId vendorId rv = true -> rv_status rv = RESPONDED.

(** What the trace and the stored row say when a call of the fallback
    tier has thrown [fbE] after the first tier failed with [aiE]: the row
    keeps [processed] and [proposalId], the last call of the handler is the
    update that records both messages, and the answer depends on whether
    that update returned. *)
Definition DoubleFailure (res : Result (Response InboundBody))
           (rowA row' : InboundEmail) (calls : list Call)
           (aiE fbE : Error) : Prop :=
  ie_processed row' = ie_processed rowA
  /\ ie_proposalId row' = ie_proposalId rowA
  /\ exists pre c2,
       calls = pre ++ [c2] /\ site c2 = EmailRecordError
       /\ match threw c2 with
          | None =>
              ie_processingError row'
              = Some (lit "Both AI and fallback parsing failed. AI: "
                      ++ aiE ++ lit ", Fallback: " ++ fbE)
              /\ res = Ok (mkResponse 200
                             (BothFailed (lit "Failed to process vendor proposal: " ++ aiE)
                                         (ie_id rowA)))
          | Some e2 =>
              ie_processingError row' = ie_processingError rowA
              /\ res = Throw e2
          end.

Record StageFacts (RT : Runtime) (env : Env) (rfpId : jsstring) (vendor : Vendor)
       (vendorEmail body : jsstring) (row0 : InboundEmail) (l : list InboundEmail)
       (w1 : World) (res : Result (Response InboundBody)) (w' : World)
       (ai : option Error) (calls : list Call) (row' : InboundEmail) : Prop :=
  mkStageFacts {
    sp_log : log w' = log w1 ++ mkCall ProcessVendorProposal (db w1) ai :: calls;
    sp_ai_eq :
      ai = errorOf (fst (processVendorProposal env rfpId vendorEmail body (db w1)));
    sp_sites : forall c, In c calls -> afterExtraction (site c) = true;
    sp_emails : inboundEmails (db w') = l ++ [row'];
    sp_same : sameMessage row' row0;
    sp_first :
      forall aiE, ai = Some aiE ->
        exists c1 rest, calls = c1 :: rest /\ site c1 = ProposalCreate;
    sp_both :
      forall aiE c1 fbE, ai = Some aiE ->
        In c1 calls -> fallbackSite (site c1) = true -> threw c1 = Some fbE ->
        DoubleFailure res row0 row' calls aiE fbE;
    sp_fallback :
      forall aiError, ai = Some aiError ->
        (forall c, In c calls -> fallbackSite (site c) = true -> threw c = None) ->
        exists p,
          In p (proposals (db w'))
          /\ p_rfpId p = rfpId /\ p_vendorId p = v_id vendor
          /\ p_rawEmailBody p = body
          /\ p_extractedData p = FromFallback (fallbackParseProposal body)
          /\ p_aiScore p = None /\ p_aiEvaluation p = None
          /\ p_usedFallbackParsing p = true
          /\ ie_processed row' = true
          /\ ie_proposalId row' = Some (p_id p)
          /\ ie_processingError row'
             = Some (lit "AI quota exceeded. Used fallback parsing. Original error: "
                     ++ aiError)
          /\ exists vn rt,
               res = Ok (mkResponse 200
                           (FallbackCreated (p_id p) vn rt (fallbackParseProposal body)))
  }.

Definition preSite (s : Site) : bool :=
  match s with
  | ResendGet | GetRFPById | GetVendorByEmail | EmailCreate => true
  | _ => false
  end.

(** The row of step 10. *)
Record StoredRow (e from subject body rfpId : jsstring) (vendor : Vendor)
       (row0 : InboundEmail) : Prop := mkStoredRow {
  sr_emailId : ie_emailId row0 = e;
  sr_from : ie_from row0 = from;
  sr_subject : ie_subject row0 = subject;
  sr_rawBody : ie_rawBody row0 = body;
  sr_rfpId : ie_rfpId row0 = Some rfpId;
  sr_vendorId : ie_vendorId row0 = Some (v_id vendor);
  sr_processed : ie_processed row0 = false;
  sr_error : ie_processingError row0 = None;
  sr_proposalId : ie_proposalId row0 = None
}.

(** The handler went as far as step 11: world [w1] has the row stored and
    the extraction stage runs from it. *)
Record Reached (RT : Runtime) (env : Env) (emailId : option jsstring)
       (from subject body : jsstring) (w : World)
       (res : Result (Response InboundBody)) (w' : World)
       (e rfpId : jsstring) (rfp : RFP) (vendor : Vendor)
       (row0 : InboundEmail) (w1 : World) : Prop := mkReached {
  rc_emailId : emailId = Some e;
  rc_rfpId : extractRFPId subject body = Some rfpId;
  rc_row : StoredRow e from subject body rfpId vendor row0;
  rc_fresh : hasEmailPk (ie_id row0) (inboundEmails (db w)) = false;
  rc_new : hasEmailId e (inboundEmails (db w)) = false;
  rc_emails : inboundEmails (db w1) = inboundEmails (db w) ++ [row0];
  rc_proposals : proposals (db w1) = proposals (db w);
  rc_vendors : rfpVendors (db w1) = rfpVendors (db w);
  rc_log : exists calls, log w1 = log w ++ calls
                         /\ forall c, In c calls -> preSite (site c) = true;
  rc_create : exists pre, log w1 = pre ++ [mkCall EmailCreate (db w) None];
  rc_stage :
    extractionStage env rfpId vendor rfp (extractEmailAddress from) body row0 w1
    = (res, w')
}.



(** The store after the fallback tier has handled an extraction that threw
    [aiError]. *)
Definition FallbackOutcome (RT : Runtime) (w' : World) (aiError : Error) : Prop :=
  exists p row,
    In p (proposals (db w')) /\ In row (inboundEmails (db w'))
    /\ p_extractedData p = FromFallback (fallbackParseProposal (ie_rawBody row))
    /\ p_aiScore p = None /\ p_aiEvaluation p = None
    /\ p_usedFallbackParsing p = true
    /\ ie_processed row = true
    /\ ie_proposalId row = Some (p_id p)
    /\ ie_processingError row
       = Some (lit "AI quota exceeded. Used fallback parsing. Original error: "
               ++ aiError).

(** The same for every email whose extraction throws, whatever the fallback
    tier meets. *)
Definition fallbackAlways (RT : Runtime) (env : Env)
           (req : option WebhookPayload) (d : DB) : Prop :=
  forall r w' c aiError,
    run (handleInboundEmail env req) d = (r, w') ->
    In c (log w') -> site c = ProcessVendorProposal ->
    threw c = Some aiError ->
    FallbackOutcome RT w' aiError.

(** What follows a [proposal.create] of the handler that returned, when the
    store does not fail the [rFPVendor.updateMany]: the next call of the
    trace is that update and it returns; the row [p] that the create added
    is in the final store, and every row joining its RFP and its vendor
    says [RESPONDED]. *)
Definition CreatedThenResponded (trace : list Call) (c : Call) (d' : DB) : Prop :=
  exists pre c' post p,
    trace = pre ++ c :: c' :: post
    /\ site c' = VendorMarkResponded /\ threw c' = None
    /\ proposals (before c') = proposals (before c) ++ [p]
    /\ p_id p = nextId (before c)
    /\ p_usedFallbackParsing p = true
    /\ In p (proposals d')
    /\ markedResponded (p_rfpId p) (p_vendorId p) d'.

(** The first half of the property as the specification words it: the
    proposal that a returned [proposal.create] added has all its joining
    rows at [RESPONDED] when the handler is done. *)
Definition respondedWheneverCreated (RT : Runtime) (env : Env)
           (req : option WebhookPayload) (d : DB) : Prop :=
  forall r w' c p,
    run (handleInboundEmail env req) d = (r, w') ->
    In c (log w') -> site c = ProposalCreate -> threw c = None ->
    In p (proposals (db w')) -> p_id p = nextId (before c) ->
    markedResponded (p_rfpId p) (p_vendorId p) (db w').

Definition revertToSent (p : Proposal) (r : RFPVendor) : RFPVendor :=
  if joins (p_rfpId p) (p_vendorId p) r
  then mkRFPVendor (rv_rfpId r) (rv_vendorId r) SENT
  else r.

(** The store after the proposal [p] with key [id] has been deleted. *)
Definition afterDelete (id : N) (p : Proposal) (d : DB) : DB :=
  mkDB (map (unlinkProposal id) (inboundEmails d))
       (filter (fun r => negb (p_id r =? id)%N) (proposals d))
       (map (revertToSent p) (rfpVendors d))
       (nextId d).

Definition markedSent (p : Proposal) (d : DB) : Prop :=
  forall rv, In rv (rfpVendors d) ->
             joins (p_rfpId p) (p_vendorId p) rv = true -> rv_status rv = SENT.

(** The property of [deleteProposal] as the specification words it:
    nothing found gives 404 and the same store; a proposal found is
    deleted, its joining rows go back to [SENT] and the answer is 200. *)
Definition deletesOr404 (env : Env) (id : N) (d : DB) : Prop :=
  (find (fun q => (p_id q =? id)%N) (proposals d) = None ->
   exists w',
     run (deleteProposal env id) d = (Ok (mkResponse 404 ProposalNotFound), w')
     /\ db w' = d)
  /\ (forall p,
        find (fun q => (p_id q =? id)%N) (proposals d) = Some p ->
        exists w',
          run (deleteProposal env id) d
          = (Ok (mkResponse 200 ProposalDeleted), w')
          /\ (forall q, In q (proposals (db w')) <->
                        In q (proposals d) /\ p_id q <> id)
          /\ markedSent p (db w')).

(** [sc] is [n] brought into the interval from 0 to 100. *)
Definition clampedValue (n sc : JSNumber) : Prop :=
  match sc with
  | Fin s =>
      (0 <= s /\ s <= 100)%Q
      /\ match n with
         | Fin q =>
             (q < 0 -> s == 0)%Q /\ (100 < q -> s == 100)%Q
             /\ (0 <= q /\ q <= 100 -> s == q)%Q
         | NegInf => (s == 0)%Q
         | PosInf => (s == 100)%Q
         | NaN => False
         end
  | _ => False
  end.

Definition inRange (sc : JSNumber) : Prop :=
  match sc with
  | Fin s => (0 <= s /\ s <= 100)%Q
  | _ => False
  end.

(** The values that [services/aiService.ts] puts into the prompt and the
    log lines before it calls the model can be converted to text. *)
Definition promptable (rfpData : StructuredRFP) (proposalData : json) : bool :=
  convertible (budget rfpData) && convertible (rfp_deliveryDays rfpData)
  && convertible (prop proposalData "totalPrice")
  && convertible (prop proposalData "deliveryDays").

(** The property as the specification words it, for one reply of the
    model: whatever [scoreProposal] returns as a score lies between 0 and
    100, in both revisions. *)
Definition scoresInRange (RT : Runtime) (rfpData : StructuredRFP)
           (proposalData : json) (vendorName reply : jsstring) : Prop :=
  (forall sc ev,
      AIService.scoreProposal rfpData proposalData vendorName (Ok reply)
      = Ok (mkScore sc ev) -> inRange sc)
  /\ (forall sc ev,
         AIServiceRev.scoreProposal rfpData proposalData vendorName (Ok reply)
         = Ok (mkScore sc ev) -> inRange sc).

(** The fifth call of a run: [proposal.create], when the extraction threw
    and the handler got there without fetching from Resend. *)
Definition fifthCall (w : World) : Call :=
  nth 4 (log w) (mkCall ResendGet (mkDB [] [] [] 0) None).

(** The property as the specification words it: an event of another type
    is answered with a success and the store is left alone. *)
Definition ignoredWithSuccess (RT : Runtime) (env : Env)
           (payload : WebhookPayload) (w : World) : Prop :=
  typeIs (wp_type payload) "email.received" = false ->
  exists b w',
    handleInboundEmail env (Some payload) w = (Ok (mkResponse 200 b), w')
    /\ success b = true
    /\ db w' = db w.

(** The later of two captures. *)
Definition orLast (c1 c2 : option jsstring) : option jsstring :=
  match c2 with
  | Some g => Some g
  | None => c1
  end.

(** [Matches r w c]: the expression [r] matches exactly the string [w], and
    [c] is what its last group that took part captured. *)
Inductive Matches : regex -> jsstring -> option jsstring -> Prop :=
| M_Eps : Matches Eps [] None
| M_Chr (p : char -> bool) (x : char) : p x = true -> Matches (Chr p) [x] None
| M_Seq (r1 r2 : regex) (w1 w2 : jsstring) (c1 c2 : option jsstring) :
    Matches r1 w1 c1 -> Matches r2 w2 c2 ->
    Matches (Seq r1 r2) (w1 ++ w2) (orLast c1 c2)
| M_AltL (r1 r2 : regex) (w : jsstring) (c : option jsstring) :
    Matches r1 w c -> Matches (Alt r1 r2) w c
| M_AltR (r1 r2 : regex) (w : jsstring) (c : option jsstring) :
    Matches r2 w c -> Matches (Alt r1 r2) w c
| M_StarNil (g : bool) (r : regex) : Matches (Star g r) [] None
| M_StarCons (g : bool) (r : regex) (w1 w2 : jsstring)
             (c1 c2 : option jsstring) :
    Matches r w1 c1 -> Matches (Star g r) w2 c2 ->
    Matches (Star g r) (w1 ++ w2) (orLast c1 c2)
| M_Cap (r : regex) (w : jsstring) (c : option jsstring) :
    Matches r w c -> Matches (Cap r) w (Some w).

(** The strings of an expression, captures put aside. *)
Definition Lang (r : regex) (w : jsstring) : Prop := exists c, Matches r w c.

(** [g] is a string of the body of a group of [r]. *)
Fixpoint capturedBy (r : regex) (g : jsstring) : Prop :=
  match r with
  | Cap r1 => Lang r1 g
  | Seq r1 r2 | Alt r1 r2 => capturedBy r1 g \/ capturedBy r2 g
  | Star _ r1 => capturedBy r1 g
  | _ => False
  end.

Definition StepSound (A : Type)
           (step : jsstring -> option jsstring -> Cont A -> option A)
           (r : regex) : Prop :=
  forall s c k a,
    step s c k = Some a ->
    exists w s1 c', s = w ++ s1 /\ Matches r w c' /\ k s1 (orLast c c') = Some a.

(** A run of decimal digits. *)
Definition digits (g : jsstring) : Prop := Forall (fun x => isDigit x = true) g.

(** What the group [([\d,]+(?:\.\d{2})?)] takes. *)
Definition amountText (g : jsstring) : Prop :=
  exists a b,
    g = a ++ b /\ a <> [] /\ Forall (fun x => isDigitOrComma x = true) a
    /\ (b = [] \/ exists d1 d2, b = [46%N; d1; d2]
                                /\ isDigit d1 = true /\ isDigit d2 = true).

(** The class of the first character of every match, when the expression
    starts with one. *)
Fixpoint headChr (r : regex) : option (char -> bool) :=
  match r with
  | Chr p => Some p
  | Seq r1 _ => headChr r1
  | Cap r1 => headChr r1
  | _ => None
  end.

(** The replacements of step 4 that come after the three that remove
    elements: the five entities. *)
Definition decodeEntities (s : jsstring) : jsstring :=
  let s := replaceAll (word "&nbsp;") (lit " ") s in
  let s := replaceAll (word "&quot;") [34%N] s in
  let s := replaceAll (word "&amp;") (lit "&") s in
  let s := replaceAll (word "&lt;") (lit "<") s in
  replaceAll (word "&gt;") (lit ">") s.

(** One space for every run of white space. *)
Fixpoint collapseWs (inRun : bool) (s : jsstring) : jsstring :=
  match s with
  | [] => []
  | x :: t =>
      if isSpace x
      then if inRun then collapseWs true t else 32%N :: collapseWs true t
      else x :: collapseWs false t
  end.

(** The longest run of white space at the front. *)
Fixpoint spaceRun (s : jsstring) : jsstring :=
  match s with
  | x :: t => if isSpace x then x :: spaceRun t else []
  | [] => []
  end.

(** White space in normal form: single spaces, and none at the ends. *)
Fixpoint singleSpaces (s : jsstring) : Prop :=
  match s with
  | [] => True
  | x :: t =>
      (isSpace x = true -> x = 32%N)
      /\ (isSpace x = true ->
          match t with y :: _ => isSpace y = false | [] => True end)
      /\ singleSpaces t
  end.

Definition isTick (x : char) : bool := (x =? 96)%N.

(** Three backticks at the front. *)
Definition fenceAt (s : jsstring) : bool :=
  match s with
  | a :: b :: c :: _ => isTick a && isTick b && isTick c
  | _ => false
  end.

(** Two backticks at the front. *)
Definition ticksAt (s : jsstring) : bool :=
  match s with
  | a :: b :: _ => isTick a && isTick b
  | _ => false
  end.

(** Three backticks somewhere. *)
Fixpoint hasFence (s : jsstring) : bool :=
  match s with
  | [] => false
  | _ :: t => fenceAt s || hasFence t
  end.

(** Every proposal an email points to is stored: the foreign key
    [InboundEmail_proposalId_fkey]. *)
Definition linksValid (d : DB) : Prop :=
  forall row pid,
    In row (inboundEmails d) -> ie_proposalId row = Some pid ->
    exists p, In p (proposals d) /\ p_id p = pid.

(** [error.message || 'Failed to delete proposal'] *)
Definition deleteError (e : Error) : jsstring :=
  strOr (Some e) (lit "Failed to delete proposal").

(** The [data] of the update after the AI tier. *)
Definition processedPatch (env : Env) (result : ProposalResult) : EmailPatch :=
  {| set_processed := Some true;
     set_processedAt := Some (now env);
     set_proposalId := Some (pr_proposalId result);
     set_processingError := None |}.

(** The calls the fallback tier makes. *)
Definition fallbackCall (s : Site) : bool :=
  match s with
  | ProposalCreate | VendorMarkResponded | EmailMarkFallback
  | EmailRecordError => true
  | _ => false
  end.

(** The proposal the fallback tier creates for an email. *)
Definition isFallbackProposal {RT : Runtime} (rfpId : jsstring) (vendor : Vendor)
           (ebody : jsstring) (p : Proposal) : Prop :=
  p_rfpId p = rfpId /\ p_vendorId p = v_id vendor
  /\ p_rawEmailBody p = ebody
  /\ p_extractedData p = FromFallback (fallbackParseProposal ebody)
  /\ p_aiScore p = None /\ p_aiEvaluation p = None
  /\ p_usedFallbackParsing p = true.

(** What the service returns can be written in the log lines that follow
    the update: [result.aiScore] and [result.extractedData?.totalPrice] are
    not objects with a [toString] key. *)
Definition loggable (env : Env) : Prop :=
  forall rfpId ve ebody d result,
    fst (processVendorProposal env rfpId ve ebody d) = Ok result ->
    convertible (pr_aiScore result) = true
    /\ convertible (prop (pr_extractedData result) "totalPrice") = true.

(** What the handler answers once the fallback tier has run. *)
Definition fallbackAnswer (e : Error) (b : InboundBody) : Prop :=
  (exists pid vn rt ed, b = FallbackCreated pid vn rt ed)
  \/ (exists i, b = BothFailed (lit "Failed to process vendor proposal: " ++ e) i)
  \/ (exists err, b = Failed err).

(** The calls that only look something up. *)
Definition lookupSite (s : Site) : bool :=
  match s with
  | ResendGet | GetRFPById | GetVendorByEmail => true
  | _ => false
  end.

(** A value that is neither an array nor an object, and one that is not an
    object. *)
Definition scalar (v : json) : Prop :=
  match v with
  | JArr _ | JObj _ => False
  | _ => True
  end.

Definition countable (v : json) : Prop :=
  match v with
  | JObj _ => False
  | _ => True
  end.

(** The fields that the scoring converts to numbers and to text hold what
    their types say, numbers, texts or nothing, and those it measures are
    arrays, if anything: the conversions do not throw. *)
Definition scorable (rfpData : StructuredRFP) (proposalData : json) : Prop :=
  scalar (budget rfpData) /\ scalar (rfp_deliveryDays rfpData)
  /\ scalar (prop proposalData "totalPrice")
  /\ scalar (prop proposalData "deliveryDays")
  /\ countable (prop proposalData "items")
  /\ countable (prop proposalData "additionalServices").

(** A value that is neither an object nor [null] has no property. *)
Definition isPrimitive (v : json) : Prop :=
  match v with
  | JBool _ | JNum _ | JStr _ => True
  | _ => False
  end.

(** The characters of a class at the front of a text, and the rest. *)
Fixpoint leading (p : char -> bool) (s : jsstring) : jsstring :=
  match s with
  | x :: t => if p x then x :: leading p t else []
  | [] => []
  end.

Fixpoint afterLeading (p : char -> bool) (s : jsstring) : jsstring :=
  match s with
  | x :: t => if p x then afterLeading p t else s
  | [] => []
  end.

(** The items of the named products, before the two fallbacks. *)
Definition knownItems {RT : Runtime} {LC : Locale} (prompt : jsstring)
  : list Structuring.Item :=
  snd (fold_left (fun st m => Structuring.itemStep prompt m st)
                 (execAll Structuring.itemPattern1 prompt) ([], [])).

(** The item that stands for a request in which no item was found. *)
Definition procurementItem (prompt : jsstring) : Structuring.Item :=
  Structuring.mkItem (lit "Procurement Item") (num 1)
                     (Some [(lit "description", substring0 200 prompt)]).

Definition isComma (x : char) : bool := (x =? 44)%N.

Definition namesOf {RT : Runtime} (items : list Structuring.Item)
  : list jsstring :=
  map (fun it => toLowerCase (Structuring.name it)) items.

(** What the loop over the matches of the generic expression keeps. *)
Definition plausible (it : Structuring.Item) : Prop :=
  Structuring.specifications it = None
  /\ num_ltb (num 0) (Structuring.quantity it) = true
  /\ num_ltb (Structuring.quantity it) (num 10000) = true.

(** [idv] is the only UUID of the text. *)
Definition onlyUUID (idv text : jsstring) : Prop :=
  forall u, isUUID u -> occursIn u text -> u = idv.

(* ================================================================== *)
(** * A small world to run the controllers on *)
(* ================================================================== *)

Module Example.
Definition uuid : jsstring := lit "123e4567-e89b-12d3-a456-426614174000".
Definition acme : Vendor := mkVendor (lit "v1") (lit "Acme") (lit "bob@acme.com").
Definition laptops : RFP := mkRFP uuid (lit "Laptops").

Definition noFault : Site -> option Error := fun _ => None.

Definition faultAt (s0 : Site) : Site -> option Error :=
  fun s => if site_eqb s s0 then Some (lit "connection lost") else None.


(** The LLM is out of quota: the extraction throws and leaves the store
    as it is. *)
Definition aiDown : DB -> Result ProposalResult * DB :=
  fun d => (Throw (lit "quota exceeded"), d).

Definition env (f : Site -> option Error)
           (ai : DB -> Result ProposalResult * DB) : Env :=
  {| now := 7%N;
     dbFault := f;
     resend_get := fun _ => Throw (lit "not found");
     getRFPById := fun i => Ok (if str_eqb i uuid then Some laptops else None);
     getVendorByEmail :=
       fun e => Ok (if str_eqb e (lit "bob@acme.com") then Some acme else None);
     processVendorProposal := fun _ _ _ d => ai d |}.

Definition store : DB :=
  mkDB [] []
       [mkRFPVendor uuid (lit "v1") SENT; mkRFPVendor uuid (lit "v2") SENT]
       1%N.

Definition emailOf (subject text : string) : EmailData :=
  mkEmailData (Some (lit "msg-1")) (Some (lit "Bob <Bob@Acme.com>"))
              (Some (lit subject)) (Some (lit text)) None.

Definition payloadOf (subject text : string) : WebhookPayload :=
  mkPayload (JStr (lit "email.received")) (Some (emailOf subject text)).

Definition received (subject text : string) : option WebhookPayload :=
  Some (payloadOf subject text).

Definition reply : option WebhookPayload :=
  received "Re: RFP ID: 123e4567-e89b-12d3-a456-426614174000"
           "Total: 500. Delivery: 3 days".

Definition delivered : WebhookPayload :=
  mkPayload (JStr (lit "email.delivered")) None.

(** An event whose [type] is an object with a [toString] key. *)
Definition oddEvent : WebhookPayload :=
  mkPayload (JObj [(lit "toString", JNum (num 1))]) None.

(** A second message of the same vendor, whose id is in the body only. *)
Definition secondReply : option WebhookPayload :=
  Some (mkPayload (JStr (lit "email.received"))
          (Some (mkEmailData (Some (lit "msg-2")) (Some (lit "bob@acme.com"))
                             (Some (lit "Our revised offer"))
                             (Some (lit "For RFP-123e4567-e89b-12d3-a456-426614174000: Total: 450"))
                             None))).

(** The store after the fallback tier handled [reply]. *)
Definition storeAfterReply : DB :=
  db (snd (run (handleInboundEmail (RT:=RefRuntime.runtime)
                  (env noFault aiDown) reply) store)).

(** The fourth call of a run: the extraction, when the handler gets
    there without fetching from Resend. *)
Definition thirdCall (w : World) : Call :=
  nth 3 (log w) (mkCall ResendGet store None).

(** A reply of the model, and a runtime that parses it. *)
Definition scoreJson : jsstring :=
  lit "{" ++ [34%N] ++ lit "score" ++ [34%N] ++ lit ": 150}".

Definition fencedReply : jsstring :=
  lit "```json" ++ [10%N] ++ scoreJson ++ [10%N] ++ lit "```".

Definition scoreRuntime : Runtime :=
  {| parseFloat := RefRuntime.refParseFloat;
     parseInt := RefRuntime.refParseInt;
     toLowerCase := RefRuntime.refLower;
     JSON_parse :=
       fun s => if str_eqb s scoreJson
                then Ok (JObj [(lit "score", JNum (num 150))])
                else Throw (lit "Unexpected token");
     StringToNumber := RefRuntime.refParseFloat;
     ToString := fun _ => [];
     num_div := fun _ _ => NaN;
     num_sub := fun _ _ => NaN |}.

(** A model that answers with a score in words. *)
Definition wordsJson : jsstring :=
  lit "{" ++ [34%N] ++ lit "score" ++ [34%N] ++ lit ": " ++ [34%N]
  ++ lit "high" ++ [34%N] ++ lit "}".

Definition wordsRuntime : Runtime :=
  {| parseFloat := RefRuntime.refParseFloat;
     parseInt := RefRuntime.refParseInt;
     toLowerCase := RefRuntime.refLower;
     JSON_parse :=
       fun s => if str_eqb s wordsJson
                then Ok (JObj [(lit "score", JStr (lit "high"))])
                else Throw (lit "Unexpected token");
     StringToNumber := fun _ => NaN;
     ToString := fun _ => [];
     num_div := fun _ _ => NaN;
     num_sub := fun _ _ => NaN |}.
End Example.

(* ================================================================== *)
(** * More of the small world: a model that answers, a locale, an RFP *)
(* ================================================================== *)

Module Example2.
Import Example.

(** The extraction succeeds: it stores a proposal scored 80 and answers
    with its id. *)
Definition aiUp : DB -> Result ProposalResult * DB :=
  fun d =>
    (Ok (mkProposalResult (nextId d) (JNum (num 80)) (JObj [])),
     mkDB (inboundEmails d)
          (proposals d
           ++ [mkProposal (nextId d) uuid (lit "v1") [] (FromAI (JObj []))
                          (Some (num 80)) None false])
          (rfpVendors d) (nextId d + 1)).

(** Upper case for the letters of ASCII, and the product of two finite
    numbers. *)
Definition refUpper (s : jsstring) : jsstring :=
  map (fun c => if isLowerAscii c then (c - 32)%N else c) s.

Definition refMul (a b : JSNumber) : JSNumber :=
  match a, b with
  | Fin x, Fin y => Fin (Qred (x * y))
  | _, _ => NaN
  end.

Definition locale : Locale :=
  {| toUpperCase := refUpper;
     toLocaleString := fun _ => [];
     num_mul := refMul |}.

Definition laptopsRFP : Structuring.StructuredRFP :=
  Structuring.mkStructuredRFP
    (Some uuid) (lit "Laptops") (lit "We need 20 laptops")
    [Structuring.mkItem (lit "Laptop") (num 20) None]
    None None (Some (lit "Net 30")) None None.

(** A message sent as HTML only, whose text the handler received without
    any tag. *)
Definition htmlEmail : EmailData :=
  mkEmailData (Some (lit "msg-2")) (Some (lit "bob@acme.com"))
              (Some (lit "Offer")) None (Some (lit "<p>Total: 500</p>")).

(** The text that reached the handler for it, and the full email. *)
Definition htmlText : jsstring := lit "Total:  500 &amp; more".
Definition htmlFull : FullEmail :=
  mkFullEmail None (Some (lit "<p>Total: 500</p>")) None.

Definition offer : jsstring :=
  lit "Total: Rs. 1,200.50, delivery: 14 days. Payment terms: Net 30 on receipt. 2 years warranty".

(** The fifth call of a run: the update that marks the email as
    processed, when the handler gets there. *)
Definition fourthCall (w : World) : Call :=
  nth 4 (log w) (mkCall ResendGet store None).

(** A runtime that parses the empty object. *)
Definition objRuntime : Runtime :=
  {| parseFloat := RefRuntime.refParseFloat;
     parseInt := RefRuntime.refParseInt;
     toLowerCase := RefRuntime.refLower;
     JSON_parse :=
       fun s => if str_eqb s (lit "{}")
                then Ok (JObj [])
                else Throw (lit "Unexpected token");
     StringToNumber := RefRuntime.refParseFloat;
     ToString := fun _ => [];
     num_div := fun _ _ => NaN;
     num_sub := fun _ _ => NaN |}.
End Example2.

(* ================================================================== *)
(** * Proofs *)
(* ================================================================== *)

Lemma str_eqb_eq a b : str_eqb a b = true <-> a = b.
Proof.
  unfold str_eqb. destruct (list_eq_dec N.eq_dec a b); split; congruence.
Qed.

Lemma str_eqb_refl a : str_eqb a a = true.
Proof. apply str_eqb_eq. reflexivity. Qed.

Lemma suffixOf_refl s : suffixOf s s.
Proof. exists []. reflexivity. Qed.

Lemma suffixOf_trans a b c : suffixOf a b -> suffixOf b c -> suffixOf a c.
Proof.
  intros [p Hp] [q Hq]. exists (q ++ p). subst. now rewrite app_assoc.
Qed.

Lemma suffixOf_cons x s : suffixOf s (x :: s).
Proof. exists [x]. reflexivity. Qed.

Lemma suffixOf_length a b : suffixOf a b -> List.length a <= List.length b.
Proof. intros [p ->]. rewrite length_app. lia. Qed.

Lemma starLoop_inv (A : Type) g (step : jsstring -> option jsstring -> Cont A -> option A) k :
  KeepsCapture step ->
  forall fuel s c a,
    starLoop g step k fuel s c = Some a ->
    exists s1 c1, k s1 c1 = Some a /\ suffixOf s1 s /\ (c <> None -> c1 <> None).
Proof.
  intros Hstep fuel.
  induction fuel as [|fuel IH]; intros s c a H; simpl in H.
  - destruct g.
    + exists s, c. split; [exact H|]. split; [apply suffixOf_refl|tauto].
    + destruct (k s c) eqn:E; [|discriminate].
      exists s, c. split; [congruence|]. split; [apply suffixOf_refl|tauto].
  - assert (Hmore : forall a0,
               step s c (fun s1 c1 =>
                           if List.length s1 <? List.length s
                           then starLoop g step k fuel s1 c1 else None) = Some a0 ->
               exists s1 c1, k s1 c1 = Some a0 /\ suffixOf s1 s
                             /\ (c <> None -> c1 <> None)).
    { intros a0 Hm. apply Hstep in Hm.
      destruct Hm as (s1 & c1 & Hm & Hs1 & Hc1).
      destruct (List.length s1 <? List.length s); [|discriminate].
      apply IH in Hm. destruct Hm as (s2 & c2 & Hm & Hs2 & Hc2).
      exists s2, c2. split; [exact Hm|].
      split; [eapply suffixOf_trans; eauto|tauto]. }
    destruct g.
    + match type of H with
      | match ?X with _ => _ end = _ => destruct X eqn:E
      end.
      * inversion H; subst. apply Hmore. reflexivity.
      * exists s, c. split; [exact H|]. split; [apply suffixOf_refl|tauto].
    + destruct (k s c) eqn:E.
      * exists s, c. split; [congruence|]. split; [apply suffixOf_refl|tauto].
      * apply Hmore. exact H.
Qed.

(** A successful match went on with the continuation, on a suffix of the
    input, and with a capture as soon as the expression has a group on
    every path or one was already set. *)
Lemma mtch_inv (A : Type) (r : regex) :
  forall s c (k : Cont A) a,
    mtch r s c k = Some a ->
    exists s1 c1,
      k s1 c1 = Some a /\ suffixOf s1 s
      /\ (captures r = true \/ c <> None -> c1 <> None).
Proof.
  induction r as [ | p | r1 IH1 r2 IH2 | r1 IH1 r2 IH2 | g r1 IH1 | r1 IH1];
    intros s c k a H; simpl in H.
  - exists s, c. split; [exact H|]. split; [apply suffixOf_refl|].
    intros [Hc|Hc]; [discriminate|exact Hc].
  - destruct s as [|x s']; [discriminate|].
    destruct (p x); [|discriminate].
    exists s', c. split; [exact H|]. split; [apply suffixOf_cons|].
    intros [Hc|Hc]; [discriminate|exact Hc].
  - apply IH1 in H. destruct H as (s1 & c1 & H & Hs1 & Hc1).
    apply IH2 in H. destruct H as (s2 & c2 & H & Hs2 & Hc2).
    exists s2, c2. split; [exact H|]. split; [eapply suffixOf_trans; eauto|].
    simpl. intros [Hc|Hc].
    + apply orb_true_iff in Hc. destruct Hc as [Hc|Hc].
      * apply Hc2. right. apply Hc1. now left.
      * apply Hc2. now left.
    + apply Hc2. right. apply Hc1. now right.
  - destruct (mtch r1 s c k) eqn:E1.
    + inversion H; subst. apply IH1 in E1.
      destruct E1 as (s1 & c1 & E1 & Hs1 & Hc1).
      exists s1, c1. split; [exact E1|]. split; [exact Hs1|].
      simpl. intros [Hc|Hc]; apply Hc1.
      * apply andb_true_iff in Hc. left. tauto.
      * now right.
    + apply IH2 in H. destruct H as (s1 & c1 & E2 & Hs1 & Hc1).
      exists s1, c1. split; [exact E2|]. split; [exact Hs1|].
      simpl. intros [Hc|Hc]; apply Hc1.
      * apply andb_true_iff in Hc. left. tauto.
      * now right.
  - apply starLoop_inv in H.
    + destruct H as (s1 & c1 & H & Hs1 & Hc1).
      exists s1, c1. split; [exact H|]. split; [exact Hs1|].
      intros [Hc|Hc]; [discriminate|tauto].
    + intros s0 c0 k0 a0 H0. apply IH1 in H0.
      destruct H0 as (s1 & c1 & H0 & Hs1 & Hc1).
      exists s1, c1. split; [exact H0|]. split; [exact Hs1|]. intros Hc. apply Hc1. now right.
  - apply IH1 in H. destruct H as (s1 & c1 & H & Hs1 & _).
    eexists s1, _. split; [exact H|]. split; [exact Hs1|].
    intros _. discriminate.
Qed.

Lemma matchHere_group r s w c :
  captures r = true -> matchHere r s = Some (w, c) -> c <> None.
Proof.
  unfold matchHere. intros Hr H. apply mtch_inv in H.
  destruct H as (s1 & c1 & H & _ & Hc). inversion H; subst.
  apply Hc. now left.
Qed.

Lemma execFrom_inv r : forall s i m,
  execFrom r i s = Some m ->
  exists s1, suffixOf s1 s /\ matchHere r s1 = Some (m_whole m, m_group1 m).
Proof.
  induction s as [|x s IH]; intros i m H; simpl in H.
  - destruct (matchHere r []) as [[w c]|] eqn:E; [|discriminate].
    inversion H; subst. exists []. split; [apply suffixOf_refl|exact E].
  - destruct (matchHere r (x :: s)) as [[w c]|] eqn:E.
    + inversion H; subst. exists (x :: s). split; [apply suffixOf_refl|exact E].
    + apply IH in H. destruct H as (s1 & Hs & H). exists s1.
      split; [|exact H]. eapply suffixOf_trans; [exact Hs|apply suffixOf_cons].
Qed.

(** The group of an expression that has one on every path is always set:
    [match[1]] is never [undefined]. *)
Lemma exec_group1_defined r s m :
  captures r = true -> exec r s = Some m -> exists g, m_group1 m = Some g.
Proof.
  intros Hr H. apply execFrom_inv in H. destruct H as (s1 & _ & H).
  apply matchHere_group in H; [|exact Hr].
  destruct (m_group1 m) as [g|]; [now exists g|congruence].
Qed.

(** ** Fixed shapes *)

Lemma isShape_Eps : isShape Eps [].
Proof. intros A s c k. reflexivity. Qed.

Lemma isShape_Chr p : isShape (Chr p) [p].
Proof.
  intros A s c k. simpl. destruct s as [|x s']; [reflexivity|].
  destruct (p x); reflexivity.
Qed.

Lemma prefixFits_app sh1 : forall sh2 s,
  prefixFits (sh1 ++ sh2) s
  = prefixFits sh1 s && prefixFits sh2 (skipn (List.length sh1) s).
Proof.
  induction sh1 as [|p sh1 IH]; intros sh2 s; simpl.
  - reflexivity.
  - destruct s as [|x s']; [reflexivity|].
    rewrite IH. now rewrite andb_assoc.
Qed.

Lemma isShape_Seq r1 r2 sh1 sh2 :
  isShape r1 sh1 -> isShape r2 sh2 -> isShape (Seq r1 r2) (sh1 ++ sh2).
Proof.
  intros H1 H2 A s c k. simpl. rewrite H1, prefixFits_app.
  destruct (prefixFits sh1 s); simpl; [|reflexivity].
  rewrite H2. rewrite length_app, Nat.add_comm, <- skipn_skipn. reflexivity.
Qed.

Lemma isShape_Rep r sh n :
  isShape r sh -> isShape (Rep n r) (concat (repeat sh n)).
Proof.
  intros H. induction n as [|n IH]; simpl.
  - apply isShape_Eps.
  - apply isShape_Seq; assumption.
Qed.

Lemma isShape_eq r sh sh' : sh = sh' -> isShape r sh -> isShape r sh'.
Proof. intros ->. trivial. Qed.

Lemma isShape_uuidRe : isShape uuidRe uuidShape.
Proof.
  eapply isShape_eq; cycle 1.
  - unfold uuidRe, seqs, hex, dash; simpl fold_right.
    repeat first [ apply isShape_Seq | apply isShape_Rep | apply isShape_Chr
                 | apply isShape_Eps ].
  - reflexivity.
Qed.

Lemma prefixFits_length sh : forall s,
  prefixFits sh s = true -> List.length sh <= List.length s.
Proof.
  induction sh as [|p sh IH]; intros s H; simpl in *.
  - lia.
  - destruct s as [|x s']; [discriminate|].
    apply andb_true_iff in H. destruct H as [_ H]. apply IH in H. simpl. lia.
Qed.

Lemma prefixFits_firstn sh : forall s,
  prefixFits sh s = true -> prefixFits sh (firstn (List.length sh) s) = true.
Proof.
  induction sh as [|p sh IH]; intros s H; simpl in *.
  - reflexivity.
  - destruct s as [|x s']; [discriminate|].
    apply andb_true_iff in H. destruct H as [Hp H]. simpl.
    rewrite Hp. simpl. now apply IH.
Qed.

(** The group [(uuid)] matches exactly where 36 characters have the shape,
    and captures them. *)
Lemma mtch_Cap_uuid (A : Type) s c (k : Cont A) :
  mtch (Cap uuidRe) s c k
  = if prefixFits uuidShape s then k (skipn 36 s) (Some (firstn 36 s)) else None.
Proof.
  change (mtch (Cap uuidRe) s c k)
    with (mtch uuidRe s c
            (fun s1 _ => k s1 (Some (firstn (List.length s - List.length s1) s)))).
  rewrite isShape_uuidRe.
  destruct (prefixFits uuidShape s) eqn:E; [|reflexivity].
  apply prefixFits_length in E. change (List.length uuidShape) with 36 in *.
  rewrite length_skipn. replace (List.length s - (List.length s - 36)) with 36 by lia.
  reflexivity.
Qed.

Lemma isUUID_window s :
  prefixFits uuidShape s = true -> isUUID (firstn 36 s).
Proof.
  intros H. split.
  - apply prefixFits_length in H. change (List.length uuidShape) with 36 in H.
    rewrite length_firstn. lia.
  - now apply (prefixFits_firstn uuidShape).
Qed.

Lemma occursIn_window s1 s n : suffixOf s1 s -> occursIn (firstn n s1) s.
Proof.
  intros [p ->]. exists p, (skipn n s1). now rewrite firstn_skipn.
Qed.

(** [pattern3] finds the leftmost window of the shape. *)
Lemma matchHere_pattern3 s :
  matchHere pattern3 s
  = if prefixFits uuidShape s then Some (firstn 36 s, Some (firstn 36 s)) else None.
Proof.
  unfold matchHere, pattern3. rewrite mtch_Cap_uuid.
  destruct (prefixFits uuidShape s) eqn:E; [|reflexivity].
  apply prefixFits_length in E. change (List.length uuidShape) with 36 in E.
  rewrite length_skipn. replace (List.length s - (List.length s - 36)) with 36 by lia.
  reflexivity.
Qed.

Lemma execFrom_eq r i s :
  execFrom r i s
  = match matchHere r s with
    | Some (w, c) => Some (mkMatch i w c)
    | None => match s with [] => None | _ :: s' => execFrom r (S i) s' end
    end.
Proof. destruct s; reflexivity. Qed.

Lemma firstUUID_eq s :
  firstUUID s
  = if prefixFits uuidShape s then Some (firstn 36 s)
    else match s with [] => None | _ :: s' => firstUUID s' end.
Proof. destruct s; reflexivity. Qed.

Lemma execFrom_pattern3 s : forall i,
  match execFrom pattern3 i s with
  | Some m => m_group1 m = firstUUID s /\ firstUUID s <> None
  | None => firstUUID s = None
  end.
Proof.
  induction s as [|x s IH]; intros i; rewrite execFrom_eq, matchHere_pattern3.
  - simpl. auto.
  - rewrite (firstUUID_eq (x :: s)).
    destruct (prefixFits uuidShape (x :: s)).
    + split; [reflexivity|discriminate].
    + apply IH.
Qed.

(** A pattern that ends with the group [(uuid)] captures a window of the
    shape that occurs in the text. *)
Lemma mtch_seqs_last (A : Type) (l : list regex) r : forall s c (k : Cont A) a,
  mtch (seqs (l ++ [r])) s c k = Some a ->
  exists s1 c1, suffixOf s1 s /\ mtch r s1 c1 k = Some a.
Proof.
  induction l as [|r0 l IH]; intros s c k a H; simpl in H.
  - exists s, c. split; [apply suffixOf_refl|exact H].
  - apply mtch_inv in H. destruct H as (s1 & c1 & H & Hs1 & _).
    apply IH in H. destruct H as (s2 & c2 & Hs2 & H).
    exists s2, c2. split; [eapply suffixOf_trans; eauto|exact H].
Qed.

Lemma exec_uuid_last (l : list regex) s m :
  exec (seqs (l ++ [Cap uuidRe])) s = Some m ->
  exists u, m_group1 m = Some u /\ isUUID u /\ occursIn u s.
Proof.
  intros H. apply execFrom_inv in H. destruct H as (s0 & Hs0 & H).
  unfold matchHere in H. apply mtch_seqs_last in H.
  destruct H as (s1 & c1 & Hs1 & H). rewrite mtch_Cap_uuid in H.
  destruct (prefixFits uuidShape s1) eqn:E; [|discriminate].
  remember (firstn 36 s1) as u eqn:Hu.
  injection H as _ Hg. exists u. split; [symmetry; exact Hg|]. subst u.
  split; [now apply isUUID_window|].
  apply occursIn_window. eapply suffixOf_trans; eauto.
Qed.

Lemma firstUUID_spec s : forall u,
  firstUUID s = Some u -> isUUID u /\ occursIn u s.
Proof.
  induction s as [|x s IH]; intros u; rewrite firstUUID_eq.
  - destruct (prefixFits uuidShape []) eqn:E; [|discriminate].
    discriminate E.
  - destruct (prefixFits uuidShape (x :: s)) eqn:E.
    + remember (firstn 36 (x :: s)) as w eqn:Hw.
      intros H. injection H as <-. subst w. split; [now apply isUUID_window|].
      apply occursIn_window, suffixOf_refl.
    + intros H. apply IH in H. destruct H as [Hu (p & q & ->)].
      split; [exact Hu|]. exists (x :: p), q. reflexivity.
Qed.

(** No window of the shape anywhere: no UUID occurs in the text. *)
Lemma firstUUID_none s :
  firstUUID s = None -> forall u, isUUID u -> ~ occursIn u s.
Proof.
  induction s as [|x s IH]; rewrite firstUUID_eq.
  - intros _ u [Hl _] (p & q & H).
    apply (f_equal (@List.length _)) in H. rewrite !length_app in H. simpl in H. lia.
  - destruct (prefixFits uuidShape (x :: s)) eqn:E; [discriminate|].
    intros H u Hu (p & q & Heq). destruct p as [|y p].
    + simpl in Heq. rewrite Heq in E. destruct Hu as [_ Hu].
      assert (prefixFits uuidShape (u ++ q) = true).
      { clear -Hu. revert u Hu. generalize uuidShape as sh.
        induction sh as [|f sh IHs]; intros u Hu; [reflexivity|].
        destruct u as [|z u]; [discriminate|]. simpl in *.
        apply andb_true_iff in Hu. destruct Hu as [-> Hu]. simpl. now apply IHs. }
      congruence.
    + inversion Heq; subst. apply (IH H u Hu). exists p, q. reflexivity.
Qed.


(** ** The loops of the fallback parser *)

Lemma forOf_first_match (S : Type) (body : jsstring)
      (f : MatchResult -> S -> S) (ps : list regex) (d : S) :
  forOf ps
    (fun pattern d =>
       match exec pattern body with
       | Some m => Break (f m d)
       | None => Continue d
       end) d
  = match find (matches body) ps with
    | Some p =>
        match exec p body with
        | Some m => f m d
        | None => d
        end
    | None => d
    end.
Proof.
  induction ps as [|p ps IH]; simpl.
  - reflexivity.
  - unfold matches at 1. destruct (exec p body) eqn:E.
    + now rewrite E.
    + apply IH.
Qed.

Lemma find_matches_some body ps p :
  find (matches body) ps = Some p -> exists m, exec p body = Some m.
Proof.
  intros H. apply find_some in H. destruct H as [_ H].
  unfold matches in H. destruct (exec p body) as [m|]; [now exists m|discriminate].
Qed.

Lemma firstn_le_length (A : Type) n (l : list A) : List.length (firstn n l) <= n.
Proof. rewrite length_firstn. lia. Qed.



(** ** [extractRFPId] *)

Lemma pattern1_last :
  pattern1 = seqs ([wordCI "RFP"; Star true ws; wordCI "ID"; Star true ws;
                    Plus (Chr isColonSpaceDash)] ++ [Cap uuidRe]).
Proof. reflexivity. Qed.

Lemma pattern2_last :
  pattern2 = seqs ([wordCI "RFP"; Plus (Chr isColonSpaceDash)] ++ [Cap uuidRe]).
Proof. reflexivity. Qed.

Lemma exec_pattern3 s :
  match exec pattern3 s with
  | Some m => m_group1 m = firstUUID s
  | None => firstUUID s = None
  end.
Proof.
  unfold exec. pose proof (execFrom_pattern3 s 0) as H.
  destruct (execFrom pattern3 0 s); tauto.
Qed.

Lemma extractRFPId_eq subject body :
  extractRFPId subject body
  = match exec pattern1 (rfpText subject body) with
    | Some m => m_group1 m
    | None =>
        match exec pattern2 (rfpText subject body) with
        | Some m => m_group1 m
        | None => firstUUID (rfpText subject body)
        end
    end.
Proof.
  unfold extractRFPId.
  destruct (exec pattern1 _); [reflexivity|].
  destruct (exec pattern2 _); [reflexivity|].
  pose proof (exec_pattern3 (rfpText subject body)) as H.
  destruct (exec pattern3 _); congruence.
Qed.

Lemma extractRFPId_some subject body u :
  extractRFPId subject body = Some u ->
  isUUID u /\ occursIn u (rfpText subject body).
Proof.
  rewrite extractRFPId_eq.
  destruct (exec pattern1 _) as [m|] eqn:E1.
  { rewrite pattern1_last in E1. apply exec_uuid_last in E1.
    destruct E1 as (v & Hv & H1 & H2). intros H. rewrite Hv in H.
    injection H as <-. tauto. }
  destruct (exec pattern2 _) as [m|] eqn:E2.
  { rewrite pattern2_last in E2. apply exec_uuid_last in E2.
    destruct E2 as (v & Hv & H1 & H2). intros H. rewrite Hv in H.
    injection H as <-. tauto. }
  apply firstUUID_spec.
Qed.

Lemma extractRFPId_none subject body :
  extractRFPId subject body = None ->
  forall u, isUUID u -> ~ occursIn u (rfpText subject body).
Proof.
  rewrite extractRFPId_eq.
  destruct (exec pattern1 _) as [m|] eqn:E1.
  { rewrite pattern1_last in E1. apply exec_uuid_last in E1.
    destruct E1 as (v & Hv & _). congruence. }
  destruct (exec pattern2 _) as [m|] eqn:E2.
  { rewrite pattern2_last in E2. apply exec_uuid_last in E2.
    destruct E2 as (v & Hv & _). congruence. }
  apply firstUUID_none.
Qed.

(** ** The patterns of [extractRFPId], read without backtracking *)

(** A greedy quantifier over a class, before something that cannot start
    with a character of the class, takes the whole run. *)
Lemma star_greedy_run (A : Type) p (k : Cont A) c :
  (forall x s', p x = true -> k (x :: s') c = None) ->
  forall s fuel, List.length s <= fuel ->
    starLoop true (mtch (Chr p)) k fuel s c = k (dropWhile p s) c.
Proof.
  intros Hk. induction s as [|x s IH]; intros fuel Hl.
  - destruct fuel; simpl; reflexivity.
  - destruct fuel as [|fuel]; [simpl in Hl; lia|].
    cbn [starLoop mtch dropWhile]. destruct (p x) eqn:Hx; [|reflexivity].
    replace (List.length s <? List.length (x :: s)) with true
      by (symmetry; apply Nat.ltb_lt; simpl; lia).
    rewrite IH by (simpl in Hl; lia).
    destruct (k (dropWhile p s) c); [reflexivity|]. now apply Hk.
Qed.

(** A greedy quantifier over a class gives back what it took when what
    follows reads the same one character earlier. *)
Lemma star_greedy_stable (A : Type) p (k : Cont A) c :
  (forall x s', p x = true -> k s' c = None \/ k (x :: s') c = k s' c) ->
  forall s fuel, List.length s <= fuel ->
    starLoop true (mtch (Chr p)) k fuel s c = k s c.
Proof.
  intros Hk. induction s as [|x s IH]; intros fuel Hl.
  - destruct fuel; simpl; reflexivity.
  - destruct fuel as [|fuel]; [simpl in Hl; lia|].
    cbn [starLoop mtch]. destruct (p x) eqn:Hx; [|reflexivity].
    replace (List.length s <? List.length (x :: s)) with true
      by (symmetry; apply Nat.ltb_lt; simpl; lia).
    rewrite IH by (simpl in Hl; lia).
    destruct (Hk x s Hx) as [H|H]; rewrite H; [reflexivity|].
    now destruct (k s c).
Qed.

Lemma mtch_wordCI (A : Type) (w : jsstring) : forall s c (k : Cont A),
  mtch (seqs (map (fun c => Chr (chrCI c)) w)) s c k
  = match afterWordCI w s with
    | Some s1 => k s1 c
    | None => None
    end.
Proof.
  induction w as [|a w IH]; intros s c k; [reflexivity|].
  cbn [map seqs fold_right mtch afterWordCI].
  destruct s as [|x s]; [reflexivity|].
  destruct (chrCI a x); [|reflexivity]. apply IH.
Qed.

Lemma mtch_seqs_cons (A : Type) r l s c (k : Cont A) :
  mtch (seqs (r :: l)) s c k = mtch r s c (fun s1 c1 => mtch (seqs l) s1 c1 k).
Proof. reflexivity. Qed.

Lemma space_is_separator x : isSpace x = true -> isColonSpaceDash x = true.
Proof. unfold isColonSpaceDash. intros ->. now rewrite orb_true_r. Qed.

Ltac to_arith :=
  repeat match goal with
         | H : _ || _ = true |- _ => apply orb_true_iff in H; destruct H as [H|H]
         | H : _ && _ = true |- _ => apply andb_true_iff in H; destruct H
         | H : (_ =? _)%N = true |- _ => apply N.eqb_eq in H
         | H : (_ <=? _)%N = true |- _ => apply N.leb_le in H
         | H : false = true |- _ => discriminate H
         end.

Lemma separator_not_hex x : isColonSpaceDash x = true -> isHexCI x = false.
Proof.
  intros H. destruct (isHexCI x) eqn:E; [exfalso|reflexivity].
  unfold isColonSpaceDash, isSpace in H. unfold isHexCI, isDigit in E.
  to_arith; lia.
Qed.

Lemma space_not_I x : isSpace x = true -> chrCI 73%N x = false.
Proof.
  intros H. destruct (chrCI 73%N x) eqn:E; [exfalso|reflexivity].
  unfold isSpace in H. unfold chrCI in E. simpl in E.
  to_arith; lia.
Qed.

Lemma uuid_not_separator x s :
  isColonSpaceDash x = true -> prefixFits uuidShape (x :: s) = false.
Proof.
  intros H. apply separator_not_hex in H.
  change (prefixFits uuidShape (x :: s))
    with (isHexCI x && prefixFits (tl uuidShape) s).
  now rewrite H.
Qed.

Lemma dropWhile_cons p x s : p x = true -> dropWhile p (x :: s) = dropWhile p s.
Proof. simpl. now intros ->. Qed.

Lemma mtch_Seq (A : Type) r1 r2 s c (k : Cont A) :
  mtch (Seq r1 r2) s c k = mtch r1 s c (fun s1 c1 => mtch r2 s1 c1 k).
Proof. reflexivity. Qed.

Lemma mtch_Chr (A : Type) p s c (k : Cont A) :
  mtch (Chr p) s c k
  = match s with
    | x :: s' => if p x then k s' c else None
    | [] => None
    end.
Proof. reflexivity. Qed.

Lemma mtch_star_run (A : Type) p s c (k : Cont A) :
  (forall x s', p x = true -> k (x :: s') c = None) ->
  mtch (Star true (Chr p)) s c k = k (dropWhile p s) c.
Proof.
  intros Hk.
  change (mtch (Star true (Chr p)) s c k)
    with (starLoop true (mtch (Chr p)) k (List.length s) s c).
  now apply star_greedy_run.
Qed.

Lemma mtch_star_stable (A : Type) p s c (k : Cont A) :
  (forall x s', p x = true -> k s' c = None \/ k (x :: s') c = k s' c) ->
  mtch (Star true (Chr p)) s c k = k s c.
Proof.
  intros Hk.
  change (mtch (Star true (Chr p)) s c k)
    with (starLoop true (mtch (Chr p)) k (List.length s) s c).
  now apply star_greedy_stable.
Qed.

Lemma mtch_uuid_end (A : Type) s c (k : Cont A) :
  mtch (seqs [Cap uuidRe]) s c k = uuidThen k s.
Proof.
  rewrite mtch_seqs_cons. rewrite mtch_Cap_uuid. reflexivity.
Qed.

(** [[:\s-]+(uuid)] and what follows. *)
Lemma mtch_separated (A : Type) s c (k : Cont A) :
  mtch (seqs [Plus (Chr isColonSpaceDash); Cap uuidRe]) s c k
  = match s with
    | x :: s' =>
        if isColonSpaceDash x
        then uuidThen k (dropWhile isColonSpaceDash s')
        else None
    | [] => None
    end.
Proof.
  rewrite mtch_seqs_cons. unfold Plus. rewrite mtch_Seq, mtch_Chr.
  destruct s as [|x s']; [reflexivity|].
  destruct (isColonSpaceDash x); [|reflexivity].
  rewrite mtch_star_run.
  - apply mtch_uuid_end.
  - intros y t Hy. rewrite mtch_uuid_end. unfold uuidThen.
    now rewrite (@uuid_not_separator y t Hy).
Qed.

(** [\s*[:\s-]+(uuid)]: the white space is part of the separators. *)
Lemma mtch_spaces_separated (A : Type) s c (k : Cont A) :
  mtch (seqs [Star true ws; Plus (Chr isColonSpaceDash); Cap uuidRe]) s c k
  = match s with
    | x :: s' =>
        if isColonSpaceDash x
        then uuidThen k (dropWhile isColonSpaceDash s')
        else None
    | [] => None
    end.
Proof.
  rewrite mtch_seqs_cons. unfold ws. rewrite mtch_star_stable.
  - apply mtch_separated.
  - intros x s' Hx. rewrite !mtch_separated.
    rewrite (space_is_separator x Hx).
    destruct s' as [|y t]; [now left|].
    destruct (isColonSpaceDash y) eqn:Hy; [right|now left].
    now rewrite (@dropWhile_cons isColonSpaceDash y t Hy).
Qed.

Lemma matchHere_cont (s : jsstring) :
  forall u, uuidThen (fun rest c => Some (firstn (length s - length rest) s, c)) u
            = match uuidHere u with
              | Some v => Some (firstn (length s - length (skipn 36 u)) s, Some v)
              | None => None
              end.
Proof. intros u. unfold uuidThen, uuidHere. now destruct (prefixFits uuidShape u). Qed.

(** The first pattern at the front of a text. *)
Lemma matchHere_pattern1 s :
  match matchHere pattern1 s with
  | Some (_, c) => c = labelledId s /\ labelledId s <> None
  | None => labelledId s = None
  end.
Proof.
  unfold matchHere, pattern1, labelledId. rewrite mtch_seqs_cons.
  unfold wordCI at 1. rewrite mtch_wordCI.
  destruct (afterWordCI (lit "RFP") s) as [s1|]; [|reflexivity].
  rewrite mtch_seqs_cons. unfold ws at 1. rewrite mtch_star_run.
  2:{ intros x s' Hx. rewrite mtch_seqs_cons. unfold wordCI.
      rewrite mtch_wordCI. cbn [lit afterWordCI].
      change (afterWordCI (lit "ID") (x :: s'))
        with (if chrCI 73%N x then afterWordCI (lit "D") s' else None).
      now rewrite (space_not_I x Hx). }
  rewrite mtch_seqs_cons. unfold wordCI. rewrite mtch_wordCI.
  destruct (afterWordCI (lit "ID") (dropWhile isSpace s1)) as [s2|]; [|reflexivity].
  rewrite mtch_spaces_separated. unfold separatedUUID.
  destruct s2 as [|x s']; [reflexivity|].
  destruct (isColonSpaceDash x); [|reflexivity].
  rewrite matchHere_cont.
  destruct (uuidHere (dropWhile isColonSpaceDash s')); [|reflexivity].
  split; [reflexivity|discriminate].
Qed.

(** The second pattern at the front of a text. *)
Lemma matchHere_pattern2 s :
  match matchHere pattern2 s with
  | Some (_, c) => c = labelledRfp s /\ labelledRfp s <> None
  | None => labelledRfp s = None
  end.
Proof.
  unfold matchHere, pattern2, labelledRfp. rewrite mtch_seqs_cons.
  unfold wordCI at 1. rewrite mtch_wordCI.
  destruct (afterWordCI (lit "RFP") s) as [s1|]; [|reflexivity].
  rewrite mtch_separated. unfold separatedUUID.
  destruct s1 as [|x s']; [reflexivity|].
  destruct (isColonSpaceDash x); [|reflexivity].
  rewrite matchHere_cont.
  destruct (uuidHere (dropWhile isColonSpaceDash s')); [|reflexivity].
  split; [reflexivity|discriminate].
Qed.

(** The scan of [exec] finds what [leftmost] finds. *)
Lemma execFrom_leftmost r f :
  (forall s, match matchHere r s with
             | Some (_, c) => c = f s /\ f s <> None
             | None => f s = None
             end) ->
  forall s i,
    match execFrom r i s with
    | Some m => m_group1 m = leftmost f s /\ leftmost f s <> None
    | None => leftmost f s = None
    end.
Proof.
  intros Hr. induction s as [|x s IH]; intros i; rewrite execFrom_eq.
  - pose proof (Hr ([] : jsstring)) as H0.
    destruct (matchHere r []) as [[w c]|]; simpl.
    + destruct H0 as [-> H0]. now destruct (f []).
    + now rewrite H0.
  - pose proof (Hr (x :: s)) as H1.
    destruct (matchHere r (x :: s)) as [[w c]|]; cbn [leftmost m_group1].
    + destruct H1 as [-> H1]. now destruct (f (x :: s)).
    + rewrite H1. apply IH.
Qed.

Lemma extractRFPId_spec subject body :
  extractRFPId subject body = rfpIdSpec subject body.
Proof.
  rewrite extractRFPId_eq. unfold rfpIdSpec.
  change (rfpText subject body) with (subject ++ 32%N :: body).
  set (text := subject ++ 32%N :: body).
  pose proof (@execFrom_leftmost pattern1 labelledId matchHere_pattern1 text 0) as H1.
  pose proof (@execFrom_leftmost pattern2 labelledRfp matchHere_pattern2 text 0) as H2.
  unfold exec.
  destruct (execFrom pattern1 0 text) as [m1|].
  - destruct H1 as [H1 H1']. rewrite H1.
    now destruct (leftmost labelledId text).
  - rewrite H1. destruct (execFrom pattern2 0 text) as [m2|].
    + destruct H2 as [H2 H2']. rewrite H2.
      now destruct (leftmost labelledRfp text).
    + now rewrite H2.
Qed.

(** ** Runs of the handler *)

Ltac unfold_m :=
  unfold bind, tryCatch, ret, throw, respond, getOrThrow, prisma, service,
    serviceDb in *.

Lemma resolveContent_ok (env : Env) (emailData : EmailData) (w : World) :
  exists content w1,
    resolveContent env emailData w = (Ok content, w1)
    /\ db w1 = db w
    /\ (log w1 = log w
        \/ exists e, log w1 = log w ++ [mkCall ResendGet (db w) e]).
Proof.
  unfold resolveContent.
  destruct (truthyStr (ed_text emailData) || truthyStr (ed_html emailData)).
  - eexists _, w. unfold ret. split; [reflexivity|]. split; [reflexivity|now left].
  - unfold_m. destruct (resend_get env (ed_email_id emailData)) as [[full|]|e];
      simpl; eexists _, _; (split; [reflexivity|]); (split; [reflexivity|]);
      right; eexists; reflexivity.
Qed.

Lemma processEmail_no_rfp (RT : Runtime) (env : Env) emailId from subject body w :
  extractRFPId subject body = None ->
  processEmail env emailId from subject body w = (Ok (mkResponse 200 NoRfpId), w).
Proof. intros H. unfold processEmail. rewrite H. reflexivity. Qed.

Lemma handle_received (RT : Runtime) (env : Env) payload emailData w content w1 :
  typeIs (wp_type payload) "email.received" = true ->
  wp_data payload = Some emailData ->
  resolveContent env emailData w = (Ok content, w1) ->
  handleInboundEmail env (Some payload) w
  = match intake emailData (fst content) (snd content) with
    | inl early => (Ok (mkResponse 200 early), w1)
    | inr (from, subject, emailBody) =>
        match processEmail env (ed_email_id emailData) from subject emailBody w1 with
        | (Ok r, w') => (Ok r, w')
        | (Throw e, w') => (Ok (mkResponse 200 (Failed e)), w')
        end
    end.
Proof.
  intros Ht Hd Hc. unfold handleInboundEmail. unfold_m. simpl.
  rewrite Ht, Hd. simpl. rewrite Hc.
  destruct (intake emailData (fst content) (snd content)) as [early|[[from subject] emailBody]];
    reflexivity.
Qed.

(** C4.  [extractRFPId] returns what the specification describes, read off
    the text without a regular expression ([rfpIdSpec]): in the subject, a
    space and the body put end to end, the UUID of the leftmost
    ['RFP ID: <uuid>'] (letters of either case, white space allowed before
    and after [ID], one or more colons, white spaces or dashes before the
    UUID), else the UUID of the leftmost ['RFP-<uuid>'] or ['RFP <uuid>'],
    else the leftmost UUID, else null.  A result is always a UUID that
    occurs in that text, and null means that no UUID occurs in it.  When it
    is null the handler answers 200 with 'no RFP ID found', the store
    unchanged and no call but a possible fetch from Resend. *)
Theorem extractRFPId_cascade (subject body : jsstring) :
  extractRFPId subject body = rfpIdSpec subject body
  /\ (forall u, extractRFPId subject body = Some u ->
                isUUID u /\ occursIn u (subject ++ 32%N :: body))
  /\ (extractRFPId subject body = None ->
      (forall u, isUUID u -> ~ occursIn u (subject ++ 32%N :: body))
      /\ forall (RT : Runtime) (env : Env) payload emailData w content w1 from,
          typeIs (wp_type payload) "email.received" = true ->
          wp_data payload = Some emailData ->
          resolveContent env emailData w = (Ok content, w1) ->
          intake emailData (fst content) (snd content)
          = inr (from, subject, body) ->
          handleInboundEmail env (Some payload) w
          = (Ok (mkResponse 200 NoRfpId), w1)
          /\ db w1 = db w
          /\ forall c, In c (log w1) -> In c (log w) \/ site c = ResendGet).
Proof.
  split; [apply extractRFPId_spec|].
  split; [intros u; apply extractRFPId_some|].
  intros Hnone. split; [now apply extractRFPId_none|].
  intros RT env payload emailData w content w1 from Ht Hd Hc Hi.
  rewrite (@handle_received RT env payload emailData w content w1 Ht Hd Hc), Hi.
  rewrite (@processEmail_no_rfp RT env _ from subject body w1 Hnone).
  split; [reflexivity|].
  destruct (resolveContent_ok env emailData w) as (c' & w1' & Hc' & Hdb & Hlog).
  rewrite Hc in Hc'. injection Hc' as <- <-.
  split; [exact Hdb|].
  intros c Hin. destruct Hlog as [Hl|[e Hl]]; rewrite Hl in Hin.
  - now left.
  - apply in_app_or in Hin. destruct Hin as [Hin|[<-|[]]]; [now left|now right].
Qed.

(** ** Events that are not [email.received] *)

Lemma handle_ignored (RT : Runtime) (env : Env)
      (payload : WebhookPayload) (w : World) :
  typeIs (wp_type payload) "email.received" = false ->
  handleInboundEmail env (Some payload) w
  = (Ok (mkResponse 200
           (if convertible (wp_type payload) then Ignored
            else Failed notConvertible)), w).
Proof.
  intros H. unfold handleInboundEmail, liftR, templateR. unfold_m. simpl.
  rewrite H. simpl. now destruct (convertible (wp_type payload)).
Qed.


(** ** Every path answers 200 *)

Lemma always200_respond (B : Type) (b : B) : Always200 (respond 200 b).
Proof. intros w r w' H. unfold respond, ret in H. now inversion H. Qed.

Lemma always200_bind (A B : Type) (m : M A) (k : A -> M (Response B)) :
  (forall a, Always200 (k a)) -> Always200 (bind m k).
Proof.
  intros Hk w r w' H. unfold bind in H.
  destruct (m w) as [[a|e] w1]; [|discriminate]. eapply Hk; eauto.
Qed.

Lemma always200_tryCatch (B : Type) (m : M (Response B)) h :
  Always200 m -> (forall e, Always200 (h e)) -> Always200 (tryCatch m h).
Proof.
  intros Hm Hh w r w' H. unfold tryCatch in H.
  destruct (m w) as [[a|e] w1] eqn:E.
  - inversion H; subst. eapply Hm; eauto.
  - eapply Hh; eauto.
Qed.


Lemma always200_fallbackTier (RT : Runtime) env rfpId vendor rfp body stored aiError :
  Always200 (fallbackTier env rfpId vendor rfp body stored aiError).
Proof.
  unfold fallbackTier.
  apply always200_tryCatch; [|intros e];
    repeat (apply always200_bind; intros ?); apply always200_respond.
Qed.

Lemma always200_extractionStage (RT : Runtime) env rfpId vendor rfp ve body stored :
  Always200 (extractionStage env rfpId vendor rfp ve body stored).
Proof.
  unfold extractionStage.
  apply always200_tryCatch.
  - repeat (apply always200_bind; intros ?). apply always200_respond.
  - intros e. apply always200_fallbackTier.
Qed.

Lemma always200_processEmail (RT : Runtime) env emailId from subject body :
  Always200 (processEmail env emailId from subject body).
Proof.
  unfold processEmail.
  destruct (extractRFPId subject body); [|apply always200_respond].
  apply always200_bind; intros [rfp|]; [|apply always200_respond].
  apply always200_bind; intros [vendor|]; [|apply always200_respond].
  apply always200_bind; intros stored. apply always200_extractionStage.
Qed.

(** C8.  Whatever the request, the services and the failures of the store,
    [handleInboundEmail] returns a response, never an exception, and its
    status is 200. *)
Theorem handleInboundEmail_always_200 (RT : Runtime) (env : Env)
        (req_body : option WebhookPayload) (w : World) :
  exists r w',
    handleInboundEmail env req_body w = (Ok r, w') /\ status r = 200%N.
Proof.
  assert (H200 : Always200 (handleInboundEmail env req_body)).
  { unfold handleInboundEmail. apply always200_tryCatch.
    - apply always200_bind; intros payload.
      destruct (negb (typeIs (wp_type payload) "email.received"));
        [apply always200_bind; intros _; apply always200_respond|].
      apply always200_bind; intros emailData.
      apply always200_bind; intros content.
      destruct (intake emailData (fst content) (snd content))
        as [early|[[from subject] body]];
        [apply always200_respond|apply always200_processEmail].
    - intros e. apply always200_respond. }
  destruct (handleInboundEmail env req_body w) as [[r|e] w'] eqn:E.
  - exists r, w'. split; [reflexivity|]. eapply H200; eauto.
  - exfalso. unfold handleInboundEmail, tryCatch in E.
    match type of E with
    | match ?X with _ => _ end = _ => destruct X as [[a|e0] w0]
    end; discriminate.
Qed.


(** ** The unique indexes of [InboundEmail] *)

Lemma fop_app_last (A : Type) (R : A -> A -> Prop) l x :
  ForallOrdPairs R l -> Forall (fun a => R a x) l ->
  ForallOrdPairs R (l ++ [x]).
Proof.
  induction 1 as [|a l Ha Hl IH]; intros Hx; simpl.
  - constructor; [constructor|constructor].
  - inversion Hx; subst. constructor.
    + apply Forall_app. split; [exact Ha|]. constructor; [assumption|constructor].
    + now apply IH.
Qed.

Lemma fop_map (A : Type) (R : A -> A -> Prop) (f : A -> A) l :
  ForallOrdPairs R l ->
  (forall a b, In a l -> In b l -> R a b -> R (f a) (f b)) ->
  ForallOrdPairs R (map f l).
Proof.
  induction 1 as [|a l Ha Hl IH]; intros Hf; simpl.
  - constructor.
  - constructor.
    + apply Forall_forall. intros y Hy. apply in_map_iff in Hy.
      destruct Hy as (b & <- & Hb). apply Hf; [now left|now right|].
      rewrite Forall_forall in Ha. now apply Ha.
    + apply IH. intros x y Hx Hy. apply Hf; now right.
Qed.

Lemma existsb_false (A : Type) (f : A -> bool) l :
  existsb f l = false -> forall x, In x l -> f x = false.
Proof.
  intros H x Hx. destruct (f x) eqn:E; [|reflexivity].
  assert (existsb f l = true) by (apply existsb_exists; eauto). congruence.
Qed.

Lemma optN_eqb_eq a b : optN_eqb a b = true <-> a = b.
Proof.
  destruct a, b; simpl; try (split; congruence).
  rewrite N.eqb_eq. split; congruence.
Qed.

Lemma create_unique now d db0 r db1 :
  inboundEmail_create now d db0 = (r, db1) ->
  emailsUnique db0 -> emailsUnique db1.
Proof.
  unfold inboundEmail_create, emailsUnique.
  destruct (cd_emailId d) as [e|]; [|intros H; now inversion H].
  destruct (hasEmailId e (inboundEmails db0)) eqn:E1; [intros H; now inversion H|].
  destruct (hasEmailPk (nextId db0) (inboundEmails db0)) eqn:E2;
    [intros H; now inversion H|].
  intros H U. inversion H; subst; clear H. simpl.
  apply fop_app_last; [exact U|].
  apply Forall_forall. intros a Ha. unfold distinctRows; simpl.
  pose proof (existsb_false _ _ E1 a Ha) as H1.
  pose proof (existsb_false _ _ E2 a Ha) as H2. simpl in H1, H2.
  split; [now apply N.eqb_neq|].
  split; [intros Heq; apply str_eqb_eq in Heq; congruence|].
  intros p _. discriminate.
Qed.

Lemma update_unique i p db0 r db1 :
  inboundEmail_update i p db0 = (r, db1) ->
  emailsUnique db0 -> emailsUnique db1.
Proof.
  unfold inboundEmail_update, emailsUnique.
  destruct (find _ (inboundEmails db0)) as [row|]; [|intros H; now inversion H].
  destruct (match set_proposalId p with
            | Some pid => proposalTaken i pid (inboundEmails db0)
            | None => false
            end) eqn:T; [intros H; now inversion H|].
  destruct (proposalMissing p (proposals db0)); [intros H; now inversion H|].
  intros H U. inversion H; subst; clear H. simpl.
  apply fop_map; [exact U|].
  intros a b Ha Hb (Hid & Hem & Hp).
  assert (Hother : forall x pid, In x (inboundEmails db0) -> ie_id x <> i ->
                     set_proposalId p = Some pid -> ie_proposalId x <> Some pid).
  { intros x pid Hx Hxi Hs. rewrite Hs in T.
    pose proof (existsb_false _ _ T x Hx) as Hf. simpl in Hf.
    apply N.eqb_neq in Hxi. rewrite Hxi in Hf. simpl in Hf.
    intros Heq. apply optN_eqb_eq in Heq. congruence. }
  destruct (ie_id a =? i)%N eqn:Ea; destruct (ie_id b =? i)%N eqn:Eb;
    unfold distinctRows; simpl.
  - apply N.eqb_eq in Ea, Eb. congruence.
  - apply N.eqb_neq in Eb.
    split; [exact Hid|]. split; [exact Hem|].
    intros q Hq. destruct (set_proposalId p) as [pid|] eqn:Es; simpl in Hq.
    + injection Hq as <-. now apply (Hother b pid).
    + now apply Hp.
  - apply N.eqb_neq in Ea.
    split; [exact Hid|]. split; [exact Hem|].
    intros q Hq. destruct (set_proposalId p) as [pid|] eqn:Es; simpl.
    + intros Heq. injection Heq as <-. now apply (Hother a pid).
    + now apply Hp.
  - split; [exact Hid|]. split; [exact Hem|exact Hp].
Qed.

Lemma delete_unique i db0 r db1 :
  proposal_delete i db0 = (r, db1) ->
  emailsUnique db0 -> emailsUnique db1.
Proof.
  unfold proposal_delete, emailsUnique.
  destruct (hasProposal i (proposals db0)); intros H U;
    inversion H; subst; clear H; simpl; [|exact U].
  apply fop_map; [exact U|].
  intros a b _ _ (Hid & Hem & Hp). unfold unlinkProposal.
  destruct (optN_eqb (ie_proposalId a) (Some i));
    destruct (optN_eqb (ie_proposalId b) (Some i));
    unfold distinctRows; simpl;
    (split; [exact Hid|]); (split; [exact Hem|]);
    first [exact Hp | intros q Hq; discriminate | intros q Hq; discriminate Hq].
Qed.

(** ** Invariants along a computation *)

Section PreservesRules.
Variable I : DB -> Prop.

Lemma preserves_ret (A : Type) (a : A) : Preserves I (ret a).
Proof. intros w r w' H. unfold ret in H. now inversion H. Qed.

Lemma preserves_throw (A : Type) e : Preserves I (@throw A e).
Proof. intros w r w' H. unfold throw in H. now inversion H. Qed.

Lemma preserves_respond (B : Type) n (b : B) : Preserves I (respond n b).
Proof. apply preserves_ret. Qed.

Lemma preserves_bind (A B : Type) (m : M A) (k : A -> M B) :
  Preserves I m -> (forall a, Preserves I (k a)) -> Preserves I (bind m k).
Proof.
  intros Hm Hk w r w' H Hi. unfold bind in H.
  destruct (m w) as [[a|e] w1] eqn:E.
  - eapply Hk; [exact H|]. eapply Hm; eauto.
  - inversion H; subst. eapply Hm; eauto.
Qed.

Lemma preserves_tryCatch (A : Type) (m : M A) h :
  Preserves I m -> (forall e, Preserves I (h e)) -> Preserves I (tryCatch m h).
Proof.
  intros Hm Hh w r w' H Hi. unfold tryCatch in H.
  destruct (m w) as [[a|e] w1] eqn:E.
  - inversion H; subst. eapply Hm; eauto.
  - eapply Hh; [exact H|]. eapply Hm; eauto.
Qed.

Lemma preserves_prisma (A : Type) env s (op : DB -> Result A * DB) :
  (forall d r d', op d = (r, d') -> I d -> I d') ->
  Preserves I (prisma env s op).
Proof.
  intros Hop w r w' H Hi. unfold prisma in H.
  destruct (dbFault env s); [now inversion H|].
  destruct (op (db w)) as [r0 d'] eqn:E. inversion H; subst. simpl.
  eapply Hop; eauto.
Qed.

Lemma preserves_service (A : Type) s (x : Result A) : Preserves I (service s x).
Proof. intros w r w' H. unfold service in H. now inversion H. Qed.

Lemma preserves_serviceDb (A : Type) s (op : DB -> Result A * DB) :
  (forall d r d', op d = (r, d') -> I d -> I d') ->
  Preserves I (serviceDb s op).
Proof.
  intros Hop w r w' H Hi. unfold serviceDb in H.
  destruct (op (db w)) as [r0 d'] eqn:E. inversion H; subst. simpl.
  eapply Hop; eauto.
Qed.

Lemma preserves_liftR (A : Type) (x : Result A) : Preserves I (liftR x).
Proof. intros w r w' H. unfold liftR in H. now inversion H. Qed.

Lemma preserves_getOrThrow (A : Type) (o : option A) msg :
  Preserves I (getOrThrow o msg).
Proof. destruct o; [apply preserves_ret|apply preserves_throw]. Qed.
End PreservesRules.

Lemma proposal_create_emails d db0 r db1 :
  proposal_create d db0 = (r, db1) -> inboundEmails db1 = inboundEmails db0.
Proof.
  unfold proposal_create. destruct (hasProposal _ _); intros H; now inversion H.
Qed.

Lemma updateMany_emails a b c db0 r db1 :
  rFPVendor_updateMany a b c db0 = (r, db1) ->
  inboundEmails db1 = inboundEmails db0.
Proof. unfold rFPVendor_updateMany. intros H; now inversion H. Qed.

Lemma resolveContent_preserves I env ed : Preserves I (resolveContent env ed).
Proof.
  intros w r w' H Hi.
  destruct (resolveContent_ok env ed w) as (c & w1 & E & Hdb & _).
  rewrite E in H. inversion H; subst. now rewrite Hdb.
Qed.

Lemma handleInboundEmail_unique (RT : Runtime) env req :
  keepsEmails env -> Preserves emailsUnique (handleInboundEmail env req).
Proof.
  intros Hk. unfold handleInboundEmail.
  apply preserves_tryCatch; [|intros e; apply preserves_respond].
  apply preserves_bind; [apply preserves_getOrThrow|intros payload].
  destruct (negb _).
  { apply preserves_bind; [apply preserves_liftR|intros _].
    apply preserves_respond. }
  apply preserves_bind; [apply preserves_getOrThrow|intros emailData].
  apply preserves_bind; [apply resolveContent_preserves|intros content].
  destruct (intake _ _ _) as [early|[[from subject] body]];
    [apply preserves_respond|].
  unfold processEmail.
  destruct (extractRFPId subject body) as [rfpId|]; [|apply preserves_respond].
  apply preserves_bind; [apply preserves_service|intros [rfp|]];
    [|apply preserves_respond].
  apply preserves_bind; [apply preserves_service|intros [vendor|]];
    [|apply preserves_respond].
  apply preserves_bind.
  { apply preserves_prisma. intros d r d' H. eapply create_unique; eauto. }
  intros stored. unfold extractionStage, fallbackTier.
  apply preserves_tryCatch.
  - apply preserves_bind.
    { apply preserves_serviceDb. intros d r d' H U. unfold emailsUnique.
      pose proof (Hk rfpId (extractEmailAddress from) body d) as Hf.
      rewrite H in Hf. simpl in Hf. now rewrite Hf. }
    intros result. apply preserves_bind.
    { apply preserves_prisma. intros d r d' H. eapply update_unique; eauto. }
    intros _. apply preserves_bind; [apply preserves_liftR|intros _].
    apply preserves_bind; [apply preserves_liftR|intros _].
    apply preserves_respond.
  - intros aiError. apply preserves_tryCatch.
    + apply preserves_bind.
      { apply preserves_prisma. intros d r d' H U. unfold emailsUnique.
        apply proposal_create_emails in H. now rewrite H. }
      intros prop. apply preserves_bind.
      { apply preserves_prisma. intros d r d' H U. unfold emailsUnique.
        apply updateMany_emails in H. now rewrite H. }
      intros _. apply preserves_bind; [|intros ?; apply preserves_respond].
      apply preserves_prisma. intros d r d' H. eapply update_unique; eauto.
    + intros fallbackError.
      apply preserves_bind; [|intros ?; apply preserves_respond].
      apply preserves_prisma. intros d r d' H. eapply update_unique; eauto.
Qed.

Lemma deleteProposal_unique env id :
  Preserves emailsUnique (deleteProposal env id).
Proof.
  unfold deleteProposal.
  apply preserves_tryCatch; [|intros e; apply preserves_respond].
  apply preserves_bind.
  { apply preserves_prisma. intros d r d' H U. unfold proposal_findUnique in H.
    now inversion H; subst. }
  intros [p|]; [|apply preserves_respond].
  apply preserves_bind.
  { apply preserves_prisma. intros d r d' H. eapply delete_unique; eauto. }
  intros _. apply preserves_bind; [|intros ?; apply preserves_respond].
  apply preserves_prisma. intros d r d' H U. unfold emailsUnique.
  apply updateMany_emails in H. now rewrite H.
Qed.


(** ** The stored row along the extraction stage *)

Lemma hasEmailPk_false i l :
  hasEmailPk i l = false -> forall x, In x l -> (ie_id x =? i)%N = false.
Proof. intros H x Hx. exact (existsb_false _ _ H x Hx). Qed.

Lemma find_last i l row :
  hasEmailPk i l = false -> ie_id row = i ->
  find (fun r => (ie_id r =? i)%N) (l ++ [row]) = Some row.
Proof.
  intros H Hi. induction l as [|x l IH]; simpl.
  - subst i. now rewrite N.eqb_refl.
  - simpl in H. apply orb_false_iff in H. destruct H as [Hx Hl].
    rewrite Hx. now apply IH.
Qed.

Lemma map_last i (f : InboundEmail -> InboundEmail) l row :
  hasEmailPk i l = false -> ie_id row = i ->
  map (fun x => if (ie_id x =? i)%N then f x else x) (l ++ [row])
  = l ++ [f row].
Proof.
  intros H Hi. induction l as [|x l IH]; simpl.
  - subst i. now rewrite N.eqb_refl.
  - simpl in H. apply orb_false_iff in H. destruct H as [Hx Hl].
    rewrite Hx. f_equal. now apply IH.
Qed.

Lemma proposalTaken_last i pid l row :
  ie_id row = i ->
  proposalTaken i pid (l ++ [row]) = proposalTaken i pid l.
Proof.
  intros Hi. unfold proposalTaken. rewrite existsb_app. simpl.
  subst i. rewrite N.eqb_refl. simpl. now rewrite !orb_false_r.
Qed.

Lemma update_stored l row p d :
  hasEmailPk (ie_id row) l = false ->
  inboundEmails d = l ++ [row] ->
  inboundEmail_update (ie_id row) p d = updateStored l row p d.
Proof.
  intros Hf He. unfold inboundEmail_update, updateStored. rewrite He.
  rewrite (@find_last (ie_id row) l row Hf eq_refl).
  rewrite (@map_last (ie_id row) (applyPatch p) l row Hf eq_refl).
  destruct (set_proposalId p) as [pid|]; [|reflexivity].
  now rewrite (@proposalTaken_last (ie_id row) pid l row eq_refl).
Qed.

Lemma proposalMissing_none p l :
  set_proposalId p = None -> proposalMissing p l = false.
Proof. unfold proposalMissing. now intros ->. Qed.

Lemma proposalMissing_created p l row :
  set_proposalId p = Some (p_id row) -> proposalMissing p (l ++ [row]) = false.
Proof.
  unfold proposalMissing. intros ->. rewrite existsb_app. simpl.
  now rewrite N.eqb_refl, orb_true_r.
Qed.

Lemma sameMessage_refl a : sameMessage a a.
Proof. repeat split. Qed.

Lemma sameMessage_patch p a : sameMessage (applyPatch p a) a.
Proof. repeat split. Qed.

Lemma sameMessage_trans a b c : sameMessage a b -> sameMessage b c -> sameMessage a c.
Proof. unfold sameMessage. intuition congruence. Qed.

Lemma updateMany_marks rfpId vendorId st (rvs : list RFPVendor) rv :
  In rv (map (fun r => if joins rfpId vendorId r
                       then mkRFPVendor (rv_rfpId r) (rv_vendorId r) st
                       else r) rvs) ->
  joins rfpId vendorId rv = true -> rv_status rv = st.
Proof.
  intros Hin Hj. apply in_map_iff in Hin. destruct Hin as (r & Hr & _).
  destruct (joins rfpId vendorId r) eqn:E.
  - subst rv. reflexivity.
  - subst rv. congruence.
Qed.

#[local] Arguments In {A} a l : simpl never.
#[local] Arguments proposalMissing p l : simpl never.
#[local] Opaque lit.

Ltac in_calls H :=
  unfold In in H; repeat (destruct H as [<-|H]); try (destruct H).

Ltac all_calls Hall :=
  match type of Hall with
  | forall c, In c [] -> _ => clear Hall
  | forall c, In c (?x :: ?l) -> _ =>
      let H1 := fresh "Hcall" in
      pose proof (Hall x (or_introl eq_refl)) as H1; simpl in H1;
      let H2 := fresh "Hrest" in
      assert (H2 := fun c (H : In c l) => Hall c (or_intror H));
      clear Hall; all_calls H2
  end.

Ltac absurd_call :=
  match goal with
  | H : true = true -> Some _ = None |- _ => specialize (H eq_refl); discriminate H
  end.

(** The last element of a trace that is written out. *)
Ltac ends_with :=
  first [ exists []; eexists; split; [reflexivity|]
        | eexists [_]; eexists; split; [reflexivity|]
        | eexists [_; _]; eexists; split; [reflexivity|]
        | eexists [_; _; _]; eexists; split; [reflexivity|] ].

Ltac stage_finish He :=
  simpl; repeat rewrite <- app_assoc; simpl;
  repeat match goal with
         | |- _ /\ _ => split
         | |- inboundEmails _ = _ => exact He
         | |- _ = _ => reflexivity
         | |- sameMessage _ _ => first [apply sameMessage_refl|apply sameMessage_patch]
         | |- forall c, In c _ -> afterExtraction _ = true =>
             let c := fresh "c" in let Hc := fresh "Hc" in
             intros c Hc; in_calls Hc; reflexivity
         | |- forall c1 fbE, In c1 _ -> fallbackSite _ = true -> threw c1 = Some fbE -> _ =>
             let c := fresh "c" in let fbE := fresh "fbE" in
             let Hc := fresh "Hc" in let Hs := fresh "Hs" in let Ht := fresh "Ht" in
             intros c fbE Hc Hs Ht; in_calls Hc; simpl in Hs, Ht;
             try discriminate Hs; try discriminate Ht;
             injection Ht as <-; unfold DoubleFailure; simpl
         | |- forall c, In c _ -> site c = _ -> _ =>
             let c := fresh "c" in let Hc := fresh "Hc" in let Hs := fresh "Hs" in
             intros c Hc Hs; in_calls Hc; try discriminate Hs; simpl
         | |- Some _ = None -> _ =>
             let Ht := fresh "Ht" in intros Ht; discriminate Ht
         | |- None = None -> _ => intros _
         | |- (forall c, In c _ -> fallbackSite _ = true -> _) -> _ =>
             let Hall := fresh "Hall" in
             intros Hall; try (exfalso; all_calls Hall; absurd_call)
         | |- exists _, exists _, _ = _ ++ [_] /\ _ => ends_with; simpl
         | |- exists _, _ => eexists
         | |- In _ (_ ++ [_]) => apply in_or_app; right; left; reflexivity
         end.

Lemma fallbackTier_facts (RT : Runtime) env rfpId vendor rfp body row0 rowA l
      aiError wA res w' :
  hasEmailPk (ie_id rowA) l = false ->
  ie_id row0 = ie_id rowA ->
  inboundEmails (db wA) = l ++ [rowA] ->
  fallbackTier env rfpId vendor rfp body row0 aiError wA = (res, w') ->
  exists calls row',
    log w' = log wA ++ calls
    /\ (forall c, In c calls -> afterExtraction (site c) = true)
    /\ inboundEmails (db w') = l ++ [row']
    /\ sameMessage row' rowA
    /\ (exists c1 rest, calls = c1 :: rest /\ site c1 = ProposalCreate)
    /\ (forall c1 fbE, In c1 calls -> fallbackSite (site c1) = true ->
                       threw c1 = Some fbE ->
                       DoubleFailure res rowA row' calls aiError fbE)
    /\ ((forall c, In c calls -> fallbackSite (site c) = true -> threw c = None) ->
        exists p,
          In p (proposals (db w'))
          /\ p_rfpId p = rfpId /\ p_vendorId p = v_id vendor
          /\ p_rawEmailBody p = body
          /\ p_extractedData p = FromFallback (fallbackParseProposal body)
          /\ p_aiScore p = None /\ p_aiEvaluation p = None
          /\ p_usedFallbackParsing p = true
          /\ ie_processed row' = true
          /\ ie_proposalId row' = Some (p_id p)
          /\ ie_processingError row'
             = Some (lit "AI quota exceeded. Used fallback parsing. Original error: "
                     ++ aiError)
          /\ res = Ok (mkResponse 200
                         (FallbackCreated (p_id p) (v_name vendor) (rfp_title rfp)
                                          (fallbackParseProposal body)))).
Proof.
  intros Hf Hid He H.
  unfold fallbackTier in H. unfold_m. rewrite Hid in H.
  unfold proposal_create, rFPVendor_updateMany in H.
  destruct wA as [dA lA]. simpl in *.
  repeat match type of H with
         | context [dbFault env ?s] =>
             let F := fresh "F" in destruct (dbFault env s) eqn:F; simpl in H
         | context [hasProposal ?a ?b] =>
             let F := fresh "K" in destruct (hasProposal a b) eqn:F; simpl in H
         | context [inboundEmail_update (ie_id rowA) ?p ?d] =>
             rewrite (@update_stored l rowA p d Hf) in H by exact He;
             unfold updateStored in H; simpl in H
         | context [proposalMissing ?p (?a ++ [?b])] =>
             rewrite (@proposalMissing_created p a b eq_refl) in H; simpl in H
         | context [proposalMissing ?p ?a] =>
             rewrite (@proposalMissing_none p a eq_refl) in H; simpl in H
         | context [proposalTaken ?a ?b ?c] =>
             let F := fresh "T" in destruct (proposalTaken a b c) eqn:F; simpl in H
         end;
    inversion H; subst; clear H;
    eexists _, _; (split; [simpl; rewrite <- ?app_assoc; simpl; reflexivity|]);
    stage_finish He.
Qed.

(** The fallback tier entered after the first tier failed past the call of
    [processVendorProposal], which had returned. *)
Lemma stage_after_ai (RT : Runtime) env rfpId vendor rfp vendorEmail body
      row0 rowA l w1 wA pre e res w' :
  (forall c, In c pre -> site c = EmailMarkProcessed) ->
  log wA = log w1 ++ mkCall ProcessVendorProposal (db w1) None :: pre ->
  None = errorOf (fst (processVendorProposal env rfpId vendorEmail body (db w1))) ->
  hasEmailPk (ie_id row0) l = false ->
  sameMessage rowA row0 ->
  inboundEmails (db wA) = l ++ [rowA] ->
  fallbackTier env rfpId vendor rfp body row0 e wA = (res, w') ->
  exists calls row',
    StageFacts RT env rfpId vendor vendorEmail body row0 l w1 res w' None
               calls row'.
Proof.
  intros Hpre Hl Hai Hf Hsame He H.
  assert (Hid : ie_id row0 = ie_id rowA) by (symmetry; apply Hsame).
  rewrite Hid in Hf.
  apply (@fallbackTier_facts RT env rfpId vendor rfp body row0 rowA l e wA res w'
           Hf Hid He) in H.
  destruct H as (calls & row' & Hlog & Hsites & Hem & Hs & _ & _ & _).
  exists (pre ++ calls), row'. constructor.
  - rewrite Hlog, Hl, <- app_assoc. reflexivity.
  - exact Hai.
  - intros c Hc. apply in_app_or in Hc. destruct Hc as [Hc|Hc].
    + now rewrite (Hpre c Hc).
    + now apply Hsites.
  - exact Hem.
  - exact (sameMessage_trans Hs Hsame).
  - intros aiE Hx. discriminate Hx.
  - intros aiE c1 fbE Hx. discriminate Hx.
  - intros aiE Hx. discriminate Hx.
Qed.

Lemma extractionStage_facts (RT : Runtime) env rfpId vendor rfp vendorEmail body
      row0 l w1 res w' :
  keepsEmails env ->
  hasEmailPk (ie_id row0) l = false ->
  inboundEmails (db w1) = l ++ [row0] ->
  extractionStage env rfpId vendor rfp vendorEmail body row0 w1 = (res, w') ->
  exists ai calls row',
    StageFacts RT env rfpId vendor vendorEmail body row0 l w1 res w' ai calls row'.
Proof.
  intros Hk Hf He H.
  unfold extractionStage in H. unfold tryCatch at 1 in H. unfold bind at 1 in H.
  unfold serviceDb in H.
  pose proof (Hk rfpId vendorEmail body (db w1)) as Hframe.
  assert (Hai : errorOf (fst (processVendorProposal env rfpId vendorEmail body (db w1)))
                = errorOf (fst (processVendorProposal env rfpId vendorEmail body (db w1))))
    by reflexivity.
  destruct (processVendorProposal env rfpId vendorEmail body (db w1))
    as [aiRes dbA] eqn:EP.
  simpl in Hframe. rewrite He in Hframe.
  destruct aiRes as [result|aiError].
  - (* the first tier went past the call *)
    exists None.
    assert (Hone : forall t c,
               In c [mkCall EmailMarkProcessed dbA t] -> site c = EmailMarkProcessed).
    { intros t c [<-|[]]. reflexivity. }
    unfold bind at 1, prisma in H. simpl in H.
    rewrite (@update_stored l row0 _ dbA Hf Hframe) in H.
    unfold updateStored in H. simpl in H.
    destruct (dbFault env EmailMarkProcessed) as [e|] eqn:F.
    { eapply (@stage_after_ai RT env rfpId vendor rfp vendorEmail body row0 row0 l
                w1 _ _ e res w' (Hone (Some e))); [ .. | exact H ];
        [ simpl; rewrite <- ?app_assoc; reflexivity
        | rewrite EP; reflexivity
        | exact Hf
        | apply sameMessage_refl
        | exact Hframe ]. }
    destruct (proposalTaken (ie_id row0) (pr_proposalId result) l) eqn:T;
      simpl in H.
    { eapply (@stage_after_ai RT env rfpId vendor rfp vendorEmail body row0 row0 l
                w1 _ _ _ res w' (Hone _)); [ .. | exact H ];
        [ simpl; rewrite <- ?app_assoc; reflexivity
        | rewrite EP; reflexivity
        | exact Hf
        | apply sameMessage_refl
        | exact Hframe ]. }
    match type of H with
    | context [proposalMissing ?p ?d] => destruct (proposalMissing p d) eqn:Mi
    end; simpl in H.
    { eapply (@stage_after_ai RT env rfpId vendor rfp vendorEmail body row0 row0 l
                w1 _ _ _ res w' (Hone _)); [ .. | exact H ];
        [ simpl; rewrite <- ?app_assoc; reflexivity
        | rewrite EP; reflexivity
        | exact Hf
        | apply sameMessage_refl
        | exact Hframe ]. }
    unfold bind, liftR, templateR in H. simpl in H.
    repeat match type of H with
           | context [convertible ?v] =>
               let Cv := fresh "Cv" in destruct (convertible v) eqn:Cv; simpl in H
           end.
    + (* the answer of the first tier *)
      inversion H; subst; clear H. simpl.
      eexists [_], _.
      constructor; simpl; rewrite <- ?app_assoc; simpl.
      * reflexivity.
      * rewrite EP. reflexivity.
      * intros c [<-|[]]. reflexivity.
      * reflexivity.
      * apply sameMessage_patch.
      * intros aiE Hx. discriminate Hx.
      * intros aiE c1 fbE Hx. discriminate Hx.
      * intros aiError Hx. discriminate Hx.
    + eapply (@stage_after_ai RT env rfpId vendor rfp vendorEmail body row0 _ l
                w1 _ _ _ res w' (Hone _)); [ .. | exact H ];
        [ simpl; rewrite <- ?app_assoc; reflexivity
        | rewrite EP; reflexivity
        | exact Hf
        | apply sameMessage_patch
        | reflexivity ].
    + eapply (@stage_after_ai RT env rfpId vendor rfp vendorEmail body row0 _ l
                w1 _ _ _ res w' (Hone _)); [ .. | exact H ];
        [ simpl; rewrite <- ?app_assoc; reflexivity
        | rewrite EP; reflexivity
        | exact Hf
        | apply sameMessage_patch
        | reflexivity ].
  - (* the call threw *)
    simpl in H.
    apply (@fallbackTier_facts RT env rfpId vendor rfp body row0 row0 l aiError _
             res w' Hf eq_refl) in H; [|exact Hframe].
    destruct H as (calls & row' & Hlog & Hsites & Hem & Hsame & Hfirst & Hboth & Hfb).
    simpl in Hlog. rewrite <- ?app_assoc in Hlog. simpl in Hlog.
    exists (Some aiError), calls, row'.
    constructor; try assumption.
    + rewrite EP. reflexivity.
    + intros aiE _. exact Hfirst.
    + intros aiE c1 fbE Hx. injection Hx as <-. apply Hboth.
    + intros aiE Hx Hall. injection Hx as <-.
      destruct (Hfb Hall) as (p & Hp). exists p.
      repeat match goal with
             | H : _ /\ _ |- _ => destruct H
             end.
      repeat split; try assumption. now exists (v_name vendor), (rfp_title rfp).
Qed.


(** ** From the webhook to the extraction stage *)

Ltac pre_calls :=
  let c := fresh "c" in let Hin := fresh "Hin" in
  intros c Hin; in_calls Hin; reflexivity.

Lemma processEmail_cases (RT : Runtime) env emailId from subject body w res w' :
  processEmail env emailId from subject body w = (res, w') ->
  (db w' = db w
   /\ exists calls, log w' = log w ++ calls
                    /\ forall c, In c calls -> preSite (site c) = true)
  \/ exists e rfpId rfp vendor row0 w1,
       Reached RT env emailId from subject body w res w' e rfpId rfp vendor row0 w1.
Proof.
  intros H. unfold processEmail in H.
  destruct (extractRFPId subject body) as [rfpId|] eqn:ER.
  2:{ unfold respond, ret in H. inversion H; subst. left.
      split; [reflexivity|]. exists []. rewrite app_nil_r.
      split; [reflexivity|intros c []]. }
  unfold bind at 1 in H. unfold service at 1 in H.
  destruct (getRFPById env rfpId) as [[rfp|]|e1].
  3:{ inversion H; subst. left. simpl. split; [reflexivity|].
      eexists [_]. split; [reflexivity|pre_calls]. }
  2:{ unfold respond, ret in H. inversion H; subst. left. simpl.
      split; [reflexivity|]. eexists [_]. split; [reflexivity|pre_calls]. }
  unfold bind at 1 in H. unfold service at 1 in H.
  destruct (getVendorByEmail env (extractEmailAddress from)) as [[vendor|]|e2].
  3:{ inversion H; subst. left. simpl. split; [reflexivity|].
      eexists [_; _]. rewrite <- app_assoc. split; [reflexivity|pre_calls]. }
  2:{ unfold respond, ret in H. inversion H; subst. left. simpl.
      split; [reflexivity|]. eexists [_; _]. rewrite <- app_assoc.
      split; [reflexivity|pre_calls]. }
  unfold bind at 1 in H. unfold prisma at 1 in H. simpl in H.
  destruct (dbFault env EmailCreate) as [e3|].
  { inversion H; subst. left. simpl. split; [reflexivity|].
    eexists [_; _; _]. rewrite <- !app_assoc. split; [reflexivity|pre_calls]. }
  unfold inboundEmail_create in H. simpl in H.
  destruct emailId as [e|].
  2:{ inversion H; subst. left. simpl. split; [reflexivity|].
      eexists [_; _; _]. rewrite <- !app_assoc. split; [reflexivity|pre_calls]. }
  destruct (hasEmailId e (inboundEmails (db w))) eqn:E1.
  { inversion H; subst. left. simpl. split; [reflexivity|].
    eexists [_; _; _]. rewrite <- !app_assoc. split; [reflexivity|pre_calls]. }
  destruct (hasEmailPk (nextId (db w)) (inboundEmails (db w))) eqn:E2.
  { inversion H; subst. left. simpl. split; [reflexivity|].
    eexists [_; _; _]. rewrite <- !app_assoc. split; [reflexivity|pre_calls]. }
  right.
  match type of H with
  | extractionStage _ _ _ _ _ _ ?row ?w1 = _ =>
      exists e, rfpId, rfp, vendor, row, w1
  end.
  constructor; simpl; try reflexivity; try assumption.
  - constructor; reflexivity.
  - eexists [_; _; _]. rewrite <- !app_assoc. split; [reflexivity|pre_calls].
  - eexists. reflexivity.
Qed.

Lemma handle_cases (RT : Runtime) env req w r w' :
  handleInboundEmail env req w = (r, w') ->
  (db w' = db w
   /\ exists calls, log w' = log w ++ calls
                    /\ forall c, In c calls -> preSite (site c) = true)
  \/ exists payload emailData from subject body w0 res e rfpId rfp vendor row0 w1,
       req = Some payload
       /\ wp_data payload = Some emailData
       /\ db w0 = db w
       /\ (exists calls, log w0 = log w ++ calls
                         /\ forall c, In c calls -> preSite (site c) = true)
       /\ Reached RT env (ed_email_id emailData) from subject body w0 res w'
                  e rfpId rfp vendor row0 w1
       /\ r = match res with
              | Ok x => Ok x
              | Throw err => Ok (mkResponse 200 (Failed err))
              end.
Proof.
  intros H.
  assert (Hnil : exists calls : list Call, log w = log w ++ calls
                   /\ forall c, In c calls -> preSite (site c) = true).
  { exists []. rewrite app_nil_r. split; [reflexivity|intros c []]. }
  destruct req as [payload|].
  2:{ unfold handleInboundEmail in H. unfold_m. simpl in H.
      inversion H; subst. left. split; [reflexivity|exact Hnil]. }
  destruct (typeIs (wp_type payload) "email.received") eqn:Ht.
  2:{ rewrite (@handle_ignored RT env payload w Ht) in H.
      inversion H; subst. left. split; [reflexivity|exact Hnil]. }
  destruct (wp_data payload) as [emailData|] eqn:Hd.
  2:{ unfold handleInboundEmail in H. unfold_m. simpl in H.
      rewrite Ht, Hd in H. simpl in H.
      inversion H; subst. left. split; [reflexivity|exact Hnil]. }
  destruct (resolveContent_ok env emailData w) as (content & w0 & Hc & Hdb & Hlog).
  rewrite (@handle_received RT env payload emailData w content w0 Ht Hd Hc) in H.
  assert (Hpre : exists calls : list Call, log w0 = log w ++ calls
                   /\ forall c, In c calls -> preSite (site c) = true).
  { destruct Hlog as [Hl|[e Hl]].
    - exists []. rewrite app_nil_r. split; [exact Hl|intros c []].
    - eexists [_]. split; [exact Hl|pre_calls]. }
  destruct (intake emailData (fst content) (snd content))
    as [early|[[from subject] body]].
  { inversion H; subst. left. split; [exact Hdb|exact Hpre]. }
  destruct (processEmail env (ed_email_id emailData) from subject body w0)
    as [res w2] eqn:EP.
  assert (w2 = w') by (destruct res; now inversion H). subst w2.
  assert (Hr : r = match res with
                   | Ok x => Ok x
                   | Throw err => Ok (mkResponse 200 (Failed err))
                   end) by (destruct res; now inversion H).
  apply processEmail_cases in EP.
  destruct EP as [[Hdb' (calls' & Hl' & Hs')]|(e & rfpId & rfp & vendor & row0 & w1 & HR)].
  - left. split; [congruence|].
    destruct Hpre as (calls & Hl & Hs). exists (calls ++ calls').
    rewrite Hl', Hl, app_assoc. split; [reflexivity|].
    intros c Hin. apply in_app_or in Hin. destruct Hin; auto.
  - right. exists payload, emailData, from, subject, body, w0, res, e, rfpId, rfp,
      vendor, row0, w1.
    split; [reflexivity|]. split; [exact Hd|]. split; [exact Hdb|].
    split; [exact Hpre|]. split; [exact HR|exact Hr].
Qed.


Lemma preSite_not_extraction s :
  preSite s = true -> s <> ProcessVendorProposal /\ afterExtraction s = false.
Proof. destruct s; simpl; intros H; try discriminate; split; congruence. Qed.

Lemma afterExtraction_not_pvp s :
  afterExtraction s = true -> s <> ProcessVendorProposal /\ preSite s = false.
Proof. destruct s; simpl; intros H; try discriminate; split; congruence. Qed.

(** A run that called a place of the extraction stage went through step 10
    and has the facts of the stage. *)
Lemma run_reached (RT : Runtime) env req d r w' c :
  keepsEmails env ->
  run (handleInboundEmail env req) d = (r, w') ->
  In c (log w') -> preSite (site c) = false ->
  exists payload emailData from subject body w0 res e rfpId rfp vendor row0 w1
         ai calls row',
    req = Some payload /\ wp_data payload = Some emailData
    /\ db w0 = d
    /\ Reached RT env (ed_email_id emailData) from subject body w0 res w'
               e rfpId rfp vendor row0 w1
    /\ StageFacts RT env rfpId vendor (extractEmailAddress from) body row0
                  (inboundEmails d) w1 res w' ai calls row'
    /\ (forall c1, In c1 (log w1) -> preSite (site c1) = true)
    /\ r = match res with
           | Ok x => Ok x
           | Throw err => Ok (mkResponse 200 (Failed err))
           end.
Proof.
  intros Hk Hrun Hc Hsite. unfold run in Hrun.
  apply handle_cases in Hrun.
  destruct Hrun as [[_ (calls & Hl & Hs)]|Hrun].
  { exfalso. simpl in Hl. rewrite Hl in Hc. apply Hs in Hc. congruence. }
  destruct Hrun as (payload & emailData & from & subject & body & w0 & res & e
                    & rfpId & rfp & vendor & row0 & w1 & Hreq & Hd & Hdb & Hpre
                    & HR & Hr).
  simpl in Hdb.
  pose proof HR as HR'. destruct HR' as [_ _ _ Hfresh _ Hem _ _ Hlog _ Hstage].
  rewrite Hdb in Hfresh, Hem.
  destruct (@extractionStage_facts RT env rfpId vendor rfp _ body row0 _ w1 res w'
              Hk Hfresh Hem Hstage) as (ai & calls & row' & HS).
  exists payload, emailData, from, subject, body, w0, res, e, rfpId, rfp, vendor,
    row0, w1, ai, calls, row'.
  repeat (split; [assumption|]). split; [|exact Hr].
  intros c1 Hc1. destruct Hpre as (cs0 & Hl0 & Hs0).
  destruct Hlog as (cs1 & Hl1 & Hs1). simpl in Hl0.
  rewrite Hl1, Hl0 in Hc1. apply in_app_or in Hc1. destruct Hc1; auto.
Qed.

(** The same element of a trace cannot be before and after the stage. *)
Lemma pvp_call_unique (w1 w' : World) ai calls c :
  log w' = log w1 ++ mkCall ProcessVendorProposal (db w1) ai :: calls ->
  (forall c1, In c1 (log w1) -> preSite (site c1) = true) ->
  (forall c1, In c1 calls -> afterExtraction (site c1) = true) ->
  In c (log w') -> site c = ProcessVendorProposal ->
  c = mkCall ProcessVendorProposal (db w1) ai.
Proof.
  intros Hl Hpre Hpost Hc Hs. rewrite Hl in Hc.
  apply in_app_or in Hc. destruct Hc as [Hc|[Hc|Hc]].
  - apply Hpre in Hc. rewrite Hs in Hc. discriminate Hc.
  - now symmetry.
  - apply Hpost in Hc. rewrite Hs in Hc. discriminate Hc.
Qed.



(** ** The fallback tier *)

(** C2, amended.  When [processVendorProposal] throws and no call of the
    fallback tier ([proposal.create], [rFPVendor.updateMany],
    [inboundEmail.update]) throws, the final store holds a proposal whose
    [extractedData] is [fallbackParseProposal] of the stored body, with
    [aiScore] and [aiEvaluation] null and [usedFallbackParsing] true; the
    stored email has [processed = true], that proposal's id and the
    [processingError] that quotes the AI error, and the handler answers 200
    with the proposal. *)
Theorem fallback_proposal_created
        (RT : Runtime) (env : Env) (req : option WebhookPayload) (d : DB)
        (r : Result (Response InboundBody)) (w' : World) (c : Call)
        (aiError : Error) :
  keepsEmails env ->
  run (handleInboundEmail env req) d = (r, w') ->
  In c (log w') -> site c = ProcessVendorProposal ->
  threw c = Some aiError ->
  (forall c2, In c2 (log w') -> fallbackSite (site c2) = true ->
              threw c2 = None) ->
  FallbackOutcome RT w' aiError
  /\ exists pid vn rt data,
       r = Ok (mkResponse 200 (FallbackCreated pid vn rt data)).
Proof.
  intros Hk Hrun Hc Hs Ht Hall.
  assert (Hnp : preSite (site c) = false) by now rewrite Hs.
  destruct (@run_reached RT env req d r w' c Hk Hrun Hc Hnp)
    as (payload & emailData & from & subject & body & w0 & res & e & rfpId & rfp
        & vendor & row0 & w1 & ai & calls & row' & Hreq & Hd & Hdb & HR & HS
        & Hpre & Hr).
  destruct HR as [_ _ Hrow _ _ _ _ _ _ _ _].
  destruct HS as [Hlog _ Hsites Hem' Hsame _ _ Hfb].
  destruct Hrow as [_ _ _ Hbody _ _ _ _ _].
  pose proof (@pvp_call_unique w1 w' ai calls c Hlog Hpre Hsites Hc Hs) as Hceq.
  assert (Hai : ai = Some aiError) by (rewrite Hceq in Ht; exact Ht).
  destruct (Hfb aiError Hai) as (p & Hp).
  { intros c2 Hc2 Hf2. apply Hall; [|exact Hf2].
    rewrite Hlog. apply in_or_app. right. now right. }
  destruct Hp as (Hin & _ & _ & _ & Hdata & Hscore & Heval & Hused & Hproc
                  & Hpid & Herr & vn & rt & Hres).
  destruct Hsame as (_ & _ & _ & _ & Hraw & _).
  split.
  - exists p, row'. split; [exact Hin|].
    split; [rewrite Hem'; apply in_or_app; right; now left|].
    split; [rewrite Hraw, Hbody; exact Hdata|].
    repeat (split; [assumption|]). assumption.
  - exists (p_id p), vn, rt, (fallbackParseProposal body).
    rewrite Hr, Hres. reflexivity.
Qed.


(** ** The status of the vendor on an RFP *)

Lemma update_keeps i p d0 r d1 :
  inboundEmail_update i p d0 = (r, d1) ->
  proposals d1 = proposals d0 /\ rfpVendors d1 = rfpVendors d0.
Proof.
  unfold inboundEmail_update.
  destruct (find _ _); [|intros H; now inversion H].
  destruct (match set_proposalId p with Some _ => _ | None => _ end);
    [intros H; now inversion H|].
  destruct (proposalMissing p (proposals d0)); intros H; now inversion H.
Qed.

Lemma prisma_update_keeps env s i p w r w' :
  prisma env s (inboundEmail_update i p) w = (r, w') ->
  proposals (db w') = proposals (db w)
  /\ rfpVendors (db w') = rfpVendors (db w)
  /\ exists t, log w' = log w ++ [mkCall s (db w) t].
Proof.
  unfold prisma. destruct (dbFault env s).
  - intros H; inversion H; subst; simpl. eauto.
  - destruct (inboundEmail_update i p (db w)) as [r0 d1] eqn:U.
    apply update_keeps in U. destruct U as [U1 U2].
    intros H; inversion H; subst; simpl. eauto.
Qed.

Ltac keep_update H :=
  match type of H with
  | context [prisma ?env ?s (inboundEmail_update ?i ?p) ?w] =>
      let r := fresh "r" in let wu := fresh "wu" in let U := fresh "U" in
      let K1 := fresh "K" in let K2 := fresh "K" in let t := fresh "t" in
      let K3 := fresh "K" in
      destruct (prisma env s (inboundEmail_update i p) w) as [r wu] eqn:U;
      apply prisma_update_keeps in U; destruct U as (K1 & K2 & t & K3);
      simpl in K1, K2, K3; destruct r; simpl in H
  end.

Lemma marked_after rfpId vendorId (rvs : list RFPVendor) (d : DB) :
  rfpVendors d
  = map (fun r => if joins rfpId vendorId r
                  then mkRFPVendor (rv_rfpId r) (rv_vendorId r) RESPONDED
                  else r) rvs ->
  markedResponded rfpId vendorId d.
Proof.
  intros E rv Hin Hj. rewrite E in Hin. eapply updateMany_marks; eauto.
Qed.

Ltac responded_now :=
  unfold CreatedThenResponded; exists []; do 3 eexists;
  split; [reflexivity|]; split; [reflexivity|]; split; [reflexivity|];
  split; [simpl; reflexivity|]; split; [reflexivity|]; split; [reflexivity|];
  split;
  [ repeat match goal with K : proposals _ = _ |- _ => rewrite K; clear K end;
    simpl; apply in_or_app; right; left; reflexivity
  | simpl; eapply marked_after;
    repeat match goal with K : rfpVendors _ = _ |- _ => rewrite K; clear K end;
    simpl; reflexivity ].

Lemma fallbackTier_responded (RT : Runtime) env rfpId vendor rfp body row0
      aiError wA res w' :
  fallbackTier env rfpId vendor rfp body row0 aiError wA = (res, w') ->
  exists calls,
    log w' = log wA ++ calls
    /\ (forall c, In c calls -> afterExtraction (site c) = true)
    /\ forall c, In c calls -> site c = ProposalCreate -> threw c = None ->
                 dbFault env VendorMarkResponded = None ->
                 CreatedThenResponded calls c (db w').
Proof.
  intros H. unfold fallbackTier in H.
  unfold tryCatch, bind, respond, ret in H.
  unfold prisma at 1 2 in H.
  unfold proposal_create, rFPVendor_updateMany in H.
  destruct wA as [dA lA]. simpl in *.
  repeat match type of H with
         | context [dbFault env ProposalCreate] =>
             let F := fresh "F" in
             destruct (dbFault env ProposalCreate) eqn:F; simpl in H
         | context [dbFault env VendorMarkResponded] =>
             let F := fresh "F" in
             destruct (dbFault env VendorMarkResponded) eqn:F; simpl in H
         | context [hasProposal ?a ?b] =>
             let F := fresh "K" in destruct (hasProposal a b) eqn:F; simpl in H
         | _ => keep_update H
         end;
    inversion H; subst; clear H;
    repeat match goal with
           | K : log _ = _ |- _ => rewrite K; clear K
           end;
    rewrite <- ?app_assoc; simpl;
    eexists; (split; [reflexivity|]);
    (split; [intros c Hc; in_calls Hc; reflexivity|]);
    intros c Hc Hs Ht HF; try discriminate HF;
    in_calls Hc; try discriminate Hs; try discriminate Ht;
    responded_now.
Qed.

Lemma extractionStage_responded (RT : Runtime) env rfpId vendor rfp ve body row0
      w1 res w' :
  extractionStage env rfpId vendor rfp ve body row0 w1 = (res, w') ->
  exists calls,
    log w' = log w1 ++ calls
    /\ (forall c, In c calls -> preSite (site c) = false)
    /\ forall c, In c calls -> site c = ProposalCreate -> threw c = None ->
                 dbFault env VendorMarkResponded = None ->
                 CreatedThenResponded calls c (db w').
Proof.
  intros H. unfold extractionStage in H.
  unfold tryCatch at 1 in H. unfold bind at 1 in H. unfold serviceDb in H.
  destruct (processVendorProposal env rfpId ve body (db w1)) as [aiRes dbA].
  assert (Hfb : forall aiError wA pre,
             log wA = log w1 ++ pre ->
             (forall c, In c pre -> preSite (site c) = false
                                    /\ site c <> ProposalCreate) ->
             fallbackTier env rfpId vendor rfp body row0 aiError wA = (res, w') ->
             exists calls,
               log w' = log w1 ++ calls
               /\ (forall c, In c calls -> preSite (site c) = false)
               /\ forall c, In c calls -> site c = ProposalCreate ->
                            threw c = None ->
                            dbFault env VendorMarkResponded = None ->
                            CreatedThenResponded calls c (db w')).
  { intros aiError wA pre Hl Hpre Hf. apply fallbackTier_responded in Hf.
    destruct Hf as (calls & Hl' & Hs & Hr).
    exists (pre ++ calls). rewrite Hl', Hl, app_assoc. split; [reflexivity|].
    split.
    - intros c Hc. apply in_app_or in Hc. destruct Hc as [Hc|Hc].
      + now apply Hpre.
      + apply Hs in Hc. now apply afterExtraction_not_pvp.
    - intros c Hc Hsite Ht HF. apply in_app_or in Hc. destruct Hc as [Hc|Hc].
      + apply Hpre in Hc. tauto.
      + destruct (Hr c Hc Hsite Ht HF) as (p0 & c' & post & p & Hcalls & Hrest).
        exists (pre ++ p0), c', post, p. split; [|exact Hrest].
        rewrite Hcalls, <- app_assoc. reflexivity. }
  destruct aiRes as [result|aiError].
  - unfold bind at 1 in H.
    match type of H with
    | context [prisma ?env ?s (inboundEmail_update ?i ?p) ?w] =>
        destruct (prisma env s (inboundEmail_update i p) w) as [r wu] eqn:U
    end.
    apply prisma_update_keeps in U. destruct U as (_ & _ & t & K). simpl in K.
    assert (Hpre : forall c,
               In c [mkCall ProcessVendorProposal (db w1) None;
                     mkCall EmailMarkProcessed dbA t] ->
               preSite (site c) = false /\ site c <> ProposalCreate).
    { intros c Hc. in_calls Hc; split; (reflexivity || discriminate). }
    destruct r as [u|e].
    + unfold bind, liftR, templateR in H. simpl in H.
      repeat match type of H with
             | context [convertible ?v] =>
                 let Cv := fresh "Cv" in destruct (convertible v) eqn:Cv; simpl in H
             end.
      * unfold respond, ret in H. inversion H; subst; clear H.
        rewrite K, <- app_assoc. simpl. eexists. split; [reflexivity|].
        split.
        -- intros c Hc. in_calls Hc; reflexivity.
        -- intros c Hc Hs. in_calls Hc; discriminate Hs.
      * eapply Hfb; [| |exact H]; [|exact Hpre].
        rewrite K, <- app_assoc. simpl. reflexivity.
      * eapply Hfb; [| |exact H]; [|exact Hpre].
        rewrite K, <- app_assoc. simpl. reflexivity.
    + eapply Hfb; [| |exact H]; [|exact Hpre].
      rewrite K, <- app_assoc. simpl. reflexivity.
  - eapply Hfb; [| |exact H].
    + simpl. reflexivity.
    + intros c Hc. in_calls Hc; split; (reflexivity || discriminate).
Qed.

Lemma handle_responded (RT : Runtime) env req d r w' c :
  run (handleInboundEmail env req) d = (r, w') ->
  In c (log w') -> site c = ProposalCreate -> threw c = None ->
  dbFault env VendorMarkResponded = None ->
  CreatedThenResponded (log w') c (db w').
Proof.
  intros Hrun Hc Hs Ht HF. unfold run in Hrun. apply handle_cases in Hrun.
  destruct Hrun as [[_ (calls & Hl & Hpre)]|Hrun].
  { exfalso. simpl in Hl. rewrite Hl in Hc. apply Hpre in Hc.
    rewrite Hs in Hc. discriminate Hc. }
  destruct Hrun as (payload & emailData & from & subject & body & w0 & res & e
                    & rfpId & rfp & vendor & row0 & w1 & _ & _ & _ & Hpre
                    & HR & _).
  destruct HR as [_ _ _ _ _ _ _ _ (cs1 & Hl1 & Hs1) _ Hstage].
  apply extractionStage_responded in Hstage.
  destruct Hstage as (calls & Hl & _ & Hr).
  destruct Hpre as (cs0 & Hl0 & Hs0). simpl in Hl0.
  assert (Hin : In c calls).
  { rewrite Hl, Hl1, Hl0 in Hc.
    apply in_app_or in Hc. destruct Hc as [Hc|Hc]; [|exact Hc].
    exfalso. apply in_app_or in Hc.
    destruct Hc as [Hc|Hc]; [apply Hs0 in Hc|apply Hs1 in Hc];
      rewrite Hs in Hc; discriminate Hc. }
  destruct (Hr c Hin Hs Ht HF) as (p0 & c' & post & p & Hcalls & Hrest).
  exists (log w1 ++ p0), c', post, p. split; [|exact Hrest].
  rewrite Hl, Hcalls, <- app_assoc. reflexivity.
Qed.

(** ** [deleteProposal] *)

Lemma find_hasProposal id l p :
  find (fun r => (p_id r =? id)%N) l = Some p -> hasProposal id l = true.
Proof.
  intros H. apply find_some in H. destruct H as [Hin Hid].
  apply existsb_exists. now exists p.
Qed.

Lemma deleteProposal_run env id d :
  run (deleteProposal env id) d
  = match dbFault env ProposalFind with
    | Some e =>
        (Ok (mkResponse 500 (DeleteFailed (strOr (Some e) (lit "Failed to delete proposal")))),
         mkWorld d [mkCall ProposalFind d (Some e)])
    | None =>
        match find (fun r => (p_id r =? id)%N) (proposals d) with
        | None =>
            (Ok (mkResponse 404 ProposalNotFound),
             mkWorld d [mkCall ProposalFind d None])
        | Some p =>
            match dbFault env ProposalDelete with
            | Some e =>
                (Ok (mkResponse 500 (DeleteFailed (strOr (Some e) (lit "Failed to delete proposal")))),
                 mkWorld d [mkCall ProposalFind d None;
                            mkCall ProposalDelete d (Some e)])
            | None =>
                let d1 := mkDB (map (unlinkProposal id) (inboundEmails d))
                               (filter (fun r => negb (p_id r =? id)%N) (proposals d))
                               (rfpVendors d) (nextId d) in
                match dbFault env VendorMarkSent with
                | Some e =>
                    (Ok (mkResponse 500 (DeleteFailed (strOr (Some e) (lit "Failed to delete proposal")))),
                     mkWorld d1 [mkCall ProposalFind d None;
                                 mkCall ProposalDelete d None;
                                 mkCall VendorMarkSent d1 (Some e)])
                | None =>
                    (Ok (mkResponse 200 ProposalDeleted),
                     mkWorld (afterDelete id p d)
                             [mkCall ProposalFind d None;
                              mkCall ProposalDelete d None;
                              mkCall VendorMarkSent d1 None])
                end
            end
        end
    end.
Proof.
  unfold run, deleteProposal, tryCatch, bind, prisma, respond, ret. simpl.
  destruct (dbFault env ProposalFind); [reflexivity|]. simpl.
  destruct (find _ (proposals d)) as [p|] eqn:Ef; [|reflexivity].
  destruct (dbFault env ProposalDelete); [reflexivity|].
  pose proof (@find_hasProposal id (proposals d) p Ef) as Hh.
  unfold proposal_delete. unfold hasProposal in *. simpl. rewrite Hh. simpl.
  destruct (dbFault env VendorMarkSent); reflexivity.
Qed.

Lemma afterDelete_sent id p d : markedSent p (afterDelete id p d).
Proof.
  intros rv Hin Hj. simpl in Hin. unfold revertToSent in Hin.
  eapply updateMany_marks; eauto.
Qed.

Lemma afterDelete_same_rows id p d :
  map (fun r => (rv_rfpId r, rv_vendorId r)) (rfpVendors (afterDelete id p d))
  = map (fun r => (rv_rfpId r, rv_vendorId r)) (rfpVendors d).
Proof.
  simpl. rewrite map_map. apply map_ext. intros r. unfold revertToSent.
  destruct (joins _ _ r); reflexivity.
Qed.

Lemma afterDelete_proposals id p d q :
  In q (proposals (afterDelete id p d)) <-> In q (proposals d) /\ p_id q <> id.
Proof.
  simpl. rewrite filter_In. rewrite negb_true_iff, N.eqb_neq. tauto.
Qed.

Lemma delete_sent env id d r w' c :
  run (deleteProposal env id) d = (r, w') ->
  In c (log w') -> site c = ProposalDelete -> threw c = None ->
  dbFault env VendorMarkSent = None ->
  exists p c',
    find (fun q => (p_id q =? id)%N) (proposals d) = Some p
    /\ log w' = [mkCall ProposalFind d None; c; c']
    /\ site c' = VendorMarkSent /\ threw c' = None
    /\ db w' = afterDelete id p d
    /\ r = Ok (mkResponse 200 ProposalDeleted).
Proof.
  rewrite deleteProposal_run. intros H Hc Hs Ht HF.
  destruct (dbFault env ProposalFind);
    [inversion H; subst; in_calls Hc; discriminate Hs|].
  destruct (find _ (proposals d)) as [p|];
    [|inversion H; subst; in_calls Hc; discriminate Hs].
  destruct (dbFault env ProposalDelete);
    [inversion H; subst; in_calls Hc; try discriminate Hs; discriminate Ht|].
  rewrite HF in H. inversion H; subst; clear H.
  in_calls Hc; try discriminate Hs.
  exists p. eexists. repeat split.
Qed.

(** C6, amended.  In a run of the handler where [proposal.create] returns
    and the store does not fail [rFPVendor.updateMany], that update is the
    next call and it returns; the proposal just created is in the final
    store and every [RFPVendor] row joining its RFP and its vendor has
    status [RESPONDED].  In a run of [deleteProposal] where
    [proposal.delete] returns and the store does not fail
    [rFPVendor.updateMany], that update is the next and last call and it
    returns; the proposal is gone, the rows joining its RFP and vendor have
    status [SENT], and they are the same rows as before. *)
Theorem vendor_status_follows_proposal :
  (forall (RT : Runtime) (env : Env) (req : option WebhookPayload) (d : DB)
          r w' c,
      run (handleInboundEmail env req) d = (r, w') ->
      In c (log w') -> site c = ProposalCreate -> threw c = None ->
      dbFault env VendorMarkResponded = None ->
      CreatedThenResponded (log w') c (db w'))
  /\ (forall (env : Env) (id : N) (d : DB) r w' c,
         run (deleteProposal env id) d = (r, w') ->
         In c (log w') -> site c = ProposalDelete -> threw c = None ->
         dbFault env VendorMarkSent = None ->
         exists p c',
           find (fun q => (p_id q =? id)%N) (proposals d) = Some p
           /\ log w' = [mkCall ProposalFind d None; c; c']
           /\ site c' = VendorMarkSent /\ threw c' = None
           /\ (forall q, In q (proposals (db w')) -> p_id q <> id)
           /\ markedSent p (db w')
           /\ map (fun rv => (rv_rfpId rv, rv_vendorId rv)) (rfpVendors (db w'))
              = map (fun rv => (rv_rfpId rv, rv_vendorId rv)) (rfpVendors d)).
Proof.
  split.
  - intros RT env req d r w' c. apply handle_responded.
  - intros env id d r w' c Hrun Hc Hs Ht HF.
    destruct (@delete_sent env id d r w' c Hrun Hc Hs Ht HF)
      as (p & c' & Hf & Hl & Hs' & Ht' & Hdb & _).
    exists p, c'. split; [exact Hf|]. split; [exact Hl|].
    split; [exact Hs'|]. split; [exact Ht'|]. rewrite Hdb.
    split; [intros q Hq; now apply afterDelete_proposals in Hq|].
    split; [apply afterDelete_sent|apply afterDelete_same_rows].
Qed.

(** C10, amended.  With a store whose calls return: an id that matches no
    proposal is answered 404 and the store is unchanged; an id that matches
    the proposal [p] is answered 200, the proposals left are exactly those
    with another id, the rows joining [p]'s RFP and vendor have status
    [SENT] and the other [RFPVendor] rows are untouched. *)
Theorem deleteProposal_found_or_404 (env : Env) (id : N) (d : DB) :
  (forall s, dbFault env s = None) ->
  (find (fun q => (p_id q =? id)%N) (proposals d) = None ->
   run (deleteProposal env id) d
   = (Ok (mkResponse 404 ProposalNotFound),
      mkWorld d [mkCall ProposalFind d None]))
  /\ (forall p,
        find (fun q => (p_id q =? id)%N) (proposals d) = Some p ->
        exists w',
          run (deleteProposal env id) d
          = (Ok (mkResponse 200 ProposalDeleted), w')
          /\ db w' = afterDelete id p d
          /\ (forall q, In q (proposals (db w')) <->
                        In q (proposals d) /\ p_id q <> id)
          /\ markedSent p (db w')
          /\ forall rv, In rv (rfpVendors d) ->
                        joins (p_rfpId p) (p_vendorId p) rv = false ->
                        In rv (rfpVendors (db w'))).
Proof.
  intros Hnf. rewrite deleteProposal_run, !Hnf. split.
  - intros ->. reflexivity.
  - intros p ->. eexists. split; [reflexivity|]. simpl db.
    split; [reflexivity|].
    split; [intros q; apply afterDelete_proposals|].
    split; [apply afterDelete_sent|].
    intros rv Hin Hj. simpl. apply in_map_iff. exists rv.
    split; [|exact Hin]. unfold revertToSent. now rewrite Hj.
Qed.


(** ** The unique indexes along the controllers *)

Lemma fop_pairs (A : Type) (R : A -> A -> Prop) (pre : list A) :
  forall l r1 mid r2 post,
    ForallOrdPairs R l -> l = pre ++ r1 :: mid ++ r2 :: post -> R r1 r2.
Proof.
  induction pre as [|x pre IH]; intros l r1 mid r2 post Hl E; subst l.
  - inversion Hl as [|a l' Ha Hl']; subst.
    rewrite Forall_forall in Ha. apply Ha.
    apply in_or_app. right. now left.
  - inversion Hl as [|a l' Ha Hl']; subst. eapply IH; eauto.
Qed.

(** C3.  From a table where any two rows differ in [id], in [emailId] and
    in their non-null [proposalId], the handler reaches a table where any
    two rows still differ in [emailId] and in their non-null [proposalId];
    a webhook whose [email_id] is already stored leaves the store as it is,
    so no second row appears; and [deleteProposal] keeps the property. *)
Theorem inbound_email_unique_indexes
        (RT : Runtime) (env : Env) (req : option WebhookPayload) (d : DB)
        (r : Result (Response InboundBody)) (w' : World) :
  emailsUnique d ->
  keepsEmails env ->
  run (handleInboundEmail env req) d = (r, w') ->
  (forall pre r1 mid r2 post,
      inboundEmails (db w') = pre ++ r1 :: mid ++ r2 :: post ->
      ie_emailId r1 <> ie_emailId r2
      /\ forall p, ie_proposalId r1 = Some p -> ie_proposalId r2 <> Some p)
  /\ (forall payload emailData e,
         req = Some payload -> wp_data payload = Some emailData ->
         ed_email_id emailData = Some e ->
         hasEmailId e (inboundEmails d) = true ->
         db w' = d)
  /\ (forall env2 id r2 w2,
         run (deleteProposal env2 id) (db w') = (r2, w2) ->
         emailsUnique (db w2)).
Proof.
  intros Hu Hk Hrun.
  assert (Hu' : emailsUnique (db w')).
  { apply (@handleInboundEmail_unique RT env req Hk _ _ _ Hrun). exact Hu. }
  split.
  { intros pre r1 mid r2 post E.
    destruct (@fop_pairs _ distinctRows pre _ r1 mid r2 post Hu' E) as (_ & H1 & H2).
    now split. }
  split.
  { intros payload emailData e Hreq Hd He Hhas.
    unfold run in Hrun. apply handle_cases in Hrun.
    destruct Hrun as [[Hdb _]|Hrun]; [exact Hdb|].
    destruct Hrun as (payload' & emailData' & from & subject & body & w0 & res
                      & e' & rfpId & rfp & vendor & row0 & w1 & Hreq' & Hd'
                      & Hdb & _ & HR & _).
    exfalso. destruct HR as [Hid _ _ _ Hnew _ _ _ _ _ _].
    rewrite Hreq in Hreq'. injection Hreq' as <-.
    rewrite Hd in Hd'. injection Hd' as <-.
    rewrite He in Hid. injection Hid as <-.
    simpl in Hdb. rewrite Hdb in Hnew. congruence. }
  intros env2 id r2 w2 Hdel.
  apply (@deleteProposal_unique env2 id _ _ _ Hdel). exact Hu'.
Qed.

(** ** Scores *)

Lemma Qle_bool_false a b : Qle_bool a b = false -> (b < a)%Q.
Proof.
  intros H. apply Qnot_le_lt. intros Hle. apply Qle_bool_iff in Hle. congruence.
Qed.

Lemma clampScore_clamps n : n <> NaN -> clampedValue n (clampScore n).
Proof.
  intros Hn. unfold clampScore, num.
  destruct n as [| |q|]; [congruence| | |].
  - simpl. repeat split; try reflexivity; discriminate.
  - unfold Math_max. simpl num_leb.
    destruct (Qle_bool (inject_Z 0) q) eqn:E0.
    + apply Qle_bool_iff in E0. unfold Math_min. simpl num_leb.
      destruct (Qle_bool (inject_Z 100) q) eqn:E1.
      * apply Qle_bool_iff in E1. simpl.
        change (inject_Z 100) with 100%Q in *. change (inject_Z 0) with 0%Q in *.
        repeat split; intros; lra.
      * apply Qle_bool_false in E1. simpl.
        change (inject_Z 100) with 100%Q in *. change (inject_Z 0) with 0%Q in *.
        repeat split; intros; lra.
    + apply Qle_bool_false in E0. simpl.
      change (inject_Z 100) with 100%Q in *. change (inject_Z 0) with 0%Q in *.
      repeat split; intros; lra.
  - simpl. repeat split; try reflexivity; discriminate.
Qed.

Lemma clampedValue_inRange n sc : clampedValue n sc -> inRange sc.
Proof. destruct sc; simpl; tauto. Qed.

(** [calculateFallbackScore] stays between 25 and 95. *)
Lemma calculateFallbackScore_range (RT : Runtime) rfpData proposalData :
  (25 <= calculateFallbackScore rfpData proposalData <= 95)%Z.
Proof.
  unfold calculateFallbackScore.
  repeat match goal with
         | |- context [if ?b then _ else _] => destruct b
         end; lia.
Qed.

Lemma inRange_num z : (0 <= z <= 100)%Z -> inRange (num z).
Proof.
  intros [H0 H1]. unfold inRange, num. split.
  - change 0%Q with (inject_Z 0). now rewrite <- Zle_Qle.
  - change 100%Q with (inject_Z 100). now rewrite <- Zle_Qle.
Qed.

Lemma clampedValue_zero q sc :
  (q == 0)%Q -> clampedValue (num 0) sc -> clampedValue (Fin q) sc.
Proof.
  intros Hq. unfold clampedValue, num. destruct sc as [| |s|]; try tauto.
  change (inject_Z 0) with 0%Q. intros (Hr & H1 & H2 & H3).
  split; [exact Hr|]. repeat split; intros; lra.
Qed.

(** [scoringData.score || 0] keeps a number, or replaces a zero by zero. *)
Lemma clamp_or_zero (RT : Runtime) n :
  n <> NaN ->
  clampedValue n (clampScore (ToNumber (js_or (JNum n) (JNum (num 0))))).
Proof.
  intros Hn. unfold js_or.
  destruct n as [| |q|]; [congruence| | |]; simpl truthy.
  - now apply clampScore_clamps.
  - destruct (Qeq_bool q 0) eqn:E; simpl negb.
    + apply Qeq_bool_iff in E. apply clampedValue_zero; [exact E|].
      simpl ToNumber. apply clampScore_clamps. discriminate.
    + simpl ToNumber. now apply clampScore_clamps.
  - now apply clampScore_clamps.
Qed.

Lemma templateR_ok (RT : Runtime) v :
  convertible v = true -> templateR v = Ok (ToString v).
Proof. unfold templateR. now intros ->. Qed.

Lemma ToNumberR_ok (RT : Runtime) v :
  convertible v = true -> ToNumberR v = Ok (ToNumber v).
Proof. unfold ToNumberR. now intros ->. Qed.

Lemma convertible_or a b :
  convertible a = true -> convertible b = true -> convertible (js_or a b) = true.
Proof. unfold js_or. now destruct (truthy a). Qed.

Lemma whenTruthy_ok (RT : Runtime) v :
  convertible v = true -> AIService.whenTruthy v = Ok tt.
Proof.
  intros H. unfold AIService.whenTruthy.
  destruct (truthy v); [|reflexivity]. now rewrite (@templateR_ok RT v H).
Qed.

Lemma orNA_ok (RT : Runtime) v :
  convertible v = true -> AIService.orNA v = Ok tt.
Proof.
  intros H. unfold AIService.orNA.
  now rewrite (@templateR_ok RT _ (@convertible_or v (JStr (lit "N/A")) H eq_refl)).
Qed.

Lemma whenLimit_ok (RT : Runtime) limit v :
  convertible limit = true -> convertible v = true ->
  AIService.whenLimit limit v = Ok tt.
Proof.
  intros H1 H2. unfold AIService.whenLimit.
  destruct (truthy limit); [|reflexivity].
  now rewrite (@ToNumberR_ok RT _ H2), (@ToNumberR_ok RT _ H1).
Qed.

(** Nothing throws before the call of the model when the four values can
    be converted. *)
Lemma beforeTheCall_ok (RT : Runtime) rfpData fields :
  promptable rfpData (JObj fields) = true ->
  AIService.beforeTheCall rfpData (JObj fields) = Ok tt.
Proof.
  unfold promptable. rewrite !andb_true_iff. intros [[[Hb Hd] Hp] Hq].
  unfold AIService.beforeTheCall, getPropR.
  simpl getProp. unfold prop in Hp, Hq. simpl getProp in Hp, Hq.
  cbv iota beta. unfold bindR.
  rewrite (@whenTruthy_ok RT _ Hb), (@whenTruthy_ok RT _ Hd).
  rewrite (@orNA_ok RT _ Hp), (@orNA_ok RT _ Hq).
  rewrite (@whenLimit_ok RT _ _ Hb Hp), (@whenLimit_ok RT _ _ Hd Hq).
  rewrite (@orNA_ok RT _ Hb). now rewrite (@orNA_ok RT _ Hd).
Qed.

(** C9, amended.  When the reply of the model parses to a value whose
    [score] is a number [n] other than [NaN], [scoreProposal] returns
    [Math.min(100, Math.max(0, n))] in both revisions: a score between 0
    and 100, equal to [n] inside the interval, to 0 below it and to 100
    above it.  In [services/aiService.ts] the proposal has to be an object,
    and the budget and the delivery days of the RFP and the total price and
    the delivery days of the proposal values that can be converted to text,
    as the prompt and the log lines read and convert them before the model
    is called. *)
Theorem scoreProposal_clamps_score :
  (forall (RT : Runtime) rfpData fields vendorName reply scoringData n,
      promptable rfpData (JObj fields) = true ->
      JSON_parse (jsonText (cleanReply reply)) = Ok scoringData ->
      getProp scoringData (lit "score") = Some (JNum n) ->
      n <> NaN ->
      exists sc ev,
        AIService.scoreProposal rfpData (JObj fields) vendorName (Ok reply)
        = Ok (mkScore sc ev)
        /\ sc = clampScore (ToNumber (js_or (JNum n) (JNum (num 0))))
        /\ clampedValue n sc)
  /\ (forall (RT : Runtime) rfpData proposalData vendorName reply scoringData n,
         JSON_parse (cleanReply reply) = Ok scoringData ->
         getProp scoringData (lit "score") = Some (JNum n) ->
         n <> NaN ->
         exists sc ev,
           AIServiceRev.scoreProposal rfpData proposalData vendorName (Ok reply)
           = Ok (mkScore sc ev)
           /\ sc = clampScore n
           /\ clampedValue n sc).
Proof.
  split.
  - intros RT rfpData fields vendorName reply scoringData n Hc Hp Hs Hn.
    unfold AIService.scoreProposal.
    rewrite (@beforeTheCall_ok RT rfpData fields Hc).
    unfold rethrowScore, bindR, getPropR. rewrite Hp, Hs.
    rewrite ToNumberR_ok by (unfold js_or; now destruct (truthy (JNum n))).
    eexists _, _. split; [reflexivity|]. split; [reflexivity|].
    now apply clamp_or_zero.
  - intros RT rfpData proposalData vendorName reply scoringData n Hp Hs Hn.
    unfold AIServiceRev.scoreProposal, rethrowScore, bindR, getPropR.
    rewrite Hp, Hs. rewrite ToNumberR_ok by reflexivity.
    eexists _, _. split; [reflexivity|]. split; [reflexivity|].
    now apply clampScore_clamps.
Qed.


Import Example.

Lemma keepsEmails_aiDown f : keepsEmails (env f aiDown).
Proof. intros a b c d. reflexivity. Qed.

Ltac pick_call H :=
  vm_compute in H;
  repeat (destruct H as [<-|H]); try contradiction.

(** C2 as it is written fails: the extraction throws, [proposal.create]
    throws too, the handler takes its double-failure branch and no proposal
    is stored. *)
Lemma fallback_not_always :
  ~ fallbackAlways RefRuntime.runtime (env (faultAt ProposalCreate) aiDown)
      reply store.
Proof.
  intros H.
  pose (x := run (handleInboundEmail (RT:=RefRuntime.runtime)
                    (env (faultAt ProposalCreate) aiDown) reply) store).
  specialize (H (fst x) (snd x)
                (nth 3 (log (snd x)) (mkCall ResendGet store None))
                (lit "quota exceeded")).
  destruct H as (p & row & Hp & _).
  - apply surjective_pairing.
  - apply nth_In. vm_compute. lia.
  - vm_compute. reflexivity.
  - vm_compute. reflexivity.
  - vm_compute in Hp. exact Hp.
Qed.



(** The extraction throws and the store works: the fallback proposal. *)
Lemma fallback_proposal_created_witness :
  let x := run (handleInboundEmail (RT:=RefRuntime.runtime)
                  (env noFault aiDown) reply) store in
  threw (thirdCall (snd x)) = Some (lit "quota exceeded")
  /\ FallbackOutcome RefRuntime.runtime (snd x) (lit "quota exceeded")
  /\ exists pid vn rt data,
       fst x = Ok (mkResponse 200 (FallbackCreated pid vn rt data)).
Proof.
  intros x. split; [vm_compute; reflexivity|].
  apply (@fallback_proposal_created RefRuntime.runtime (env noFault aiDown)
           reply store (fst x) (snd x) (thirdCall (snd x)) (lit "quota exceeded")).
  - apply keepsEmails_aiDown.
  - apply surjective_pairing.
  - apply nth_In. vm_compute. lia.
  - vm_compute. reflexivity.
  - vm_compute. reflexivity.
  - intros c2 Hc2 Hf. pick_call Hc2; first [reflexivity|discriminate Hf].
Defined.

Lemma emailsUnique_storeAfterReply : emailsUnique storeAfterReply.
Proof.
  apply (@handleInboundEmail_unique RefRuntime.runtime (env noFault aiDown) reply
           (keepsEmails_aiDown _) (mkWorld store []) _ _ (surjective_pairing _)).
  constructor.
Qed.

(** A second message after [reply] gives two rows, with two ids and two
    proposals; a second delivery of [reply] leaves the store as it is. *)
Lemma inbound_email_unique_indexes_witness :
  let x := run (handleInboundEmail (RT:=RefRuntime.runtime)
                  (env noFault aiDown) secondReply) storeAfterReply in
  let y := run (handleInboundEmail (RT:=RefRuntime.runtime)
                  (env noFault aiDown) reply) storeAfterReply in
  emailsUnique storeAfterReply
  /\ (exists r1 r2,
         inboundEmails (db (snd x)) = [r1; r2]
         /\ ie_proposalId r1 <> None /\ ie_proposalId r2 <> None
         /\ ie_emailId r1 <> ie_emailId r2
         /\ forall p, ie_proposalId r1 = Some p -> ie_proposalId r2 <> Some p)
  /\ hasEmailId (lit "msg-1") (inboundEmails storeAfterReply) = true
  /\ db (snd y) = storeAfterReply.
Proof.
  intros x y. split; [exact emailsUnique_storeAfterReply|].
  split.
  - destruct (@inbound_email_unique_indexes RefRuntime.runtime
                (env noFault aiDown) secondReply storeAfterReply (fst x) (snd x)
                emailsUnique_storeAfterReply (keepsEmails_aiDown _)
                (surjective_pairing _)) as (Hpairs & _ & _).
    eexists. eexists. split; [vm_compute; reflexivity|].
    split; [discriminate|]. split; [discriminate|].
    apply (Hpairs [] _ [] _ []). vm_compute. reflexivity.
  - split; [vm_compute; reflexivity|].
    destruct (@inbound_email_unique_indexes RefRuntime.runtime
                (env noFault aiDown) reply storeAfterReply (fst y) (snd y)
                emailsUnique_storeAfterReply (keepsEmails_aiDown _)
                (surjective_pairing _)) as (_ & Hre & _).
    apply (Hre (payloadOf "Re: RFP ID: 123e4567-e89b-12d3-a456-426614174000"
                          "Total: 500. Delivery: 3 days")
               (emailOf "Re: RFP ID: 123e4567-e89b-12d3-a456-426614174000"
                        "Total: 500. Delivery: 3 days")
               (lit "msg-1")); reflexivity.
Defined.

(** An id that stands in the body only is found, a labelled id wins over a
    bare one that stands before it, and a text without any id makes the
    handler answer without a call. *)
Lemma extractRFPId_cascade_witness :
  extractRFPId (lit "Re: your request")
               (lit "Our offer for RFP ID: 123e4567-e89b-12d3-a456-426614174000")
  = Some uuid
  /\ extractRFPId (lit "About 00000000-0000-0000-0000-000000000000")
                  (lit "and rfp-123E4567-E89B-12D3-A456-426614174000")
     = Some (lit "123E4567-E89B-12D3-A456-426614174000")
  /\ extractRFPId (lit "rfp") (lit "id 123e4567-e89b-12d3-a456-426614174000")
     = Some uuid
  /\ extractRFPId (lit "hello") (lit "our offer") = None
  /\ run (handleInboundEmail (RT:=RefRuntime.runtime) (env noFault aiDown)
            (received "hello" "our offer")) store
     = (Ok (mkResponse 200 NoRfpId), mkWorld store []).
Proof.
  split; [rewrite (proj1 (extractRFPId_cascade _ _)); vm_compute; reflexivity|].
  split; [rewrite (proj1 (extractRFPId_cascade _ _)); vm_compute; reflexivity|].
  split; [rewrite (proj1 (extractRFPId_cascade _ _)); vm_compute; reflexivity|].
  split; [rewrite (proj1 (extractRFPId_cascade _ _)); vm_compute; reflexivity|].
  destruct (extractRFPId_cascade (lit "hello") (lit "our offer")) as (_ & _ & H).
  destruct (H ltac:(vm_compute; reflexivity)) as [_ H'].
  refine (proj1 (H' RefRuntime.runtime (env noFault aiDown)
                    (payloadOf "hello" "our offer") (emailOf "hello" "our offer")
                    (mkWorld store [])
                    (lit "our offer", fullOfData (emailOf "hello" "our offer"))
                    (mkWorld store []) (lit "Bob <Bob@Acme.com>") _ _ _ _));
    vm_compute; reflexivity.
Defined.


(** ** Events that are not received emails *)

(** C7 as it is written fails: for an event whose [type] is an object with
    a [toString] key the log line of the branch throws, and the answer of
    the outer [catch] says [success: false]. *)
Lemma odd_type_not_ignored :
  ~ ignoredWithSuccess RefRuntime.runtime (env noFault aiDown) oddEvent
      (mkWorld store []).
Proof.
  intros H. destruct (H eq_refl) as (b & w' & Hrun & Hs & _).
  vm_compute in Hrun. injection Hrun as <- _. discriminate Hs.
Qed.

(** C7, amended.  A payload whose [type] is not ['email.received'] is
    answered 200 and the world is the one before: no row of any table is
    created or changed and no call is made.  The answer says
    [success: true] when the [type] can be written in the log line of the
    branch, and [success: false] with the message of the [TypeError] when
    it cannot: an object with a [toString] key, or an array that holds
    one. *)
Theorem non_received_event_ignored (RT : Runtime) (env : Env)
        (payload : WebhookPayload) (w : World) :
  typeIs (wp_type payload) "email.received" = false ->
  handleInboundEmail env (Some payload) w
  = (Ok (mkResponse 200
           (if convertible (wp_type payload) then Ignored
            else Failed (lit "Cannot convert object to primitive value"))),
     w).
Proof. apply handle_ignored. Qed.

Lemma non_received_event_ignored_witness :
  typeIs (wp_type delivered) "email.received" = false
  /\ handleInboundEmail (RT:=RefRuntime.runtime) (env noFault aiDown)
       (Some delivered) (mkWorld store [])
     = (Ok (mkResponse 200 Ignored), mkWorld store [])
  /\ handleInboundEmail (RT:=RefRuntime.runtime) (env noFault aiDown)
       (Some oddEvent) (mkWorld store [])
     = (Ok (mkResponse 200 (Failed (lit "Cannot convert object to primitive value"))),
        mkWorld store []).
Proof.
  split; [vm_compute; reflexivity|]. split.
  - apply (@non_received_event_ignored RefRuntime.runtime (env noFault aiDown)
             delivered (mkWorld store [])). vm_compute. reflexivity.
  - apply (@non_received_event_ignored RefRuntime.runtime (env noFault aiDown)
             oddEvent (mkWorld store [])). vm_compute. reflexivity.
Defined.

(** ** The status of the vendor *)

(** C6 as it is written fails: [proposal.create] returns and
    [rFPVendor.updateMany] throws; the proposal is stored, nothing is
    rolled back, and the rows of its RFP and vendor still say [SENT]. *)
Lemma responded_not_always :
  ~ respondedWheneverCreated RefRuntime.runtime
      (env (faultAt VendorMarkResponded) aiDown) reply store.
Proof.
  intros H.
  pose (x := run (handleInboundEmail (RT:=RefRuntime.runtime)
                    (env (faultAt VendorMarkResponded) aiDown) reply) store).
  pose (p := nth 0 (proposals (db (snd x)))
                 (mkProposal 0 [] [] [] (FromAI JNull) None None false)).
  pose (rv := nth 0 (rfpVendors (db (snd x))) (mkRFPVendor [] [] RESPONDED)).
  assert (Hrv : rv_status rv = RESPONDED).
  { apply (H (fst x) (snd x) (fifthCall (snd x)) p).
    - apply surjective_pairing.
    - apply nth_In. vm_compute. lia.
    - vm_compute. reflexivity.
    - vm_compute. reflexivity.
    - apply nth_In. vm_compute. lia.
    - vm_compute. reflexivity.
    - apply nth_In. vm_compute. lia.
    - vm_compute. reflexivity. }
  vm_compute in Hrv. discriminate Hrv.
Qed.

(** With a store that works, the proposal of [reply] is created and its
    rows say [RESPONDED]; deleting it sets them back to [SENT]. *)
Lemma vendor_status_follows_proposal_witness :
  (let x := run (handleInboundEmail (RT:=RefRuntime.runtime)
                   (env noFault aiDown) reply) store in
   CreatedThenResponded (log (snd x)) (fifthCall (snd x)) (db (snd x)))
  /\ exists p,
       find (fun q => (p_id q =? 2)%N) (proposals storeAfterReply) = Some p
       /\ markedSent p
            (db (snd (run (deleteProposal (env noFault aiDown) 2) storeAfterReply))).
Proof.
  destruct vendor_status_follows_proposal as [H1 H2]. split.
  - intros x.
    apply (H1 RefRuntime.runtime (env noFault aiDown) reply store (fst x) (snd x)
              (fifthCall (snd x))).
    + apply surjective_pairing.
    + apply nth_In. vm_compute. lia.
    + vm_compute. reflexivity.
    + vm_compute. reflexivity.
    + reflexivity.
  - pose (y := run (deleteProposal (env noFault aiDown) 2) storeAfterReply).
    destruct (H2 (env noFault aiDown) 2%N storeAfterReply (fst y) (snd y)
                 (nth 1 (log (snd y)) (mkCall ResendGet store None)))
      as (p & c' & Hf & _ & _ & _ & _ & Hs & _).
    + apply surjective_pairing.
    + apply nth_In. vm_compute. lia.
    + vm_compute. reflexivity.
    + vm_compute. reflexivity.
    + reflexivity.
    + exists p. split; [exact Hf|exact Hs].
Defined.

(** ** [deleteProposal] *)

(** C10 as it is written fails: the proposal is found and deleted, then
    [rFPVendor.updateMany] throws; the answer is 500, the proposal stays
    deleted and the rows keep their status. *)
Lemma delete_not_always_200 :
  ~ deletesOr404 (env (faultAt VendorMarkSent) aiDown) 2 storeAfterReply.
Proof.
  intros [_ H].
  destruct (H (nth 0 (proposals storeAfterReply)
                   (mkProposal 0 [] [] [] (FromAI JNull) None None false)))
    as (w' & Hrun & _).
  - vm_compute. reflexivity.
  - vm_compute in Hrun. discriminate Hrun.
Qed.

Lemma deleteProposal_found_or_404_witness :
  run (deleteProposal (env noFault aiDown) 9) storeAfterReply
  = (Ok (mkResponse 404 ProposalNotFound),
     mkWorld storeAfterReply [mkCall ProposalFind storeAfterReply None])
  /\ exists p w',
       find (fun q => (p_id q =? 2)%N) (proposals storeAfterReply) = Some p
       /\ run (deleteProposal (env noFault aiDown) 2) storeAfterReply
          = (Ok (mkResponse 200 ProposalDeleted), w')
       /\ db w' = afterDelete 2 p storeAfterReply.
Proof.
  destruct (@deleteProposal_found_or_404 (env noFault aiDown) 9 storeAfterReply
              (fun s => eq_refl)) as [H404 _].
  destruct (@deleteProposal_found_or_404 (env noFault aiDown) 2 storeAfterReply
              (fun s => eq_refl)) as [_ H200].
  split.
  - apply H404. vm_compute. reflexivity.
  - destruct (find (fun q => (p_id q =? 2)%N) (proposals storeAfterReply))
      as [p|] eqn:E; [|vm_compute in E; discriminate E].
    destruct (H200 p eq_refl) as (w' & Hr & Hd & _).
    exists p, w'. split; [reflexivity|]. split; [exact Hr|exact Hd].
Defined.

(** ** Scores *)

(** C9 as it is written fails: the model answers with a score in words,
    [Math.max] and [Math.min] give [NaN], and that is the score
    returned. *)
Lemma score_not_always_in_range :
  ~ scoresInRange wordsRuntime (mkStructuredRFP JUndefined JUndefined) (JObj [])
      (lit "Acme") wordsJson.
Proof.
  intros [H _].
  apply (H NaN (JStr (lit "No evaluation provided"))).
  vm_compute. reflexivity.
Qed.

Lemma scoreProposal_clamps_score_witness :
  (exists ev,
      AIService.scoreProposal (RT:=scoreRuntime)
        (mkStructuredRFP JUndefined JUndefined) (JObj []) (lit "Acme")
        (Ok fencedReply)
      = Ok (mkScore (num 100) ev))
  /\ (exists ev,
         AIServiceRev.scoreProposal (RT:=scoreRuntime)
           (mkStructuredRFP JUndefined JUndefined) (JObj []) (lit "Acme")
           (Ok fencedReply)
         = Ok (mkScore (num 100) ev)).
Proof.
  destruct scoreProposal_clamps_score as [H1 H2]. split.
  - destruct (H1 scoreRuntime (mkStructuredRFP JUndefined JUndefined) []
                 (lit "Acme") fencedReply
                 (JObj [(lit "score", JNum (num 150))]) (num 150))
      as (sc & ev & Hr & Hsc & _).
    + vm_compute. reflexivity.
    + vm_compute. reflexivity.
    + vm_compute. reflexivity.
    + discriminate.
    + exists ev. rewrite Hr, Hsc. vm_compute. reflexivity.
  - destruct (H2 scoreRuntime (mkStructuredRFP JUndefined JUndefined) (JObj [])
                 (lit "Acme") fencedReply
                 (JObj [(lit "score", JNum (num 150))]) (num 150))
      as (sc & ev & Hr & Hsc & _).
    + vm_compute. reflexivity.
    + vm_compute. reflexivity.
    + discriminate.
    + exists ev. rewrite Hr, Hsc. vm_compute. reflexivity.
Defined.


#[local] Transparent lit.

(** ** What a match consumed and captured *)

Lemma orLast_assoc a b c : orLast (orLast a b) c = orLast a (orLast b c).
Proof. destruct c; reflexivity. Qed.

Lemma orLast_None_r a : orLast a None = a.
Proof. reflexivity. Qed.

Lemma starLoop_sound (A : Type) g
      (step : jsstring -> option jsstring -> Cont A -> option A) r k :
  StepSound step r ->
  forall fuel s c a,
    starLoop g step k fuel s c = Some a ->
    exists w s1 c',
      s = w ++ s1 /\ Matches (Star g r) w c' /\ k s1 (orLast c c') = Some a.
Proof.
  intros Hstep fuel.
  assert (Hnil : forall s c a, k s c = Some a ->
            exists w s1 c', s = w ++ s1 /\ Matches (Star g r) w c'
                            /\ k s1 (orLast c c') = Some a).
  { intros s c a H. exists [], s, None. split; [reflexivity|].
    split; [constructor|exact H]. }
  induction fuel as [|fuel IH]; intros s c a H; simpl in H.
  - destruct g.
    + now apply Hnil.
    + destruct (k s c) eqn:E; [|discriminate]. apply Hnil. congruence.
  - assert (Hmore : forall a0,
               step s c (fun s1 c1 =>
                           if List.length s1 <? List.length s
                           then starLoop g step k fuel s1 c1 else None) = Some a0 ->
               exists w s1 c', s = w ++ s1 /\ Matches (Star g r) w c'
                               /\ k s1 (orLast c c') = Some a0).
    { intros a0 Hm. apply Hstep in Hm.
      destruct Hm as (w1 & s1 & c1 & Hs & Hw1 & Hm).
      destruct (List.length s1 <? List.length s); [|discriminate].
      apply IH in Hm. destruct Hm as (w2 & s2 & c2 & Hs2 & Hw2 & Hm).
      exists (w1 ++ w2), s2, (orLast c1 c2).
      split; [subst; now rewrite app_assoc|].
      split; [now constructor|]. now rewrite <- orLast_assoc. }
    destruct g.
    + match type of H with
      | match ?X with _ => _ end = _ => destruct X eqn:E
      end.
      * inversion H; subst. apply Hmore. reflexivity.
      * now apply Hnil.
    + destruct (k s c) eqn:E.
      * apply Hnil. congruence.
      * apply Hmore. exact H.
Qed.

(** The matcher is sound: a success went on with the continuation after a
    string of the expression, with the capture of that string. *)
Lemma mtch_sound (A : Type) (r : regex) :
  forall s c (k : Cont A) a,
    mtch r s c k = Some a ->
    exists w s1 c',
      s = w ++ s1 /\ Matches r w c' /\ k s1 (orLast c c') = Some a.
Proof.
  induction r as [ | p | r1 IH1 r2 IH2 | r1 IH1 r2 IH2 | g r1 IH1 | r1 IH1];
    intros s c k a H; simpl in H.
  - exists [], s, None. split; [reflexivity|]. split; [constructor|exact H].
  - destruct s as [|x s']; [discriminate|].
    destruct (p x) eqn:Ep; [|discriminate].
    exists [x], s', None. split; [reflexivity|]. split; [now constructor|exact H].
  - apply IH1 in H. destruct H as (w1 & s1 & c1 & Hs1 & Hw1 & H).
    apply IH2 in H. destruct H as (w2 & s2 & c2 & Hs2 & Hw2 & H).
    exists (w1 ++ w2), s2, (orLast c1 c2).
    split; [subst; now rewrite app_assoc|].
    split; [now constructor|]. now rewrite <- orLast_assoc.
  - destruct (mtch r1 s c k) eqn:E1.
    + inversion H; subst. apply IH1 in E1.
      destruct E1 as (w & s1 & c1 & Hs & Hw & E1).
      exists w, s1, c1. split; [exact Hs|]. split; [now apply M_AltL|exact E1].
    + apply IH2 in H. destruct H as (w & s1 & c1 & Hs & Hw & E2).
      exists w, s1, c1. split; [exact Hs|]. split; [now apply M_AltR|exact E2].
  - eapply starLoop_sound; [|exact H].
    intros s0 c0 k0 a0 H0. now apply IH1.
  - apply IH1 in H. destruct H as (w & s1 & c1 & Hs & Hw & H).
    exists w, s1, (Some w). split; [exact Hs|]. split; [econstructor; exact Hw|].
    simpl. subst s. rewrite length_app in H.
    replace (List.length w + List.length s1 - List.length s1) with (List.length w)
      in H by lia.
    now rewrite firstn_app, Nat.sub_diag, firstn_all, firstn_O, app_nil_r in H.
Qed.

Lemma matchHere_sound r s w c :
  matchHere r s = Some (w, c) ->
  exists s1, s = w ++ s1 /\ Matches r w c.
Proof.
  unfold matchHere. intros H. apply mtch_sound in H.
  destruct H as (w0 & s1 & c' & Hs & Hw & H). simpl in H.
  injection H as H1 H2. subst s.
  rewrite length_app in H1.
  replace (List.length w0 + List.length s1 - List.length s1) with (List.length w0)
    in H1 by lia.
  rewrite firstn_app, Nat.sub_diag, firstn_all, firstn_O, app_nil_r in H1.
  subst w0. exists s1. split; [reflexivity|].
  destruct c' as [g|]; simpl in H2; subst c; exact Hw.
Qed.

(** [s.match(r)]: the text is cut in what comes before the match, the match
    and what is left. *)
Lemma execFrom_sound r : forall s i m,
  execFrom r i s = Some m ->
  exists p s1,
    s = p ++ m_whole m ++ s1 /\ m_index m = i + List.length p
    /\ Matches r (m_whole m) (m_group1 m).
Proof.
  induction s as [|x s IH]; intros i m H; rewrite execFrom_eq in H.
  - destruct (matchHere r []) as [[w c]|] eqn:E; [|discriminate].
    inversion H; subst. apply matchHere_sound in E. destruct E as (s1 & Hs & Hw).
    exists [], s1. simpl. split; [exact Hs|]. split; [lia|exact Hw].
  - destruct (matchHere r (x :: s)) as [[w c]|] eqn:E.
    + inversion H; subst. apply matchHere_sound in E. destruct E as (s1 & Hs & Hw).
      exists [], s1. simpl. split; [exact Hs|]. split; [lia|exact Hw].
    + apply IH in H. destruct H as (p & s1 & Hs & Hi & Hw).
      exists (x :: p), s1. simpl. split; [now rewrite Hs|]. split; [lia|exact Hw].
Qed.

Lemma exec_sound r s m :
  exec r s = Some m ->
  exists p s1,
    s = p ++ m_whole m ++ s1 /\ m_index m = List.length p
    /\ Matches r (m_whole m) (m_group1 m).
Proof.
  intros H. apply execFrom_sound in H. destruct H as (p & s1 & H1 & H2 & H3).
  exists p, s1. auto.
Qed.

(** A capture is a part of the match, and a string of a group. *)
Lemma Matches_occurs r w c :
  Matches r w c -> forall g, c = Some g -> occursIn g w.
Proof.
  induction 1 as [ | | r1 r2 w1 w2 c1 c2 H1 IH1 H2 IH2 | | | |
                   g0 r0 w1 w2 c1 c2 H1 IH1 H2 IH2 | ]; intros g0' Hc;
    try discriminate.
  - destruct c2 as [g2|]; simpl in Hc.
    + destruct (IH2 _ Hc) as (p & q & Hq). exists (w1 ++ p), q.
      rewrite Hq. now rewrite <- app_assoc.
    + destruct (IH1 _ Hc) as (p & q & Hq). exists p, (q ++ w2).
      rewrite Hq. now rewrite <- !app_assoc.
  - auto.
  - auto.
  - destruct c2 as [g2|]; simpl in Hc.
    + destruct (IH2 _ Hc) as (p & q & Hq). exists (w1 ++ p), q.
      rewrite Hq. now rewrite <- app_assoc.
    + destruct (IH1 _ Hc) as (p & q & Hq). exists p, (q ++ w2).
      rewrite Hq. now rewrite <- !app_assoc.
  - injection Hc as <-. exists [], []. now rewrite app_nil_r.
Qed.

Lemma Matches_capturedBy r w c :
  Matches r w c -> forall g, c = Some g -> capturedBy r g.
Proof.
  induction 1 as [ | | r1 r2 w1 w2 c1 c2 H1 IH1 H2 IH2 | | | |
                   g0 r0 w1 w2 c1 c2 H1 IH1 H2 IH2 | r0 w0 c0 H0 IH0];
    intros g0' Hc; try discriminate; simpl.
  - destruct c2 as [g2|]; simpl in Hc; [right|left]; auto.
  - left. auto.
  - right. auto.
  - destruct c2 as [g2|]; simpl in Hc.
    + apply (IH2 _ Hc).
    + apply (IH1 _ Hc).
  - injection Hc as <-. now exists c0.
Qed.

(** ** Strings of the expressions of the program *)

Lemma Lang_Eps w : Lang Eps w -> w = [].
Proof. intros [c H]. now inversion H. Qed.

Lemma Lang_Chr p w : Lang (Chr p) w -> exists x, w = [x] /\ p x = true.
Proof. intros [c H]. inversion H; subst. eauto. Qed.

Lemma Lang_Seq r1 r2 w :
  Lang (Seq r1 r2) w -> exists w1 w2, w = w1 ++ w2 /\ Lang r1 w1 /\ Lang r2 w2.
Proof.
  intros [c H]. inversion H; subst. exists w1, w2.
  split; [reflexivity|]. split; eexists; eauto.
Qed.

Lemma Lang_Alt r1 r2 w : Lang (Alt r1 r2) w -> Lang r1 w \/ Lang r2 w.
Proof. intros [c H]. inversion H; subst; [left|right]; eexists; eauto. Qed.

Lemma Lang_Cap r w : Lang (Cap r) w -> Lang r w.
Proof. intros [c H]. inversion H; subst. eexists; eauto. Qed.

Lemma Lang_Star_Chr g p w :
  Lang (Star g (Chr p)) w -> Forall (fun x => p x = true) w.
Proof.
  intros [c H]. remember (Star g (Chr p)) as r eqn:Hr. revert Hr.
  induction H as [ | | | | | | g0 r0 w1 w2 c1 c2 H1 _ H2 IH2 | ];
    intros Hr; try discriminate.
  - constructor.
  - injection Hr as -> ->. inversion H1; subst. constructor; auto.
Qed.

Lemma Lang_Plus_Chr p w :
  Lang (Plus (Chr p)) w -> w <> [] /\ Forall (fun x => p x = true) w.
Proof.
  intros H. apply Lang_Seq in H. destruct H as (w1 & w2 & -> & H1 & H2).
  apply Lang_Chr in H1. destruct H1 as (x & -> & Hx).
  apply Lang_Star_Chr in H2. split; [discriminate|]. now constructor.
Qed.

Lemma Lang_Rep_Chr p n : forall w,
  Lang (Rep n (Chr p)) w -> List.length w = n /\ Forall (fun x => p x = true) w.
Proof.
  induction n as [|n IH]; intros w H; simpl in H.
  - apply Lang_Eps in H. subst. split; [reflexivity|constructor].
  - apply Lang_Seq in H. destruct H as (w1 & w2 & -> & H1 & H2).
    apply Lang_Chr in H1. destruct H1 as (x & -> & Hx).
    apply IH in H2. destruct H2 as [Hl Hf]. simpl. split; [lia|now constructor].
Qed.


(** ** White space at the ends *)

Lemma trimStart_suffix s :
  exists p, s = p ++ trimStart s /\ Forall (fun x => isSpace x = true) p.
Proof.
  induction s as [|x s IH]; simpl.
  - exists []. split; [reflexivity|constructor].
  - destruct (isSpace x) eqn:E.
    + destruct IH as (p & Hp & Hf). exists (x :: p).
      split; [simpl; now rewrite <- Hp|now constructor].
    + exists []. split; [reflexivity|constructor].
Qed.

Lemma trimStart_head s x t : trimStart s = x :: t -> isSpace x = false.
Proof.
  induction s as [|y s IH]; simpl; [discriminate|].
  destruct (isSpace y) eqn:E; [exact IH|]. intros H. injection H as <- _. exact E.
Qed.

Lemma trimStart_id s :
  match s with x :: _ => isSpace x = false | [] => True end -> trimStart s = s.
Proof. destruct s as [|x s]; simpl; [reflexivity|]. now intros ->. Qed.

Lemma trimEnd_prefix s :
  exists q, s = trimEnd s ++ q /\ Forall (fun x => isSpace x = true) q.
Proof.
  unfold trimEnd. destruct (trimStart_suffix (rev s)) as (p & Hp & Hf).
  exists (rev p). split.
  - rewrite <- rev_app_distr, <- Hp. now rewrite rev_involutive.
  - apply Forall_forall. intros x Hx. rewrite <- in_rev in Hx.
    revert x Hx. now apply Forall_forall.
Qed.

Lemma trim_head s x t : trim s = x :: t -> isSpace x = false.
Proof.
  unfold trim. intros H.
  destruct (trimEnd_prefix (trimStart s)) as (q & Hq & _).
  rewrite H in Hq. simpl in Hq. now apply trimStart_head in Hq.
Qed.

Lemma trimEnd_last s t x : trimEnd s = t ++ [x] -> isSpace x = false.
Proof.
  unfold trimEnd. intros H. apply (f_equal (@rev _)) in H.
  rewrite rev_involutive, rev_app_distr in H. simpl in H.
  now apply trimStart_head in H.
Qed.

Lemma trimEnd_id s :
  (forall t x, s = t ++ [x] -> isSpace x = false) -> trimEnd s = s.
Proof.
  intros H. unfold trimEnd. rewrite trimStart_id; [apply rev_involutive|].
  destruct (rev s) as [|x t] eqn:E; [exact I|].
  apply (H (rev t) x). apply (f_equal (@rev _)) in E.
  now rewrite rev_involutive in E.
Qed.

(** [trim] gives a piece of the string. *)
Lemma trim_occurs s : exists p q, s = p ++ trim s ++ q.
Proof.
  destruct (trimStart_suffix s) as (p & Hp & _).
  destruct (trimEnd_prefix (trimStart s)) as (q & Hq & _).
  exists p, q. unfold trim. now rewrite <- Hq.
Qed.

(** Trimming twice is trimming once. *)
Lemma trim_idempotent s : trim (trim s) = trim s.
Proof.
  unfold trim at 1. rewrite trimStart_id.
  - apply trimEnd_id. intros t x H. unfold trim in H. now apply trimEnd_last in H.
  - destruct (trim s) as [|x t] eqn:E; [exact I|]. now apply trim_head in E.
Qed.

Lemma Forall_occurs (P : char -> Prop) u s :
  occursIn u s -> Forall P s -> Forall P u.
Proof.
  intros (p & q & ->) H. apply Forall_app in H. destruct H as [_ H].
  apply Forall_app in H. tauto.
Qed.

Lemma occursIn_trans a b c : occursIn a b -> occursIn b c -> occursIn a c.
Proof.
  intros (p & q & ->) (p' & q' & ->). exists (p' ++ p), (q ++ q').
  now rewrite <- !app_assoc.
Qed.

Lemma occursIn_firstn n s : occursIn (firstn n s) s.
Proof. exists [], (skipn n s). simpl. now rewrite firstn_skipn. Qed.

(** ** [.replace(/,/g, '')] *)

Lemma matchHere_Chr p s :
  matchHere (Chr p) s
  = match s with
    | x :: _ => if p x then Some ([x], None) else None
    | [] => None
    end.
Proof.
  unfold matchHere. destruct s as [|x s]; [reflexivity|]. cbn [mtch].
  destruct (p x); [|reflexivity].
  replace (List.length (x :: s) - List.length s) with 1
    by (cbn [List.length]; lia).
  reflexivity.
Qed.

Lemma replaceAll_Chr_nil p s :
  replaceAll (Chr p) [] s = filter (fun x => negb (p x)) s.
Proof.
  unfold replaceAll. induction s as [|x s IH].
  - reflexivity.
  - simpl replaceGo. rewrite (matchHere_Chr p (x :: s)).
    simpl. destruct (p x); simpl; [exact IH|now rewrite IH].
Qed.

Lemma stripCommas_filter s :
  stripCommas s = filter (fun x => negb (x =? 44)%N) s.
Proof. apply replaceAll_Chr_nil. Qed.

(** ** The captures of the fallback parser *)

Lemma exec_capture r s m :
  captures r = true -> exec r s = Some m ->
  exists g, m_group1 m = Some g /\ group1 m = g /\ capturedBy r g /\ occursIn g s.
Proof.
  intros Hr H. destruct (@exec_group1_defined r s m Hr H) as [g Hg].
  apply exec_sound in H. destruct H as (p & s1 & Hs & _ & Hm).
  exists g. split; [exact Hg|]. split; [unfold group1; now rewrite Hg|].
  split; [eapply Matches_capturedBy; eauto|].
  eapply occursIn_trans; [eapply Matches_occurs; eauto|].
  exists p, s1. exact Hs.
Qed.

Lemma firstMatchingCapture_some ps body g :
  firstMatchingCapture ps body = Some g ->
  exists p m, In p ps /\ exec p body = Some m /\ group1 m = g.
Proof.
  unfold firstMatchingCapture.
  destruct (find (matches body) ps) as [p|] eqn:E; [|discriminate].
  pose proof (find_some _ _ E) as [Hin _].
  destruct (exec p body) as [m|] eqn:Em; [|discriminate].
  simpl. intros H. injection H as <-. exists p, m. auto.
Qed.

Lemma fallbackParseProposal_eq (RT : Runtime) body :
  fallbackParseProposal body = fallbackSpec body.
Proof.
  unfold fallbackParseProposal, fallbackSpec, firstMatchingCapture.
  rewrite !forOf_first_match.
  destruct (find (matches body) pricePatterns) as [p1|] eqn:E1;
    [destruct (@find_matches_some body _ _ E1) as [m1 ->]|];
  (destruct (find (matches body) deliveryPatterns) as [p2|] eqn:E2;
    [destruct (@find_matches_some body _ _ E2) as [m2 ->]|]);
  (destruct (find (matches body) warrantyPatterns) as [p3|] eqn:E3;
    [destruct (@find_matches_some body _ _ E3) as [m3 ->]|]);
  (destruct (find (matches body) paymentPatterns) as [p4|] eqn:E4;
    [destruct (@find_matches_some body _ _ E4) as [m4 ->]|]);
  reflexivity.
Qed.

Ltac split_captured H :=
  simpl in H;
  repeat match type of H with
         | _ \/ _ => destruct H as [H|H]
         | False => contradiction
         end.

Lemma integer_capture ps body g :
  ps = deliveryPatterns \/ ps = warrantyPatterns ->
  firstMatchingCapture ps body = Some g ->
  g <> [] /\ digits g /\ occursIn g body.
Proof.
  intros Hps H. apply firstMatchingCapture_some in H.
  destruct H as (p & m & Hin & Hm & <-).
  assert (Hc : captures p = true).
  { destruct Hps; subst ps; cbv [In deliveryPatterns warrantyPatterns] in Hin;
      repeat (destruct Hin as [<-|Hin]; [reflexivity|]); contradiction. }
  destruct (@exec_capture p body m Hc Hm) as (g & _ & -> & Hg & Ho).
  split; [|split; [|exact Ho]];
    (destruct Hps; subst ps; cbv [In deliveryPatterns warrantyPatterns] in Hin;
     repeat (destruct Hin as [<-|Hin];
             [split_captured Hg; apply Lang_Plus_Chr in Hg; apply Hg|]);
     contradiction).
Qed.

Lemma isDigit_not_comma d : isDigit d = true -> (d =? 44)%N = false.
Proof.
  unfold isDigit. intros H. apply andb_true_iff in H. destruct H as [H _].
  apply N.leb_le in H. apply N.eqb_neq. lia.
Qed.

Lemma Lang_amount g :
  Lang (Seq (Plus (Chr isDigitOrComma))
            (Opt (Seq (Chr (chrIs 46%N)) (Rep 2 digit)))) g ->
  amountText g.
Proof.
  intros H. apply Lang_Seq in H.
  destruct H as (a & b & -> & Ha & Hb).
  apply Lang_Plus_Chr in Ha. destruct Ha as [Ha1 Ha2].
  exists a, b. split; [reflexivity|]. split; [exact Ha1|]. split; [exact Ha2|].
  apply Lang_Alt in Hb. destruct Hb as [Hb|Hb].
  - right. apply Lang_Seq in Hb. destruct Hb as (w1 & w2 & -> & H1 & H2).
    apply Lang_Chr in H1. destruct H1 as (x & -> & Hx).
    apply (@Lang_Rep_Chr isDigit 2) in H2. destruct H2 as [Hl Hf].
    destruct w2 as [|d1 [|d2 [|? ?]]]; try discriminate Hl.
    inversion Hf as [|? ? Hd1 Hf']; subst. inversion Hf' as [|? ? Hd2 _]; subst.
    unfold chrIs in Hx. apply N.eqb_eq in Hx. subst x.
    exists d1, d2. auto.
  - left. now apply Lang_Eps in Hb.
Qed.

Lemma price_capture body g :
  firstMatchingCapture pricePatterns body = Some g ->
  amountText g /\ occursIn g body.
Proof.
  intros H. apply firstMatchingCapture_some in H.
  destruct H as (p & m & Hin & Hm & <-).
  assert (Hc : captures p = true).
  { simpl in Hin. repeat (destruct Hin as [<-|Hin]; [reflexivity|]). contradiction. }
  destruct (@exec_capture p body m Hc Hm) as (g & _ & -> & Hg & Ho).
  split; [|exact Ho]. apply Lang_amount.
  simpl in Hin.
  repeat (destruct Hin as [<-|Hin]; [split_captured Hg; exact Hg|]).
  contradiction.
Qed.

Lemma payment_capture body g :
  firstMatchingCapture paymentPatterns body = Some g ->
  g <> [] /\ Forall (fun x => notNewlineNorDot x = true) g /\ occursIn g body.
Proof.
  intros H. apply firstMatchingCapture_some in H.
  destruct H as (p & m & Hin & Hm & <-).
  assert (Hc : captures p = true).
  { simpl in Hin. repeat (destruct Hin as [<-|Hin]; [reflexivity|]). contradiction. }
  destruct (@exec_capture p body m Hc Hm) as (g & _ & -> & Hg & Ho).
  split; [|split; [|exact Ho]];
    (simpl in Hin;
     repeat (destruct Hin as [<-|Hin];
             [split_captured Hg; apply Lang_Plus_Chr in Hg; apply Hg|]);
     contradiction).
Qed.

(** X1.  [deliveryDays] and [warrantyYears], when they are set, are the
    [parseInt] of a non-empty run of decimal digits that stands in the
    body: [parseInt] never sees a sign, a blank or a letter. *)
Theorem fallback_integers_from_digits (RT : Runtime) (body : jsstring) :
  (forall n, deliveryDays (fallbackParseProposal body) = Some n ->
     exists g, n = parseInt g /\ g <> [] /\ digits g /\ occursIn g body)
  /\ (forall n, warrantyYears (fallbackParseProposal body) = Some n ->
        exists g, n = parseInt g /\ g <> [] /\ digits g /\ occursIn g body).
Proof.
  rewrite fallbackParseProposal_eq. unfold fallbackSpec.
  cbn [paymentTerms totalPrice deliveryDays warrantyYears]. split; intros n H.
  - destruct (firstMatchingCapture deliveryPatterns body) as [g|] eqn:E;
      [|discriminate].
    cbn [option_map] in H. injection H as <-. exists g. split; [reflexivity|].
    eapply integer_capture; [left; reflexivity|exact E].
  - destruct (firstMatchingCapture warrantyPatterns body) as [g|] eqn:E;
      [|discriminate].
    cbn [option_map] in H. injection H as <-. exists g. split; [reflexivity|].
    eapply integer_capture; [right; reflexivity|exact E].
Qed.

(** X2.  [totalPrice], when it is set, is the [parseFloat] of a run of
    decimal digits, which may be empty, followed or not by a dot and two
    digits: the commas of the amount are gone, and nothing else of the body
    reaches [parseFloat]. *)
Theorem fallback_price_text (RT : Runtime) (body : jsstring) :
  forall v, totalPrice (fallbackParseProposal body) = Some v ->
    exists g ds frac,
      occursIn g body /\ amountText g
      /\ stripCommas g = ds ++ frac
      /\ v = parseFloat (ds ++ frac)
      /\ digits ds
      /\ (frac = [] \/ exists d1 d2, frac = [46%N; d1; d2]
                                     /\ isDigit d1 = true /\ isDigit d2 = true).
Proof.
  rewrite fallbackParseProposal_eq. unfold fallbackSpec.
  cbn [paymentTerms totalPrice deliveryDays warrantyYears]. intros v H.
  destruct (firstMatchingCapture pricePatterns body) as [g|] eqn:E; [|discriminate].
  cbn [option_map] in H. injection H as <-.
  apply price_capture in E. destruct E as [Ha Ho].
  pose proof Ha as (a & b & Hg & Hne & Hf & Hb).
  exists g, (filter (fun x => negb (x =? 44)%N) a), b.
  assert (Hs : stripCommas g = filter (fun x => negb (x =? 44)%N) a ++ b).
  { rewrite stripCommas_filter, Hg, filter_app. f_equal.
    destruct Hb as [->|(d1 & d2 & -> & H1 & H2)]; [reflexivity|].
    simpl. now rewrite (isDigit_not_comma d1 H1), (isDigit_not_comma d2 H2). }
  split; [exact Ho|]. split; [exact Ha|]. split; [exact Hs|].
  split; [now rewrite Hs|]. split; [|exact Hb].
  unfold digits. apply Forall_forall. intros x Hx. apply filter_In in Hx.
  destruct Hx as [Hx Hc]. rewrite Forall_forall in Hf. specialize (Hf x Hx).
  unfold isDigitOrComma in Hf. apply orb_true_iff in Hf.
  destruct Hf as [Hf|Hf]; [exact Hf|]. rewrite Hf in Hc. discriminate.
Qed.

(** X3.  [paymentTerms], when it is set, is a piece of the body of at most
    100 characters, without a line feed or a full stop, and it does not
    start with white space. *)
Theorem fallback_payment_terms_text (RT : Runtime) (body : jsstring) :
  forall t, paymentTerms (fallbackParseProposal body) = Some t ->
    occursIn t body
    /\ List.length t <= 100
    /\ Forall (fun x => notNewlineNorDot x = true) t
    /\ match t with x :: _ => isSpace x = false | [] => True end.
Proof.
  rewrite fallbackParseProposal_eq. unfold fallbackSpec.
  cbn [paymentTerms totalPrice deliveryDays warrantyYears]. intros t H.
  destruct (firstMatchingCapture paymentPatterns body) as [g|] eqn:E; [|discriminate].
  cbn [option_map] in H.
  assert (Et : t = substring0 100 (trim g)) by congruence. clear H. subst t.
  apply payment_capture in E. destruct E as (_ & Hf & Ho).
  assert (Hot : occursIn (substring0 100 (trim g)) g).
  { eapply occursIn_trans; [apply occursIn_firstn|]. apply trim_occurs. }
  split; [eapply occursIn_trans; eauto|].
  split; [apply firstn_le_length|].
  split; [eapply Forall_occurs; eauto|].
  unfold substring0. destruct (trim g) as [|x t] eqn:Et; [exact I|].
  change (firstn 100 (x :: t)) with (x :: firstn 99 t).
  now apply trim_head in Et.
Qed.

(** X4.  from a body without a decimal digit the parser reads no delivery
    time and no warranty, and without a digit or a comma no price. *)
Theorem fallback_no_digits_no_numbers (RT : Runtime) (body : jsstring) :
  Forall (fun x => isDigit x = false) body ->
  deliveryDays (fallbackParseProposal body) = None
  /\ warrantyYears (fallbackParseProposal body) = None
  /\ (Forall (fun x => (x =? 44)%N = false) body ->
      totalPrice (fallbackParseProposal body) = None).
Proof.
  intros Hd. rewrite fallbackParseProposal_eq. unfold fallbackSpec.
  cbn [paymentTerms totalPrice deliveryDays warrantyYears].
  assert (Hint : forall ps, ps = deliveryPatterns \/ ps = warrantyPatterns ->
                   firstMatchingCapture ps body = None).
  { intros ps Hps. destruct (firstMatchingCapture ps body) as [g|] eqn:E;
      [|reflexivity].
    exfalso. destruct (@integer_capture ps body g Hps E) as (Hne & Hg & Ho).
    pose proof (@Forall_occurs _ _ _ Ho Hd) as Hn.
    destruct g as [|x g]; [congruence|].
    inversion Hg; subst. inversion Hn; subst. congruence. }
  rewrite (Hint deliveryPatterns (or_introl eq_refl)).
  rewrite (Hint warrantyPatterns (or_intror eq_refl)).
  split; [reflexivity|]. split; [reflexivity|]. intros Hc.
  destruct (firstMatchingCapture pricePatterns body) as [g|] eqn:E; [|reflexivity].
  exfalso. apply price_capture in E. destruct E as [(a & b & -> & Hne & Hf & _) Ho].
  pose proof (@Forall_occurs _ _ _ Ho Hd) as Hn.
  pose proof (@Forall_occurs _ _ _ Ho Hc) as Hm.
  destruct a as [|x a]; [congruence|].
  inversion Hf; subst. inversion Hn; subst. inversion Hm; subst.
  unfold isDigitOrComma in *.
  match goal with H1 : isDigit x = false, H2 : (x =? 44)%N = false |- _ =>
    rewrite H1, H2 in *
  end. discriminate.
Qed.


(** ** Where an expression can start *)

Lemma mtch_headChr (A : Type) r p :
  headChr r = Some p ->
  forall s c (k : Cont A) a,
    mtch r s c k = Some a -> exists x t, s = x :: t /\ p x = true.
Proof.
  induction r as [ | q | r1 IH1 r2 IH2 | r1 IH1 r2 IH2 | g r1 IH1 | r1 IH1];
    simpl; intros Hh s c k a H; try discriminate.
  - injection Hh as <-. destruct s as [|x t]; [discriminate|].
    destruct (q x) eqn:E; [|discriminate]. eauto.
  - exact (IH1 Hh _ _ _ _ H).
  - exact (IH1 Hh _ _ _ _ H).
Qed.

Lemma matchHere_head r p x t :
  headChr r = Some p -> p x = false -> matchHere r (x :: t) = None.
Proof.
  intros Hh Hx. destruct (matchHere r (x :: t)) as [a|] eqn:E; [|reflexivity].
  unfold matchHere in E. apply (@mtch_headChr _ r p Hh) in E.
  destruct E as (y & u & Hs & Hy). injection Hs as <- _. congruence.
Qed.

Lemma matchHere_nil r p : headChr r = Some p -> matchHere r [] = None.
Proof.
  intros Hh. destruct (matchHere r []) as [a|] eqn:E; [|reflexivity].
  unfold matchHere in E. apply (@mtch_headChr _ r p Hh) in E.
  destruct E as (y & u & Hs & _). discriminate.
Qed.

Lemma execFrom_skip r p :
  headChr r = Some p ->
  forall pre i s,
    Forall (fun x => p x = false) pre ->
    execFrom r i (pre ++ s) = execFrom r (i + List.length pre) s.
Proof.
  intros Hh pre. induction pre as [|x pre IH]; intros i s Hf.
  - simpl. now rewrite Nat.add_0_r.
  - inversion Hf as [|? ? Hx Hf']; subst.
    change ((x :: pre) ++ s) with (x :: pre ++ s).
    rewrite (execFrom_eq r i (x :: pre ++ s)).
    rewrite (@matchHere_head r p x (pre ++ s) Hh Hx).
    rewrite IH by assumption. f_equal. simpl. lia.
Qed.

Lemma execFrom_none_head r p :
  headChr r = Some p ->
  forall s i, Forall (fun x => p x = false) s -> execFrom r i s = None.
Proof.
  intros Hh s. induction s as [|x s IH]; intros i Hf; rewrite execFrom_eq.
  - now rewrite (@matchHere_nil r p Hh).
  - inversion Hf as [|? ? Hx Hf']; subst.
    rewrite (@matchHere_head r p x s Hh Hx). cbv beta iota. now apply IH.
Qed.

(** ** [replace] where nothing matches *)

Lemma replaceGo_none r rep : forall s,
  (forall s', suffixOf s' s -> matchHere r s' = None) ->
  replaceGo r rep 0 s = s.
Proof.
  induction s as [|x s IH]; intros H.
  - simpl. now rewrite (H [] (suffixOf_refl [])).
  - simpl replaceGo. rewrite (H (x :: s) (suffixOf_refl _)).
    rewrite IH; [reflexivity|].
    intros s' Hs. apply H. eapply suffixOf_trans; [exact Hs|apply suffixOf_cons].
Qed.

Lemma suffixOf_Forall (P : char -> Prop) s' s :
  suffixOf s' s -> Forall P s -> Forall P s'.
Proof. intros [p ->] H. apply Forall_app in H. tauto. Qed.

Lemma replaceAll_none_head r p rep s :
  headChr r = Some p -> Forall (fun x => p x = false) s ->
  replaceAll r rep s = s.
Proof.
  intros Hh Hf. apply replaceGo_none. intros s' Hs.
  pose proof (@suffixOf_Forall _ _ _ Hs Hf) as Hf'.
  destruct s' as [|x t].
  - exact (@matchHere_nil r p Hh).
  - inversion Hf'; subst. now apply (@matchHere_head r p x t Hh).
Qed.

(** The characters of the current match still to drop. *)
Lemma replaceGo_skip r rep : forall u s,
  replaceGo r rep (List.length u) (u ++ s) = replaceGo r rep 0 s.
Proof.
  induction u as [|x u IH]; intros s; [reflexivity|].
  simpl. destruct u as [|y u]; [reflexivity|]. exact (IH s).
Qed.

Lemma firstn_cut (l r : jsstring) :
  firstn (List.length (l ++ r) - List.length r) (l ++ r) = l.
Proof.
  rewrite length_app.
  replace (List.length l + List.length r - List.length r) with (List.length l)
    by lia.
  now rewrite firstn_app, Nat.sub_diag, firstn_all, firstn_O, app_nil_r.
Qed.

(** ** Quantifiers over one class of characters *)

(** A lazy quantifier stops at the first place where what follows
    matches. *)
Lemma starLoop_lazy_chr (A : Type) p (K : Cont A) : forall u fuel s' c,
  Forall (fun x => p x = true) u ->
  (forall u1 x u2, u = u1 ++ x :: u2 -> K (x :: u2 ++ s') c = None) ->
  K s' c <> None ->
  List.length u <= fuel ->
  starLoop false (mtch (Chr p)) K fuel (u ++ s') c = K s' c.
Proof.
  induction u as [|x u IH]; intros fuel s' c Hf Hk Hs Hl.
  - simpl app. destruct fuel; simpl; destruct (K s' c); congruence.
  - destruct fuel as [|fuel]; [simpl in Hl; lia|].
    inversion Hf as [|? ? Hx Hf']; subst.
    simpl app. cbn [starLoop].
    rewrite (Hk [] x u eq_refl). cbn [mtch]. rewrite Hx.
    replace (List.length (u ++ s') <? List.length (x :: u ++ s')) with true
      by (symmetry; apply Nat.ltb_lt; simpl; lia).
    apply IH; [assumption| |assumption|simpl in Hl; lia].
    intros u1 y u2 Hu. apply (Hk (x :: u1) y u2). now rewrite Hu.
Qed.

(** A greedy quantifier over a class gives back nothing when what follows
    matches after the longest run. *)
Lemma starLoop_greedy_chr (A : Type) p (K : Cont A) : forall u fuel s' c,
  Forall (fun x => p x = true) u ->
  match s' with x :: _ => p x = false | [] => True end ->
  K s' c <> None ->
  List.length u <= fuel ->
  starLoop true (mtch (Chr p)) K fuel (u ++ s') c = K s' c.
Proof.
  induction u as [|x u IH]; intros fuel s' c Hf Hh Hs Hl.
  - simpl app. destruct fuel; simpl; [reflexivity|].
    destruct s' as [|y t]; [reflexivity|]. now rewrite Hh.
  - destruct fuel as [|fuel]; [simpl in Hl; lia|].
    inversion Hf as [|? ? Hx Hf']; subst.
    simpl app. cbn [starLoop mtch]. rewrite Hx.
    replace (List.length (u ++ s') <? List.length (x :: u ++ s')) with true
      by (symmetry; apply Nat.ltb_lt; simpl; lia).
    rewrite IH; [|assumption|assumption|assumption|simpl in Hl; lia].
    destruct (K s' c); congruence.
Qed.

(** ** [extractEmailAddress] *)

Lemma angleRe_eq :
  angleRe
  = Seq (Seq (Chr (chrIs 60%N)) Eps)
        (Seq (Cap (Seq (Chr isDot) (Star false (Chr isDot))))
             (Seq (Seq (Chr (chrIs 62%N)) Eps) Eps)).
Proof. reflexivity. Qed.

Lemma matchHere_angle a0 addr rest :
  Forall (fun x => isDot x = true /\ x <> 62%N) (a0 :: addr) ->
  matchHere angleRe (60%N :: (a0 :: addr) ++ 62%N :: rest)
  = Some (60%N :: (a0 :: addr) ++ [62%N], Some (a0 :: addr)).
Proof.
  intros Hf. inversion Hf as [|? ? [Ha0 _] Hf']; subst.
  unfold matchHere. rewrite angleRe_eq.
  set (s := 60%N :: (a0 :: addr) ++ 62%N :: rest).
  set (kf := fun (rest0 : jsstring) (c : option jsstring) =>
               Some (firstn (List.length s - List.length rest0) s, c)).
  subst s. cbn [mtch app]. change (chrIs 60%N 60%N) with true. cbv iota.
  rewrite Ha0.
  set (s0 := a0 :: addr ++ 62%N :: rest).
  set (K := fun (s1 : jsstring) (c1 : option jsstring) =>
              match s1 with
              | [] => None
              | x :: s' =>
                  if chrIs 62%N x
                  then kf s' (Some (firstn (List.length s0 - List.length s1) s0))
                  else None
              end).
  change (starLoop false (mtch (Chr isDot)) K (List.length (addr ++ 62%N :: rest))
                   (addr ++ 62%N :: rest) None
          = Some (60%N :: a0 :: addr ++ [62%N], Some (a0 :: addr))).
  rewrite starLoop_lazy_chr.
  - unfold K. change (chrIs 62%N 62%N) with true. cbv iota. unfold kf.
    assert (E1 : 60%N :: (a0 :: addr) ++ 62%N :: rest
                 = (60%N :: a0 :: addr ++ [62%N]) ++ rest)
      by (simpl; now rewrite <- app_assoc).
    assert (E2 : s0 = (a0 :: addr) ++ 62%N :: rest) by reflexivity.
    rewrite E1, E2, !firstn_cut. reflexivity.
  - apply Forall_forall. intros x Hx. rewrite Forall_forall in Hf'.
    now apply Hf'.
  - intros u1 x u2 Hu. unfold K.
    assert (Hx : x <> 62%N).
    { rewrite Forall_forall in Hf'. apply Hf'. rewrite Hu.
      apply in_or_app. right. now left. }
    unfold chrIs. apply N.eqb_neq in Hx. now rewrite Hx.
  - unfold K. change (chrIs 62%N 62%N) with true. cbv iota. unfold kf. discriminate.
  - rewrite length_app. lia.
Qed.

Lemma headChr_angle : headChr angleRe = Some (chrIs 60%N).
Proof. reflexivity. Qed.

Lemma not_chrIs c s :
  Forall (fun x => x <> c) s -> Forall (fun x => chrIs c x = false) s.
Proof.
  intros H. eapply Forall_impl; [|exact H]. intros x Hx. now apply N.eqb_neq.
Qed.

(** X5.  for a sender written [Name <address>], the address between the
    first pair of angle brackets is what the handler looks the vendor up
    with, lower-cased and trimmed. *)
Theorem extractEmailAddress_bracketed (RT : Runtime)
        (name addr rest : jsstring) :
  Forall (fun x => x <> 60%N) name ->
  addr <> [] ->
  Forall (fun x => isDot x = true /\ x <> 62%N) addr ->
  extractEmailAddress (name ++ lit "<" ++ addr ++ lit ">" ++ rest)
  = trim (toLowerCase addr).
Proof.
  intros Hn Ha Hf. unfold extractEmailAddress, exec.
  destruct addr as [|a0 addr]; [congruence|].
  rewrite (@execFrom_skip angleRe _ headChr_angle name 0 _ (@not_chrIs _ _ Hn)).
  change (lit "<" ++ (a0 :: addr) ++ lit ">" ++ rest)
    with (60%N :: (a0 :: addr) ++ 62%N :: rest).
  rewrite execFrom_eq, (@matchHere_angle a0 addr rest Hf).
  reflexivity.
Qed.

(** X6.  the address the handler looks the vendor up with never starts or
    ends with white space, and a sender without an angle bracket is taken
    whole. *)
Theorem extractEmailAddress_normal_form (RT : Runtime) (fromField : jsstring) :
  trim (extractEmailAddress fromField) = extractEmailAddress fromField
  /\ (Forall (fun x => x <> 60%N) fromField ->
      extractEmailAddress fromField = trim (toLowerCase fromField)).
Proof.
  split.
  - unfold extractEmailAddress. destruct (exec angleRe fromField);
      apply trim_idempotent.
  - intros Hn. unfold extractEmailAddress, exec.
    now rewrite (@execFrom_none_head angleRe _ headChr_angle fromField 0 (@not_chrIs _ _ Hn)).
Qed.


(** ** The conversion of step 4 *)

Lemma includes_char_false c s :
  includes_char c s = false -> Forall (fun x => x <> c) s.
Proof.
  unfold includes_char. induction s as [|x s IH]; simpl; intros H.
  - constructor.
  - apply orb_false_iff in H. destruct H as [Hx Hs]. constructor; [|now apply IH].
    apply N.eqb_neq in Hx. congruence.
Qed.

Lemma chrCI_lt s :
  Forall (fun x => x <> 60%N) s -> Forall (fun x => chrCI 60%N x = false) s.
Proof.
  intros H. eapply Forall_impl; [|exact H]. intros x Hx. unfold chrCI.
  change (isLowerAscii 60%N) with false. change (isUpperAscii 60%N) with false.
  simpl. rewrite ?orb_false_r. now apply N.eqb_neq.
Qed.

Lemma htmlToText_no_lt s :
  Forall (fun x => x <> 60%N) s ->
  htmlToText s = trim (replaceAll (Plus ws) (lit " ") (decodeEntities s)).
Proof.
  intros H. unfold htmlToText, decodeEntities.
  rewrite (@replaceAll_none_head styleRe (chrCI 60%N) [] s eq_refl (chrCI_lt H)).
  rewrite (@replaceAll_none_head scriptRe (chrCI 60%N) [] s eq_refl (chrCI_lt H)).
  rewrite (@replaceAll_none_head tagRe (chrIs 60%N) (lit " ") s eq_refl
             (@not_chrIs _ _ H)).
  reflexivity.
Qed.

(** X7.  the conversion of step 4 removes no element: the body the handler
    goes on with is the body it received, or, when that has no [<], the
    body with the five entities replaced and the white space collapsed.  A
    body with markup in it is stored and parsed with its tags. *)
Theorem html_conversion_removes_no_tag
        (emailData : EmailData) (emailBody : jsstring) (fullEmail : FullEmail)
        (from subject body' : jsstring) :
  intake emailData emailBody fullEmail = inr (from, subject, body') ->
  body' = emailBody
  \/ (Forall (fun x => x <> 60%N) emailBody
      /\ body' = trim (replaceAll (Plus ws) (lit " ") (decodeEntities emailBody))).
Proof.
  unfold intake.
  destruct (negb (nonempty emailBody) || (List.length (trim emailBody) =? 0));
    [discriminate|].
  destruct (negb (includes_char 60%N emailBody) && truthyStr (fe_html fullEmail))
    eqn:E.
  - apply andb_true_iff in E. destruct E as [E _]. apply negb_true_iff in E.
    apply includes_char_false in E.
    destruct (negb (truthyStr (ed_from emailData))
              || negb (nonempty (htmlToText emailBody))); [discriminate|].
    intros H. right. split; [exact E|].
    rewrite <- (htmlToText_no_lt E). congruence.
  - destruct (negb (truthyStr (ed_from emailData)) || negb (nonempty emailBody));
      [discriminate|].
    intros H. left. congruence.
Qed.

(** ** Collapsed white space *)

Lemma Plus_ws_eq : Plus ws = Seq (Chr isSpace) (Star true (Chr isSpace)).
Proof. reflexivity. Qed.

Lemma spaceRun_split s :
  exists rest,
    s = spaceRun s ++ rest
    /\ Forall (fun x => isSpace x = true) (spaceRun s)
    /\ match rest with x :: _ => isSpace x = false | [] => True end.
Proof.
  induction s as [|x s IH]; simpl.
  - exists []. repeat split. constructor.
  - destruct (isSpace x) eqn:E.
    + destruct IH as (rest & Hs & Hf & Hr). exists rest.
      split; [simpl; now rewrite <- Hs|]. split; [now constructor|exact Hr].
    + exists (x :: s). repeat split; [constructor|exact E].
Qed.

Lemma matchHere_Plus_ws x t :
  isSpace x = true ->
  matchHere (Plus ws) (x :: t) = Some (x :: spaceRun t, None).
Proof.
  intros Hx. unfold matchHere. rewrite Plus_ws_eq. cbn [mtch]. rewrite Hx.
  destruct (spaceRun_split t) as (rest & Hs & Hf & Hr).
  set (kf := fun (rest0 : jsstring) (c : option jsstring) =>
               Some (firstn (List.length (x :: t) - List.length rest0) (x :: t), c)).
  rewrite Hs at 1 2.
  rewrite (@starLoop_greedy_chr _ isSpace kf (spaceRun t) _ rest None Hf Hr).
  - unfold kf. f_equal. f_equal.
    replace (x :: t) with ((x :: spaceRun t) ++ rest) by (simpl; now rewrite <- Hs).
    apply firstn_cut.
  - unfold kf. discriminate.
  - rewrite length_app. lia.
Qed.

Lemma matchHere_Plus_ws_none s :
  match s with x :: _ => isSpace x = false | [] => True end ->
  matchHere (Plus ws) s = None.
Proof.
  destruct s as [|x t]; intros H.
  - reflexivity.
  - apply (@matchHere_head (Plus ws) isSpace x t eq_refl H).
Qed.

Lemma replaceGo_match r rep w s1 c :
  w <> [] -> matchHere r (w ++ s1) = Some (w, c) ->
  replaceGo r rep 0 (w ++ s1) = rep ++ replaceGo r rep 0 s1.
Proof.
  intros Hw H. destruct w as [|x w]; [congruence|].
  change ((x :: w) ++ s1) with (x :: w ++ s1) in *.
  cbn [replaceGo]. rewrite H. cbn [List.length].
  now rewrite replaceGo_skip.
Qed.

Lemma replaceGo_nomatch r rep x t :
  matchHere r (x :: t) = None ->
  replaceGo r rep 0 (x :: t) = x :: replaceGo r rep 0 t.
Proof. intros H. cbn [replaceGo]. now rewrite H. Qed.

Lemma collapseWs_run : forall s,
  Forall (fun x => isSpace x = true) s ->
  forall rest, collapseWs true (s ++ rest) = collapseWs true rest.
Proof.
  induction s as [|x s IH]; intros Hf rest; [reflexivity|].
  inversion Hf; subst. simpl. rewrite H1. now apply IH.
Qed.

Lemma collapseWs_true_head rest :
  match rest with x :: _ => isSpace x = false | [] => True end ->
  collapseWs true rest = collapseWs false rest.
Proof. destruct rest as [|x t]; simpl; [reflexivity|]. now intros ->. Qed.

Lemma replaceAll_Plus_ws s :
  replaceAll (Plus ws) (lit " ") s = collapseWs false s.
Proof.
  unfold replaceAll.
  remember (List.length s) as n eqn:Hn. revert s Hn.
  induction n as [n IH] using lt_wf_ind. intros s Hn.
  destruct s as [|x t]; [reflexivity|].
  destruct (isSpace x) eqn:Hx.
  - destruct (spaceRun_split t) as (rest & Hs & Hf & Hr).
    pose proof (@matchHere_Plus_ws x t Hx) as Hm.
    assert (Hxt : x :: t = (x :: spaceRun t) ++ rest)
      by (simpl; now rewrite <- Hs).
    rewrite Hxt in Hm |- *.
    rewrite (@replaceGo_match (Plus ws) (lit " ") (x :: spaceRun t) rest None
               ltac:(discriminate) Hm).
    rewrite (IH (List.length rest)); [|
      subst n; rewrite Hxt, length_app; simpl; lia | reflexivity].
    change ((x :: spaceRun t) ++ rest) with (x :: spaceRun t ++ rest).
    cbn [collapseWs]. rewrite Hx.
    rewrite (@collapseWs_run _ Hf), (@collapseWs_true_head rest Hr). reflexivity.
  - rewrite replaceGo_nomatch
      by (apply (@matchHere_head (Plus ws) isSpace x t eq_refl Hx)).
    cbn [collapseWs]. rewrite Hx. f_equal.
    apply (IH (List.length t)); [subst n; simpl; lia|reflexivity].
Qed.

Lemma collapseWs_single : forall s b,
  singleSpaces (collapseWs b s)
  /\ (b = true ->
      match collapseWs b s with y :: _ => isSpace y = false | [] => True end).
Proof.
  induction s as [|x s IH]; intros b; simpl.
  - split; [exact I|intros _; exact I].
  - destruct (isSpace x) eqn:Hx.
    + destruct b.
      * apply IH.
      * destruct (IH true) as [H1 H2]. split; [|discriminate].
        simpl. split; [reflexivity|]. split; [intros _; now apply H2|exact H1].
    + destruct (IH false) as [H1 _]. split.
      * simpl. rewrite Hx. split; [discriminate|]. split; [discriminate|exact H1].
      * intros _. exact Hx.
Qed.

Lemma singleSpaces_app a b : singleSpaces (a ++ b) -> singleSpaces a /\ singleSpaces b.
Proof.
  induction a as [|x a IH]; simpl; intros H.
  - split; [exact I|exact H].
  - destruct H as (H1 & H2 & H3). apply IH in H3. destruct H3 as [Ha Hb].
    split; [|exact Hb]. split; [exact H1|]. split; [|exact Ha].
    intros Hx. specialize (H2 Hx). destruct a as [|y a]; [exact I|exact H2].
Qed.

Lemma singleSpaces_occurs u s : occursIn u s -> singleSpaces s -> singleSpaces u.
Proof.
  intros (p & q & ->) H. apply singleSpaces_app in H. destruct H as [_ H].
  apply singleSpaces_app in H. tauto.
Qed.

(** X8.  a body that went through the conversion of step 4 has its white
    space in normal form: every white-space character is a space, no two
    stand side by side, and none stands at the start or at the end. *)
Theorem htmlToText_white_space (s : jsstring) :
  singleSpaces (htmlToText s)
  /\ match htmlToText s with x :: _ => isSpace x = false | [] => True end
  /\ (forall t x, htmlToText s = t ++ [x] -> isSpace x = false).
Proof.
  unfold htmlToText. cbv zeta. rewrite replaceAll_Plus_ws.
  split; [|split].
  - eapply singleSpaces_occurs; [apply trim_occurs|]. apply collapseWs_single.
  - destruct (trim _) as [|x t] eqn:E; [exact I|]. now apply trim_head in E.
  - intros t x H. unfold trim in H. now apply trimEnd_last in H.
Qed.


(** ** Code fences *)

Lemma fenceNlRe_eq :
  fenceNlRe
  = Seq (Seq (Chr (chrIs 96%N)) (Seq (Chr (chrIs 96%N)) (Seq (Chr (chrIs 96%N)) Eps)))
        (Alt (Chr (chrIs 10%N)) Eps).
Proof. reflexivity. Qed.

Lemma fenceRe_eq :
  fenceRe
  = Seq (Chr (chrIs 96%N)) (Seq (Chr (chrIs 96%N)) (Seq (Chr (chrIs 96%N)) Eps)).
Proof. reflexivity. Qed.

Lemma matchHere_fenceRe_none s : fenceAt s = false -> matchHere fenceRe s = None.
Proof.
  intros H. unfold matchHere. rewrite fenceRe_eq.
  destruct s as [|a [|b [|c t]]]; cbn [mtch]; try reflexivity;
    unfold fenceAt, isTick in H; unfold chrIs.
  - destruct (a =? 96)%N; reflexivity.
  - destruct (a =? 96)%N; [|reflexivity]. destruct (b =? 96)%N; reflexivity.
  - destruct (a =? 96)%N; [|reflexivity]. destruct (b =? 96)%N; [|reflexivity].
    destruct (c =? 96)%N; [discriminate|reflexivity].
Qed.

Lemma matchHere_fenceNl_none s : fenceAt s = false -> matchHere fenceNlRe s = None.
Proof.
  intros H. unfold matchHere. rewrite fenceNlRe_eq.
  destruct s as [|a [|b [|c t]]]; cbn [mtch]; try reflexivity;
    unfold fenceAt, isTick in H; unfold chrIs.
  - destruct (a =? 96)%N; reflexivity.
  - destruct (a =? 96)%N; [|reflexivity]. destruct (b =? 96)%N; reflexivity.
  - destruct (a =? 96)%N; [|reflexivity]. destruct (b =? 96)%N; [|reflexivity].
    destruct (c =? 96)%N; [discriminate|reflexivity].
Qed.

(** At a fence the expression takes the three backticks, and the line feed
    after them when there is one. *)
Lemma matchHere_fenceNl a b c t :
  fenceAt (a :: b :: c :: t) = true ->
  exists w rest,
    a :: b :: c :: t = w ++ rest /\ w <> []
    /\ matchHere fenceNlRe (w ++ rest) = Some (w, None)
    /\ List.length rest <= List.length t.
Proof.
  intros H. unfold fenceAt, isTick in H.
  apply andb_true_iff in H. destruct H as [H Hc].
  apply andb_true_iff in H. destruct H as [Ha Hb].
  assert (Hm : forall w rest,
             a :: b :: c :: t = w ++ rest ->
             mtch fenceNlRe (w ++ rest) None
                  (fun rest0 c0 =>
                     Some (firstn (List.length (w ++ rest) - List.length rest0)
                                  (w ++ rest), c0))
             = (match t with
                | d :: t' =>
                    if (d =? 10)%N
                    then Some (firstn (List.length (w ++ rest) - List.length t')
                                      (w ++ rest), None)
                    else Some (firstn (List.length (w ++ rest) - List.length t)
                                      (w ++ rest), None)
                | [] => Some (firstn (List.length (w ++ rest) - List.length t)
                                     (w ++ rest), None)
                end)).
  { intros w rest Hwr. rewrite <- Hwr. rewrite fenceNlRe_eq. cbn [mtch].
    unfold chrIs.
    rewrite Ha, Hb, Hc. destruct t as [|d t']; [reflexivity|].
    destruct (d =? 10)%N; reflexivity. }
  destruct t as [|d t'].
  - exists [a; b; c], []. split; [reflexivity|]. split; [discriminate|].
    split; [|simpl; lia].
    unfold matchHere. rewrite (Hm [a; b; c] [] eq_refl).
    now rewrite firstn_cut.
  - destruct (d =? 10)%N eqn:Hd.
    + exists [a; b; c; d], t'. split; [reflexivity|]. split; [discriminate|].
      split; [|simpl; lia].
      unfold matchHere. rewrite (Hm [a; b; c; d] t' eq_refl).
      now rewrite firstn_cut.
    + exists [a; b; c], (d :: t'). split; [reflexivity|]. split; [discriminate|].
      split; [|simpl; lia].
      unfold matchHere. rewrite (Hm [a; b; c] (d :: t') eq_refl).
      now rewrite firstn_cut.
Qed.

(** What [.replace(/```\n?/g, "")] gives has no fence left, and starts with
    two backticks only if the text did. *)
Lemma replace_fenceNl_clean : forall n s,
  List.length s <= n ->
  hasFence (replaceAll fenceNlRe [] s) = false
  /\ (ticksAt s = false -> ticksAt (replaceAll fenceNlRe [] s) = false).
Proof.
  unfold replaceAll.
  induction n as [|n IH]; intros s Hn.
  - destruct s; [|simpl in Hn; lia]. split; reflexivity.
  - destruct s as [|a t]; [split; reflexivity|].
    destruct (fenceAt (a :: t)) eqn:Ef.
    + destruct t as [|b [|c t]]; try discriminate Ef.
      destruct (matchHere_fenceNl a b c t Ef) as (w & rest & Hs & Hw & Hm & Hl).
      split.
      * rewrite Hs, (@replaceGo_match fenceNlRe [] w rest None Hw Hm).
        simpl app. destruct (IH rest) as [H1 _]; [simpl in Hn; lia|exact H1].
      * intros Ht. exfalso. unfold fenceAt in Ef. unfold ticksAt in Ht.
        apply andb_true_iff in Ef. destruct Ef as [Ef _].
        rewrite Ef in Ht. discriminate.
    + rewrite (@replaceGo_nomatch fenceNlRe [] a t (matchHere_fenceNl_none _ Ef)).
      destruct (IH t) as [H1 H2]; [simpl in Hn; lia|].
      assert (Hkeep : forall b u, t = b :: u -> isTick b = false ->
                 exists u', replaceGo fenceNlRe [] 0 t = b :: u').
      { intros b u -> Hb. eexists.
        apply replaceGo_nomatch. apply matchHere_fenceNl_none.
        unfold fenceAt. destruct u as [|c [|d u]]; try reflexivity.
        now rewrite Hb. }
      assert (Htail : isTick a = true -> ticksAt t = false).
      { intros Ha. destruct t as [|b [|c t]]; try reflexivity.
        unfold fenceAt in Ef. unfold ticksAt. rewrite Ha in Ef. exact Ef. }
      split.
      * cbn [hasFence]. rewrite H1, orb_false_r.
        destruct (isTick a) eqn:Ha.
        -- specialize (H2 (Htail eq_refl)).
           destruct (replaceGo fenceNlRe [] 0 t) as [|b [|c u]]; try reflexivity.
           unfold fenceAt. rewrite Ha. exact H2.
        -- destruct (replaceGo fenceNlRe [] 0 t) as [|b [|c u]]; try reflexivity.
           unfold fenceAt. now rewrite Ha.
      * intros Ht. destruct (isTick a) eqn:Ha.
        -- destruct t as [|b u]; [reflexivity|].
           simpl in Ht. rewrite Ha in Ht. simpl in Ht.
           destruct (Hkeep b u eq_refl Ht) as (u' & ->).
           simpl. now rewrite Ha, Ht.
        -- destruct (replaceGo fenceNlRe [] 0 t) as [|b u]; [reflexivity|].
           simpl. now rewrite Ha.
Qed.

Lemma hasFence_suffix s' s : suffixOf s' s -> hasFence s = false -> fenceAt s' = false.
Proof.
  intros [p ->]. induction p as [|x p IH]; simpl app; intros H.
  - destruct s' as [|a t]; [reflexivity|]. cbn [hasFence] in H.
    now apply orb_false_iff in H.
  - cbn [hasFence] in H. apply orb_false_iff in H. tauto.
Qed.

Lemma replace_fence_id s : hasFence s = false -> replaceAll fenceRe [] s = s.
Proof.
  intros H. apply replaceGo_none. intros s' Hs.
  apply matchHere_fenceRe_none. eapply hasFence_suffix; eauto.
Qed.

Lemma hasFence_occurs s : occursIn (lit "```") s -> hasFence s = true.
Proof.
  intros (p & q & ->). induction p as [|x p IH].
  - reflexivity.
  - change ((x :: p) ++ lit "```" ++ q) with (x :: (p ++ lit "```" ++ q)).
    cbn [hasFence]. rewrite IH. apply orb_true_r.
Qed.

Lemma hasFence_sub u s : occursIn u s -> hasFence s = false -> hasFence u = false.
Proof.
  intros Hu Hs. destruct (hasFence u) eqn:E; [|reflexivity].
  assert (Ho : occursIn (lit "```") u).
  { clear -E. induction u as [|x u IH]; [discriminate|].
    cbn [hasFence] in E. apply orb_true_iff in E. destruct E as [E|E].
    - destruct u as [|b [|c t]]; try discriminate E.
      unfold fenceAt, isTick in E.
      apply andb_true_iff in E. destruct E as [E Hc].
      apply andb_true_iff in E. destruct E as [Ha Hb].
      apply N.eqb_eq in Ha, Hb, Hc. subst. exists [], t. reflexivity.
    - destruct (IH E) as (p & q & ->). exists (x :: p), q. reflexivity. }
  pose proof (hasFence_occurs (occursIn_trans Ho Hu)). congruence.
Qed.

(** X9.  after the two replacements [/```json\n?/g] and [/```\n?/g] no code
    fence is left, so the third one of [scoreProposal], [/```/g], changes
    nothing, and the cleaned reply holds no three backticks in a row. *)
Theorem cleanReply_no_fence (text : jsstring) :
  cleanReply text
  = trim (replaceAll fenceNlRe [] (replaceAll fenceJsonRe [] (trim text)))
  /\ ~ occursIn (lit "```") (cleanReply text).
Proof.
  set (t1 := replaceAll fenceJsonRe [] (trim text)).
  destruct (@replace_fenceNl_clean (List.length t1) t1 (le_n _)) as [Hc _].
  assert (E : cleanReply text = trim (replaceAll fenceNlRe [] t1)).
  { unfold cleanReply. fold t1. now rewrite (replace_fence_id _ Hc). }
  split; [exact E|]. rewrite E. intros Ho.
  pose proof (hasFence_occurs Ho) as Hf.
  rewrite (hasFence_sub (trim_occurs _) Hc) in Hf. discriminate.
Qed.

(** ** The object of a reply *)

Lemma jsonObjectRe_eq :
  jsonObjectRe
  = Seq (Seq (Chr (chrIs 123%N)) Eps)
        (Seq (Star true (Chr anyChar)) (Seq (Seq (Chr (chrIs 125%N)) Eps) Eps)).
Proof. reflexivity. Qed.

(** A quantifier over a class fails when what follows matches nowhere. *)
Lemma starLoop_none (A : Type) g p (K : Cont A) : forall fuel s c,
  (forall s', suffixOf s' s -> K s' c = None) ->
  starLoop g (mtch (Chr p)) K fuel s c = None.
Proof.
  induction fuel as [|fuel IH]; intros s c H.
  - simpl. rewrite (H s (suffixOf_refl s)). now destruct g.
  - cbn [starLoop]. rewrite (H s (suffixOf_refl s)).
    assert (Hm : mtch (Chr p) s c
                      (fun s1 c1 =>
                         if List.length s1 <? List.length s
                         then starLoop g (mtch (Chr p)) K fuel s1 c1 else None)
                 = None).
    { cbn [mtch]. destruct s as [|x t]; [reflexivity|].
      destruct (p x); [|reflexivity].
      destruct (List.length t <? List.length (x :: t)); [|reflexivity].
      apply IH. intros s' Hs. apply H.
      eapply suffixOf_trans; [exact Hs|apply suffixOf_cons]. }
    rewrite Hm. now destruct g.
Qed.

(** A greedy quantifier over every character goes to the last place where
    what follows matches. *)
Lemma starLoop_greedy_last (A : Type) (K : Cont A) : forall u fuel y post c,
  (forall s', suffixOf s' post -> K s' c = None) ->
  K (y :: post) c <> None ->
  List.length u <= fuel ->
  starLoop true (mtch (Chr anyChar)) K fuel (u ++ y :: post) c = K (y :: post) c.
Proof.
  induction u as [|x u IH]; intros fuel y post c Hp Hy Hl.
  - simpl app. destruct fuel as [|fuel]; [reflexivity|].
    cbn [starLoop mtch]. change (anyChar y) with true. cbv iota.
    destruct (List.length post <? List.length (y :: post)); [|reflexivity].
    pose proof (@starLoop_none _ true anyChar K fuel post c Hp) as Hn.
    match goal with
    | |- match ?X with _ => _ end = _ =>
        replace X with (@None A) by (symmetry; exact Hn)
    end. reflexivity.
  - destruct fuel as [|fuel]; [simpl in Hl; lia|].
    simpl app. cbn [starLoop mtch]. change (anyChar x) with true. cbv iota.
    replace (List.length (u ++ y :: post) <? List.length (x :: u ++ y :: post))
      with true by (symmetry; apply Nat.ltb_lt; simpl; lia).
    pose proof (IH fuel y post c Hp Hy ltac:(simpl in Hl; lia)) as Hi.
    match goal with
    | |- match ?X with _ => _ end = _ =>
        replace X with (K (y :: post) c) by (symmetry; exact Hi)
    end.
    destruct (K (y :: post) c); congruence.
Qed.

Lemma matchHere_jsonObject mid post :
  Forall (fun x => x <> 125%N) post ->
  matchHere jsonObjectRe (123%N :: mid ++ 125%N :: post)
  = Some (123%N :: mid ++ [125%N], None).
Proof.
  intros Hp. unfold matchHere. rewrite jsonObjectRe_eq.
  set (s := 123%N :: mid ++ 125%N :: post).
  set (kf := fun (rest0 : jsstring) (c : option jsstring) =>
               Some (firstn (List.length s - List.length rest0) s, c)).
  cbn [mtch]. subst s. change (chrIs 123%N 123%N) with true. cbv iota.
  set (K := fun (s1 : jsstring) (c1 : option jsstring) =>
              match s1 with
              | [] => None
              | x :: s' => if chrIs 125%N x then kf s' c1 else None
              end).
  change (starLoop true (mtch (Chr anyChar)) K (List.length (mid ++ 125%N :: post))
                   (mid ++ 125%N :: post) None
          = Some (123%N :: mid ++ [125%N], None)).
  rewrite starLoop_greedy_last.
  - unfold K. change (chrIs 125%N 125%N) with true. cbv iota. unfold kf.
    assert (E1 : 123%N :: mid ++ 125%N :: post
                 = (123%N :: mid ++ [125%N]) ++ post)
      by (simpl; now rewrite <- app_assoc).
    rewrite E1, firstn_cut. reflexivity.
  - intros s' Hs. unfold K. destruct s' as [|x t]; [reflexivity|].
    pose proof (@suffixOf_Forall _ _ _ Hs Hp) as Hf. inversion Hf; subst.
    unfold chrIs. apply N.eqb_neq in H1. now rewrite H1.
  - unfold K. change (chrIs 125%N 125%N) with true. cbv iota. unfold kf.
    discriminate.
  - rewrite length_app. apply Nat.le_add_r.
Qed.

Lemma Lang_word_last (w : jsstring) :
  Lang jsonObjectRe w -> In 125%N w.
Proof.
  rewrite jsonObjectRe_eq. intros H.
  apply Lang_Seq in H. destruct H as (w1 & w2 & -> & _ & H).
  apply Lang_Seq in H. destruct H as (w3 & w4 & -> & _ & H).
  apply Lang_Seq in H. destruct H as (w5 & w6 & -> & H & _).
  apply Lang_Seq in H. destruct H as (w7 & w8 & -> & H & _).
  apply Lang_Chr in H. destruct H as (x & -> & Hx).
  unfold chrIs in Hx. apply N.eqb_eq in Hx. subst x.
  apply in_or_app. right. apply in_or_app. right. apply in_or_app. left. left. reflexivity.
Qed.

Lemma execFrom_jsonObject_none s i :
  Forall (fun x => x <> 125%N) s -> execFrom jsonObjectRe i s = None.
Proof.
  intros H. destruct (execFrom jsonObjectRe i s) as [m|] eqn:E; [|reflexivity].
  exfalso. apply execFrom_sound in E. destruct E as (p & s1 & Hs & _ & Hm).
  assert (Hin : In 125%N s).
  { rewrite Hs. apply in_or_app. right. apply in_or_app. left.
    apply Lang_word_last. now exists (m_group1 m). }
  rewrite Forall_forall in H. now apply (H _ Hin).
Qed.

(** X10.  [text.match(/\{[\s\S]*\}/)] cuts the reply from its first opening
    brace to its last closing brace, and a reply where no closing brace
    comes after an opening one is left as it is. *)
Theorem jsonText_outermost_braces :
  (forall pre mid post,
      Forall (fun x => x <> 123%N) pre ->
      Forall (fun x => x <> 125%N) post ->
      jsonText (pre ++ lit "{" ++ mid ++ lit "}" ++ post)
      = lit "{" ++ mid ++ lit "}")
  /\ (forall pre rest,
         Forall (fun x => x <> 123%N) pre ->
         Forall (fun x => x <> 125%N) rest ->
         jsonText (pre ++ rest) = pre ++ rest).
Proof.
  split.
  - intros pre mid post Hpre Hpost. unfold jsonText, exec.
    rewrite (@execFrom_skip jsonObjectRe (chrIs 123%N) eq_refl pre 0 _
               (@not_chrIs _ _ Hpre)).
    change (lit "{" ++ mid ++ lit "}" ++ post) with (123%N :: mid ++ 125%N :: post).
    match goal with
    | |- context [execFrom ?r ?i ?s] => rewrite (execFrom_eq r i s)
    end.
    match goal with
    | |- context [matchHere ?r ?s] =>
        replace (matchHere r s)
          with (Some (123%N :: mid ++ [125%N], @None jsstring))
          by (symmetry; apply matchHere_jsonObject; exact Hpost)
    end.
    reflexivity.
  - intros pre rest Hpre Hrest. unfold jsonText, exec.
    rewrite (@execFrom_skip jsonObjectRe (chrIs 123%N) eq_refl pre 0 _
               (@not_chrIs _ _ Hpre)).
    now rewrite (@execFrom_jsonObject_none rest _ Hrest).
Qed.


#[local] Opaque lit.

(** ** More on [deleteProposal] *)

Lemma deleteError_nonempty e : deleteError e <> [].
Proof.
  unfold deleteError, strOr. destruct e as [|x e]; [|discriminate].
  intros H. apply (f_equal (@List.length _)) in H. vm_compute in H. discriminate.
Qed.

Lemma unlink_map_length id l :
  List.length (map (unlinkProposal id) l) = List.length l.
Proof. apply length_map. Qed.

Lemma unlinkProposal_link id row pid :
  ie_proposalId (unlinkProposal id row) = Some pid ->
  ie_proposalId row = Some pid /\ pid <> id.
Proof.
  unfold unlinkProposal.
  destruct (optN_eqb (ie_proposalId row) (Some id)) eqn:E; simpl.
  - discriminate.
  - intros H. split; [exact H|]. intros ->. rewrite H in E.
    simpl in E. now rewrite N.eqb_refl in E.
Qed.

Lemma linksValid_delete id rvs d :
  linksValid d ->
  linksValid (mkDB (map (unlinkProposal id) (inboundEmails d))
                   (filter (fun r => negb (p_id r =? id)%N) (proposals d))
                   rvs (nextId d)).
Proof.
  intros H row pid Hin Hp. simpl in *.
  apply in_map_iff in Hin. destruct Hin as (row0 & <- & Hin0).
  apply unlinkProposal_link in Hp. destruct Hp as [Hp Hne].
  destruct (H row0 pid Hin0 Hp) as (p & Hpin & Hid).
  exists p. split; [|exact Hid].
  apply filter_In. split; [exact Hpin|].
  apply negb_true_iff, N.eqb_neq. congruence.
Qed.

(** X11.  [deleteProposal] always answers, with 200, 404 or 500; it answers
    500 exactly when a call of the store threw, which is then the last call
    it made, and the error text of that answer is never empty. *)
Theorem deleteProposal_answers (env : Env) (id : N) (d : DB) :
  exists resp w',
    run (deleteProposal env id) d = (Ok resp, w')
    /\ ((status resp = 200%N /\ body resp = ProposalDeleted
         /\ forall c, In c (log w') -> threw c = None)
        \/ (status resp = 404%N /\ body resp = ProposalNotFound /\ db w' = d
            /\ forall c, In c (log w') -> threw c = None)
        \/ (status resp = 500%N
            /\ exists pre c e,
                 log w' = pre ++ [c] /\ threw c = Some e
                 /\ (forall c0, In c0 pre -> threw c0 = None)
                 /\ body resp = DeleteFailed (deleteError e)
                 /\ deleteError e <> [])).
Proof.
  rewrite deleteProposal_run.
  destruct (dbFault env ProposalFind) as [e|].
  { eexists _, _. split; [reflexivity|]. right. right. split; [reflexivity|].
    exists [], (mkCall ProposalFind d (Some e)), e. simpl.
    repeat split; try reflexivity; [intros c0 []|apply deleteError_nonempty]. }
  destruct (find _ (proposals d)) as [p|].
  2:{ eexists _, _. split; [reflexivity|]. right. left. simpl.
      repeat split. intros c Hc. in_calls Hc. reflexivity. }
  destruct (dbFault env ProposalDelete) as [e|].
  { eexists _, _. split; [reflexivity|]. right. right. split; [reflexivity|].
    exists [mkCall ProposalFind d None], (mkCall ProposalDelete d (Some e)), e.
    simpl. repeat split; try reflexivity; [|apply deleteError_nonempty].
    intros c0 Hc. in_calls Hc. reflexivity. }
  destruct (dbFault env VendorMarkSent) as [e|].
  { eexists _, _. split; [reflexivity|]. right. right. split; [reflexivity|].
    eexists [_; _], _, e.
    simpl. repeat split; try reflexivity; [|apply deleteError_nonempty].
    intros c0 Hc. in_calls Hc; reflexivity. }
  eexists _, _. split; [reflexivity|]. left. simpl.
  repeat split. intros c Hc. in_calls Hc; reflexivity.
Qed.

(** X12.  the deletion and the change of status are two calls and nothing
    takes the first one back: when [rFPVendor.updateMany] throws,
    [deleteProposal] answers 500, the proposal is gone all the same and the
    status of the vendor is what it was. *)
Theorem deleteProposal_no_rollback (env : Env) (id : N) (d : DB)
        (p : Proposal) (e : Error) :
  dbFault env ProposalFind = None ->
  dbFault env ProposalDelete = None ->
  dbFault env VendorMarkSent = Some e ->
  find (fun q => (p_id q =? id)%N) (proposals d) = Some p ->
  exists w',
    run (deleteProposal env id) d
    = (Ok (mkResponse 500 (DeleteFailed (deleteError e))), w')
    /\ (forall q, In q (proposals (db w')) <-> In q (proposals d) /\ p_id q <> id)
    /\ rfpVendors (db w') = rfpVendors d
    /\ inboundEmails (db w') = map (unlinkProposal id) (inboundEmails d).
Proof.
  intros H1 H2 H3 Hf. rewrite deleteProposal_run, H1, Hf, H2, H3.
  eexists. split; [reflexivity|]. simpl.
  split; [|split; reflexivity].
  intros q. rewrite filter_In, negb_true_iff, N.eqb_neq. tauto.
Qed.

(** X13.  deleting again what has just been deleted is answered 404 and
    changes nothing: after a run of [deleteProposal] on a store whose calls
    return, no proposal has the id. *)
Theorem deleteProposal_twice (env : Env) (id : N) (d : DB) :
  (forall s, dbFault env s = None) ->
  forall r w',
    run (deleteProposal env id) d = (r, w') ->
    run (deleteProposal env id) (db w')
    = (Ok (mkResponse 404 ProposalNotFound),
       mkWorld (db w') [mkCall ProposalFind (db w') None]).
Proof.
  intros Hnf r w' H. rewrite deleteProposal_run, !Hnf in H.
  rewrite deleteProposal_run, !Hnf.
  destruct (find (fun q => (p_id q =? id)%N) (proposals d)) as [p|] eqn:Ef.
  - inversion H; subst; clear H. simpl.
    destruct (find _ (filter _ (proposals d))) as [q|] eqn:Eq; [|reflexivity].
    exfalso. apply find_some in Eq. destruct Eq as [Hin Hid].
    apply filter_In in Hin. destruct Hin as [_ Hne].
    rewrite Hid in Hne. discriminate.
  - inversion H; subst; clear H. simpl. now rewrite Ef.
Qed.

(** X14.  [deleteProposal] never leaves an email pointing to a proposal that
    is not stored, whatever call fails: the emails of the deleted proposal
    lose their [proposalId], and no email row is added or removed. *)
Theorem deleteProposal_keeps_links (env : Env) (id : N) (d : DB) :
  linksValid d ->
  forall r w',
    run (deleteProposal env id) d = (r, w') ->
    linksValid (db w')
    /\ List.length (inboundEmails (db w')) = List.length (inboundEmails d)
    /\ (r = Ok (mkResponse 200 ProposalDeleted) ->
        forall row, In row (inboundEmails (db w')) ->
                    ie_proposalId row <> Some id).
Proof.
  intros Hv r w' H. rewrite deleteProposal_run in H.
  assert (Hgone : forall rvs row,
             In row (inboundEmails
                       (mkDB (map (unlinkProposal id) (inboundEmails d))
                             (filter (fun r => negb (p_id r =? id)%N) (proposals d))
                             rvs (nextId d))) ->
             ie_proposalId row <> Some id).
  { intros rvs row Hin Hp. simpl in Hin.
    apply in_map_iff in Hin. destruct Hin as (row0 & <- & _).
    apply unlinkProposal_link in Hp. destruct Hp as [_ Hne]. congruence. }
  destruct (dbFault env ProposalFind) as [e|].
  { inversion H; subst; clear H. simpl. split; [exact Hv|].
    split; [reflexivity|discriminate]. }
  destruct (find _ (proposals d)) as [p|].
  2:{ inversion H; subst; clear H. simpl. split; [exact Hv|].
      split; [reflexivity|discriminate]. }
  destruct (dbFault env ProposalDelete) as [e|].
  { inversion H; subst; clear H. simpl. split; [exact Hv|].
    split; [reflexivity|discriminate]. }
  destruct (dbFault env VendorMarkSent) as [e|].
  - inversion H; subst; clear H. simpl db.
    split; [now apply linksValid_delete|].
    split; [simpl; apply length_map|discriminate].
  - inversion H; subst; clear H. simpl db. unfold afterDelete.
    split; [now apply linksValid_delete|].
    split; [simpl; apply length_map|].
    intros _. apply Hgone.
Qed.


(** ** The two tiers, call by call *)

Lemma extractionStage_paths (RT : Runtime) env rfpId vendor rfp ve ebody row0
      w1 res w' :
  extractionStage env rfpId vendor rfp ve ebody row0 w1 = (res, w') ->
  match processVendorProposal env rfpId ve ebody (db w1) with
  | (Throw aiError, dA) =>
      fallbackTier env rfpId vendor rfp ebody row0 aiError
        (mkWorld dA (log w1 ++ [mkCall ProcessVendorProposal (db w1) (Some aiError)]))
      = (res, w')
  | (Ok result, dA) =>
      match dbFault env EmailMarkProcessed with
      | Some e =>
          fallbackTier env rfpId vendor rfp ebody row0 e
            (mkWorld dA (log w1 ++ [mkCall ProcessVendorProposal (db w1) None;
                                    mkCall EmailMarkProcessed dA (Some e)]))
          = (res, w')
      | None =>
          match inboundEmail_update (ie_id row0) (processedPatch env result) dA with
          | (Ok row, dB) =>
              let wB := mkWorld dB (log w1 ++ [mkCall ProcessVendorProposal (db w1) None;
                                               mkCall EmailMarkProcessed dA None]) in
              if convertible (js_or (pr_aiScore result) (JStr (lit "N/A")))
                 && convertible (js_or (prop (pr_extractedData result) "totalPrice")
                                       (JStr (lit "N/A")))
              then
                res = Ok (mkResponse 200
                            (ProposalProcessed (pr_proposalId result) (v_name vendor)
                                               (rfp_title rfp) (pr_aiScore result)
                                               (pr_extractedData result)))
                /\ w' = wB
              else
                fallbackTier env rfpId vendor rfp ebody row0 notConvertible wB
                = (res, w')
          | (Throw e, dB) =>
              fallbackTier env rfpId vendor rfp ebody row0 e
                (mkWorld dB (log w1 ++ [mkCall ProcessVendorProposal (db w1) None;
                                        mkCall EmailMarkProcessed dA (Some e)]))
              = (res, w')
          end
      end
  end.
Proof.
  intros H. unfold extractionStage in H.
  unfold tryCatch at 1 in H. unfold bind at 1 in H. unfold serviceDb in H.
  destruct (processVendorProposal env rfpId ve ebody (db w1)) as [[result|aiError] dA].
  - unfold bind at 1, prisma in H. simpl in H.
    fold (processedPatch env result) in H.
    destruct (dbFault env EmailMarkProcessed) as [e|].
    + rewrite <- app_assoc in H. exact H.
    + destruct (inboundEmail_update (ie_id row0) (processedPatch env result) dA)
        as [[row|e] dB]; simpl in H.
      * unfold bind, liftR, templateR in H. rewrite <- app_assoc in H.
        simpl in H. cbv zeta.
        destruct (convertible (js_or (pr_aiScore result) (JStr (lit "N/A"))));
          simpl in H; [|exact H].
        destruct (convertible (js_or (prop (pr_extractedData result) "totalPrice")
                                     (JStr (lit "N/A"))));
          simpl in H; [|exact H].
        unfold respond, ret in H. inversion H; subst. split; reflexivity.
      * rewrite <- app_assoc in H. exact H.
  - simpl in H. exact H.
Qed.

Lemma fallbackTier_calls (RT : Runtime) env rfpId vendor rfp ebody row0 aiError
      wA res w' :
  fallbackTier env rfpId vendor rfp ebody row0 aiError wA = (res, w') ->
  exists c1 post,
    log w' = log wA ++ c1 :: post
    /\ site c1 = ProposalCreate /\ before c1 = db wA
    /\ (forall c, In c post -> fallbackCall (site c) = true)
    /\ (threw c1 = None ->
        exists p, In p (proposals (db w')) /\ isFallbackProposal rfpId vendor ebody p)
    /\ match res with
       | Ok resp =>
           status resp = 200%N
           /\ ((exists pid,
                   body resp = FallbackCreated pid (v_name vendor) (rfp_title rfp)
                                               (fallbackParseProposal ebody))
               \/ body resp
                  = BothFailed (lit "Failed to process vendor proposal: " ++ aiError)
                               (ie_id row0))
       | Throw _ => True
       end.
Proof.
  intros H. unfold fallbackTier in H.
  unfold tryCatch, bind, respond, ret in H.
  unfold prisma at 1 2 in H.
  unfold proposal_create, rFPVendor_updateMany in H.
  destruct wA as [dA lA]. simpl in *.
  repeat match type of H with
         | context [dbFault env ProposalCreate] =>
             let F := fresh "F" in
             destruct (dbFault env ProposalCreate) eqn:F; simpl in H
         | context [dbFault env VendorMarkResponded] =>
             let F := fresh "F" in
             destruct (dbFault env VendorMarkResponded) eqn:F; simpl in H
         | context [hasProposal ?a ?b] =>
             let F := fresh "K" in destruct (hasProposal a b) eqn:F; simpl in H
         | _ => keep_update H
         end;
    inversion H; subst; clear H;
    repeat match goal with
           | K : log _ = _ |- _ => rewrite K; clear K
           end;
    rewrite <- ?app_assoc; simpl;
    eexists _, _; (split; [reflexivity|]);
    (split; [reflexivity|]); (split; [reflexivity|]);
    (split; [intros c Hc; in_calls Hc; reflexivity|]).
  all: split.
  all: try (simpl; intros Ht; discriminate Ht).
  all: try (simpl; exact I).
  all: try (split; [reflexivity|];
            first [right; reflexivity | left; eexists; reflexivity]).
  all: intros _; eexists; split;
    [ repeat match goal with K : proposals _ = _ |- _ => rewrite K; clear K end;
      simpl; apply in_or_app; right; left; reflexivity
    | repeat split ].
Qed.

Lemma update_row_in i p d row d' :
  inboundEmail_update i p d = (Ok row, d') ->
  In row (inboundEmails d')
  /\ ie_id row = i
  /\ ie_processed row = orKeep (set_processed p) (ie_processed row)
  /\ proposals d' = proposals d /\ rfpVendors d' = rfpVendors d
  /\ exists r0, In r0 (inboundEmails d) /\ row = applyPatch p r0.
Proof.
  unfold inboundEmail_update.
  destruct (find (fun r => (ie_id r =? i)%N) (inboundEmails d)) as [r0|] eqn:Ef;
    [|discriminate].
  apply find_some in Ef. destruct Ef as [Hin Hid]. apply N.eqb_eq in Hid.
  destruct (match set_proposalId p with Some _ => _ | None => _ end);
    [discriminate|].
  destruct (proposalMissing p (proposals d)); [discriminate|].
  intros H. inversion H; subst; clear H. simpl.
  split.
  - apply in_map_iff. exists r0. split; [|exact Hin]. now rewrite N.eqb_refl.
  - split; [reflexivity|]. split.
    + simpl. destruct (set_processed p); reflexivity.
    + split; [reflexivity|]. split; [reflexivity|]. now exists r0.
Qed.

Lemma preSite_mark c : site c = EmailMarkProcessed -> preSite (site c) = false.
Proof. now intros ->. Qed.

(** X15.  when the AI tier has extracted the proposal and the update that
    follows returns, the handler answers 200 with the proposal of the
    service, its score and its data; the stored email is the row of step
    10 with [processed = true], the [proposalId] of the service, the time
    of processing and no [processingError]; and the handler makes no other
    call: the fallback parser does not run. *)
Theorem ai_tier_marks_email_processed (RT : Runtime) (env : Env)
        (req : option WebhookPayload) (d : DB)
        (r : Result (Response InboundBody)) (w' : World) (c : Call) :
  keepsEmails env -> loggable env ->
  run (handleInboundEmail env req) d = (r, w') ->
  In c (log w') -> site c = EmailMarkProcessed -> threw c = None ->
  exists result rfpId ve ebody d1 row0 row vn rt pre,
    fst (processVendorProposal env rfpId ve ebody d1) = Ok result
    /\ r = Ok (mkResponse 200
                 (ProposalProcessed (pr_proposalId result) vn rt
                                    (pr_aiScore result) (pr_extractedData result)))
    /\ inboundEmails (db w') = inboundEmails d ++ [row]
    /\ row = applyPatch (processedPatch env result) row0
    /\ ie_rawBody row = ebody
    /\ ie_processed row = true
    /\ ie_proposalId row = Some (pr_proposalId result)
    /\ ie_processedAt row = Some (now env)
    /\ ie_processingError row = None
    /\ log w' = pre ++ [mkCall ProcessVendorProposal d1 None; c]
    /\ forall c0, In c0 pre -> preSite (site c0) = true.
Proof.
  intros Hk Hlg Hrun Hc Hs Ht. unfold run in Hrun. apply handle_cases in Hrun.
  destruct Hrun as [[_ (calls & Hl & Hpre)]|Hrun].
  { exfalso. simpl in Hl. rewrite Hl in Hc. apply Hpre in Hc.
    rewrite Hs in Hc. discriminate Hc. }
  destruct Hrun as (payload & emailData & from & subject & ebody & w0 & res & e
                    & rfpId & rfp & vendor & row0 & w1 & _ & _ & Hdb0 & Hpre0
                    & HR & Hr).
  simpl in Hdb0.
  destruct HR as [_ _ Hrow Hfresh _ Hem _ _ (cs1 & Hl1 & Hs1) _ Hstage].
  rewrite Hdb0 in Hfresh, Hem.
  destruct Hpre0 as (cs0 & Hl0 & Hs0). simpl in Hl0.
  assert (Hpre1 : forall c0, In c0 (log w1) -> preSite (site c0) = true).
  { intros c0 H0. rewrite Hl1, Hl0 in H0. apply in_app_or in H0.
    destruct H0; auto. }
  apply extractionStage_paths in Hstage.
  pose proof (Hk rfpId (extractEmailAddress from) ebody (db w1)) as Hframe.
  destruct (processVendorProposal env rfpId (extractEmailAddress from) ebody (db w1))
    as [[result|aiError] dA] eqn:EP; simpl in Hframe; rewrite Hem in Hframe.
  2:{ exfalso. apply fallbackTier_calls in Hstage.
      destruct Hstage as (c1 & post & Hl & Hs1' & _ & Hpost & _).
      simpl in Hl. rewrite Hl, <- app_assoc in Hc. simpl in Hc.
      apply in_app_or in Hc. destruct Hc as [Hc|Hc].
      - apply Hpre1 in Hc. rewrite Hs in Hc. discriminate.
      - apply in_inv in Hc. destruct Hc as [<-|Hc]; [simpl in Hs; discriminate|].
        apply in_inv in Hc. destruct Hc as [<-|Hc]; [congruence|].
        apply Hpost in Hc. rewrite Hs in Hc. discriminate. }
  assert (Hfb : forall err wA pre,
             log wA = log w1 ++ pre ->
             (forall c0, In c0 pre ->
                site c0 = EmailMarkProcessed -> threw c0 <> None) ->
             (forall c0, In c0 pre -> preSite (site c0) = false) ->
             fallbackTier env rfpId vendor rfp ebody row0 err wA = (res, w') ->
             False).
  { intros err wA pre Hl Hpre Hpre' Hf. apply fallbackTier_calls in Hf.
    destruct Hf as (c1 & post & Hl' & Hs1' & _ & Hpost & _).
    rewrite Hl', Hl, <- app_assoc in Hc.
    apply in_app_or in Hc. destruct Hc as [Hc|Hc].
    - apply Hpre1 in Hc. rewrite Hs in Hc. discriminate.
    - apply in_app_or in Hc. destruct Hc as [Hc|Hc].
      + apply (Hpre c Hc Hs). exact Ht.
      + destruct Hc as [<-|Hc]; [congruence|].
        apply Hpost in Hc. rewrite Hs in Hc. discriminate. }
  destruct (dbFault env EmailMarkProcessed) as [e0|].
  { exfalso. eapply Hfb; [| | |exact Hstage].
    - reflexivity.
    - intros c0 H0 Hsite. in_calls H0; [discriminate Hsite|simpl; discriminate].
    - intros c0 H0. in_calls H0; reflexivity. }
  rewrite (@update_stored (inboundEmails d) row0 (processedPatch env result) dA
             Hfresh Hframe) in Hstage.
  unfold updateStored in Hstage. simpl set_proposalId in Hstage.
  destruct (proposalTaken (ie_id row0) (pr_proposalId result) (inboundEmails d)).
  { exfalso. eapply Hfb; [| | |exact Hstage].
    - reflexivity.
    - intros c0 H0 Hsite. in_calls H0; [discriminate Hsite|simpl; discriminate].
    - intros c0 H0. in_calls H0; reflexivity. }
  match type of Hstage with
  | context [proposalMissing ?p ?l] => destruct (proposalMissing p l)
  end.
  { exfalso. eapply Hfb; [| | |exact Hstage].
    - reflexivity.
    - intros c0 H0 Hsite. in_calls H0; [discriminate Hsite|simpl; discriminate].
    - intros c0 H0. in_calls H0; reflexivity. }
  cbv zeta in Hstage.
  destruct (Hlg rfpId (extractEmailAddress from) ebody (db w1) result) as [Hl1' Hl2'];
    [now rewrite EP|].
  rewrite (@convertible_or _ (JStr (lit "N/A")) Hl1' eq_refl) in Hstage.
  rewrite (@convertible_or _ (JStr (lit "N/A")) Hl2' eq_refl) in Hstage.
  simpl andb in Hstage. cbv iota in Hstage.
  destruct Hstage as [Hres Hw']. subst w' res. simpl in *.
  assert (Hc' : c = mkCall EmailMarkProcessed dA None).
  { apply in_app_or in Hc. destruct Hc as [Hc|Hc].
    - apply Hpre1 in Hc. rewrite Hs in Hc. discriminate.
    - in_calls Hc; [discriminate Hs|reflexivity]. }
  destruct Hrow as [_ _ _ Hbody _ _ _ Herr _].
  exists result, rfpId, (extractEmailAddress from), ebody, (db w1), row0,
    (applyPatch (processedPatch env result) row0), (v_name vendor), (rfp_title rfp),
    (log w1).
  rewrite EP. simpl.
  repeat split; try reflexivity; try assumption.
  - now subst c.
Qed.


(** X16.  a failure of the update that marks the email processed is taken
    for a failure of the AI: when [processVendorProposal] has returned and
    that update throws, the handler goes on with [proposal.create] of the
    fallback tier, so that a second proposal, with [usedFallbackParsing],
    is stored for the email once that call returns, and the answer is
    never the one of the AI tier. *)
Theorem failed_bookkeeping_runs_fallback (RT : Runtime) (env : Env)
        (req : option WebhookPayload) (d : DB)
        (r : Result (Response InboundBody)) (w' : World) (c : Call) (e : Error) :
  run (handleInboundEmail env req) d = (r, w') ->
  In c (log w') -> site c = EmailMarkProcessed -> threw c = Some e ->
  exists pre dX c1 post resp,
    log w' = pre ++ mkCall ProcessVendorProposal dX None :: c :: c1 :: post
    /\ site c1 = ProposalCreate
    /\ (threw c1 = None ->
        exists p, In p (proposals (db w'))
                  /\ p_usedFallbackParsing p = true /\ p_aiScore p = None)
    /\ r = Ok resp /\ status resp = 200%N /\ fallbackAnswer e (body resp).
Proof.
  intros Hrun Hc Hs Ht. unfold run in Hrun. apply handle_cases in Hrun.
  destruct Hrun as [[_ (calls & Hl & Hpre)]|Hrun].
  { exfalso. simpl in Hl. rewrite Hl in Hc. apply Hpre in Hc.
    rewrite Hs in Hc. discriminate Hc. }
  destruct Hrun as (payload & emailData & from & subject & ebody & w0 & res & e0
                    & rfpId & rfp & vendor & row0 & w1 & _ & _ & _ & Hpre0
                    & HR & Hr).
  destruct HR as [_ _ _ _ _ _ _ _ (cs1 & Hl1 & Hs1) _ Hstage].
  destruct Hpre0 as (cs0 & Hl0 & Hs0). simpl in Hl0.
  assert (Hpre1 : forall c0, In c0 (log w1) -> preSite (site c0) = true).
  { intros c0 H0. rewrite Hl1, Hl0 in H0. apply in_app_or in H0.
    destruct H0; auto. }
  assert (Hfb : forall err wA dX cM,
             log wA = log w1 ++ [mkCall ProcessVendorProposal dX None; cM] ->
             site cM = EmailMarkProcessed ->
             threw cM = Some err ->
             fallbackTier env rfpId vendor rfp ebody row0 err wA = (res, w') ->
             exists pre dX c1 post resp,
               log w' = pre ++ mkCall ProcessVendorProposal dX None :: c :: c1 :: post
               /\ site c1 = ProposalCreate
               /\ (threw c1 = None ->
                   exists p, In p (proposals (db w'))
                             /\ p_usedFallbackParsing p = true /\ p_aiScore p = None)
               /\ r = Ok resp /\ status resp = 200%N /\ fallbackAnswer e (body resp)).
  { intros err wA dX cM Hl HsM HtM Hf. apply fallbackTier_calls in Hf.
    destruct Hf as (c1 & post & Hl' & Hs1' & _ & Hpost & Hp & Hres).
    rewrite Hl', Hl, <- app_assoc in Hc. simpl in Hc.
    assert (Hcm : c = cM).
    { apply in_app_or in Hc. destruct Hc as [Hc|Hc].
      - apply Hpre1 in Hc. rewrite Hs in Hc. discriminate.
      - apply in_inv in Hc. destruct Hc as [<-|Hc]; [discriminate Hs|].
        apply in_inv in Hc. destruct Hc as [<-|Hc]; [reflexivity|].
        apply in_inv in Hc. destruct Hc as [<-|Hc]; [congruence|].
        apply Hpost in Hc. rewrite Hs in Hc. discriminate. }
    subst cM. assert (err = e) by congruence. subst err.
    exists (log w1), dX, c1, post.
    assert (Hans : exists resp, r = Ok resp /\ status resp = 200%N
                                /\ fallbackAnswer e (body resp)).
    { destruct res as [resp|err]; subst r.
      - exists resp. split; [reflexivity|]. destruct Hres as [H200 Hb].
        split; [exact H200|]. destruct Hb as [(pid & Hb)|Hb].
        + left. rewrite Hb. eauto.
        + right. left. rewrite Hb. eauto.
      - eexists. split; [reflexivity|]. split; [reflexivity|].
        right. right. simpl. eauto. }
    destruct Hans as (resp & Hr1 & Hr2 & Hr3). exists resp.
    split; [rewrite Hl', Hl, <- app_assoc; reflexivity|].
    split; [exact Hs1'|]. split; [|auto].
    intros H1. destruct (Hp H1) as (p & Hin & Hfp). exists p.
    split; [exact Hin|]. unfold isFallbackProposal in Hfp. tauto. }
  apply extractionStage_paths in Hstage.
  destruct (processVendorProposal env rfpId (extractEmailAddress from) ebody (db w1))
    as [[result|aiError] dA].
  2:{ exfalso. apply fallbackTier_calls in Hstage.
      destruct Hstage as (c1 & post & Hl & Hs1' & _ & Hpost & _).
      simpl in Hl. rewrite Hl, <- app_assoc in Hc. simpl in Hc.
      apply in_app_or in Hc. destruct Hc as [Hc|Hc].
      - apply Hpre1 in Hc. rewrite Hs in Hc. discriminate.
      - apply in_inv in Hc. destruct Hc as [<-|Hc]; [simpl in Hs; discriminate|].
        apply in_inv in Hc. destruct Hc as [<-|Hc]; [congruence|].
        apply Hpost in Hc. rewrite Hs in Hc. discriminate. }
  destruct (dbFault env EmailMarkProcessed) as [e1|].
  { eapply Hfb; [| | |exact Hstage]; reflexivity. }
  destruct (inboundEmail_update (ie_id row0) (processedPatch env result) dA)
    as [[row|e1] dB].
  - exfalso. cbv zeta in Hstage.
    destruct (convertible _ && convertible _) in Hstage.
    + destruct Hstage as [_ Hw']. subst w'. simpl in Hc.
      apply in_app_or in Hc. destruct Hc as [Hc|Hc].
      * apply Hpre1 in Hc. rewrite Hs in Hc. discriminate.
      * in_calls Hc; [discriminate Hs|discriminate Ht].
    + apply fallbackTier_calls in Hstage.
      destruct Hstage as (c1 & post & Hl & Hs1' & _ & Hpost & _).
      simpl in Hl. rewrite Hl, <- app_assoc in Hc. simpl in Hc.
      apply in_app_or in Hc. destruct Hc as [Hc|Hc].
      * apply Hpre1 in Hc. rewrite Hs in Hc. discriminate.
      * apply in_inv in Hc. destruct Hc as [<-|Hc]; [discriminate Hs|].
        apply in_inv in Hc. destruct Hc as [<-|Hc]; [discriminate Ht|].
        apply in_inv in Hc. destruct Hc as [<-|Hc]; [congruence|].
        apply Hpost in Hc. rewrite Hs in Hc. discriminate.
  - eapply Hfb; [| | |exact Hstage]; reflexivity.
Qed.

(** ** Before anything is stored *)

Lemma extractionStage_answer (RT : Runtime) env rfpId vendor rfp ve ebody row0
      w1 b w' :
  extractionStage env rfpId vendor rfp ve ebody row0 w1
  = (Ok (mkResponse 200 b), w') ->
  b <> NoRfpId /\ b <> RfpNotFound /\ b <> VendorNotFound.
Proof.
  intros H. apply extractionStage_paths in H.
  assert (Hfb : forall err wA,
             fallbackTier env rfpId vendor rfp ebody row0 err wA
             = (Ok (mkResponse 200 b), w') ->
             b <> NoRfpId /\ b <> RfpNotFound /\ b <> VendorNotFound).
  { intros err wA Hf. apply fallbackTier_calls in Hf.
    destruct Hf as (_ & _ & _ & _ & _ & _ & _ & _ & Hb). simpl in Hb.
    destruct Hb as [(pid & ->)| ->]; repeat split; discriminate. }
  destruct (processVendorProposal env rfpId ve ebody (db w1))
    as [[result|aiError] dA]; [|now apply (Hfb aiError _ H)].
  destruct (dbFault env EmailMarkProcessed) as [e1|]; [now apply (Hfb e1 _ H)|].
  destruct (inboundEmail_update (ie_id row0) (processedPatch env result) dA)
    as [[row|e1] dB]; [|now apply (Hfb e1 _ H)].
  cbv zeta in H.
  destruct (convertible _ && convertible _) in H; [|now apply (Hfb _ _ H)].
  destruct H as [H _]. injection H as ->. repeat split; discriminate.
Qed.

Lemma processEmail_lookups (RT : Runtime) env emailId from subject ebody w b w' :
  processEmail env emailId from subject ebody w = (Ok (mkResponse 200 b), w') ->
  b = NoRfpId \/ b = RfpNotFound \/ b = VendorNotFound ->
  db w' = db w
  /\ exists calls, log w' = log w ++ calls
                   /\ forall c, In c calls ->
                                lookupSite (site c) = true /\ threw c = None.
Proof.
  intros H Hb. unfold processEmail in H.
  destruct (extractRFPId subject ebody) as [rfpId|].
  2:{ unfold respond, ret in H. inversion H; subst.
      split; [reflexivity|]. exists []. rewrite app_nil_r.
      split; [reflexivity|intros c []]. }
  unfold bind at 1 in H. unfold service at 1 in H.
  destruct (getRFPById env rfpId) as [[rfp|]|e1]; [| |discriminate H].
  2:{ unfold respond, ret in H. inversion H; subst. simpl.
      split; [reflexivity|]. eexists [_]. split; [reflexivity|].
      intros c Hc. in_calls Hc. split; reflexivity. }
  unfold bind at 1 in H. unfold service at 1 in H.
  destruct (getVendorByEmail env (extractEmailAddress from)) as [[vendor|]|e2];
    [| |discriminate H].
  2:{ unfold respond, ret in H. inversion H; subst. simpl.
      split; [reflexivity|]. eexists [_; _]. rewrite <- app_assoc.
      split; [reflexivity|].
      intros c Hc. in_calls Hc; split; reflexivity. }
  exfalso. unfold bind at 1 in H.
  match type of H with
  | context [prisma ?e ?s ?op ?w0] =>
      destruct (prisma e s op w0) as [[stored|e3] w2]; [|discriminate H]
  end.
  apply extractionStage_answer in H. destruct Hb as [->|[->| ->]]; tauto.
Qed.

(** X17.  an answer [RFP not found], [no matching vendor] or [no RFP ID
    found] means that nothing was stored: the store is the one before, the
    handler made no Prisma call and did not call the extraction; it only
    looked things up, and every lookup returned. *)
Theorem unknown_rfp_or_vendor_stores_nothing (RT : Runtime) (env : Env)
        (req : option WebhookPayload) (d : DB) (b : InboundBody) (w' : World) :
  run (handleInboundEmail env req) d = (Ok (mkResponse 200 b), w') ->
  b = NoRfpId \/ b = RfpNotFound \/ b = VendorNotFound ->
  db w' = d
  /\ forall c, In c (log w') -> lookupSite (site c) = true.
Proof.
  intros H Hb. unfold run in H.
  destruct req as [payload|].
  2:{ unfold handleInboundEmail in H. unfold_m. simpl in H.
      inversion H; subst. destruct Hb as [Hb|[Hb|Hb]]; discriminate Hb. }
  destruct (typeIs (wp_type payload) "email.received") eqn:Ht.
  2:{ rewrite (@handle_ignored RT env payload _ Ht) in H.
      destruct (convertible (wp_type payload)); inversion H; subst;
        destruct Hb as [Hb|[Hb|Hb]]; discriminate Hb. }
  destruct (wp_data payload) as [emailData|] eqn:Hd.
  2:{ unfold handleInboundEmail in H. unfold_m. simpl in H.
      rewrite Ht, Hd in H. simpl in H.
      inversion H; subst. destruct Hb as [Hb|[Hb|Hb]]; discriminate Hb. }
  destruct (resolveContent_ok env emailData (mkWorld d []))
    as (content & w0 & Hc & Hdb & Hlog).
  rewrite (@handle_received RT env payload emailData _ content w0 Ht Hd Hc) in H.
  simpl in Hdb, Hlog.
  assert (Hpre : forall c, In c (log w0) -> lookupSite (site c) = true).
  { destruct Hlog as [Hl|[e Hl]]; rewrite Hl; intros c Hin.
    - destruct Hin.
    - in_calls Hin. reflexivity. }
  destruct (intake emailData (fst content) (snd content))
    as [early|[[from subject] ebody]] eqn:Ei.
  { inversion H; subst. exfalso. unfold intake in Ei.
    destruct (negb (nonempty (fst content)) || _) in Ei.
    - injection Ei as <-. destruct Hb as [Hb|[Hb|Hb]]; discriminate Hb.
    - destruct (negb (truthyStr (ed_from emailData)) || _) in Ei; [|discriminate Ei].
      injection Ei as <-. destruct Hb as [Hb|[Hb|Hb]]; discriminate Hb. }
  destruct (processEmail env (ed_email_id emailData) from subject ebody w0)
    as [[resp|err] w2] eqn:EP.
  2:{ inversion H; subst. destruct Hb as [Hb|[Hb|Hb]]; discriminate Hb. }
  inversion H; subst. clear H.
  destruct (@processEmail_lookups RT env _ _ _ _ _ _ _ EP Hb)
    as (Hdb' & calls & Hl & Hcalls).
  split; [congruence|].
  intros c Hin. rewrite Hl in Hin. apply in_app_or in Hin.
  destruct Hin as [Hin|Hin]; [now apply Hpre|now apply Hcalls].
Qed.


#[local] Transparent lit.

(** ** More on the scores *)

Lemma scalar_convertible v : scalar v -> convertible v = true.
Proof. destruct v; simpl; tauto. Qed.

Lemma scorable_promptable rfpData proposalData :
  scorable rfpData proposalData -> promptable rfpData proposalData = true.
Proof.
  intros (H1 & H2 & H3 & H4 & _). unfold promptable.
  now rewrite !scalar_convertible.
Qed.

(** X18.  the manual score is between 25 and 95 whatever the fields of the
    RFP and of the proposal hold, as long as they can be converted, and a
    proposal without any of the fields it reads gets 40 whatever the RFP
    asks for. *)
Theorem calculateFallbackScore_bounds (RT : Runtime) (rfpData : StructuredRFP)
        (proposalData : json) :
  (scorable rfpData proposalData ->
   (25 <= calculateFallbackScore rfpData proposalData <= 95)%Z)
  /\ calculateFallbackScore rfpData (JObj []) = 40%Z.
Proof.
  split; [intros _; apply calculateFallbackScore_range|].
  unfold calculateFallbackScore, prop. simpl getProp. cbv iota.
  simpl truthy. rewrite !andb_false_r. reflexivity.
Qed.

(** X19.  a reply that is not JSON is scored by hand in
    [services/aiService.ts], for a proposal whose fields can be converted,
    with the score of [calculateFallbackScore] and an evaluation that says
    so, and makes the other revision throw. *)
Theorem unparsable_reply_scored_by_hand (RT : Runtime) (rfpData : StructuredRFP)
        (fields : list (jsstring * json)) (vendorName reply : jsstring) :
  (forall e,
      scorable rfpData (JObj fields) ->
      JSON_parse (jsonText (cleanReply reply)) = Throw e ->
      exists rest,
        AIService.scoreProposal rfpData (JObj fields) vendorName (Ok reply)
        = Ok (mkScore (num (calculateFallbackScore rfpData (JObj fields)))
                      (JStr (lit "Automated scoring: " ++ rest)))
        /\ inRange (num (calculateFallbackScore rfpData (JObj fields))))
  /\ (forall e,
         JSON_parse (cleanReply reply) = Throw e ->
         AIServiceRev.scoreProposal rfpData (JObj fields) vendorName (Ok reply)
         = Throw (lit "Failed to score proposal: " ++ e)).
Proof.
  split.
  - intros e Hsc Hp. unfold AIService.scoreProposal.
    rewrite (@beforeTheCall_ok RT rfpData fields (scorable_promptable Hsc)).
    unfold rethrowScore, bindR. rewrite Hp.
    eexists. split; [reflexivity|].
    apply inRange_num.
    pose proof (calculateFallbackScore_range RT rfpData (JObj fields)). lia.
  - intros e Hp. unfold AIServiceRev.scoreProposal, rethrowScore, bindR.
    now rewrite Hp.
Qed.

(** X20.  a reply whose JSON has no [score] is scored 0 by
    [services/aiService.ts], through [scoringData.score || 0], with the
    evaluation of the model or ['No evaluation provided']; the other
    revision returns [NaN] as the score and the evaluation as it is. *)
Theorem missing_score_is_zero_or_NaN (RT : Runtime) (rfpData : StructuredRFP)
        (fields : list (jsstring * json)) (vendorName reply : jsstring)
        (scoringData : json) :
  getProp scoringData (lit "score") = Some JUndefined ->
  (scorable rfpData (JObj fields) ->
   JSON_parse (jsonText (cleanReply reply)) = Ok scoringData ->
   AIService.scoreProposal rfpData (JObj fields) vendorName (Ok reply)
   = Ok (mkScore (num 0)
                 (js_or (prop scoringData "evaluation")
                        (JStr (lit "No evaluation provided")))))
  /\ (JSON_parse (cleanReply reply) = Ok scoringData ->
      AIServiceRev.scoreProposal rfpData (JObj fields) vendorName (Ok reply)
      = Ok (mkScore NaN (prop scoringData "evaluation"))).
Proof.
  intros Hs. split; [intros Hsc Hp|intros Hp].
  - unfold AIService.scoreProposal.
    rewrite (@beforeTheCall_ok RT rfpData fields (scorable_promptable Hsc)).
    unfold rethrowScore, bindR, getPropR. rewrite Hp, Hs. reflexivity.
  - unfold AIServiceRev.scoreProposal, rethrowScore, bindR, getPropR.
    rewrite Hp, Hs. reflexivity.
Qed.

Lemma rethrowScore_prefix (A : Type) (r : Result A) e :
  rethrowScore r = Throw e ->
  exists m, r = Throw m /\ e = lit "Failed to score proposal: " ++ m.
Proof.
  destruct r as [a|m]; simpl; [discriminate|].
  intros H. injection H as <-. now exists m.
Qed.

(** X21.  [scoreProposal] throws only errors whose message starts with
    ['Failed to score proposal: '], in both revisions; and in
    [services/aiService.ts], given a proposal whose fields can be converted
    and a reply of the model whose JSON is not [null] and has a score that
    is not an object, it returns a score. *)
Theorem scoreProposal_failures (RT : Runtime) (rfpData : StructuredRFP)
        (vendorName : jsstring) :
  (forall proposalData reply e,
      AIService.scoreProposal rfpData proposalData vendorName reply = Throw e ->
      exists m, e = lit "Failed to score proposal: " ++ m)
  /\ (forall proposalData reply e,
         AIServiceRev.scoreProposal rfpData proposalData vendorName reply = Throw e ->
         exists m, e = lit "Failed to score proposal: " ++ m)
  /\ (forall fields text scoringData,
         scorable rfpData (JObj fields) ->
         JSON_parse (jsonText (cleanReply text)) = Ok scoringData ->
         scoringData <> JNull -> scoringData <> JUndefined ->
         scalar (prop scoringData "score") ->
         exists r,
           AIService.scoreProposal rfpData (JObj fields) vendorName (Ok text)
           = Ok r).
Proof.
  split; [|split].
  - intros pd reply e H. unfold AIService.scoreProposal in H.
    apply rethrowScore_prefix in H. destruct H as (m & _ & ->). now exists m.
  - intros pd reply e H. unfold AIServiceRev.scoreProposal in H.
    apply rethrowScore_prefix in H. destruct H as (m & _ & ->). now exists m.
  - intros fields text sd Hsc Hp H1 H2 Hs.
    unfold AIService.scoreProposal.
    rewrite (@beforeTheCall_ok RT rfpData fields (scorable_promptable Hsc)).
    unfold rethrowScore, bindR, getPropR. rewrite Hp.
    assert (Hc : forall s, scalar s ->
                   ToNumberR (js_or s (JNum (num 0)))
                   = Ok (ToNumber (js_or s (JNum (num 0))))).
    { intros s Hsc'. apply ToNumberR_ok, convertible_or; [|reflexivity].
      now apply scalar_convertible. }
    unfold prop in Hs.
    destruct (getProp sd (lit "score")) as [s0|] eqn:Eg.
    + rewrite (Hc s0 Hs). eauto.
    + destruct sd; simpl in Eg; try discriminate Eg; congruence.
Qed.


(** ** [parseVendorProposal] *)

Lemma rethrow_prefix (A : Type) prefix (r : Result A) e :
  rethrow prefix r = Throw e ->
  exists m, r = Throw m /\ e = lit prefix ++ m.
Proof.
  destruct r as [a|m]; simpl; [discriminate|].
  intros H. injection H as <-. now exists m.
Qed.

(** Reading a property of a value that is not [null] or [undefined]. *)
Lemma getPropR_defined (RT : Runtime) v key :
  v <> JNull -> v <> JUndefined -> getPropR v key = Ok (prop v key).
Proof.
  intros H1 H2. unfold getPropR, prop.
  destruct v; try congruence; reflexivity.
Qed.

(** X22.  [parseVendorProposal] returns only when the model replies and the
    reply, trimmed and without its code fences, parses to a value that is
    not [null]; it then gives that value as [extractedData] and its
    properties as the four fields, all [undefined] for a number, a string or
    a boolean.  A [null] makes it throw, and so does a [confidence] that
    cannot be written in the log line, an object with a [toString] key;
    every error it throws starts with ['Failed to parse vendor
    proposal: ']. *)
Theorem parseVendorProposal_outcome (RT : Runtime) (emailBody : jsstring)
        (rfpData : json) (reply : Result jsstring) :
  (forall p,
      VendorProposal.parseVendorProposal emailBody rfpData reply = Ok p ->
      exists text,
        reply = Ok text
        /\ JSON_parse (stripFences text) = Ok (VendorProposal.extractedData p)
        /\ VendorProposal.extractedData p <> JNull
        /\ VendorProposal.totalPrice p
           = prop (VendorProposal.extractedData p) "totalPrice"
        /\ VendorProposal.deliveryDays p
           = prop (VendorProposal.extractedData p) "deliveryDays"
        /\ VendorProposal.paymentTerms p
           = prop (VendorProposal.extractedData p) "paymentTerms"
        /\ VendorProposal.warranty p
           = prop (VendorProposal.extractedData p) "warranty")
  /\ (forall text v,
         reply = Ok text -> JSON_parse (stripFences text) = Ok v ->
         (v = JNull \/ convertible (prop v "confidence") = false ->
          exists m,
            VendorProposal.parseVendorProposal emailBody rfpData reply
            = Throw (lit "Failed to parse vendor proposal: " ++ m))
         /\ (isPrimitive v ->
             VendorProposal.parseVendorProposal emailBody rfpData reply
             = Ok (VendorProposal.mkParsed v JUndefined JUndefined JUndefined
                                           JUndefined)))
  /\ (forall e,
         VendorProposal.parseVendorProposal emailBody rfpData reply = Throw e ->
         exists m, e = lit "Failed to parse vendor proposal: " ++ m).
Proof.
  unfold VendorProposal.parseVendorProposal.
  split; [|split].
  - intros p H. destruct reply as [text|e]; [|discriminate H].
    exists text. split; [reflexivity|]. cbn [rethrow bindR] in H.
    destruct (JSON_parse (stripFences text)) as [v|e]; [|discriminate H].
    cbn [bindR] in H. unfold getPropR in H.
    destruct (getProp v (lit "confidence")) eqn:Eg; [|discriminate H].
    cbn [bindR] in H. unfold templateR in H.
    repeat match type of H with
           | context [if convertible ?x then _ else _] =>
               destruct (convertible x); cbn [bindR] in H; [|discriminate H]
           end.
    injection H as <-. cbn.
    repeat split; try reflexivity. intros ->. discriminate Eg.
  - intros text v -> Hv. cbn [rethrow bindR]. rewrite Hv. cbn [bindR]. split.
    + intros [->|Hc]; [eexists; reflexivity|].
      unfold getPropR. destruct (getProp v (lit "confidence")) as [c|] eqn:Eg;
        [|eexists; reflexivity].
      cbn [bindR]. unfold prop in Hc. rewrite Eg in Hc.
      assert (Ht : truthy c = true) by (destruct c; try discriminate Hc; reflexivity).
      unfold js_or at 1. rewrite Ht. unfold templateR at 1. rewrite Hc.
      eexists. reflexivity.
    + intros Hp. destruct v; try contradiction; reflexivity.
  - intros e H. apply rethrow_prefix in H. destruct H as (m & _ & ->). eauto.
Qed.

(** ** [compareProposalsAndRecommend] *)

Lemma mtch_chars (A : Type) (l : list char) : forall s c (k : Cont A),
  mtch (seqs (map (fun x => Chr (chrIs x)) l)) (l ++ s) c k = k s c.
Proof.
  induction l as [|x l IH]; intros s c k; [reflexivity|].
  simpl. unfold chrIs at 1. rewrite N.eqb_refl. apply IH.
Qed.

Lemma mtch_word (A : Type) (w : string) s c (k : Cont A) :
  mtch (word w) (lit w ++ s) c k = k s c.
Proof. apply mtch_chars. Qed.

Lemma jsonBlockRe_eq :
  Comparison.jsonBlockRe
  = Seq (word "```json")
        (Seq (Chr (chrIs 10%N))
             (Seq (Cap (Star false (Chr anyChar)))
                  (Seq (Chr (chrIs 10%N)) (Seq (word "```") Eps)))).
Proof. reflexivity. Qed.

(** The closing fence does not start inside a text without backticks. *)
Lemma no_closing_fence (A : Type) x u2 post c (k : Cont A) :
  Forall (fun y => y <> 96%N) (x :: u2) ->
  mtch (Seq (Chr (chrIs 10%N)) (Seq (word "```") Eps))
       (x :: u2 ++ 10%N :: lit "```" ++ post) c k = None.
Proof.
  intros Hf. inversion Hf as [|? ? Hx Hu]; subst. cbn [mtch].
  destruct (chrIs 10%N x); [|reflexivity].
  destruct u2 as [|y u2].
  - reflexivity.
  - inversion Hu as [|? ? Hy _]; subst.
    change (word "```") with (Seq (Chr (chrIs 96%N)) (word "``")).
    cbn [mtch app]. unfold chrIs at 1. apply N.eqb_neq in Hy. now rewrite Hy.
Qed.

Lemma matchHere_jsonBlock j post :
  Forall (fun y => y <> 96%N) j ->
  matchHere Comparison.jsonBlockRe
            (lit "```json" ++ 10%N :: j ++ 10%N :: lit "```" ++ post)
  = Some (lit "```json" ++ 10%N :: j ++ 10%N :: lit "```", Some j).
Proof.
  intros Hj. unfold matchHere. rewrite jsonBlockRe_eq.
  set (s := lit "```json" ++ 10%N :: j ++ 10%N :: lit "```" ++ post).
  set (kf := fun (rest0 : jsstring) (c : option jsstring) =>
               Some (firstn (List.length s - List.length rest0) s, c)).
  subst s. cbn [mtch]. rewrite mtch_word. cbn [mtch].
  change (chrIs 10%N 10%N) with true. cbv iota.
  set (s0 := j ++ 10%N :: lit "```" ++ post).
  set (K := fun (s1 : jsstring) (c1 : option jsstring) =>
              mtch (Seq (Chr (chrIs 10%N)) (Seq (word "```") Eps)) s1
                   (Some (firstn (List.length s0 - List.length s1) s0)) kf).
  change (starLoop false (mtch (Chr anyChar)) K (List.length s0) s0 None
          = Some (lit "```json" ++ 10%N :: j ++ 10%N :: lit "```", Some j)).
  assert (HK : K (10%N :: lit "```" ++ post) None
               = Some (lit "```json" ++ 10%N :: j ++ 10%N :: lit "```", Some j)).
  { unfold K. cbn [mtch]. change (chrIs 10%N 10%N) with true. cbv iota.
    rewrite mtch_word. cbn [mtch]. unfold kf. f_equal. f_equal.
    - replace (lit "```json" ++ 10%N :: j ++ 10%N :: lit "```" ++ post)
        with ((lit "```json" ++ 10%N :: j ++ 10%N :: lit "```") ++ post).
      + apply firstn_cut.
      + rewrite <- !app_assoc. simpl. do 8 f_equal.
        rewrite <- !app_assoc. reflexivity.
    - f_equal. subst s0. apply firstn_cut. }
  unfold s0 at 2.
  refine (eq_trans (@starLoop_lazy_chr _ anyChar K j (List.length s0)
                      (10%N :: lit "```" ++ post) None _ _ _ _) HK).
  - apply Forall_forall. reflexivity.
  - intros u1 x u2 Hu. unfold K. apply no_closing_fence.
    rewrite Hu in Hj. apply Forall_app in Hj. tauto.
  - rewrite HK. discriminate.
  - subst s0. rewrite length_app. apply Nat.le_add_r.
Qed.

(** X23.  when the reply holds a block fenced with [```json], with no
    backtick before it nor in it, the text handed to [JSON.parse] is what
    stands between the line of the opening fence and the line of the
    closing one. *)
Theorem blockText_fenced_json (pre j post : jsstring) :
  Forall (fun y => y <> 96%N) pre ->
  Forall (fun y => y <> 96%N) j ->
  Comparison.blockText
    (pre ++ lit "```json" ++ Emailing.nl ++ j ++ Emailing.nl ++ lit "```" ++ post)
  = j.
Proof.
  intros Hpre Hj. unfold Comparison.blockText, exec.
  rewrite (@execFrom_skip Comparison.jsonBlockRe (chrIs 96%N) eq_refl pre 0 _
             (@not_chrIs _ _ Hpre)).
  match goal with
  | |- context [execFrom ?r ?i ?s] => rewrite (execFrom_eq r i s)
  end.
  match goal with
  | |- context [matchHere ?r ?s] =>
      replace (matchHere r s)
        with (Some (lit "```json" ++ 10%N :: j ++ 10%N :: lit "```", Some j))
        by (symmetry; apply matchHere_jsonBlock; exact Hj)
  end.
  reflexivity.
Qed.

(** X24.  [compareProposalsAndRecommend] throws only when the model does:
    for every reply it returns a recommendation, the one of the reply when
    its JSON is an object or the like, and else the first vendor of the
    list, or the empty string when the list is empty, with the raw reply as
    the summary; nothing checks that the vendor recommended is one of the
    list. *)
Theorem compareProposals_outcome (RT : Runtime) (rfpData : json)
        (proposals : list Comparison.Candidate) :
  (forall text,
      exists rec,
        Comparison.compareProposalsAndRecommend rfpData proposals (Ok text)
        = Ok rec
        /\ (rec = Comparison.mkRecommendation
                    (JStr (Comparison.firstVendorId proposals))
                    (JStr (lit "Unable to parse AI recommendation. Please review proposals manually."))
                    (JStr text)
            \/ exists v,
                 JSON_parse (Comparison.blockText text) = Ok v
                 /\ v <> JNull
                 /\ rec = Comparison.mkRecommendation
                            (prop v "recommendedVendorId") (prop v "reasoning")
                            (prop v "comparisonSummary")))
  /\ (forall text e,
         JSON_parse (Comparison.blockText text) = Throw e
         \/ JSON_parse (Comparison.blockText text) = Ok JNull ->
         Comparison.compareProposalsAndRecommend rfpData proposals (Ok text)
         = Ok (Comparison.mkRecommendation
                 (JStr (Comparison.firstVendorId proposals))
                 (JStr (lit "Unable to parse AI recommendation. Please review proposals manually."))
                 (JStr text)))
  /\ (forall e,
         Comparison.compareProposalsAndRecommend rfpData proposals (Throw e)
         = Throw (lit "Failed to compare proposals: " ++ e))
  /\ Comparison.firstVendorId [] = [].
Proof.
  unfold Comparison.compareProposalsAndRecommend.
  split; [|split; [|split]].
  - intros text. simpl.
    destruct (JSON_parse (Comparison.blockText text)) as [v|e] eqn:Ev; simpl.
    + unfold getPropR.
      destruct (getProp v (lit "recommendedVendorId")) as [x|] eqn:Eg; simpl.
      * eexists. split; [reflexivity|]. right. exists v.
        split; [reflexivity|]. split; [intros ->; discriminate Eg|].
        f_equal. unfold prop. now rewrite Eg.
      * eexists. split; [reflexivity|]. now left.
    + eexists. split; [reflexivity|]. now left.
  - intros text e [H|H]; simpl; rewrite H; reflexivity.
  - intros e. reflexivity.
  - reflexivity.
Qed.


(** ** Structuring a request *)

Lemma leading_split p s :
  s = leading p s ++ afterLeading p s
  /\ Forall (fun x => p x = true) (leading p s)
  /\ match afterLeading p s with x :: _ => p x = false | [] => True end.
Proof.
  induction s as [|x t IH]; simpl.
  - auto.
  - destruct (p x) eqn:E; simpl.
    + destruct IH as (H1 & H2 & H3). repeat split; auto. now f_equal.
    + auto.
Qed.

Lemma matchHere_Cap_Plus p s :
  matchHere (Cap (Plus (Chr p))) s
  = match leading p s with
    | [] => None
    | g => Some (g, Some g)
    end.
Proof.
  unfold matchHere, Plus. destruct s as [|x t]; [reflexivity|].
  cbn [mtch leading]. destruct (p x) eqn:E; [|reflexivity].
  destruct (leading_split p t) as (Ht & Hf & Hh).
  set (K := fun (s1 : jsstring) (c1 : option jsstring) =>
              Some (firstn (List.length (x :: t) - List.length s1) (x :: t),
                    Some (firstn (List.length (x :: t) - List.length s1) (x :: t)))).
  change (starLoop true (mtch (Chr p)) K (List.length t) t None
          = Some (x :: leading p t, Some (x :: leading p t))).
  assert (HK : K (afterLeading p t) None
               = Some (x :: leading p t, Some (x :: leading p t))).
  { unfold K.
    assert (Hc : firstn (List.length (x :: t) - List.length (afterLeading p t))
                        (x :: t) = x :: leading p t).
    { rewrite Ht at 1 3.
      change (x :: leading p t ++ afterLeading p t)
        with ((x :: leading p t) ++ afterLeading p t).
      apply firstn_cut. }
    now rewrite Hc. }
  rewrite <- HK. rewrite Ht at 2.
  apply starLoop_greedy_chr; try assumption.
  - rewrite HK. discriminate.
  - rewrite Ht at 2. rewrite length_app. apply Nat.le_add_r.
Qed.

Lemma length_trim s : List.length (trim s) <= List.length s.
Proof.
  destruct (trim_occurs s) as (p & q & H).
  rewrite H at 2. rewrite !length_app. lia.
Qed.

Lemma some_if_nonempty (X : Type) (l : list X) :
  (if 0 <? List.length l then Some l else None) <> Some [].
Proof. destruct l; simpl; congruence. Qed.

Lemma orIfEmpty_nonempty (X : Type) (l : list X) f :
  l <> [] -> Structuring.orIfEmpty l f = l.
Proof. destruct l; [congruence|reflexivity]. Qed.

(** ** The loops over the matches *)

Lemma has_false x l : Structuring.has x l = false -> ~ In x l.
Proof.
  unfold Structuring.has. intros H Hin.
  assert (existsb (str_eqb x) l = true); [|congruence].
  apply existsb_exists. exists x. split; [exact Hin|apply str_eqb_refl].
Qed.

Lemma itemStep_inv (RT : Runtime) (LC : Locale) prompt m st :
  fst st = namesOf (snd st) /\ NoDup (fst st) ->
  fst (Structuring.itemStep prompt m st)
  = namesOf (snd (Structuring.itemStep prompt m st))
  /\ NoDup (fst (Structuring.itemStep prompt m st)).
Proof.
  destruct st as [found items]. simpl. intros [H1 H2].
  unfold Structuring.itemStep.
  destruct (Structuring.has _ found) eqn:E; simpl; [auto|].
  split.
  - rewrite H1. unfold namesOf. rewrite map_app. reflexivity.
  - apply NoDup_rev in H2. rewrite <- (rev_involutive (found ++ _)).
    apply NoDup_rev. rewrite rev_app_distr. simpl. constructor; [|exact H2].
    rewrite <- in_rev. now apply has_false.
Qed.

Lemma itemLoop_inv (RT : Runtime) (LC : Locale) prompt ms : forall st,
  fst st = namesOf (snd st) /\ NoDup (fst st) ->
  let st' := fold_left (fun st m => Structuring.itemStep prompt m st) ms st in
  fst st' = namesOf (snd st') /\ NoDup (fst st').
Proof.
  induction ms as [|m ms IH]; intros st H; simpl; [exact H|].
  apply IH. now apply itemStep_inv.
Qed.

Lemma genericLoop_inv (RT : Runtime) (LC : Locale) ms : forall items,
  Forall plausible items ->
  let items' := fold_left (fun items m => Structuring.genericStep m items)
                          ms items in
  Forall plausible items'
  /\ List.length items' <= List.length items + List.length ms.
Proof.
  induction ms as [|m ms IH]; intros items H; simpl.
  - split; [exact H|lia].
  - assert (Hs : Forall plausible (Structuring.genericStep m items)
                 /\ List.length (Structuring.genericStep m items)
                    <= S (List.length items)).
    { unfold Structuring.genericStep.
      destruct (negb _ && _ && _) eqn:E.
      - apply andb_true_iff in E. destruct E as [E E3].
        apply andb_true_iff in E. destruct E as [_ E2].
        split.
        + apply Forall_app. split; [exact H|].
          constructor; [|constructor]. now repeat split.
        + rewrite length_app. simpl. lia.
      - split; [exact H|lia]. }
    destruct Hs as [Hs1 Hs2].
    destruct (IH _ Hs1) as [IH1 IH2]. split; [exact IH1|]. simpl in IH2. lia.
Qed.

(** ** Expressions with several groups: where a match can start *)

Lemma mtchG_headChr (A : Type) r p :
  headChr r = Some p ->
  forall s cs (k : ContG A) a,
    mtchG r s cs k = Some a -> exists x t, s = x :: t /\ p x = true.
Proof.
  induction r as [ | q | r1 IH1 r2 IH2 | r1 IH1 r2 IH2 | g r1 IH1 | r1 IH1];
    simpl; intros Hh s cs k a H; try discriminate.
  - injection Hh as <-. destruct s as [|x t]; [discriminate|].
    destruct (q x) eqn:E; [|discriminate]. eauto.
  - exact (IH1 Hh _ _ _ _ H).
  - exact (IH1 Hh _ _ _ _ H).
Qed.

Lemma execFromG_none_head r p :
  headChr r = Some p ->
  forall s i, Forall (fun x => p x = false) s -> execFromG r i s = None.
Proof.
  intros Hh s. induction s as [|x s IH]; intros i Hf; simpl.
  - destruct (matchHereG r []) as [[w cs]|] eqn:E; [|reflexivity].
    unfold matchHereG in E. apply (@mtchG_headChr _ r p Hh) in E.
    destruct E as (y & u & Hs & _). discriminate.
  - inversion Hf as [|? ? Hx Hf']; subst.
    destruct (matchHereG r (x :: s)) as [[w cs]|] eqn:E.
    + unfold matchHereG in E. apply (@mtchG_headChr _ r p Hh) in E.
      destruct E as (y & u & Hs & Hy). injection Hs as <- _. congruence.
    + now apply IH.
Qed.

Lemma execAll_none_head r p s :
  headChr r = Some p -> Forall (fun x => p x = false) s -> execAll r s = [].
Proof.
  intros Hh Hf. unfold execAll. cbn [execAllFrom].
  now rewrite (@execFromG_none_head r p Hh s 0 Hf).
Qed.

(** ** The loops over the patterns *)

Lemma forOf_first (X M V : Type) (e : X -> option M) (h : X -> M -> V)
      (body : X -> option V -> LoopCtl (option V)) :
  (forall p s, body p s = match e p with
                          | Some m => Break (Some (h p m))
                          | None => Continue s
                          end) ->
  forall ps st,
    (forOf ps body st = st /\ forall p, In p ps -> e p = None)
    \/ (exists p m, In p ps /\ e p = Some m /\ forOf ps body st = Some (h p m)).
Proof.
  intros Hb ps. induction ps as [|p ps IH]; intros st; simpl.
  - left. split; [reflexivity|]. intros p [].
  - rewrite Hb. destruct (e p) as [m|] eqn:E.
    + right. exists p, m. split; [now left|]. auto.
    + destruct (IH st) as [[H1 H2]|(q & m & Hin & Hq & Hr)].
      * left. split; [exact H1|]. intros q [<-|Hq]; auto.
      * right. exists q, m. split; [now right|]. auto.
Qed.

(** A group of digits taken in a text without digits. *)
Lemma no_digits_no_group g prompt :
  Forall (fun x => isDigit x = false) prompt ->
  Lang (Plus digit) g -> occursIn g prompt -> False.
Proof.
  intros Hp Hg Ho. apply Lang_Plus_Chr in Hg. destruct Hg as [Hne Hg].
  pose proof (@Forall_occurs _ _ _ Ho Hp) as Hf.
  destruct g as [|x g]; [congruence|].
  inversion Hf; subst. inversion Hg; subst. congruence.
Qed.

Lemma only_commas g :
  Forall (fun x => isDigit x = false) g ->
  Forall (fun x => isDigitOrComma x = true) g ->
  stripCommas g = [].
Proof.
  rewrite stripCommas_filter. induction g as [|x g IH]; [reflexivity|].
  intros Hf Hg.
  inversion Hf as [|? ? Hx Hf']; subst. inversion Hg as [|? ? Hy Hg']; subst.
  assert (Hc : (x =? 44)%N = true).
  { unfold isDigitOrComma in Hy. rewrite Hx in Hy. exact Hy. }
  simpl. rewrite Hc. simpl. now apply IH.
Qed.

Lemma budget_capture p prompt m :
  In p Structuring.budgetPatterns -> exec p prompt = Some m ->
  Lang (Plus (Chr isDigitOrComma)) (group1 m) /\ occursIn (group1 m) prompt.
Proof.
  intros Hin Hm.
  assert (Hc : captures p = true).
  { cbv [In Structuring.budgetPatterns] in Hin.
    repeat (destruct Hin as [<-|Hin]; [reflexivity|]). contradiction. }
  destruct (@exec_capture p prompt m Hc Hm) as (g & _ & -> & Hg & Ho).
  split; [|exact Ho].
  cbv [In Structuring.budgetPatterns] in Hin.
  repeat (destruct Hin as [<-|Hin]; [split_captured Hg; exact Hg|]).
  contradiction.
Qed.

Lemma delivery_capture p prompt m :
  In p Structuring.deliveryPatterns ->
  exec (Structuring.re p) prompt = Some m ->
  Lang (Plus digit) (group1 m) /\ occursIn (group1 m) prompt.
Proof.
  intros Hin Hm.
  assert (Hc : captures (Structuring.re p) = true).
  { cbv [In Structuring.deliveryPatterns] in Hin.
    repeat (destruct Hin as [<-|Hin]; [reflexivity|]). contradiction. }
  destruct (@exec_capture _ prompt m Hc Hm) as (g & _ & -> & Hg & Ho).
  split; [|exact Ho].
  cbv [In Structuring.deliveryPatterns] in Hin.
  repeat (destruct Hin as [<-|Hin]; [split_captured Hg; exact Hg|]).
  contradiction.
Qed.

Lemma warranty_capture p prompt m :
  In p Structuring.warrantyPatterns -> exec p prompt = Some m ->
  Lang (Plus digit) (group1 m) /\ occursIn (group1 m) prompt.
Proof.
  intros Hin Hm.
  assert (Hc : captures p = true).
  { cbv [In Structuring.warrantyPatterns] in Hin.
    repeat (destruct Hin as [<-|Hin]; [reflexivity|]). contradiction. }
  destruct (@exec_capture p prompt m Hc Hm) as (g & _ & -> & Hg & Ho).
  split; [|exact Ho].
  cbv [In Structuring.warrantyPatterns] in Hin.
  repeat (destruct Hin as [<-|Hin]; [split_captured Hg; exact Hg|]).
  contradiction.
Qed.

(** X25.  in [services/aiService.ts] structuring a request never throws:
    whatever [JSON.parse] gives is returned as it is, [null] included, and
    the rules take over exactly in the cases where the other revision
    throws, and there is always an error whose message starts with ['Failed
    to structure RFP from natural language: ']. *)
Theorem structuring_never_throws (RT : Runtime) (LC : Locale)
        (prompt : jsstring) (reply : Result jsstring) :
  (exists s, Structuring.structuredRFPFromNaturalLanguage prompt reply = Ok s
             /\ Structuring.structureRFPOnly prompt reply = Ok s)
  /\ (forall j,
         Structuring.structuredRFPFromNaturalLanguage prompt reply
         = Ok (Structuring.FromModel j)
         <-> exists text, reply = Ok text /\ JSON_parse (stripFences text) = Ok j)
  /\ (forall j,
         Structuring.structuredRFPFromNaturalLanguage prompt reply
         = Ok (Structuring.FromModel j)
         <-> Structuring.structuredRFPFromNaturalLanguageRev prompt reply
             = Ok (Structuring.FromModel j))
  /\ (Structuring.structuredRFPFromNaturalLanguage prompt reply
      = Ok (Structuring.FromRules
              (Structuring.generateFallbackStructuredRFP prompt))
      <-> exists m,
            Structuring.structuredRFPFromNaturalLanguageRev prompt reply
            = Throw (lit "Failed to structure RFP from natural language: " ++ m)).
Proof.
  unfold Structuring.structureRFPOnly,
    Structuring.structuredRFPFromNaturalLanguage,
    Structuring.structuredRFPFromNaturalLanguageRev, rethrow, bindR.
  destruct reply as [text|e].
  - destruct (JSON_parse (stripFences text)) as [j|e] eqn:E.
    + split; [eauto|]. split; [|split].
      * intros j'. split.
        -- intros H. exists text. split; congruence.
        -- intros (t & Ht & Hj). congruence.
      * intros j'. tauto.
      * split; [discriminate|]. intros (m & H). discriminate.
    + split; [eauto|]. split; [|split].
      * intros j'. split; [discriminate|].
        intros (t & Ht & Hj). congruence.
      * intros j'. split; discriminate.
      * split; [eauto|reflexivity].
  - split; [eauto|]. split; [|split].
    + intros j'. split; [discriminate|]. intros (t & Ht & _). discriminate.
    + intros j'. split; discriminate.
    + split; [eauto|reflexivity].
Qed.

(** X26.  the RFP made by the rules keeps the prompt as its description and
    has no id; its title is the text before the first [.], [!], [?] or line
    break, trimmed and cut at 100 characters, or, when the prompt is empty
    or starts with one of them, its first 50 characters trimmed and
    followed by three dots; so that it never has more than 100 characters;
    the payment terms are one of four fixed texts or absent, and the
    additional requirements are absent rather than an empty list. *)
Theorem fallbackRFP_shape (RT : Runtime) (LC : Locale) (prompt : jsstring) :
  let rfp := Structuring.generateFallbackStructuredRFP prompt in
  Structuring.description rfp = prompt
  /\ Structuring.id rfp = None
  /\ Structuring.title rfp
     = match leading notSentenceEnd prompt with
       | [] => trim (substring0 50 prompt) ++ lit "..."
       | sentence => substring0 100 (trim sentence)
       end
  /\ List.length (Structuring.title rfp) <= 100
  /\ In (Structuring.paymentTerms rfp)
        [None; Some (lit "Net 30"); Some (lit "Net 60");
         Some (lit "Payment in advance"); Some (lit "Cash on Delivery")]
  /\ Structuring.additionalRequirements rfp <> Some [].
Proof.
  intros rfp.
  assert (Ht : Structuring.title rfp
               = match leading notSentenceEnd prompt with
                 | [] => trim (substring0 50 prompt) ++ lit "..."
                 | sentence => substring0 100 (trim sentence)
                 end).
  { subst rfp. unfold Structuring.generateFallbackStructuredRFP.
    cbn [Structuring.title]. unfold execAnchored, Structuring.titleRe.
    rewrite matchHere_Cap_Plus.
    destruct (leading notSentenceEnd prompt); reflexivity. }
  split; [reflexivity|]. split; [reflexivity|]. split; [exact Ht|].
  split; [|split].
  - rewrite Ht. destruct (leading notSentenceEnd prompt) as [|x g].
    + rewrite length_app. pose proof (length_trim (substring0 50 prompt)) as H1.
      unfold substring0 in *. pose proof (firstn_le_length 50 prompt) as H2.
      rewrite length_firstn in H1. change (List.length (lit "...")) with 3. lia.
    + unfold substring0. rewrite length_firstn. lia.
  - subst rfp. unfold Structuring.generateFallbackStructuredRFP.
    cbn [Structuring.paymentTerms].
    repeat match goal with
           | |- context [if ?b then _ else _] => destruct b
           end;
      cbv [In]; tauto.
  - subst rfp. unfold Structuring.generateFallbackStructuredRFP.
    cbn [Structuring.additionalRequirements]. apply some_if_nonempty.
Qed.

(** X27.  from a prompt without a digit the rules read no delivery time and
    no warranty, and the budget is absent, or what [parseInt] gives for the
    empty string when a budget pattern is followed by commas only; the items
    are the single ['Procurement Item'], one unit, described by the first
    200 characters of the prompt. *)
Theorem fallbackRFP_without_digits (RT : Runtime) (LC : Locale)
        (prompt : jsstring) :
  Forall (fun x => isDigit x = false) prompt ->
  let rfp := Structuring.generateFallbackStructuredRFP prompt in
  (Structuring.budget rfp = None
   \/ Structuring.budget rfp = Some (parseInt []))
  /\ (Forall (fun x => isComma x = false) prompt ->
      Structuring.budget rfp = None)
  /\ Structuring.deliveryDays rfp = None
  /\ Structuring.warrantyYears rfp = None
  /\ Structuring.items rfp = [procurementItem prompt].
Proof.
  intros Hd rfp.
  assert (Hb : (Structuring.budget rfp = None
                /\ forall p, In p Structuring.budgetPatterns ->
                             exec p prompt = None)
               \/ exists p m, In p Structuring.budgetPatterns
                              /\ exec p prompt = Some m
                              /\ Structuring.budget rfp
                                 = Some (parseInt (stripCommas (group1 m)))).
  { subst rfp. unfold Structuring.generateFallbackStructuredRFP.
    cbn [Structuring.budget].
    apply (@forOf_first regex MatchResult JSNumber
             (fun p => exec p prompt)
             (fun _ m => parseInt (stripCommas (group1 m)))).
    intros p s. destruct (exec p prompt); reflexivity. }
  split; [|split; [|split; [|split]]].
  - destruct Hb as [[Hb _]|(p & m & Hin & Hm & Hb)]; [now left|right].
    rewrite Hb. do 2 f_equal.
    destruct (@budget_capture p prompt m Hin Hm) as [Hg Ho].
    apply Lang_Plus_Chr in Hg. destruct Hg as [_ Hg].
    pose proof (@Forall_occurs _ _ _ Ho Hd) as Hf.
    now apply only_commas.
  - intros Hc. destruct Hb as [[Hb _]|(p & m & Hin & Hm & Hb)]; [exact Hb|].
    exfalso. destruct (@budget_capture p prompt m Hin Hm) as [Hg Ho].
    apply Lang_Plus_Chr in Hg. destruct Hg as [Hne Hg].
    pose proof (@Forall_occurs _ _ _ Ho Hd) as Hf.
    pose proof (@Forall_occurs _ _ _ Ho Hc) as Hf'.
    destruct (group1 m) as [|x g]; [congruence|].
    inversion Hf; subst. inversion Hf'; subst. inversion Hg as [|? ? Hy _]; subst.
    unfold isDigitOrComma, isComma in *.
    destruct (isDigit x); [discriminate|]. simpl in Hy. congruence.
  - subst rfp. unfold Structuring.generateFallbackStructuredRFP.
    cbn [Structuring.deliveryDays].
    match goal with
    | |- forOf ?ps ?body ?st = None =>
        destruct (@forOf_first Structuring.Pattern MatchResult JSNumber
                    (fun p => exec (Structuring.re p) prompt)
                    (fun p m =>
                       let value := parseInt (group1 m) in
                       if includes (lit "week") (Structuring.source p)
                       then num_mul value (num 7)
                       else if includes (lit "month") (Structuring.source p)
                            then num_mul value (num 30)
                            else value)
                    body
                    (fun p s => ltac:(cbv beta;
                                      destruct (exec (Structuring.re p) prompt);
                                      reflexivity))
                    ps st)
          as [[H _]|(p & m & Hin & Hm & _)]
    end; [exact H|].
    exfalso. destruct (@delivery_capture p prompt m Hin Hm) as [Hg Ho].
    exact (@no_digits_no_group _ prompt Hd Hg Ho).
  - subst rfp. unfold Structuring.generateFallbackStructuredRFP.
    cbn [Structuring.warrantyYears].
    match goal with
    | |- forOf ?ps ?body ?st = None =>
        destruct (@forOf_first regex MatchResult JSNumber
                    (fun p => exec p prompt)
                    (fun _ m => parseInt (group1 m))
                    body
                    (fun p s => ltac:(cbv beta; destruct (exec p prompt);
                                      reflexivity))
                    ps st)
          as [[H _]|(p & m & Hin & Hm & _)]
    end; [exact H|].
    exfalso. destruct (@warranty_capture p prompt m Hin Hm) as [Hg Ho].
    exact (@no_digits_no_group _ prompt Hd Hg Ho).
  - subst rfp. unfold Structuring.generateFallbackStructuredRFP.
    cbn [Structuring.items].
    rewrite (@execAll_none_head Structuring.itemPattern1 isDigit prompt
               eq_refl Hd).
    rewrite (@execAll_none_head Structuring.genericPattern isDigit prompt
               eq_refl Hd).
    reflexivity.
Qed.

(** X28.  the RFP made by the rules always has an item.  When the prompt
    names products of the list, the items are those, each product once
    whatever the number of times and the forms, singular or plural, in
    which it is named; else they are at most three items with a quantity
    above 0 and under 10000 and no specifications, or, when there is none,
    the single ['Procurement Item']. *)
Theorem fallbackRFP_items (RT : Runtime) (LC : Locale) (prompt : jsstring) :
  let rfp := Structuring.generateFallbackStructuredRFP prompt in
  Structuring.items rfp <> []
  /\ (knownItems prompt <> [] ->
      Structuring.items rfp = knownItems prompt
      /\ NoDup (map (fun it => toLowerCase (Structuring.name it))
                    (Structuring.items rfp)))
  /\ (knownItems prompt = [] ->
      Structuring.items rfp = [procurementItem prompt]
      \/ (List.length (Structuring.items rfp) <= 3
          /\ Forall plausible (Structuring.items rfp))).
Proof.
  intros rfp.
  assert (Hi : Structuring.items rfp
               = Structuring.orIfEmpty
                   (Structuring.orIfEmpty (knownItems prompt)
                      (fun items =>
                         fold_left (fun items m => Structuring.genericStep m items)
                                   (firstn 3 (execAll Structuring.genericPattern prompt))
                                   items))
                   (fun items => items ++ [procurementItem prompt]))
    by reflexivity.
  split; [|split].
  - rewrite Hi.
    destruct (Structuring.orIfEmpty (knownItems prompt) _) as [|x l];
      simpl; discriminate.
  - intros Hk. rewrite Hi.
    rewrite (@orIfEmpty_nonempty _ (knownItems prompt) _ Hk).
    rewrite (@orIfEmpty_nonempty _ (knownItems prompt) _ Hk).
    split; [reflexivity|].
    pose proof (@itemLoop_inv RT LC prompt
                  (execAll Structuring.itemPattern1 prompt) ([], [])) as H.
    simpl in H. destruct H as [H1 H2]; [split; [reflexivity|constructor]|].
    unfold knownItems. fold (namesOf
      (snd (fold_left (fun st m => Structuring.itemStep prompt m st)
                      (execAll Structuring.itemPattern1 prompt) ([], [])))).
    rewrite <- H1. exact H2.
  - intros Hk. rewrite Hi, Hk. cbn [Structuring.orIfEmpty].
    pose proof (@genericLoop_inv RT LC
                  (firstn 3 (execAll Structuring.genericPattern prompt)) []
                  (Forall_nil _)) as H.
    cbv zeta in H. destruct H as [H1 H2].
    destruct (fold_left _ _ []) as [|x l] eqn:E.
    + left. reflexivity.
    + right. cbn [Structuring.orIfEmpty]. split; [|exact H1].
      rewrite length_firstn in H2. cbn [List.length Nat.add] in H2. cbn [List.length]. lia.
Qed.


(** ** The RFP email *)

Lemma occursIn_here (u b : jsstring) : occursIn u (u ++ b).
Proof. exists [], b. reflexivity. Qed.

Lemma occursIn_right (u a b : jsstring) : occursIn u b -> occursIn u (a ++ b).
Proof. intros (p & q & ->). exists (a ++ p), q. now rewrite <- app_assoc. Qed.

Lemma occursIn_left (u a b : jsstring) : occursIn u a -> occursIn u (a ++ b).
Proof. intros (p & q & ->). exists p, (q ++ b). now rewrite <- !app_assoc. Qed.

Lemma join_occurs sep (x : jsstring) l : In x l -> occursIn x (join sep l).
Proof.
  induction l as [|y l IH]; intros Hin; [destruct Hin|].
  apply in_inv in Hin. cbn [join]. destruct l as [|z l].
  - destruct Hin as [<-|[]]. exists [], []. now rewrite app_nil_r.
  - destruct Hin as [<-|Hin]; [apply occursIn_here|].
    apply occursIn_right, occursIn_right. now apply IH.
Qed.

Lemma extractRFPId_only subject body idv :
  isUUID idv -> occursIn idv (rfpText subject body) ->
  onlyUUID idv (rfpText subject body) ->
  extractRFPId subject body = Some idv.
Proof.
  intros Hu Ho Hu1. destruct (extractRFPId subject body) as [u|] eqn:E.
  - apply extractRFPId_some in E. destruct E as [H1 H2].
    f_equal. now apply Hu1.
  - exfalso. exact (@extractRFPId_none subject body E idv Hu Ho).
Qed.

Lemma idOrTBD_uuid (rfpData : Structuring.StructuredRFP) idv :
  Structuring.id rfpData = Some idv -> isUUID idv ->
  Emailing.idOrTBD rfpData = idv.
Proof.
  intros Hi [Hl _]. unfold Emailing.idOrTBD. rewrite Hi.
  destruct idv; [discriminate Hl|reflexivity].
Qed.

Lemma occursIn_prefix3 (a b c r : jsstring) :
  occursIn (a ++ b ++ c) (a ++ b ++ c ++ r).
Proof. exists [], r. now rewrite <- !app_assoc. Qed.

(** Looking for a text along a chain of concatenations. *)
Ltac seek tac := first [ solve [tac] | apply occursIn_right; seek tac ].

(** X29.  when the model gives no JSON, [generateRFPEmailContent] still
    returns an email: the one of [generateFallbackEmailBody], under a
    subject that carries the id when only the reply was not JSON, and the
    title alone when the model itself failed; what [JSON.parse] gives is
    returned unchecked.  The body always holds the line of the RFP id, with
    [TBD] for an absent or empty id, the address for the replies and a line
    for each item. *)
Theorem generateRFPEmailContent_outcomes (RT : Runtime) (LC : Locale)
        (rfpData : Structuring.StructuredRFP) (vendorName : jsstring) :
  let body := Emailing.generateFallbackEmailBody rfpData vendorName in
  (forall text j,
      JSON_parse (stripFences text) = Ok j ->
      Emailing.generateRFPEmailContent rfpData vendorName (Ok text) = j)
  /\ (forall text e,
         JSON_parse (stripFences text) = Throw e ->
         Emailing.generateRFPEmailContent rfpData vendorName (Ok text)
         = Emailing.emailObject (Emailing.fallbackSubject rfpData) body)
  /\ (forall e,
         Emailing.generateRFPEmailContent rfpData vendorName (Throw e)
         = Emailing.emailObject (lit "RFP: " ++ Structuring.title rfpData) body)
  /\ occursIn (lit "  RFP ID: " ++ Emailing.idOrTBD rfpData ++ Emailing.nl) body
  /\ occursIn (lit "Send your proposal response to: rfp-responses@ulkeazilea.resend.app")
              body
  /\ (forall item,
         In item (Structuring.items rfpData) ->
         occursIn (Emailing.itemLine item) body)
  /\ (Structuring.id rfpData = None \/ Structuring.id rfpData = Some [] ->
      Emailing.idOrTBD rfpData = lit "TBD").
Proof.
  intros body.
  split; [|split; [|split; [|split; [|split; [|split]]]]].
  - intros text j H. unfold Emailing.generateRFPEmailContent. now rewrite H.
  - intros text e H. unfold Emailing.generateRFPEmailContent. now rewrite H.
  - reflexivity.
  - subst body. unfold Emailing.generateFallbackEmailBody.
    seek ltac:(apply occursIn_prefix3).
  - subst body. unfold Emailing.generateFallbackEmailBody.
    seek ltac:(apply occursIn_left; exists (lit "  - "), []; reflexivity).
  - intros item Hin. subst body. unfold Emailing.generateFallbackEmailBody.
    seek ltac:(apply occursIn_left; apply join_occurs; apply in_map; exact Hin).
  - intros [H|H]; unfold Emailing.idOrTBD; rewrite H; reflexivity.
Qed.

(** X30.  a reply to the email made by [generateFallbackEmailBody] is traced
    back to its RFP: when the id of the RFP is a UUID and the email holds no
    other UUID, [extractRFPId] gives that id for a subject that ends with
    the subject made from the RFP, and for a body that quotes the body made
    from it, whatever stands around them. *)
Theorem rfp_id_round_trip (RT : Runtime) (LC : Locale)
        (rfpData : Structuring.StructuredRFP) (vendorName idv : jsstring) :
  Structuring.id rfpData = Some idv ->
  isUUID idv ->
  (forall pre body,
      onlyUUID idv (rfpText (pre ++ Emailing.fallbackSubject rfpData) body) ->
      extractRFPId (pre ++ Emailing.fallbackSubject rfpData) body = Some idv)
  /\ (forall subject pre post,
         onlyUUID idv
           (rfpText subject
              (pre ++ Emailing.generateFallbackEmailBody rfpData vendorName
                   ++ post)) ->
         extractRFPId subject
           (pre ++ Emailing.generateFallbackEmailBody rfpData vendorName ++ post)
         = Some idv).
Proof.
  intros Hi Hu. pose proof (idOrTBD_uuid rfpData Hi Hu) as Hid. split.
  - intros pre body Ho. apply extractRFPId_only; [exact Hu| |exact Ho].
    unfold rfpText. apply occursIn_left. apply occursIn_right.
    unfold Emailing.fallbackSubject. rewrite Hid.
    seek ltac:(apply occursIn_here).
  - intros subject pre post Ho. apply extractRFPId_only; [exact Hu| |exact Ho].
    unfold rfpText. do 3 apply occursIn_right. apply occursIn_left.
    unfold Emailing.generateFallbackEmailBody. rewrite Hid.
    seek ltac:(apply occursIn_here).
Qed.


#[local] Opaque lit.

Import Example Example2.

(** ** The theorems at work on the small world *)

Lemma keepsEmails_aiUp f : keepsEmails (env f aiUp).
Proof. intros a b c d. reflexivity. Qed.

Ltac all_chars :=
  vm_compute;
  repeat (constructor; [vm_compute; try reflexivity; try discriminate;
                        try (split; [reflexivity|discriminate])|]);
  try constructor.

Lemma fallback_price_text_witness :
  exists g ds frac,
    occursIn g offer /\ amountText g
    /\ stripCommas g = ds ++ frac
    /\ Fin (120050 # 100) = parseFloat (Runtime:=RefRuntime.runtime) (ds ++ frac)
    /\ digits ds
    /\ (frac = [] \/ exists d1 d2, frac = [46%N; d1; d2]
                                   /\ isDigit d1 = true /\ isDigit d2 = true).
Proof.
  apply (@fallback_price_text RefRuntime.runtime offer).
  vm_compute. reflexivity.
Defined.

Lemma fallback_payment_terms_text_witness :
  occursIn (lit "terms: Net 30 on receipt") offer
  /\ List.length (lit "terms: Net 30 on receipt") <= 100
  /\ Forall (fun x => notNewlineNorDot x = true) (lit "terms: Net 30 on receipt")
  /\ match lit "terms: Net 30 on receipt" with
     | x :: _ => isSpace x = false
     | [] => True
     end.
Proof.
  apply (@fallback_payment_terms_text RefRuntime.runtime offer).
  vm_compute. reflexivity.
Defined.

Lemma fallback_no_digits_no_numbers_witness :
  deliveryDays (fallbackParseProposal (RT:=RefRuntime.runtime) (lit "our offer"))
  = None
  /\ warrantyYears (fallbackParseProposal (RT:=RefRuntime.runtime) (lit "our offer"))
     = None
  /\ (Forall (fun x => (x =? 44)%N = false) (lit "our offer") ->
      totalPrice (fallbackParseProposal (RT:=RefRuntime.runtime) (lit "our offer"))
      = None).
Proof.
  apply (@fallback_no_digits_no_numbers RefRuntime.runtime (lit "our offer")).
  all_chars.
Defined.

Lemma extractEmailAddress_bracketed_witness :
  extractEmailAddress (RT:=RefRuntime.runtime)
    (lit "Bob " ++ lit "<" ++ lit "Bob@Acme.com" ++ lit ">" ++ [])
  = trim (toLowerCase (Runtime:=RefRuntime.runtime) (lit "Bob@Acme.com")).
Proof.
  apply (@extractEmailAddress_bracketed RefRuntime.runtime
           (lit "Bob ") (lit "Bob@Acme.com") []).
  - all_chars.
  - vm_compute. discriminate.
  - all_chars.
Defined.

Lemma html_conversion_removes_no_tag_witness :
  lit "Total: 500 & more" = htmlText
  \/ (Forall (fun x => x <> 60%N) htmlText
      /\ lit "Total: 500 & more"
         = trim (replaceAll (Plus ws) (lit " ") (decodeEntities htmlText))).
Proof.
  apply (@html_conversion_removes_no_tag htmlEmail htmlText htmlFull
           (lit "bob@acme.com") (lit "Offer") (lit "Total: 500 & more")).
  vm_compute. reflexivity.
Defined.

Lemma deleteProposal_no_rollback_witness :
  exists w',
    run (deleteProposal (env (faultAt VendorMarkSent) aiDown) 2) storeAfterReply
    = (Ok (mkResponse 500 (DeleteFailed (deleteError (lit "connection lost")))), w')
    /\ (forall q, In q (proposals (db w'))
                  <-> In q (proposals storeAfterReply) /\ p_id q <> 2%N)
    /\ rfpVendors (db w') = rfpVendors storeAfterReply
    /\ inboundEmails (db w')
       = map (unlinkProposal 2) (inboundEmails storeAfterReply).
Proof.
  eapply (@deleteProposal_no_rollback (env (faultAt VendorMarkSent) aiDown)
            2%N storeAfterReply _ (lit "connection lost"));
    vm_compute; reflexivity.
Defined.

Lemma deleteProposal_twice_witness :
  let x := run (deleteProposal (env noFault aiDown) 2) storeAfterReply in
  run (deleteProposal (env noFault aiDown) 2) (db (snd x))
  = (Ok (mkResponse 404 ProposalNotFound),
     mkWorld (db (snd x)) [mkCall ProposalFind (db (snd x)) None]).
Proof.
  intros x.
  apply (@deleteProposal_twice (env noFault aiDown) 2%N storeAfterReply
           (fun s => eq_refl) (fst x) (snd x)).
  apply surjective_pairing.
Defined.

Lemma deleteProposal_keeps_links_witness :
  let x := run (deleteProposal (env noFault aiDown) 2) storeAfterReply in
  linksValid (db (snd x))
  /\ List.length (inboundEmails (db (snd x)))
     = List.length (inboundEmails storeAfterReply)
  /\ (fst x = Ok (mkResponse 200 ProposalDeleted) ->
      forall row, In row (inboundEmails (db (snd x))) ->
                  ie_proposalId row <> Some 2%N).
Proof.
  intros x.
  apply (@deleteProposal_keeps_links (env noFault aiDown) 2%N storeAfterReply).
  - intros row pid Hin Hp. vm_compute in Hin. destruct Hin as [<-|[]].
    vm_compute in Hp. injection Hp as <-.
    eexists. split; [vm_compute; left; reflexivity|reflexivity].
  - apply surjective_pairing.
Defined.

Lemma ai_tier_marks_email_processed_witness :
  let x := run (handleInboundEmail (RT:=RefRuntime.runtime)
                  (env noFault aiUp) reply) store in
  exists result rfpId ve ebody d1 row0 row vn rt pre,
    fst (processVendorProposal (env noFault aiUp) rfpId ve ebody d1) = Ok result
    /\ fst x = Ok (mkResponse 200
                     (ProposalProcessed (pr_proposalId result) vn rt
                                        (pr_aiScore result)
                                        (pr_extractedData result)))
    /\ inboundEmails (db (snd x)) = inboundEmails store ++ [row]
    /\ row = applyPatch (processedPatch (env noFault aiUp) result) row0
    /\ ie_rawBody row = ebody
    /\ ie_processed row = true
    /\ ie_proposalId row = Some (pr_proposalId result)
    /\ ie_processedAt row = Some (now (env noFault aiUp))
    /\ ie_processingError row = None
    /\ log (snd x)
       = pre ++ [mkCall ProcessVendorProposal d1 None; fourthCall (snd x)]
    /\ forall c0, In c0 pre -> preSite (site c0) = true.
Proof.
  intros x.
  apply (@ai_tier_marks_email_processed RefRuntime.runtime (env noFault aiUp)
           reply store (fst x) (snd x) (fourthCall (snd x))).
  - apply keepsEmails_aiUp.
  - intros a b c d result H. injection H as <-. split; reflexivity.
  - apply surjective_pairing.
  - apply nth_In. vm_compute. lia.
  - vm_compute. reflexivity.
  - vm_compute. reflexivity.
Defined.

Lemma failed_bookkeeping_runs_fallback_witness :
  let x := run (handleInboundEmail (RT:=RefRuntime.runtime)
                  (env (faultAt EmailMarkProcessed) aiUp) reply) store in
  exists pre dX c1 post resp,
    log (snd x)
    = pre ++ mkCall ProcessVendorProposal dX None
          :: fourthCall (snd x) :: c1 :: post
    /\ site c1 = ProposalCreate
    /\ (threw c1 = None ->
        exists p, In p (proposals (db (snd x)))
                  /\ p_usedFallbackParsing p = true /\ p_aiScore p = None)
    /\ fst x = Ok resp /\ status resp = 200%N
    /\ fallbackAnswer (lit "connection lost") (body resp).
Proof.
  intros x.
  apply (@failed_bookkeeping_runs_fallback RefRuntime.runtime
           (env (faultAt EmailMarkProcessed) aiUp) reply store (fst x) (snd x)
           (fourthCall (snd x)) (lit "connection lost")).
  - apply surjective_pairing.
  - apply nth_In. vm_compute. lia.
  - vm_compute. reflexivity.
  - vm_compute. reflexivity.
Defined.

Lemma unknown_rfp_or_vendor_stores_nothing_witness :
  db (mkWorld store []) = store
  /\ forall c, In c (log (mkWorld store [])) -> lookupSite (site c) = true.
Proof.
  apply (@unknown_rfp_or_vendor_stores_nothing RefRuntime.runtime
           (env noFault aiDown) (received "hello" "our offer") store NoRfpId
           (mkWorld store [])).
  - vm_compute. reflexivity.
  - left. reflexivity.
Defined.

Lemma missing_score_is_zero_or_NaN_witness :
  AIService.scoreProposal (RT:=objRuntime)
    (mkStructuredRFP JUndefined JUndefined) (JObj []) (lit "Acme")
    (Ok (lit "{}"))
  = Ok (mkScore (num 0) (JStr (lit "No evaluation provided")))
  /\ AIServiceRev.scoreProposal (RT:=objRuntime)
       (mkStructuredRFP JUndefined JUndefined) (JObj []) (lit "Acme")
       (Ok (lit "{}"))
     = Ok (mkScore NaN JUndefined).
Proof.
  destruct (@missing_score_is_zero_or_NaN objRuntime
              (mkStructuredRFP JUndefined JUndefined) [] (lit "Acme") (lit "{}")
              (JObj []) eq_refl) as [H1 H2].
  split; [apply H1|apply H2]; vm_compute; tauto.
Defined.

Lemma blockText_fenced_json_witness :
  Comparison.blockText
    (lit "Here it is:" ++ lit "```json" ++ Emailing.nl ++ scoreJson
         ++ Emailing.nl ++ lit "```" ++ [])
  = scoreJson.
Proof.
  apply (@blockText_fenced_json (lit "Here it is:") scoreJson []); all_chars.
Defined.

Lemma fallbackRFP_without_digits_witness :
  let rfp := Structuring.generateFallbackStructuredRFP
               (RT:=RefRuntime.runtime) (LC:=locale)
               (lit "Chairs, desks and a budget: ,") in
  (Structuring.budget rfp = None
   \/ Structuring.budget rfp = Some (parseInt (Runtime:=RefRuntime.runtime) []))
  /\ (Forall (fun x => isComma x = false) (lit "Chairs, desks and a budget: ,") ->
      Structuring.budget rfp = None)
  /\ Structuring.deliveryDays rfp = None
  /\ Structuring.warrantyYears rfp = None
  /\ Structuring.items rfp
     = [procurementItem (lit "Chairs, desks and a budget: ,")].
Proof.
  apply (@fallbackRFP_without_digits RefRuntime.runtime locale
           (lit "Chairs, desks and a budget: ,")).
  all_chars.
Defined.

Lemma rfp_id_round_trip_witness :
  (forall pre body,
      onlyUUID uuid (rfpText (pre ++ Emailing.fallbackSubject laptopsRFP) body) ->
      extractRFPId (pre ++ Emailing.fallbackSubject laptopsRFP) body = Some uuid)
  /\ (forall subject pre post,
         onlyUUID uuid
           (rfpText subject
              (pre ++ Emailing.generateFallbackEmailBody
                        (RT:=RefRuntime.runtime) (LC:=locale)
                        laptopsRFP (lit "Acme")
                   ++ post)) ->
         extractRFPId subject
           (pre ++ Emailing.generateFallbackEmailBody
                     (RT:=RefRuntime.runtime) (LC:=locale)
                     laptopsRFP (lit "Acme") ++ post)
         = Some uuid).
Proof.
  apply (@rfp_id_round_trip RefRuntime.runtime locale laptopsRFP (lit "Acme")
           uuid).
  - reflexivity.
  - vm_compute. split; reflexivity.
Defined.

